(* ===== verification/_CoqProject ===== *)
-Q . S2P
Prelude.v
Words.v
ParserTables.v
ParserUrl.v
ParserState.v
ParserExec.v
ParserSafety.v
ParserTheorems.v
ParserLoops.v
ParserFrame.v
ParserSim.v
ParserChunks.v
ParserPieces.v
ParserUrlTheorems.v
ByteArray.v
Nodes.v
ByteArraySpec.v
Codec.v
BufferTheorems.v
NodesTheorems.v
Address.v
AddressTheorems.v
Mutex.v
Thread.v
ThreadTheorems.v
Fiber.v
FiberTheorems.v
Stacks.v
Utils.v
Scheduler.v
SchedulerTheorems.v
SchedulerSpec.v
Timer.v
TimerTheorems.v
IOManager.v
IOManagerTheorems.v
Runtime.v
RuntimeTheorems.v
Teardown.v
TeardownTheorems.v
FdManager.v
Hook.v
HookTheorems.v
HookRuntime.v
Http.v
ParserTexts.v
Socket.v
Stream.v
StreamTheorems.v
HttpParser.v
HttpTheorems.v
HttpParserTheorems.v
ParserRequest.v
HttpRoundtrip.v
Server.v
ServerTheorems.v
Echo.v
EchoTheorems.v
Examples.v
Config.v
ConfigTheorems.v
Log.v
LogTheorems.v
LogFile.v
