(* ===== verification/Prelude.v ===== *)
(** * cczoecpp: a verification development

    [cczoecpp] is a C++20 server framework: stackful fibers on worker threads, an
    [epoll] event loop with timers, hooks that turn blocking system calls into
    waits of the running fiber, sockets, a block-list byte buffer, HTTP on top of the
    [http_parser] library, a TCP and an HTTP server, logging and configuration.
    This library models these parts as they are written and proves what they
    guarantee, and in some places that they do not guarantee what they mean to.
    All paths below are under [src/cczoecpp/] unless they say otherwise.

    ** How code is modelled

    A member function that changes its object is a computation [comp S A]: a function
    from the state to an [outcome] and the next state ([Prelude]).  The outcome is a
    normal return, an exception, a failed assertion, undefined behaviour, a thread
    that waits for itself for ever, or the exhaustion of the fuel of a loop; so that
    "returns" in a theorem excludes the other five.  A record of the model has the
    members of the class, a definition the name of its method, and the order of the
    calls is that of the code.  Pointers are indices into a list of objects wherever
    objects are shared (blocks of a buffer, sockets, timers, fibers, loggers,
    configuration variables); [NodesTheorems] justifies it for the blocks, with addresses.
    Machine integers are [Z] with the wrap written out
    ([wrap], [swrap] of [Words]); sizes that memory bounds are [nat].  What is outside
    of the repository is a type class, with the documented behaviour that the code
    relies on as a second class of laws, instantiated in the witnesses:
    [PosixLock], [PosixSem], [Pthread], [Malloc], [Os] (descriptor flags), [Epoll], [Net] (the
    socket calls), [Yaml], [Values] ([boost::lexical_cast]); [strftime],
    [getaddrinfo] and [getifaddrs] are arguments.  The virtual class [Stream] is a
    type class too: the session is proved against its laws, and the socket stream
    is proved to satisfy them.

    ** The files

    - [Prelude]: outcomes, computations, weakest preconditions, what holds however a
      computation ends ([along]), [splice].
    - [Words] ([Net/ByteArray/endian.h]): bytes of integers, [byteswap].
    - [ByteArray] ([Net/ByteArray/]), [ByteArraySpec] (the flat view and the
      invariant [wf]), [Codec] (the typed reads and writes against one interface),
      [BufferTheorems]: writes and reads refine a flat array with a cursor; round
      trips of every typed pair; positions, files, scatter and gather lists.  [Nodes],
      [NodesTheorems]: the same buffer as a linked list in memory, which implements the
      list of blocks and frees what it took.
    - [Address], [AddressTheorems] ([Net/Address/]): comparison is a total order,
      network arithmetic, names.
    - [Mutex] ([Thread/Mutex/]), [Thread], [ThreadTheorems] ([Thread/],
      [Thread/Semaphore/]): balanced guards; a thread object runs its callback, and is
      joined once.
    - [Fiber], [FiberTheorems] ([Fiber/]): the life cycle of fibers as an invariant, who
      refers to a fiber and what dropping the last reference does (a suspended one refers
      to itself and leaks, a running one destroys itself at its end), what a resume
      executes up to the next yield.  [Stacks] ([Fiber/Allocator/]): the same thread next
      to the allocator of stacks; no stack freed twice, and which ones are lost.
    - [Scheduler], [SchedulerTheorems] ([Scheduler/scheduler.*]): steps of several
      workers over the shared queue; a round of a worker, the race of a fiber that
      schedules itself, how workers end.  [SchedulerSpec]: the abstract queue with the
      hands of the workers, and every interleaving as an execution of it.
    - [Timer], [TimerTheorems] ([Timer/]): the ordered set of timers, which expire
      and in which order, cancelling and resetting.
    - [IOManager], [IOManagerTheorems] ([Scheduler/iomanager.*]): registrations agree
      with the kernel and the count of pending events; which registrations an event
      fires; the wait of the idle fiber.
    - [Runtime], [RuntimeTheorems]: fibers, scheduler, event loop, timers and the hooked
      calls in one state, as the object has them: a round of [IOManager::idle] is a step
      of a worker.  A fiber that waits for an event or sleeps is resumed after a stated
      number of steps; every execution, with the tasks that events, timers and calls
      hand over in it, is one of the queue of [SchedulerSpec]; registering before
      yielding is a race.
    - [Teardown], [TeardownTheorems]: the destructors of scheduler and event loop while
      workers still run, and the scheduler of a thread ([GetThis]).
    - [FdManager], [Hook], [HookTheorems] ([Net/Hook/]): the descriptor table,
      [do_io] as a loop that waits, the flags the user sees.  [HookRuntime]: the waits of
      [do_io] as the program of a fiber of the runtime; blocking calls complete through
      the event loop.
    - [Socket], [Stream], [StreamTheorems] ([Net/Socket/]): the life of a socket,
      transfers of a fixed size.
    - [ParserTables], [ParserUrl], [ParserState], [ParserExec]
      ([Net/Http/parser/http_parser.*]): the tables, the URL parser, the parser object
      and [http_parser_execute], a definition for each case of its [switch].
      [ParserSafety] and [ParserTheorems]: a call returns on any bytes, with no failed
      assertion; [ParserFrame]: the user's object changes through callbacks only;
      [ParserLoops]: the scans of header names and values against plain loops;
      [ParserSim] (a judgement on two runs of the same code), [ParserChunks],
      [ParserPieces]: how a message is cut into buffers does not matter;
      [ParserTexts]: the names and texts of statuses and errors;
      [ParserUrlTheorems]: the fields of a URL; [ParserRequest]: what the parser makes
      of the parts of a request.
    - [Http], [HttpTheorems] ([Net/Http/http.*]): messages and their text;
      [HttpParser], [HttpParserTheorems] ([HttpParser.*], [HttpSession.*]): the
      callbacks and the session; [HttpRoundtrip]: a request that is written is read.
    - [Server], [ServerTheorems] ([Net/Server/]): the TCP server, with its system
      calls and the tasks it schedules, the dialogues of the HTTP server, the
      dispatcher; [Echo], [EchoTheorems] ([src/examples/echoServer.cpp]), [Examples]
      (the arguments, [run] and the client of [src/examples/]).
    - [Config], [ConfigTheorems] ([Config/]): variables with listeners, the typed
      registry, loading, the conversions to and from text.
    - [Log], [LogTheorems] ([Log/]): the pattern parser, and which appender writes
      what in every state a program reaches; [LogFile]: the stream of a file
      appender, its errors and its reopening.
    - [Utils] ([utils/]): clock, identifiers, backtraces, the singleton templates.

    ** Fuel

    A loop that is not structural has a fuel and a theorem that the fuel given is
    enough, so that no result rests on it: loops over a buffer have the number of
    blocks or bytes left (in [Nodes] that of the nodes in memory), [reexecute] 8 where the longest chain of jumps has four
    ([rank] of [ParserSafety]), the loop over the bytes their number, [recv_loop] one
    round more than the 4096 bytes of its buffer, the loops of the HTTP and echo
    servers more rounds than the client sends bytes, [ParseNodes] the depth of the
    tree, [Logger_log] 2 because only the root is another logger's root.  The loop of
    [do_io] has the length of the script of answers that the environment gives.  The
    idle loop has no fuel: each of its rounds is a step, and takes its readings of the
    clock and its results of [epoll_wait] from the script of the runtime.

    ** Not modelled

    The locks of a class are left out where every method takes them through a
    balanced guard ([Mutex]) for its whole body, and written out where they matter
    ([Timer]).  Interleaving is at the level of those critical sections, in [Runtime] of
    whole rounds of the idle fiber; the memory model is not, nor what happens when two
    threads use a [TcpServer] at the same time, which has no lock.  The references
    to a fiber from outside its stack are one flag, so that the scheduler does not say
    when the last one of a finished task goes.  [new] never fails.  A hooked call with a
    timeout is in [Hook] only, because calling the callback of its timer is undefined
    ([Timer.call]), so that there is nothing it could be resumed by.  Left out are log
    lines and the text of [dump] methods for logging; [hookInit], which only looks up
    symbols; the usage texts of the example programs; [timeCounter.hpp], which a test
    includes; the constructors and destructors that only allocate, initialise or free.
    [HttpConnection] is empty. *)

From stdpp Require Import base list numbers gmap strings.

(** ** Outcomes of C++ code

    A C++ computation ends in one of these ways.  [Ok] is a normal return,
    [Throw] an exception that leaves the function, [Abort] a failed
    [CCZOE_ASSERT] (the build defines no [NDEBUG], so [assert] aborts), [UB]
    undefined behaviour (null or dangling dereference, out-of-range
    [operator[]], signed overflow, shift by the width, unlocking a lock that is
    not held), [Deadlock] a thread that waits for itself, and [Diverge] a loop
    that has used up the fuel of the model. *)
Inductive exn : Set :=
  | out_of_range
  | invalid_argument
  | runtime_error
  | logic_error.

Inductive outcome (A : Type) : Type :=
  | Ok (a : A)
  | Throw (e : exn)
  | Abort
  | UB
  | Deadlock
  | Diverge.
Arguments Ok {A} a.
Arguments Throw {A} e.
Arguments Abort {A}.
Arguments UB {A}.
Arguments Deadlock {A}.
Arguments Diverge {A}.

(** A method of an object with state [S] that returns an [A]: the state it
    leaves behind is kept also when it throws. *)
Definition comp (S A : Type) : Type := S -> outcome A * S.

Section comp.
Context {S : Type}.

Definition ret {A} (a : A) : comp S A := fun s => (Ok a, s).

Definition fail {A} (o : outcome A) : comp S A := fun s => (o, s).

Definition bind {A B} (m : comp S A) (k : A -> comp S B) : comp S B := fun s =>
  match m s with
  | (Ok a, s') => k a s'
  | (Throw e, s') => (Throw e, s')
  | (Abort, s') => (Abort, s')
  | (UB, s') => (UB, s')
  | (Deadlock, s') => (Deadlock, s')
  | (Diverge, s') => (Diverge, s')
  end.

Definition get {A} (f : S -> A) : comp S A := fun s => (Ok (f s), s).

Definition modify (f : S -> S) : comp S unit := fun s => (Ok tt, f s).

(** [CCZOE_ASSERT] (utils/macro.h): log, then [assert]. *)
Definition CCZOE_ASSERT (b : bool) : comp S unit :=
  if b then ret tt else fail Abort.
End comp.

Declare Scope cpp_scope.
Delimit Scope cpp_scope with cpp.
Notation "'let!' x ':=' m 'in' k" := (bind m (fun x => k))
  (at level 10, x pattern, m at level 100, k at level 200,
   format "'[v' 'let!'  x  ':='  m  'in' '//' k ']'") : cpp_scope.
Notation "'do!' m 'in' k" := (bind m (fun _ : unit => k))
  (at level 10, m at level 100, k at level 200,
   format "'[v' 'do!'  m  'in' '//' k ']'") : cpp_scope.
Open Scope cpp_scope.

Section comp_laws.
Context {S : Type}.

Lemma bind_Ok {A B} (m : comp S A) (k : A -> comp S B) s a s' :
  m s = (Ok a, s') -> bind m k s = k a s'.
Proof. intros H. unfold bind. by rewrite H. Qed.

Lemma bind_ret_l {A B} (a : A) (k : A -> comp S B) s : bind (ret a) k s = k a s.
Proof. done. Qed.

Lemma bind_get {A B} (f : S -> A) (k : A -> comp S B) s : bind (get f) k s = k (f s) s.
Proof. done. Qed.

Lemma bind_modify {B} (f : S -> S) (k : unit -> comp S B) s : bind (modify f) k s = k tt (f s).
Proof. done. Qed.

Lemma bind_fail_Ok {A B} (a : A) (k : A -> comp S B) s : bind (fail (Ok a)) k s = k a s.
Proof. done. Qed.

Lemma bind_ret_r {A} (m : comp S A) s : bind m ret s = m s.
Proof. unfold bind. by destruct (m s) as [[] ?]. Qed.

Lemma bind_assoc {A B C} (m : comp S A) (k : A -> comp S B) (h : B -> comp S C) s :
  bind (bind m k) h s = bind m (fun a => bind (k a) h) s.
Proof. unfold bind. by destruct (m s) as [[] ?]. Qed.

Lemma bind_Ok_inv {A B} (m : comp S A) (k : A -> comp S B) s b s' :
  bind m k s = (Ok b, s') -> exists a s1, m s = (Ok a, s1) /\ k a s1 = (Ok b, s').
Proof. unfold bind. destruct (m s) as [[] ?]; intros; simplify_eq; eauto. Qed.

Lemma CCZOE_ASSERT_true (b : bool) s : b = true -> CCZOE_ASSERT (S:=S) b s = (Ok tt, s).
Proof. by intros ->. Qed.

Lemma CCZOE_ASSERT_false (b : bool) s : b = false -> CCZOE_ASSERT (S:=S) b s = (Abort, s).
Proof. by intros ->. Qed.

Lemma bind_CCZOE_ASSERT {B} (b : bool) (k : unit -> comp S B) s :
  bind (CCZOE_ASSERT b) k s = if b then k tt s else (Abort, s).
Proof. by destruct b. Qed.
End comp_laws.

Create HintDb cpp.
Create Rewrite HintDb cpp.
#[export] Hint Rewrite @bind_ret_l @bind_get @bind_modify @bind_fail_Ok : cpp.

(** Run a method of a component inside a bigger object: [get_] projects the
    component's state, [set_] puts the new one back. *)
Definition lift {S T A} (get_ : S -> T) (set_ : T -> S -> S) (m : comp T A) : comp S A := fun s =>
  let '(o, t) := m (get_ s) in (o, set_ t s).

Lemma lift_Ok {S T A} (get_ : S -> T) (set_ : T -> S -> S) (m : comp T A) s a t :
  m (get_ s) = (Ok a, t) -> lift get_ set_ m s = (Ok a, set_ t s).
Proof. unfold lift. by intros ->. Qed.

(** ** Weakest preconditions

    [wp m Q x]: from [x], [m] returns normally, with a result and a state that
    satisfy [Q]. *)

Section wp.
Context {X : Type}.

Definition wp {A} (m : comp X A) (Q : A -> X -> Prop) (x : X) : Prop :=
  exists a x', m x = (Ok a, x') /\ Q a x'.

Lemma wp_ret {A} (a : A) Q x : Q a x -> wp (ret a) Q x.
Proof. intros H. by exists a, x. Qed.

Lemma wp_bind {A B} (m : comp X A) (k : A -> comp X B) Q x :
  wp m (fun a => wp (k a) Q) x -> wp (bind m k) Q x.
Proof. intros (a & x1 & Hm & b & x2 & Hk & HQ). exists b, x2. by rewrite (bind_Ok _ _ _ _ _ Hm). Qed.

Lemma wp_get {A} (f : X -> A) Q x : Q (f x) x -> wp (get f) Q x.
Proof. intros H. by exists (f x), x. Qed.

Lemma wp_modify (f : X -> X) Q x : Q tt (f x) -> wp (modify f) Q x.
Proof. intros H. by exists tt, (f x). Qed.

Lemma wp_assert (b : bool) Q x : b = true -> Q tt x -> wp (CCZOE_ASSERT b) Q x.
Proof. intros -> H. by exists tt, x. Qed.

Lemma wp_mono {A} (m : comp X A) (Q R : A -> X -> Prop) x :
  wp m Q x -> (forall a x', Q a x' -> R a x') -> wp m R x.
Proof. intros (a & x' & Hm & HQ) HR. exists a, x'. auto. Qed.
End wp.

(** ** What holds of a computation however it ends

    [along R m]: the state that [m] leaves behind is related by [R] to the one it
    started in, for every outcome. *)

Section along.
Context {X : Type} (R : X -> X -> Prop) `{!PreOrder R}.

Definition along {A} (m : comp X A) : Prop := forall x, R x (snd (m x)).

Lemma along_ret {A} (a : A) : along (ret a).
Proof. intros x. simpl. reflexivity. Qed.

Lemma along_fail {A} (o : outcome A) : along (fail o).
Proof. intros x. simpl. reflexivity. Qed.

Lemma along_get {A} (f : X -> A) : along (get f).
Proof. intros x. simpl. reflexivity. Qed.

Lemma along_assert (b : bool) : along (CCZOE_ASSERT b).
Proof. destruct b; [apply along_ret|apply along_fail]. Qed.

Lemma along_modify (f : X -> X) : (forall x, R x (f x)) -> along (modify f).
Proof. intros Hf x. apply Hf. Qed.

Lemma along_bind {A B} (m : comp X A) (k : A -> comp X B) :
  along m -> (forall a, along (k a)) -> along (bind m k).
Proof.
  intros Hm Hk x. pose proof (Hm x) as H. unfold bind. destruct (m x) as [[a| | | | |] x1]; try done.
  etrans; [exact H|apply Hk].
Qed.
End along.

(** ** Reachability: the reflexive-transitive closure is stdpp's [rtc]. *)
Lemma rtc_invariant {A} (R : A -> A -> Prop) (I : A -> Prop) x y :
  (forall a b, I a -> R a b -> I b) -> I x -> rtc R x y -> I y.
Proof. intros HI Hx. induction 1; eauto. Qed.

(** ** Tactics *)

(** Run the head of a monadic program: state accesses compute, and a call
    whose result is a hypothesis (or a hint of [cpp]) is replaced by it. *)
Ltac step := first
  [ rewrite bind_ret_l
  | rewrite bind_get
  | rewrite bind_modify
  | rewrite bind_fail_Ok
  | erewrite bind_Ok; [| solve [eauto with cpp]] ].
Ltac steps := repeat (step; cbv beta).

(** Case analysis on the innermost [if]/[match] of the goal. *)
Ltac case_match_goal :=
  match goal with
  | |- context [match ?x with _ => _ end] => destruct x eqn:?
  end.

(** Turn boolean comparisons into arithmetic facts. *)
Ltac bool_to_prop :=
  repeat match goal with
  | H : (_ && _)%bool = true |- _ => apply andb_true_iff in H as [? ?]
  | H : (_ =? _)%nat = true |- _ => apply Nat.eqb_eq in H
  | H : (_ =? _)%nat = false |- _ => apply Nat.eqb_neq in H
  | H : (_ <=? _)%nat = true |- _ => apply Nat.leb_le in H
  | H : (_ <=? _)%nat = false |- _ => apply Nat.leb_gt in H
  | H : (_ <? _)%nat = true |- _ => apply Nat.ltb_lt in H
  | H : (_ <? _)%nat = false |- _ => apply Nat.ltb_ge in H
  | H : (_ =? _)%Z = true |- _ => apply Z.eqb_eq in H
  | H : (_ =? _)%Z = false |- _ => apply Z.eqb_neq in H
  | H : (_ <=? _)%Z = true |- _ => apply Z.leb_le in H
  | H : (_ <=? _)%Z = false |- _ => apply Z.leb_gt in H
  | H : (_ <? _)%Z = true |- _ => apply Z.ltb_lt in H
  | H : (_ <? _)%Z = false |- _ => apply Z.ltb_ge in H
  end.

(** ** Lists *)

(** Overwrite the cells of [l] from offset [off] with [xs]: [memcpy] into a
    buffer. *)
Definition splice {A} (off : nat) (xs l : list A) : list A :=
  take off l ++ xs ++ drop (off + length xs) l.

Section splice.
Context {A : Type}.
Implicit Types xs ys l : list A.

Lemma length_splice off xs l :
  off + length xs <= length l -> length (splice off xs l) = length l.
Proof. intros. unfold splice. rewrite !length_app, length_take, length_drop. lia. Qed.

Lemma splice_nil off l : splice off [] l = l.
Proof. unfold splice. simpl. rewrite Nat.add_0_r. apply take_drop. Qed.

Lemma take_splice off xs l : off <= length l -> take off (splice off xs l) = take off l.
Proof. intros. unfold splice. rewrite take_app_le by (rewrite length_take; lia).
       rewrite take_take. f_equal. lia. Qed.

Lemma drop_splice off xs l :
  off <= length l -> drop (off + length xs) (splice off xs l) = drop (off + length xs) l.
Proof.
  intros. unfold splice. rewrite <- drop_drop, drop_app_ge by (rewrite length_take; lia).
  rewrite length_take, Nat.min_l by lia.
  by rewrite Nat.sub_diag, drop_0, drop_app_length.
Qed.

Lemma splice_read off xs l :
  off <= length l -> take (length xs) (drop off (splice off xs l)) = xs.
Proof.
  intros. unfold splice. rewrite drop_app_ge by (rewrite length_take; lia).
  rewrite length_take, Nat.min_l, Nat.sub_diag, drop_0 by lia.
  apply take_app_length.
Qed.

Lemma take_splice_end off xs l :
  off <= length l -> take (off + length xs) (splice off xs l) = take off l ++ xs.
Proof.
  intros. unfold splice. rewrite app_assoc. apply take_app_length'.
  rewrite length_app, length_take. lia.
Qed.

Lemma drop_splice_add off k xs l :
  off <= length l -> drop (off + length xs + k) (splice off xs l) = drop (off + length xs + k) l.
Proof. intros. by rewrite <- !(drop_drop _ k), drop_splice. Qed.

(** Two adjacent writes are one. *)
Lemma splice_app off xs ys l :
  off <= length l ->
  splice (off + length xs) ys (splice off xs l) = splice off (xs ++ ys) l.
Proof.
  intros. unfold splice at 1.
  rewrite take_splice_end, drop_splice_add by done.
  unfold splice. by rewrite length_app, Nat.add_assoc, <- !app_assoc.
Qed.

Lemma splice_app_l off xs l1 l2 :
  off + length xs <= length l1 -> splice off xs (l1 ++ l2) = splice off xs l1 ++ l2.
Proof.
  intros. unfold splice. rewrite take_app_le, drop_app_le by lia. by rewrite <- !app_assoc.
Qed.

Lemma splice_app_r off xs l1 l2 :
  splice (length l1 + off) xs (l1 ++ l2) = l1 ++ splice off xs l2.
Proof.
  unfold splice. rewrite take_app_add, <- Nat.add_assoc, drop_app_add. by rewrite <- app_assoc.
Qed.
End splice.

(** ** Finite checks *)

(** A decidable property of the numbers below [n] is settled by evaluation. *)
Lemma below_forallb (f : nat -> bool) n i : forallb f (seq 0 n) = true -> i < n -> f i = true.
Proof. rewrite forallb_forall. intros H Hi. apply H, in_seq. lia. Qed.

(** ** Filters *)

Section filters.
Context {A : Type} (P Q : A -> Prop) {HP : forall x, Decision (P x)} {HQ : forall x, Decision (Q x)}.

Lemma filter_all_in (l : list A) : (forall x, x ∈ l -> P x) -> filter P l = l.
Proof using Type.
  induction l as [|x l IH]; intros Hl; [done|]. rewrite filter_cons_True by (apply Hl; left).
  f_equal. apply IH. intros y Hy. apply Hl. by right.
Qed.

Lemma filter_none_in (l : list A) : (forall x, x ∈ l -> ~ P x) -> filter P l = [].
Proof using Type.
  induction l as [|x l IH]; intros Hl; [done|]. rewrite filter_cons_False by (apply Hl; left).
  apply IH. intros y Hy. apply Hl. by right.
Qed.

Lemma filter_ext_in (l : list A) : (forall x, x ∈ l -> P x <-> Q x) -> filter P l = filter Q l.
Proof using Type.
  induction l as [|x l IH]; intros Hl; [done|].
  assert (P x <-> Q x) as Hx by (apply Hl; left).
  assert (filter P l = filter Q l) as IH' by (apply IH; intros y Hy; apply Hl; by right).
  rewrite !filter_cons, IH'. destruct (decide (P x)), (decide (Q x)); tauto.
Qed.
End filters.

(** ** Texts *)

Lemma append_assoc3 (a b c : string) : ((a +:+ b) +:+ c = a +:+ (b +:+ c))%string.
Proof. induction a as [|x a IH]; [done|]. exact (f_equal (String.String x) IH). Qed.

Lemma append_nil (a : string) : (a +:+ "")%string = a.
Proof. induction a as [|x a IH]; [done|]. exact (f_equal (String.String x) IH). Qed.

(** *** Without regard to case *)

(** A small letter for a capital. *)
Definition fold_case (c : Ascii.ascii) : Ascii.ascii :=
  from_option snd c (find (fun p => Ascii.eqb (fst p) c)
    (combine (String.list_ascii_of_string "ABCDEFGHIJKLMNOPQRSTUVWXYZ") (String.list_ascii_of_string "abcdefghijklmnopqrstuvwxyz"))).

Definition folded (s : string) : string := String.string_of_list_ascii (map fold_case (String.list_ascii_of_string s)).

Lemma fold_case_idem c : fold_case (fold_case c) = fold_case c.
Proof. by destruct c as [[] [] [] [] [] [] [] []]. Qed.

Lemma folded_idem s : folded (folded s) = folded s.
Proof.
  unfold folded. rewrite String.list_ascii_of_string_of_list_ascii, map_map. f_equal. apply map_ext, fold_case_idem.
Qed.
