(* ===== verification/Words.v ===== *)
(** * Words: machine integers, byte order and the bytes of an integer

    Models [cczoecpp/Net/ByteArray/endian.h] ([byteswap]) and the conversions
    the sources use around it: the object representation of an integer on the
    little-endian hosts the project builds for, and [htonl]/[htons]. *)

From stdpp Require Import base list numbers.
From S2P Require Import Prelude.

Open Scope Z_scope.

(** ** Fixed-width integers *)

(** Unsigned conversion to [w] bits, and the two's complement reading of the
    low [w] bits. *)
Definition wrap (w z : Z) : Z := z mod 2 ^ w.

Definition swrap (w z : Z) : Z :=
  let u := z mod 2 ^ w in if u <? 2 ^ (w - 1) then u else u - 2 ^ w.

Definition in_u (w z : Z) : Prop := 0 <= z < 2 ^ w.
Definition in_s (w z : Z) : Prop := - 2 ^ (w - 1) <= z < 2 ^ (w - 1).

#[global] Instance in_u_dec w z : Decision (in_u w z).
Proof. unfold in_u. apply _. Defined.
#[global] Instance in_s_dec w z : Decision (in_s w z).
Proof. unfold in_s. apply _. Defined.

Definition UINT64_MAX : Z := 2 ^ 64 - 1.

Lemma wrap_in_u w z : 0 <= w -> in_u w (wrap w z).
Proof. intros. unfold in_u, wrap. apply Z.mod_pos_bound. lia. Qed.

Lemma wrap_id w z : in_u w z -> wrap w z = z.
Proof. unfold in_u, wrap. apply Z.mod_small. Qed.

Lemma swrap_in_s w z : 0 < w -> in_s w (swrap w z).
Proof.
  intros. unfold in_s, swrap. cbv zeta.
  pose proof (Z.mod_pos_bound z (2 ^ w)) as Hb.
  assert (2 ^ w = 2 * 2 ^ (w - 1)) as E by (rewrite <- Z.pow_succ_r by lia; f_equal; lia).
  assert (0 < 2 ^ w) by (apply Z.pow_pos_nonneg; lia).
  destruct (Z.ltb_spec (z mod 2 ^ w) (2 ^ (w - 1))); lia.
Qed.

(** Reading the bits of a signed value back gives the value. *)
Lemma swrap_wrap w z : 0 < w -> in_s w z -> swrap w (wrap w z) = z.
Proof.
  intros Hw Hz. unfold in_s, swrap, wrap in *. cbv zeta.
  rewrite Zmod_mod.
  assert (2 ^ w = 2 * 2 ^ (w - 1)) as E by (rewrite <- Z.pow_succ_r by lia; f_equal; lia).
  assert (0 < 2 ^ (w - 1)) by (apply Z.pow_pos_nonneg; lia).
  destruct (Z.leb_spec 0 z).
  - rewrite Z.mod_small by lia. destruct (Z.ltb_spec z (2 ^ (w - 1))); lia.
  - rewrite <- (Z_mod_plus_full z 1), Z.mod_small by lia.
    destruct (Z.ltb_spec (z + 1 * 2 ^ w) (2 ^ (w - 1))); lia.
Qed.

(** ** Bytes of an integer *)

(** The object representation of an [n]-byte integer, least significant byte
    first, and the integer a byte sequence represents. *)
Fixpoint le_bytes (n : nat) (z : Z) : list Z :=
  match n with
  | O => []
  | S n => z mod 256 :: le_bytes n (z / 256)
  end.

Fixpoint of_le (bs : list Z) : Z :=
  match bs with
  | [] => 0
  | b :: bs => b + 256 * of_le bs
  end.

Definition is_byte (b : Z) : Prop := 0 <= b < 256.

Lemma length_le_bytes n z : length (le_bytes n z) = n.
Proof. revert z. induction n; simpl; auto. Qed.

Lemma le_bytes_bytes n z : Forall is_byte (le_bytes n z).
Proof.
  revert z. induction n; simpl; constructor; auto.
  apply Z.mod_pos_bound. lia.
Qed.

Lemma of_le_le_bytes n z : of_le (le_bytes n z) = z mod 2 ^ (8 * Z.of_nat n).
Proof.
  revert z. induction n as [|n IH]; intros z; cbn [le_bytes of_le].
  - rewrite Z.mod_1_r. done.
  - rewrite IH.
    replace (8 * Z.of_nat (S n)) with (8 + 8 * Z.of_nat n) by lia.
    rewrite Z.pow_add_r by lia. change (2 ^ 8) with 256.
    rewrite Z.rem_mul_r by (try apply Z.pow_pos_nonneg; lia). lia.
Qed.

Lemma of_le_bound bs : Forall is_byte bs -> in_u (8 * Z.of_nat (length bs)) (of_le bs).
Proof.
  unfold in_u. induction 1 as [|b bs [Hb0 Hb] Hbs IH]; cbn [length of_le]; [simpl; lia|].
  replace (8 * Z.of_nat (S (length bs))) with (8 + 8 * Z.of_nat (length bs)) by lia.
  rewrite Z.pow_add_r by lia. change (2 ^ 8) with 256. lia.
Qed.

Lemma le_bytes_of_le bs : Forall is_byte bs -> le_bytes (length bs) (of_le bs) = bs.
Proof.
  induction 1 as [|b bs [Hb0 Hb] Hbs IH]; cbn [length of_le le_bytes]; [done|].
  replace (b + 256 * of_le bs) with (of_le bs * 256 + b) by lia.
  rewrite Z.div_add_l, Z.div_small, Z.add_0_r, IH by lia.
  rewrite Z.add_comm, Z_mod_plus_full, Z.mod_small by lia. done.
Qed.

Lemma of_le_app bs cs : of_le (bs ++ cs) = of_le bs + 2 ^ (8 * Z.of_nat (length bs)) * of_le cs.
Proof.
  induction bs as [|b bs IH]; cbn [app length of_le]; [simpl; lia|].
  rewrite IH. replace (8 * Z.of_nat (S (length bs))) with (8 + 8 * Z.of_nat (length bs)) by lia.
  rewrite Z.pow_add_r by lia. change (2 ^ 8) with 256. lia.
Qed.

(** ** Byte order (endian.h) *)

Definition CCZOE_LITTLE_ENDIAN : Z := 1.
Definition CCZOE_BIG_ENDIAN : Z := 2.
(** The host order: [BYTE_ORDER] is little endian on the supported targets. *)
Definition CCZOE_BYTE_ORDER : Z := CCZOE_LITTLE_ENDIAN.

(** [bswap_16], [bswap_32] and [bswap_64] of <byteswap.h>: reverse the [n]
    bytes of a word. *)
Definition bswap (n : nat) (v : Z) : Z := of_le (rev (le_bytes n v)).

(** The integer types [byteswap] is instantiated with. *)
Inductive int_type : Set := int16_t | uint16_t | int32_t | uint32_t | int64_t | uint64_t.

Definition sizeof (t : int_type) : nat :=
  match t with
  | int16_t | uint16_t => 2
  | int32_t | uint32_t => 4
  | int64_t | uint64_t => 8
  end.

(** [byteswap<T>]: the [if constexpr] chain tests [std::is_same] with the three
    unsigned types only, every other type is returned unchanged. *)
Definition byteswap (T : int_type) (val : Z) : Z :=
  match T with
  | uint64_t => bswap 8 val
  | uint32_t => bswap 4 val
  | uint16_t => bswap 2 val
  | _ => val
  end.

Lemma bswap_in_u n v : in_u (8 * Z.of_nat n) (bswap n v).
Proof.
  unfold bswap. rewrite <- (length_le_bytes n v) at 1. rewrite <- length_rev.
  apply of_le_bound. apply Forall_rev, le_bytes_bytes.
Qed.

Lemma bswap_involutive n v : in_u (8 * Z.of_nat n) v -> bswap n (bswap n v) = v.
Proof.
  intros Hv. unfold bswap.
  replace n with (length (rev (le_bytes n v))) at 1 by (rewrite length_rev; apply length_le_bytes).
  rewrite le_bytes_of_le by (apply Forall_rev, le_bytes_bytes).
  rewrite rev_involutive, of_le_le_bytes. by apply Z.mod_small.
Qed.

Lemma le_bytes_bswap n v : le_bytes n (bswap n v) = rev (le_bytes n v).
Proof.
  unfold bswap.
  replace n with (length (rev (le_bytes n v))) at 1 by (rewrite length_rev; apply length_le_bytes).
  apply le_bytes_of_le, Forall_rev, le_bytes_bytes.
Qed.

(** [htonl]/[ntohl] and [htons]/[ntohs] on a little-endian host. *)
Definition htonl (v : Z) : Z := bswap 4 v.
Definition htons (v : Z) : Z := bswap 2 v.
Definition ntohl (v : Z) : Z := bswap 4 v.
Definition ntohs (v : Z) : Z := bswap 2 v.

Lemma ntohs_htons v : in_u 16 v -> ntohs (htons v) = v.
Proof. apply (bswap_involutive 2). Qed.

Lemma ntohl_htonl v : in_u 32 v -> ntohl (htonl v) = v.
Proof. apply (bswap_involutive 4). Qed.

Lemma htonl_ntohl v : in_u 32 v -> htonl (ntohl v) = v.
Proof. apply (bswap_involutive 4). Qed.

Create HintDb words.
#[export] Hint Resolve wrap_in_u swrap_in_s le_bytes_bytes bswap_in_u : words.
