(* ===== verification/ParserTables.v ===== *)
(** * ParserTables: the constants of http_parser

    Models the tables of [Net/Http/parser/http_parser.h] and [http_parser.cpp]: the
    methods, errors and flags, the states of the automaton, and the character
    classes.  The library is built strict, the default of its header.

    A [char] is the number of its byte.  The code indexes its tables with
    [(unsigned char)c] and compares characters with ASCII constants only, which
    does not see the sign. *)

From Stdlib Require Init.Byte Strings.Byte.
From Stdlib Require Import String.
From stdpp Require Import base list numbers.
From S2P Require Import Prelude Words.

Local Open Scope Z_scope.

(** ** Character constants *)

Definition parse_char (b : Init.Byte.byte) : Z := Z.of_N (Strings.Byte.to_N b).
Definition print_char (z : Z) : option Init.Byte.byte :=
  match z with Zneg _ => None | _ => Strings.Byte.of_N (Z.to_N z) end.

Declare Scope char_scope.
Delimit Scope char_scope with ch.
String Notation Z parse_char print_char : char_scope.

Definition parse_bytes (l : list Init.Byte.byte) : list Z := map parse_char l.

Definition CR : Z := 13.
Definition LF : Z := 10.
Definition TAB : Z := 9.
Definition FF : Z := 12.

(** ** Types and flags of [http_parser.h] *)

Inductive http_parser_type : Set := HTTP_REQUEST | HTTP_RESPONSE | HTTP_BOTH.

#[global] Instance http_parser_type_eq_dec : EqDecision http_parser_type.
Proof. solve_decision. Defined.

Definition F_CHUNKED : Z := 1.
Definition F_CONNECTION_KEEP_ALIVE : Z := 2.
Definition F_CONNECTION_CLOSE : Z := 4.
Definition F_CONNECTION_UPGRADE : Z := 8.
Definition F_TRAILING : Z := 16.
Definition F_UPGRADE : Z := 32.
Definition F_SKIPBODY : Z := 64.
Definition F_CONTENTLENGTH : Z := 128.

Inductive http_errno : Set :=
  | HPE_OK | HPE_CB_message_begin | HPE_CB_url
  | HPE_CB_header_field | HPE_CB_header_value | HPE_CB_headers_complete
  | HPE_CB_body | HPE_CB_message_complete | HPE_CB_status
  | HPE_CB_chunk_header | HPE_CB_chunk_complete | HPE_INVALID_EOF_STATE
  | HPE_HEADER_OVERFLOW | HPE_CLOSED_CONNECTION | HPE_INVALID_VERSION
  | HPE_INVALID_STATUS | HPE_INVALID_METHOD | HPE_INVALID_URL
  | HPE_INVALID_HOST | HPE_INVALID_PORT | HPE_INVALID_PATH
  | HPE_INVALID_QUERY_STRING | HPE_INVALID_FRAGMENT | HPE_LF_EXPECTED
  | HPE_INVALID_HEADER_TOKEN | HPE_INVALID_CONTENT_LENGTH | HPE_UNEXPECTED_CONTENT_LENGTH
  | HPE_INVALID_CHUNK_SIZE | HPE_INVALID_CONSTANT | HPE_INVALID_INTERNAL_STATE
  | HPE_STRICT | HPE_PAUSED | HPE_UNKNOWN
  | HPE_INVALID_TRANSFER_ENCODING.

#[global] Instance http_errno_eq_dec : EqDecision http_errno.
Proof. solve_decision. Defined.

(** The value of the enumeration, which [HttpRequestParser::error] returns. *)
Definition errno_num (s : http_errno) : Z :=
  match s with
  | HPE_OK => 0 | HPE_CB_message_begin => 1 | HPE_CB_url => 2
  | HPE_CB_header_field => 3 | HPE_CB_header_value => 4 | HPE_CB_headers_complete => 5
  | HPE_CB_body => 6 | HPE_CB_message_complete => 7 | HPE_CB_status => 8
  | HPE_CB_chunk_header => 9 | HPE_CB_chunk_complete => 10 | HPE_INVALID_EOF_STATE => 11
  | HPE_HEADER_OVERFLOW => 12 | HPE_CLOSED_CONNECTION => 13 | HPE_INVALID_VERSION => 14
  | HPE_INVALID_STATUS => 15 | HPE_INVALID_METHOD => 16 | HPE_INVALID_URL => 17
  | HPE_INVALID_HOST => 18 | HPE_INVALID_PORT => 19 | HPE_INVALID_PATH => 20
  | HPE_INVALID_QUERY_STRING => 21 | HPE_INVALID_FRAGMENT => 22 | HPE_LF_EXPECTED => 23
  | HPE_INVALID_HEADER_TOKEN => 24 | HPE_INVALID_CONTENT_LENGTH => 25 | HPE_UNEXPECTED_CONTENT_LENGTH => 26
  | HPE_INVALID_CHUNK_SIZE => 27 | HPE_INVALID_CONSTANT => 28 | HPE_INVALID_INTERNAL_STATE => 29
  | HPE_STRICT => 30 | HPE_PAUSED => 31 | HPE_UNKNOWN => 32
  | HPE_INVALID_TRANSFER_ENCODING => 33
  end.

(** ** The states of the automaton *)

Inductive state : Set :=
  | s_dead | s_start_req_or_res | s_res_or_resp_H
  | s_start_res | s_res_H | s_res_HT
  | s_res_HTT | s_res_HTTP | s_res_http_major
  | s_res_http_dot | s_res_http_minor | s_res_http_end
  | s_res_first_status_code | s_res_status_code | s_res_status_start
  | s_res_status | s_res_line_almost_done | s_start_req
  | s_req_method | s_req_spaces_before_url | s_req_schema
  | s_req_schema_slash | s_req_schema_slash_slash | s_req_server_start
  | s_req_server | s_req_server_with_at | s_req_path
  | s_req_query_string_start | s_req_query_string | s_req_fragment_start
  | s_req_fragment | s_req_http_start | s_req_http_H
  | s_req_http_HT | s_req_http_HTT | s_req_http_HTTP
  | s_req_http_I | s_req_http_IC | s_req_http_major
  | s_req_http_dot | s_req_http_minor | s_req_http_end
  | s_req_line_almost_done | s_header_field_start | s_header_field
  | s_header_value_discard_ws | s_header_value_discard_ws_almost_done | s_header_value_discard_lws
  | s_header_value_start | s_header_value | s_header_value_lws
  | s_header_almost_done | s_chunk_size_start | s_chunk_size
  | s_chunk_parameters | s_chunk_size_almost_done | s_headers_almost_done
  | s_headers_done | s_chunk_data | s_chunk_data_almost_done
  | s_chunk_data_done | s_body_identity | s_body_identity_eof
  | s_message_done.

Definition state_num (s : state) : Z :=
  match s with
  | s_dead => 1 | s_start_req_or_res => 2 | s_res_or_resp_H => 3
  | s_start_res => 4 | s_res_H => 5 | s_res_HT => 6
  | s_res_HTT => 7 | s_res_HTTP => 8 | s_res_http_major => 9
  | s_res_http_dot => 10 | s_res_http_minor => 11 | s_res_http_end => 12
  | s_res_first_status_code => 13 | s_res_status_code => 14 | s_res_status_start => 15
  | s_res_status => 16 | s_res_line_almost_done => 17 | s_start_req => 18
  | s_req_method => 19 | s_req_spaces_before_url => 20 | s_req_schema => 21
  | s_req_schema_slash => 22 | s_req_schema_slash_slash => 23 | s_req_server_start => 24
  | s_req_server => 25 | s_req_server_with_at => 26 | s_req_path => 27
  | s_req_query_string_start => 28 | s_req_query_string => 29 | s_req_fragment_start => 30
  | s_req_fragment => 31 | s_req_http_start => 32 | s_req_http_H => 33
  | s_req_http_HT => 34 | s_req_http_HTT => 35 | s_req_http_HTTP => 36
  | s_req_http_I => 37 | s_req_http_IC => 38 | s_req_http_major => 39
  | s_req_http_dot => 40 | s_req_http_minor => 41 | s_req_http_end => 42
  | s_req_line_almost_done => 43 | s_header_field_start => 44 | s_header_field => 45
  | s_header_value_discard_ws => 46 | s_header_value_discard_ws_almost_done => 47 | s_header_value_discard_lws => 48
  | s_header_value_start => 49 | s_header_value => 50 | s_header_value_lws => 51
  | s_header_almost_done => 52 | s_chunk_size_start => 53 | s_chunk_size => 54
  | s_chunk_parameters => 55 | s_chunk_size_almost_done => 56 | s_headers_almost_done => 57
  | s_headers_done => 58 | s_chunk_data => 59 | s_chunk_data_almost_done => 60
  | s_chunk_data_done => 61 | s_body_identity => 62 | s_body_identity_eof => 63
  | s_message_done => 64
  end.

#[global] Instance state_eq_dec : EqDecision state.
Proof. solve_decision. Defined.

Definition PARSING_HEADER (s : state) : bool := state_num s <=? state_num s_headers_done.

Inductive header_states : Set :=
  | h_general | h_C
  | h_CO | h_CON
  | h_matching_connection | h_matching_proxy_connection
  | h_matching_content_length | h_matching_transfer_encoding
  | h_matching_upgrade | h_connection
  | h_content_length | h_content_length_num
  | h_content_length_ws | h_transfer_encoding
  | h_upgrade | h_matching_transfer_encoding_token_start
  | h_matching_transfer_encoding_chunked | h_matching_transfer_encoding_token
  | h_matching_connection_token_start | h_matching_connection_keep_alive
  | h_matching_connection_close | h_matching_connection_upgrade
  | h_matching_connection_token | h_transfer_encoding_chunked
  | h_connection_keep_alive | h_connection_close
  | h_connection_upgrade.

#[global] Instance header_states_eq_dec : EqDecision header_states.
Proof. solve_decision. Defined.

Inductive http_host_state : Set :=
  | s_http_host_dead | s_http_userinfo_start | s_http_userinfo
  | s_http_host_start | s_http_host_v6_start | s_http_host
  | s_http_host_v6 | s_http_host_v6_end | s_http_host_v6_zone_start
  | s_http_host_v6_zone | s_http_host_port_start | s_http_host_port.

#[global] Instance http_host_state_eq_dec : EqDecision http_host_state.
Proof. solve_decision. Defined.

(** ** The tables.  An entry that the initialiser does not give is 0. *)

(** [method_strings], in the order of their numbers. *)
Definition method_strings : list (list Z) := Eval vm_compute in map (fun s => parse_bytes (String.list_byte_of_string s)) [
  "DELETE"; "GET"; "HEAD"; "POST"; "PUT"; "CONNECT";
  "OPTIONS"; "TRACE"; "COPY"; "LOCK"; "MKCOL"; "MOVE";
  "PROPFIND"; "PROPPATCH"; "SEARCH"; "UNLOCK"; "BIND"; "REBIND";
  "UNBIND"; "ACL"; "REPORT"; "MKACTIVITY"; "CHECKOUT"; "MERGE";
  "M-SEARCH"; "NOTIFY"; "SUBSCRIBE"; "UNSUBSCRIBE"; "PATCH"; "PURGE";
  "MKCALENDAR"; "LINK"; "UNLINK"; "SOURCE"]%string.

Definition HTTP_DELETE : Z := 0.
Definition HTTP_GET : Z := 1.
Definition HTTP_HEAD : Z := 2.
Definition HTTP_POST : Z := 3.
Definition HTTP_PUT : Z := 4.
Definition HTTP_CONNECT : Z := 5.
Definition HTTP_OPTIONS : Z := 6.
Definition HTTP_TRACE : Z := 7.
Definition HTTP_COPY : Z := 8.
Definition HTTP_LOCK : Z := 9.
Definition HTTP_MKCOL : Z := 10.
Definition HTTP_MOVE : Z := 11.
Definition HTTP_PROPFIND : Z := 12.
Definition HTTP_PROPPATCH : Z := 13.
Definition HTTP_SEARCH : Z := 14.
Definition HTTP_UNLOCK : Z := 15.
Definition HTTP_BIND : Z := 16.
Definition HTTP_REBIND : Z := 17.
Definition HTTP_UNBIND : Z := 18.
Definition HTTP_ACL : Z := 19.
Definition HTTP_REPORT : Z := 20.
Definition HTTP_MKACTIVITY : Z := 21.
Definition HTTP_CHECKOUT : Z := 22.
Definition HTTP_MERGE : Z := 23.
Definition HTTP_MSEARCH : Z := 24.
Definition HTTP_NOTIFY : Z := 25.
Definition HTTP_SUBSCRIBE : Z := 26.
Definition HTTP_UNSUBSCRIBE : Z := 27.
Definition HTTP_PATCH : Z := 28.
Definition HTTP_PURGE : Z := 29.
Definition HTTP_MKCALENDAR : Z := 30.
Definition HTTP_LINK : Z := 31.
Definition HTTP_UNLINK : Z := 32.
Definition HTTP_SOURCE : Z := 33.

(** Tokens, lowercased. *)
Definition tokens : list Z := [
  0; 0; 0; 0; 0; 0; 0; 0; 0; 0; 0; 0; 0; 0; 0; 0;
  0; 0; 0; 0; 0; 0; 0; 0; 0; 0; 0; 0; 0; 0; 0; 0;
  32; 33; 0; 35; 36; 37; 38; 39; 0; 0; 42; 43; 0; 45; 46; 0;
  48; 49; 50; 51; 52; 53; 54; 55; 56; 57; 0; 0; 0; 0; 0; 0;
  0; 97; 98; 99; 100; 101; 102; 103; 104; 105; 106; 107; 108; 109; 110; 111;
  112; 113; 114; 115; 116; 117; 118; 119; 120; 121; 122; 0; 0; 0; 94; 95;
  96; 97; 98; 99; 100; 101; 102; 103; 104; 105; 106; 107; 108; 109; 110; 111;
  112; 113; 114; 115; 116; 117; 118; 119; 120; 121; 122; 0; 124; 0; 126; 0].

Definition unhex : list Z := [
  -1; -1; -1; -1; -1; -1; -1; -1; -1; -1; -1; -1; -1; -1; -1; -1;
  -1; -1; -1; -1; -1; -1; -1; -1; -1; -1; -1; -1; -1; -1; -1; -1;
  -1; -1; -1; -1; -1; -1; -1; -1; -1; -1; -1; -1; -1; -1; -1; -1;
  0; 1; 2; 3; 4; 5; 6; 7; 8; 9; -1; -1; -1; -1; -1; -1;
  -1; 10; 11; 12; 13; 14; 15; -1; -1; -1; -1; -1; -1; -1; -1; -1;
  -1; -1; -1; -1; -1; -1; -1; -1; -1; -1; -1; -1; -1; -1; -1; -1;
  -1; 10; 11; 12; 13; 14; 15; -1; -1; -1; -1; -1; -1; -1; -1; -1;
  -1; -1; -1; -1; -1; -1; -1; -1; -1; -1; -1; -1; -1; -1; -1; -1].

(** The bits of the characters a URL may have. *)
Definition normal_url_char : list Z := [
  0; 0; 0; 0; 246; 255; 255; 127; 255; 255; 255; 255; 255; 255; 255; 127].

(** ** Character classes, strict *)

Definition LOWER (c : Z) : Z := Z.lor c 32.
Definition IS_ALPHA (c : Z) : bool := ("a"%ch <=? LOWER c) && (LOWER c <=? "z"%ch).
Definition IS_NUM (c : Z) : bool := ("0"%ch <=? c) && (c <=? "9"%ch).
Definition IS_ALPHANUM (c : Z) : bool := IS_ALPHA c || IS_NUM c.
Definition IS_HEX (c : Z) : bool := IS_NUM c || ("a"%ch <=? LOWER c) && (LOWER c <=? "f"%ch).

Definition one_of (l : list Z) (c : Z) : bool := existsb (Z.eqb c) l.

Definition IS_MARK : Z -> bool :=
  one_of ["-"%ch; "_"%ch; "."%ch; "!"%ch; "~"%ch; "*"%ch; "'"%ch; "("%ch; ")"%ch].
Definition IS_USERINFO_CHAR (c : Z) : bool :=
  IS_ALPHANUM c || IS_MARK c || one_of ["%"%ch; ";"%ch; ":"%ch; "&"%ch; "="%ch; "+"%ch; "$"%ch; ","%ch] c.

(** [TOKEN] and [STRICT_TOKEN]: the lowercased token, 0 for any other character. *)
Definition TOKEN (c : Z) : Z := if c =? " "%ch then 0 else nth (Z.to_nat c) tokens 0.

Definition BIT_AT (a : list Z) (i : Z) : bool :=
  negb (Z.land (nth (Z.to_nat (Z.shiftr i 3)) a 0) (Z.shiftl 1 (Z.land i 7)) =? 0).
Definition IS_URL_CHAR (c : Z) : bool := BIT_AT normal_url_char c.
Definition IS_HOST_CHAR (c : Z) : bool := IS_ALPHANUM c || (c =? "."%ch) || (c =? "-"%ch).
Definition IS_HEADER_CHAR (c : Z) : bool :=
  (c =? CR) || (c =? LF) || (c =? TAB) || (31 <? c) && negb (c =? 127).
