(* ===== verification/ParserUrl.v ===== *)
(** * ParserUrl: the URL parser of http_parser

    Models [parse_url_char], [http_parse_host_char], [http_parse_host] and
    [http_parser_parse_url] of [Net/Http/parser/http_parser.cpp].  A text is the
    list of its characters; the fields of the result are offsets and lengths of
    16 bits. *)

From stdpp Require Import base list numbers.
From S2P Require Import Prelude Words ParserTables.

Local Open Scope Z_scope.

(** ** The transitions *)

(** [case s_req_server_with_at] falls through to the other two. *)
Definition url_server_char (ch : Z) : state :=
  if ch =? "/"%ch then s_req_path
  else if ch =? "?"%ch then s_req_query_string_start
  else if ch =? "@"%ch then s_req_server_with_at
  else if IS_USERINFO_CHAR ch || (ch =? "["%ch) || (ch =? "]"%ch) then s_req_server
  else s_dead.

Definition parse_url_char (s : state) (ch : Z) : state :=
  if (ch =? " "%ch) || (ch =? CR) || (ch =? LF) then s_dead else
  if (ch =? TAB) || (ch =? FF) then s_dead else
  match s with
  | s_req_spaces_before_url =>
      if (ch =? "/"%ch) || (ch =? "*"%ch) then s_req_path
      else if IS_ALPHA ch then s_req_schema else s_dead
  | s_req_schema =>
      if IS_ALPHA ch then s else if ch =? ":"%ch then s_req_schema_slash else s_dead
  | s_req_schema_slash => if ch =? "/"%ch then s_req_schema_slash_slash else s_dead
  | s_req_schema_slash_slash => if ch =? "/"%ch then s_req_server_start else s_dead
  | s_req_server_with_at => if ch =? "@"%ch then s_dead else url_server_char ch
  | s_req_server_start | s_req_server => url_server_char ch
  | s_req_path =>
      if IS_URL_CHAR ch then s
      else if ch =? "?"%ch then s_req_query_string_start
      else if ch =? "#"%ch then s_req_fragment_start else s_dead
  | s_req_query_string_start | s_req_query_string =>
      if IS_URL_CHAR ch then s_req_query_string
      else if ch =? "?"%ch then s_req_query_string
      else if ch =? "#"%ch then s_req_fragment_start else s_dead
  | s_req_fragment_start =>
      if IS_URL_CHAR ch then s_req_fragment
      else if ch =? "?"%ch then s_req_fragment
      else if ch =? "#"%ch then s else s_dead
  | s_req_fragment =>
      if IS_URL_CHAR ch then s
      else if (ch =? "?"%ch) || (ch =? "#"%ch) then s else s_dead
  | _ => s_dead
  end.

Definition v6_char (ch : Z) : bool := IS_HEX ch || (ch =? ":"%ch) || (ch =? "."%ch).

Definition zone_char (ch : Z) : bool :=
  IS_ALPHANUM ch || one_of ["%"%ch; "."%ch; "-"%ch; "_"%ch; "~"%ch] ch.

Definition http_parse_host_char (s : http_host_state) (ch : Z) : http_host_state :=
  match s with
  | s_http_userinfo | s_http_userinfo_start =>
      if ch =? "@"%ch then s_http_host_start
      else if IS_USERINFO_CHAR ch then s_http_userinfo else s_http_host_dead
  | s_http_host_start =>
      if ch =? "["%ch then s_http_host_v6_start
      else if IS_HOST_CHAR ch then s_http_host else s_http_host_dead
  | s_http_host =>
      if IS_HOST_CHAR ch then s_http_host
      else if ch =? ":"%ch then s_http_host_port_start else s_http_host_dead
  | s_http_host_v6_end => if ch =? ":"%ch then s_http_host_port_start else s_http_host_dead
  | s_http_host_v6 =>
      if ch =? "]"%ch then s_http_host_v6_end
      else if v6_char ch then s_http_host_v6
      else if ch =? "%"%ch then s_http_host_v6_zone_start else s_http_host_dead
  | s_http_host_v6_start => if v6_char ch then s_http_host_v6 else s_http_host_dead
  | s_http_host_v6_zone =>
      if ch =? "]"%ch then s_http_host_v6_end
      else if zone_char ch then s_http_host_v6_zone else s_http_host_dead
  | s_http_host_v6_zone_start => if zone_char ch then s_http_host_v6_zone else s_http_host_dead
  | s_http_host_port | s_http_host_port_start =>
      if IS_NUM ch then s_http_host_port else s_http_host_dead
  | s_http_host_dead => s_http_host_dead
  end.

(** ** The result *)

Inductive http_parser_url_fields : Set :=
  | UF_SCHEMA | UF_HOST | UF_PORT | UF_PATH | UF_QUERY | UF_FRAGMENT | UF_USERINFO | UF_MAX.

#[global] Instance url_fields_eq_dec : EqDecision http_parser_url_fields.
Proof. solve_decision. Defined.

Definition uf_num (f : http_parser_url_fields) : nat :=
  match f with
  | UF_SCHEMA => 0 | UF_HOST => 1 | UF_PORT => 2 | UF_PATH => 3
  | UF_QUERY => 4 | UF_FRAGMENT => 5 | UF_USERINFO => 6 | UF_MAX => 7
  end.

Record http_parser_url : Type := mkUrl {
  field_set : Z;
  port : Z;
  field_data : http_parser_url_fields -> Z * Z   (* [off] and [len] *)
}.

Definition http_parser_url_init : http_parser_url := mkUrl 0 0 (fun _ => (0, 0)).

Definition set_field_set (v : Z) (u : http_parser_url) : http_parser_url := mkUrl v (port u) (field_data u).
Definition set_port (v : Z) (u : http_parser_url) : http_parser_url := mkUrl (field_set u) v (field_data u).
Definition set_field (f : http_parser_url_fields) (v : Z * Z) (u : http_parser_url) : http_parser_url :=
  mkUrl (field_set u) (port u) (fun g => if decide (g = f) then v else field_data u g).

(** [u->field_set & (1 << f)] *)
Definition is_set (f : http_parser_url_fields) (u : http_parser_url) : bool :=
  Z.testbit (field_set u) (Z.of_nat (uf_num f)).

Definition put_off (f : http_parser_url_fields) (off : nat) (u : http_parser_url) : http_parser_url :=
  set_field f (wrap 16 (Z.of_nat off), snd (field_data u f)) u.
Definition put_len (f : http_parser_url_fields) (len : Z) (u : http_parser_url) : http_parser_url :=
  set_field f (fst (field_data u f), len) u.
Definition inc_len (f : http_parser_url_fields) (u : http_parser_url) : http_parser_url :=
  put_len f (wrap 16 (snd (field_data u f) + 1)) u.
Definition mark_set (f : http_parser_url_fields) (u : http_parser_url) : http_parser_url :=
  set_field_set (Z.lor (field_set u) (Z.shiftl 1 (Z.of_nat (uf_num f)))) u.

(** ** The host *)

(** The second [switch] of the loop: the character at [i] moves from [s] to
    [new_s]. *)
Definition host_field (s new_s : http_host_state) (i : nat) (u : http_parser_url) : http_parser_url :=
  match new_s with
  | s_http_host | s_http_host_v6 =>
      inc_len UF_HOST (if decide (s = new_s) then u else put_off UF_HOST i u)
  | s_http_host_v6_zone_start | s_http_host_v6_zone => inc_len UF_HOST u
  | s_http_host_port =>
      inc_len UF_PORT (if decide (s = s_http_host_port) then u
                       else mark_set UF_PORT (put_len UF_PORT 0 (put_off UF_PORT i u)))
  | s_http_userinfo =>
      inc_len UF_USERINFO (if decide (s = s_http_userinfo) then u
                           else mark_set UF_USERINFO (put_len UF_USERINFO 0 (put_off UF_USERINFO i u)))
  | _ => u
  end.

(** The loop over the characters of the host, the first of them at [i]; [None] is
    [return 1]. *)
Fixpoint host_loop (buf : list Z) (i : nat) (s : http_host_state) : comp http_parser_url (option http_host_state) :=
  match buf with
  | [] => ret (Some s)
  | ch :: buf =>
      let new_s := http_parse_host_char s ch in
      if decide (new_s = s_http_host_dead) then ret None else
      do! modify (host_field s new_s i) in
      host_loop buf (S i) new_s
  end.

(** The bounds of the loop are computed from 16-bit fields; a host that they place
    outside of the text would be read out of bounds. *)
Definition http_parse_host (buf : list Z) (found_at : bool) : comp http_parser_url Z :=
  let! host := get (fun u => field_data u UF_HOST) in
  let '(off, len) := host in
  let! b := get (is_set UF_HOST) in
  do! CCZOE_ASSERT b in
  do! modify (put_len UF_HOST 0) in
  if Z.of_nat (length buf) <? off + len then fail UB else
  let! s := host_loop (take (Z.to_nat len) (drop (Z.to_nat off) buf)) (Z.to_nat off)
              (if found_at then s_http_userinfo_start else s_http_host_start) in
  match s with
  | None => ret 1
  | Some s =>
      match s with
      | s_http_host_start | s_http_host_v6_start | s_http_host_v6 | s_http_host_v6_zone_start
      | s_http_host_v6_zone | s_http_host_port_start | s_http_userinfo | s_http_userinfo_start => ret 1
      | _ => ret 0
      end
  end.

(** ** The URL *)

(** The first [switch] of the loop: the field that a character belongs to in its
    new state; a delimiter belongs to none. *)
Inductive url_part : Set := Delimiter | Part (uf : http_parser_url_fields) | BadPart | UnexpectedState.

Definition url_part_of (s : state) : url_part :=
  match s with
  | s_dead => BadPart
  | s_req_schema_slash | s_req_schema_slash_slash | s_req_server_start
  | s_req_query_string_start | s_req_fragment_start => Delimiter
  | s_req_schema => Part UF_SCHEMA
  | s_req_server_with_at | s_req_server => Part UF_HOST
  | s_req_path => Part UF_PATH
  | s_req_query_string => Part UF_QUERY
  | s_req_fragment => Part UF_FRAGMENT
  | _ => UnexpectedState
  end.

(** The result is [found_at], [None] for [return 1]. *)
Fixpoint url_loop (buf : list Z) (i : nat) (s : state) (old_uf : http_parser_url_fields) (found_at : bool)
    : comp http_parser_url (option bool) :=
  match buf with
  | [] => ret (Some found_at)
  | ch :: buf =>
      let s := parse_url_char s ch in
      let found_at := found_at || bool_decide (s = s_req_server_with_at) in
      match url_part_of s with
      | BadPart => ret None
      | UnexpectedState => fail Abort
      | Delimiter => url_loop buf (S i) s old_uf found_at
      | Part uf =>
          if decide (uf = old_uf) then do! modify (inc_len uf) in url_loop buf (S i) s old_uf found_at
          else
            do! modify (fun u => mark_set uf (put_len uf 1 (put_off uf i u))) in
            url_loop buf (S i) s uf found_at
      end
  end.

(** The value of the port, [None] when it does not fit 16 bits. *)
Fixpoint port_loop (digits : list Z) (v : Z) : option Z :=
  match digits with
  | [] => Some v
  | c :: digits =>
      let v := wrap 64 (v * 10 + (c - "0"%ch)) in
      if 65535 <? v then None else port_loop digits v
  end.

Definition http_parser_parse_url (buf : list Z) (is_connect : bool) : comp http_parser_url Z :=
  if (length buf =? 0)%nat then ret 1 else
  do! modify (fun u => set_port 0 (set_field_set 0 u)) in
  let! r := url_loop buf 0 (if is_connect then s_req_server_start else s_req_spaces_before_url) UF_MAX false in
  match r with
  | None => ret 1
  | Some found_at =>
      let! schema := get (is_set UF_SCHEMA) in
      let! host := get (is_set UF_HOST) in
      if schema && negb host then ret 1 else
      let! rt := (if host then http_parse_host buf found_at else ret 0) in
      if negb (rt =? 0) then ret 1 else
      let! fs := get field_set in
      if is_connect && negb (fs =? Z.lor (Z.shiftl 1 1) (Z.shiftl 1 2)) then ret 1 else
      let! has_port := get (is_set UF_PORT) in
      if has_port then
        let! p := get (fun u => field_data u UF_PORT) in
        let '(off, len) := p in
        do! CCZOE_ASSERT (off + len <=? Z.of_nat (length buf)) in
        match port_loop (take (Z.to_nat len) (drop (Z.to_nat off) buf)) 0 with
        | None => ret 1
        | Some v => do! modify (set_port (wrap 16 v)) in ret 0
        end
      else ret 0
  end.
