(* ===== verification/ParserState.v ===== *)
(** * ParserState: the objects of http_parser

    Models [http_parser] and [http_parser_settings] of
    [Net/Http/parser/http_parser.h], the local variables of [http_parser_execute],
    and the small functions of [http_parser.cpp] on a parser.

    [data] is the object of the user behind the [void *] of that name; a callback
    is a computation on the parser, and with it on that object. *)

From stdpp Require Import base list numbers.
From S2P Require Import Prelude Words ParserTables.

Local Open Scope Z_scope.

(** ** The parser.  [flags] has 8 bits, [index] 5, [nread] 32, [content_length]
    64, the versions and the status code 16, [method] 8. *)

Record http_parser (D : Type) : Type := mkParser {
  type_ : http_parser_type;
  flags : Z;
  state_ : state;
  header_state : header_states;
  index : Z;
  uses_transfer_encoding : bool;
  allow_chunked_length : bool;
  lenient_http_headers : bool;
  nread : Z;
  content_length : Z;
  http_major : Z;
  http_minor : Z;
  status_code : Z;
  method : Z;
  errno : http_errno;
  upgrade : bool;
  data : D
}.
Arguments type_ {D} _.
Arguments flags {D} _.
Arguments state_ {D} _.
Arguments header_state {D} _.
Arguments index {D} _.
Arguments uses_transfer_encoding {D} _.
Arguments allow_chunked_length {D} _.
Arguments lenient_http_headers {D} _.
Arguments nread {D} _.
Arguments content_length {D} _.
Arguments http_major {D} _.
Arguments http_minor {D} _.
Arguments status_code {D} _.
Arguments method {D} _.
Arguments errno {D} _.
Arguments upgrade {D} _.
Arguments data {D} _.
Arguments mkParser {D}.

Section setters.
Context {D : Type}.

Definition set_type_ (v : http_parser_type) (x : http_parser D) : http_parser D :=
  mkParser v (flags x) (state_ x) (header_state x) (index x) (uses_transfer_encoding x) (allow_chunked_length x) (lenient_http_headers x) (nread x) (content_length x) (http_major x) (http_minor x) (status_code x) (method x) (errno x) (upgrade x) (data x).
Definition set_flags (v : Z) (x : http_parser D) : http_parser D :=
  mkParser (type_ x) v (state_ x) (header_state x) (index x) (uses_transfer_encoding x) (allow_chunked_length x) (lenient_http_headers x) (nread x) (content_length x) (http_major x) (http_minor x) (status_code x) (method x) (errno x) (upgrade x) (data x).
Definition set_state_ (v : state) (x : http_parser D) : http_parser D :=
  mkParser (type_ x) (flags x) v (header_state x) (index x) (uses_transfer_encoding x) (allow_chunked_length x) (lenient_http_headers x) (nread x) (content_length x) (http_major x) (http_minor x) (status_code x) (method x) (errno x) (upgrade x) (data x).
Definition set_header_state (v : header_states) (x : http_parser D) : http_parser D :=
  mkParser (type_ x) (flags x) (state_ x) v (index x) (uses_transfer_encoding x) (allow_chunked_length x) (lenient_http_headers x) (nread x) (content_length x) (http_major x) (http_minor x) (status_code x) (method x) (errno x) (upgrade x) (data x).
Definition set_index (v : Z) (x : http_parser D) : http_parser D :=
  mkParser (type_ x) (flags x) (state_ x) (header_state x) v (uses_transfer_encoding x) (allow_chunked_length x) (lenient_http_headers x) (nread x) (content_length x) (http_major x) (http_minor x) (status_code x) (method x) (errno x) (upgrade x) (data x).
Definition set_uses_transfer_encoding (v : bool) (x : http_parser D) : http_parser D :=
  mkParser (type_ x) (flags x) (state_ x) (header_state x) (index x) v (allow_chunked_length x) (lenient_http_headers x) (nread x) (content_length x) (http_major x) (http_minor x) (status_code x) (method x) (errno x) (upgrade x) (data x).
Definition set_allow_chunked_length (v : bool) (x : http_parser D) : http_parser D :=
  mkParser (type_ x) (flags x) (state_ x) (header_state x) (index x) (uses_transfer_encoding x) v (lenient_http_headers x) (nread x) (content_length x) (http_major x) (http_minor x) (status_code x) (method x) (errno x) (upgrade x) (data x).
Definition set_lenient_http_headers (v : bool) (x : http_parser D) : http_parser D :=
  mkParser (type_ x) (flags x) (state_ x) (header_state x) (index x) (uses_transfer_encoding x) (allow_chunked_length x) v (nread x) (content_length x) (http_major x) (http_minor x) (status_code x) (method x) (errno x) (upgrade x) (data x).
Definition set_nread (v : Z) (x : http_parser D) : http_parser D :=
  mkParser (type_ x) (flags x) (state_ x) (header_state x) (index x) (uses_transfer_encoding x) (allow_chunked_length x) (lenient_http_headers x) v (content_length x) (http_major x) (http_minor x) (status_code x) (method x) (errno x) (upgrade x) (data x).
Definition set_content_length (v : Z) (x : http_parser D) : http_parser D :=
  mkParser (type_ x) (flags x) (state_ x) (header_state x) (index x) (uses_transfer_encoding x) (allow_chunked_length x) (lenient_http_headers x) (nread x) v (http_major x) (http_minor x) (status_code x) (method x) (errno x) (upgrade x) (data x).
Definition set_http_major (v : Z) (x : http_parser D) : http_parser D :=
  mkParser (type_ x) (flags x) (state_ x) (header_state x) (index x) (uses_transfer_encoding x) (allow_chunked_length x) (lenient_http_headers x) (nread x) (content_length x) v (http_minor x) (status_code x) (method x) (errno x) (upgrade x) (data x).
Definition set_http_minor (v : Z) (x : http_parser D) : http_parser D :=
  mkParser (type_ x) (flags x) (state_ x) (header_state x) (index x) (uses_transfer_encoding x) (allow_chunked_length x) (lenient_http_headers x) (nread x) (content_length x) (http_major x) v (status_code x) (method x) (errno x) (upgrade x) (data x).
Definition set_status_code (v : Z) (x : http_parser D) : http_parser D :=
  mkParser (type_ x) (flags x) (state_ x) (header_state x) (index x) (uses_transfer_encoding x) (allow_chunked_length x) (lenient_http_headers x) (nread x) (content_length x) (http_major x) (http_minor x) v (method x) (errno x) (upgrade x) (data x).
Definition set_method (v : Z) (x : http_parser D) : http_parser D :=
  mkParser (type_ x) (flags x) (state_ x) (header_state x) (index x) (uses_transfer_encoding x) (allow_chunked_length x) (lenient_http_headers x) (nread x) (content_length x) (http_major x) (http_minor x) (status_code x) v (errno x) (upgrade x) (data x).
Definition set_errno (v : http_errno) (x : http_parser D) : http_parser D :=
  mkParser (type_ x) (flags x) (state_ x) (header_state x) (index x) (uses_transfer_encoding x) (allow_chunked_length x) (lenient_http_headers x) (nread x) (content_length x) (http_major x) (http_minor x) (status_code x) (method x) v (upgrade x) (data x).
Definition set_upgrade (v : bool) (x : http_parser D) : http_parser D :=
  mkParser (type_ x) (flags x) (state_ x) (header_state x) (index x) (uses_transfer_encoding x) (allow_chunked_length x) (lenient_http_headers x) (nread x) (content_length x) (http_major x) (http_minor x) (status_code x) (method x) (errno x) v (data x).
Definition set_data (v : D) (x : http_parser D) : http_parser D :=
  mkParser (type_ x) (flags x) (state_ x) (header_state x) (index x) (uses_transfer_encoding x) (allow_chunked_length x) (lenient_http_headers x) (nread x) (content_length x) (http_major x) (http_minor x) (status_code x) (method x) (errno x) (upgrade x) v.
End setters.

(** ** Settings *)

Inductive notify_cb : Set := message_begin | message_complete | chunk_header | chunk_complete.
Inductive data_cb : Set := url | status | header_field | header_value | body.

#[global] Instance data_cb_eq_dec : EqDecision data_cb.
Proof. solve_decision. Defined.

(** Each may be null. *)
Record http_parser_settings (D : Type) : Type := mkSettings {
  on_message_begin : option (comp (http_parser D) Z);
  on_url : option (list Z -> comp (http_parser D) Z);
  on_status : option (list Z -> comp (http_parser D) Z);
  on_header_field : option (list Z -> comp (http_parser D) Z);
  on_header_value : option (list Z -> comp (http_parser D) Z);
  on_headers_complete : option (comp (http_parser D) Z);
  on_body : option (list Z -> comp (http_parser D) Z);
  on_message_complete : option (comp (http_parser D) Z);
  on_chunk_header : option (comp (http_parser D) Z);
  on_chunk_complete : option (comp (http_parser D) Z)
}.
Arguments mkSettings {D}.
Arguments on_message_begin {D} _.
Arguments on_url {D} _.
Arguments on_status {D} _.
Arguments on_header_field {D} _.
Arguments on_header_value {D} _.
Arguments on_headers_complete {D} _.
Arguments on_body {D} _.
Arguments on_message_complete {D} _.
Arguments on_chunk_header {D} _.
Arguments on_chunk_complete {D} _.

Definition http_parser_settings_init {D} : http_parser_settings D :=
  mkSettings None None None None None None None None None None.

(** [settings->on_##FOR] and [HPE_CB_##FOR]. *)
Definition notify_of {D} (s : http_parser_settings D) (n : notify_cb) : option (comp (http_parser D) Z) :=
  match n with
  | message_begin => on_message_begin s | message_complete => on_message_complete s
  | chunk_header => on_chunk_header s | chunk_complete => on_chunk_complete s
  end.
Definition notify_errno (n : notify_cb) : http_errno :=
  match n with
  | message_begin => HPE_CB_message_begin | message_complete => HPE_CB_message_complete
  | chunk_header => HPE_CB_chunk_header | chunk_complete => HPE_CB_chunk_complete
  end.
Definition data_of {D} (s : http_parser_settings D) (n : data_cb) : option (list Z -> comp (http_parser D) Z) :=
  match n with
  | url => on_url s | status => on_status s | header_field => on_header_field s
  | header_value => on_header_value s | body => on_body s
  end.
Definition data_errno (n : data_cb) : http_errno :=
  match n with
  | url => HPE_CB_url | status => HPE_CB_status | header_field => HPE_CB_header_field
  | header_value => HPE_CB_header_value | body => HPE_CB_body
  end.

(** ** The local variables of [http_parser_execute]: [p - data], [p_state],
    [nread] and the marks. *)
Record exec (D : Type) : Type := mkExec {
  parser : http_parser D;
  pos : nat;
  p_state : state;
  l_nread : Z;
  marks : data_cb -> option nat
}.
Arguments parser {D} _.
Arguments pos {D} _.
Arguments p_state {D} _.
Arguments l_nread {D} _.
Arguments marks {D} _.
Arguments mkExec {D}.

Section exec_setters.
Context {D : Type}.

Definition set_parser (v : http_parser D) (x : exec D) : exec D :=
  mkExec v (pos x) (p_state x) (l_nread x) (marks x).
Definition set_pos (v : nat) (x : exec D) : exec D :=
  mkExec (parser x) v (p_state x) (l_nread x) (marks x).
Definition set_p_state (v : state) (x : exec D) : exec D :=
  mkExec (parser x) (pos x) v (l_nread x) (marks x).
Definition set_l_nread (v : Z) (x : exec D) : exec D :=
  mkExec (parser x) (pos x) (p_state x) v (marks x).
Definition set_marks (v : data_cb -> option nat) (x : exec D) : exec D :=
  mkExec (parser x) (pos x) (p_state x) (l_nread x) v.

Definition set_mark (n : data_cb) (v : option nat) (x : exec D) : exec D :=
  set_marks (fun m => if decide (m = n) then v else marks x m) x.
End exec_setters.

(** ** Functions on a parser *)

Section parser.
Context {D : Type}.
Implicit Types ps : http_parser D.

Definition ULLONG_MAX : Z := 2 ^ 64 - 1.

(** [parser->flags & f] *)
Definition has_flag (f : Z) ps : bool := negb (Z.land (flags ps) f =? 0).
(** [parser->flags |= f] *)
Definition add_flag (f : Z) ps : http_parser D := set_flags (Z.lor (flags ps) f) ps.

Definition http_message_needs_eof ps : bool :=
  if decide (type_ ps = HTTP_REQUEST) then false
  else if (Z.quot (status_code ps) 100 =? 1) || (status_code ps =? 204) || (status_code ps =? 304) || has_flag F_SKIPBODY ps
  then false
  else if uses_transfer_encoding ps && negb (has_flag F_CHUNKED ps) then true
  else if has_flag F_CHUNKED ps || negb (content_length ps =? ULLONG_MAX) then false
  else true.

Definition http_should_keep_alive ps : bool :=
  if (0 <? http_major ps) && (0 <? http_minor ps)
  then if has_flag F_CONNECTION_CLOSE ps then false else negb (http_message_needs_eof ps)
  else if negb (has_flag F_CONNECTION_KEEP_ALIVE ps) then false else negb (http_message_needs_eof ps).

Definition start_state ps : state := if decide (type_ ps = HTTP_REQUEST) then s_start_req else s_start_res.

Definition NEW_MESSAGE ps : state := if http_should_keep_alive ps then start_state ps else s_dead.

(** [http_parser_init]: only [data] is kept. *)
Definition http_parser_init (t : http_parser_type) (d : D) : http_parser D :=
  mkParser t 0
    (match t with HTTP_REQUEST => s_start_req | HTTP_RESPONSE => s_start_res | HTTP_BOTH => s_start_req_or_res end)
    h_general 0 false false false 0 0 0 0 0 0 HPE_OK false d.

(** [http_parser_pause] *)
Definition http_parser_pause (paused : bool) : comp (http_parser D) unit :=
  let! e := get errno in
  if bool_decide (e = HPE_OK) || bool_decide (e = HPE_PAUSED)
  then modify (set_errno (if paused then HPE_PAUSED else HPE_OK))
  else fail Abort.

Definition http_body_is_final ps : bool := bool_decide (state_ ps = s_message_done).
End parser.

Definition http_method_str (m : Z) : list Z := nth (Z.to_nat m) method_strings [60; 117; 110; 107; 110; 111; 119; 110; 62].

Definition http_parser_version : Z := Z.lor (Z.lor (2 * 65536) (9 * 256)) (4 * 1).
