(* ===== verification/ParserExec.v ===== *)
(** * ParserExec: http_parser_execute

    Models [http_parser_execute] of [Net/Http/parser/http_parser.cpp]: one
    definition for each case of its [switch], the loop over the bytes with its
    [goto reexecute] and [goto error], and what surrounds it.

    A macro that may leave the function takes the rest of the case as its last
    argument.  The marks are offsets in the bytes given, and a data callback
    receives the bytes from its mark on. *)

From stdpp Require Import base list numbers.
From S2P Require Import Prelude Words ParserTables ParserUrl ParserState.

Local Open Scope Z_scope.

Section execute.
Context {D : Type}.
Variable max_header_size : Z.
Variable settings : http_parser_settings D.
Variable bytes : list Z.

#[local] Notation len := (length bytes).

(** ** Control *)

(** How a case ends: with [break], at the labels [reexecute] (where [ch] has its
    current value) and [error], or in a [return]. *)
Inductive flow : Set :=
  | Break
  | Reexecute (ch : Z)
  | GotoError
  | Return (n : nat).

Definition act : Type := comp (exec D) flow.

Definition break : act := ret Break.
Definition REEXECUTE (ch : Z) : act := ret (Reexecute ch).
Definition UPDATE_STATE (s : state) : comp (exec D) unit := modify (set_p_state s).

(** An assignment to a member of [parser], and the value of one. *)
Definition put (f : http_parser D -> http_parser D) : comp (exec D) unit :=
  modify (fun e => set_parser (f (parser e)) e).
Definition member {A} (f : http_parser D -> A) : comp (exec D) A := get (fun e => f (parser e)).

Definition SET_ERRNO (e : http_errno) : comp (exec D) unit :=
  modify (fun x => set_parser (set_errno e (set_nread (l_nread x) (parser x))) x).

(** [SET_ERRNO(e); goto error;] *)
Definition error (e : http_errno) : act := do! SET_ERRNO e in ret GotoError.

Definition RETURN (v : nat) : act :=
  do! modify (fun x => set_parser (set_state_ (p_state x) (set_nread (l_nread x) (parser x))) x) in
  ret (Return v).

Definition COUNT_HEADER_SIZE (v : nat) (k : act) : act :=
  do! modify (fun x => set_l_nread (wrap 32 (l_nread x + wrap 32 (Z.of_nat v))) x) in
  let! n := get l_nread in
  if max_header_size <? n then error HPE_HEADER_OVERFLOW else k.

Definition STRICT_CHECK (cond : bool) (k : act) : act := if cond then error HPE_STRICT else k.

(** [assert], and [data[i]]. *)
Definition assert (b : bool) : comp (exec D) unit := CCZOE_ASSERT b.
Definition char_at (i : nat) : comp (exec D) Z :=
  match bytes !! i with Some c => ret c | None => fail UB end.

(** ** Callbacks *)

(** What the callback macros share once the callback is known: the state is saved
    before and read back after, and the function returns [ER] unless all is well. *)
Definition call_back (f : comp (http_parser D) Z) (e : http_errno) (ER : nat) (k : act) : act :=
  let! s := get p_state in
  do! put (set_state_ s) in
  let! rt := lift parser set_parser f in
  do! (if negb (rt =? 0) then SET_ERRNO e else ret tt) in
  let! s := member state_ in
  do! UPDATE_STATE s in
  let! e := member errno in
  if decide (e = HPE_OK) then k else ret (Return ER).

Definition CALLBACK_NOTIFY_ (n : notify_cb) (ER : nat) (k : act) : act :=
  let! e := member errno in
  do! assert (bool_decide (e = HPE_OK)) in
  match notify_of settings n with
  | Some f => call_back f (notify_errno n) ER k
  | None => k
  end.

Definition CALLBACK_NOTIFY (n : notify_cb) (k : act) : act :=
  let! p := get pos in CALLBACK_NOTIFY_ n (p + 1) k.
Definition CALLBACK_NOTIFY_NOADVANCE (n : notify_cb) (k : act) : act :=
  let! p := get pos in CALLBACK_NOTIFY_ n p k.

(** [extra] is 1 where the byte at [p] belongs to the data. *)
Definition CALLBACK_DATA_ (n : data_cb) (extra ER : nat) (k : act) : act :=
  let! e := member errno in
  do! assert (bool_decide (e = HPE_OK)) in
  let! m := get (fun x => marks x n) in
  match m with
  | None => k
  | Some start =>
      let! p := get pos in
      let k := do! modify (set_mark n None) in k in
      match data_of settings n with
      | Some f => call_back (f (take (p - start + extra) (drop start bytes))) (data_errno n) ER k
      | None => k
      end
  end.

Definition CALLBACK_DATA (n : data_cb) (k : act) : act :=
  let! p := get pos in CALLBACK_DATA_ n 0 (p + 1) k.
Definition CALLBACK_DATA_NOADVANCE (n : data_cb) (k : act) : act :=
  let! p := get pos in CALLBACK_DATA_ n 0 p k.

Definition MARK (n : data_cb) : comp (exec D) unit :=
  modify (fun x => match marks x n with None => set_mark n (Some (pos x)) x | Some _ => x end).

Definition inc_index : comp (exec D) unit := put (fun ps => set_index (wrap 5 (index ps + 1)) ps).
Definition put_hs (h : header_states) : comp (exec D) unit := put (set_header_state h).

(** ** The start of a message *)

(** What the three start states reset. *)
Definition start_message : comp (exec D) unit :=
  put (fun ps => set_content_length ULLONG_MAX (set_uses_transfer_encoding false (set_flags 0 ps))).

Definition case_dead (ch : Z) : act :=
  if (ch =? CR) || (ch =? LF) then break else error HPE_CLOSED_CONNECTION.

Definition case_start_req_or_res (ch : Z) : act :=
  if (ch =? CR) || (ch =? LF) then break else
  do! start_message in
  if ch =? "H"%ch then
    do! UPDATE_STATE s_res_or_resp_H in
    CALLBACK_NOTIFY message_begin break
  else
    do! put (set_type_ HTTP_REQUEST) in
    do! UPDATE_STATE s_start_req in
    REEXECUTE ch.

Definition case_res_or_resp_H (ch : Z) : act :=
  if ch =? "T"%ch then
    do! put (set_type_ HTTP_RESPONSE) in
    do! UPDATE_STATE s_res_HT in break
  else if negb (ch =? "E"%ch) then error HPE_INVALID_CONSTANT
  else
    do! put (fun ps => set_index 2 (set_method HTTP_HEAD (set_type_ HTTP_REQUEST ps))) in
    do! UPDATE_STATE s_req_method in break.

(** ** The status line *)

Definition case_start_res (ch : Z) : act :=
  if (ch =? CR) || (ch =? LF) then break else
  do! start_message in
  if ch =? "H"%ch then
    do! UPDATE_STATE s_res_H in
    CALLBACK_NOTIFY message_begin break
  else error HPE_INVALID_CONSTANT.

(** One expected character: [STRICT_CHECK(ch != c); UPDATE_STATE(next);] *)
Definition expect (c : Z) (next : state) (ch : Z) : act :=
  STRICT_CHECK (negb (ch =? c)) (do! UPDATE_STATE next in break).

Definition case_res_H : Z -> act := expect "T"%ch s_res_HT.
Definition case_res_HT : Z -> act := expect "T"%ch s_res_HTT.
Definition case_res_HTT : Z -> act := expect "P"%ch s_res_HTTP.
Definition case_res_HTTP : Z -> act := expect "/"%ch s_res_http_major.

Definition case_res_http_major (ch : Z) : act :=
  if negb (IS_NUM ch) then error HPE_INVALID_VERSION else
  do! put (set_http_major (ch - "0"%ch)) in
  do! UPDATE_STATE s_res_http_dot in break.

Definition case_res_http_dot (ch : Z) : act :=
  if negb (ch =? "."%ch) then error HPE_INVALID_VERSION else
  do! UPDATE_STATE s_res_http_minor in break.

Definition case_res_http_minor (ch : Z) : act :=
  if negb (IS_NUM ch) then error HPE_INVALID_VERSION else
  do! put (set_http_minor (ch - "0"%ch)) in
  do! UPDATE_STATE s_res_http_end in break.

Definition case_res_http_end (ch : Z) : act :=
  if negb (ch =? " "%ch) then error HPE_INVALID_VERSION else
  do! UPDATE_STATE s_res_first_status_code in break.

Definition case_res_first_status_code (ch : Z) : act :=
  if negb (IS_NUM ch) then
    if ch =? " "%ch then break else error HPE_INVALID_STATUS
  else
    do! put (set_status_code (ch - "0"%ch)) in
    do! UPDATE_STATE s_res_status_code in break.

Definition case_res_status_code (ch : Z) : act :=
  if negb (IS_NUM ch) then
    if ch =? " "%ch then do! UPDATE_STATE s_res_status_start in break
    else if (ch =? CR) || (ch =? LF) then do! UPDATE_STATE s_res_status_start in REEXECUTE ch
    else error HPE_INVALID_STATUS
  else
    do! put (fun ps => set_status_code (wrap 16 (status_code ps * 10)) ps) in
    do! put (fun ps => set_status_code (wrap 16 (status_code ps + (ch - "0"%ch))) ps) in
    let! code := member status_code in
    if 999 <? code then error HPE_INVALID_STATUS else break.

Definition case_res_status_start (ch : Z) : act :=
  do! MARK status in
  do! UPDATE_STATE s_res_status in
  do! put (set_index 0) in
  if (ch =? CR) || (ch =? LF) then REEXECUTE ch else break.

Definition case_res_status (ch : Z) : act :=
  if ch =? CR then do! UPDATE_STATE s_res_line_almost_done in CALLBACK_DATA status break
  else if ch =? LF then do! UPDATE_STATE s_header_field_start in CALLBACK_DATA status break
  else break.

Definition case_res_line_almost_done : Z -> act := expect LF s_header_field_start.

(** ** The request line *)

(** The [switch] on the first character of a method. *)
Definition first_method (ch : Z) : option Z :=
  if ch =? "A"%ch then Some HTTP_ACL
  else if ch =? "B"%ch then Some HTTP_BIND
  else if ch =? "C"%ch then Some HTTP_CONNECT
  else if ch =? "D"%ch then Some HTTP_DELETE
  else if ch =? "G"%ch then Some HTTP_GET
  else if ch =? "H"%ch then Some HTTP_HEAD
  else if ch =? "L"%ch then Some HTTP_LOCK
  else if ch =? "M"%ch then Some HTTP_MKCOL
  else if ch =? "N"%ch then Some HTTP_NOTIFY
  else if ch =? "O"%ch then Some HTTP_OPTIONS
  else if ch =? "P"%ch then Some HTTP_POST
  else if ch =? "R"%ch then Some HTTP_REPORT
  else if ch =? "S"%ch then Some HTTP_SUBSCRIBE
  else if ch =? "T"%ch then Some HTTP_TRACE
  else if ch =? "U"%ch then Some HTTP_UNLOCK
  else None.

Definition case_start_req (ch : Z) : act :=
  if (ch =? CR) || (ch =? LF) then break else
  do! start_message in
  if negb (IS_ALPHA ch) then error HPE_INVALID_METHOD else
  do! put (fun ps => set_index 1 (set_method 0 ps)) in
  match first_method ch with
  | None => error HPE_INVALID_METHOD
  | Some m =>
      do! put (set_method m) in
      do! UPDATE_STATE s_req_method in
      CALLBACK_NOTIFY message_begin break
  end.

(** The cases [XX(meth, pos, ch, new_meth)]. *)
Definition method_switch : list (Z * Z * Z * Z) := [
  (HTTP_POST, 1, "U"%ch, HTTP_PUT); (HTTP_POST, 1, "A"%ch, HTTP_PATCH);
  (HTTP_POST, 1, "R"%ch, HTTP_PROPFIND); (HTTP_PUT, 2, "R"%ch, HTTP_PURGE);
  (HTTP_CONNECT, 1, "H"%ch, HTTP_CHECKOUT); (HTTP_CONNECT, 2, "P"%ch, HTTP_COPY);
  (HTTP_MKCOL, 1, "O"%ch, HTTP_MOVE); (HTTP_MKCOL, 1, "E"%ch, HTTP_MERGE);
  (HTTP_MKCOL, 1, "-"%ch, HTTP_MSEARCH); (HTTP_MKCOL, 2, "A"%ch, HTTP_MKACTIVITY);
  (HTTP_MKCOL, 3, "A"%ch, HTTP_MKCALENDAR); (HTTP_SUBSCRIBE, 1, "E"%ch, HTTP_SEARCH);
  (HTTP_SUBSCRIBE, 1, "O"%ch, HTTP_SOURCE); (HTTP_REPORT, 2, "B"%ch, HTTP_REBIND);
  (HTTP_PROPFIND, 4, "P"%ch, HTTP_PROPPATCH); (HTTP_LOCK, 1, "I"%ch, HTTP_LINK);
  (HTTP_UNLOCK, 2, "S"%ch, HTTP_UNSUBSCRIBE); (HTTP_UNLOCK, 2, "B"%ch, HTTP_UNBIND);
  (HTTP_UNLOCK, 3, "I"%ch, HTTP_UNLINK)].

Definition next_method (m i ch : Z) : option Z :=
  match List.find (fun '(m', i', ch', _) => (m =? m') && (i =? i') && (ch =? ch')) method_switch with
  | Some (_, _, _, new) => Some new
  | None => None
  end.

(** [method_strings[m][i]], 0 at the end of the string; past it is undefined. *)
Definition matcher_at (m i : Z) : outcome Z :=
  match method_strings !! Z.to_nat m with
  | None => UB
  | Some s =>
      if (Z.to_nat i <? length s)%nat then Ok (nth (Z.to_nat i) s 0)
      else if (Z.to_nat i =? length s)%nat then Ok 0 else UB
  end.

Definition case_req_method (ch : Z) : act :=
  if ch =? 0 then error HPE_INVALID_METHOD else
  let! m := member method in
  let! i := member index in
  let! c := fail (matcher_at m i) in
  if (ch =? " "%ch) && (c =? 0) then
    do! UPDATE_STATE s_req_spaces_before_url in
    do! inc_index in break
  else if ch =? c then do! inc_index in break
  else if ("A"%ch <=? ch) && (ch <=? "Z"%ch) || (ch =? "-"%ch) then
    match next_method m i ch with
    | Some new => do! put (set_method new) in do! inc_index in break
    | None => error HPE_INVALID_METHOD
    end
  else error HPE_INVALID_METHOD.

(** [UPDATE_STATE(parse_url_char(CURRENT_STATE(), ch))], and the check after it. *)
Definition url_char (ch : Z) : act :=
  let! s := get p_state in
  do! UPDATE_STATE (parse_url_char s ch) in
  let! s := get p_state in
  if decide (s = s_dead) then error HPE_INVALID_URL else break.

Definition case_req_spaces_before_url (ch : Z) : act :=
  if ch =? " "%ch then break else
  do! MARK url in
  let! m := member method in
  do! (if m =? HTTP_CONNECT then UPDATE_STATE s_req_server_start else ret tt) in
  url_char ch.

(** [s_req_schema] up to [s_req_server_start] *)
Definition case_req_schema (ch : Z) : act :=
  if (ch =? " "%ch) || (ch =? CR) || (ch =? LF) then error HPE_INVALID_URL else url_char ch.

(** [s_req_server] up to [s_req_fragment] *)
Definition case_req_url (ch : Z) : act :=
  if ch =? " "%ch then do! UPDATE_STATE s_req_http_start in CALLBACK_DATA url break
  else if (ch =? CR) || (ch =? LF) then
    do! put (fun ps => set_http_minor 9 (set_http_major 0 ps)) in
    do! UPDATE_STATE (if ch =? CR then s_req_line_almost_done else s_header_field_start) in
    CALLBACK_DATA url break
  else url_char ch.

Definition case_req_http_start (ch : Z) : act :=
  if ch =? " "%ch then break
  else if ch =? "H"%ch then do! UPDATE_STATE s_req_http_H in break
  else
    let! m := member method in
    if (ch =? "I"%ch) && (m =? HTTP_SOURCE) then do! UPDATE_STATE s_req_http_I in break
    else error HPE_INVALID_CONSTANT.

Definition case_req_http_H : Z -> act := expect "T"%ch s_req_http_HT.
Definition case_req_http_HT : Z -> act := expect "T"%ch s_req_http_HTT.
Definition case_req_http_HTT : Z -> act := expect "P"%ch s_req_http_HTTP.
Definition case_req_http_I : Z -> act := expect "C"%ch s_req_http_IC.
Definition case_req_http_IC : Z -> act := expect "E"%ch s_req_http_HTTP.
Definition case_req_http_HTTP : Z -> act := expect "/"%ch s_req_http_major.

Definition case_req_http_major (ch : Z) : act :=
  if negb (IS_NUM ch) then error HPE_INVALID_VERSION else
  do! put (set_http_major (ch - "0"%ch)) in
  do! UPDATE_STATE s_req_http_dot in break.

Definition case_req_http_dot (ch : Z) : act :=
  if negb (ch =? "."%ch) then error HPE_INVALID_VERSION else
  do! UPDATE_STATE s_req_http_minor in break.

Definition case_req_http_minor (ch : Z) : act :=
  if negb (IS_NUM ch) then error HPE_INVALID_VERSION else
  do! put (set_http_minor (ch - "0"%ch)) in
  do! UPDATE_STATE s_req_http_end in break.

Definition case_req_http_end (ch : Z) : act :=
  if ch =? CR then do! UPDATE_STATE s_req_line_almost_done in break
  else if ch =? LF then do! UPDATE_STATE s_header_field_start in break
  else error HPE_INVALID_VERSION.

Definition case_req_line_almost_done (ch : Z) : act :=
  if negb (ch =? LF) then error HPE_LF_EXPECTED else
  do! UPDATE_STATE s_header_field_start in break.

(** ** The name of a header *)

Definition CONNECTION : list Z := [99; 111; 110; 110; 101; 99; 116; 105; 111; 110].
Definition PROXY_CONNECTION : list Z := [112; 114; 111; 120; 121; 45] ++ CONNECTION.
Definition CONTENT_LENGTH : list Z := [99; 111; 110; 116; 101; 110; 116; 45; 108; 101; 110; 103; 116; 104].
Definition TRANSFER_ENCODING : list Z :=
  [116; 114; 97; 110; 115; 102; 101; 114; 45; 101; 110; 99; 111; 100; 105; 110; 103].
Definition UPGRADE : list Z := [117; 112; 103; 114; 97; 100; 101].
Definition CHUNKED : list Z := [99; 104; 117; 110; 107; 101; 100].
Definition KEEP_ALIVE : list Z := [107; 101; 101; 112; 45; 97; 108; 105; 118; 101].
Definition CLOSE : list Z := [99; 108; 111; 115; 101].

Definition case_header_field_start (ch : Z) : act :=
  if ch =? CR then do! UPDATE_STATE s_headers_almost_done in break
  else if ch =? LF then do! UPDATE_STATE s_headers_almost_done in REEXECUTE ch
  else
    let c := TOKEN ch in
    if c =? 0 then error HPE_INVALID_HEADER_TOKEN else
    do! MARK header_field in
    do! put (set_index 0) in
    do! UPDATE_STATE s_header_field in
    do! put_hs (if c =? "c"%ch then h_C
                else if c =? "p"%ch then h_matching_proxy_connection
                else if c =? "t"%ch then h_matching_transfer_encoding
                else if c =? "u"%ch then h_matching_upgrade
                else h_general) in
    break.

(** [parser->index++], and where the name then is: it differs from [name] at
    [index], it has just ended, or neither. *)
Inductive matched : Set := Mismatch | Complete | Matching.

Definition match_next (name : list Z) (c : Z) : comp (exec D) matched :=
  do! inc_index in
  let! i := member index in
  if (Z.of_nat (length name) <? i) || negb (c =? nth (Z.to_nat i) name 0) then ret Mismatch
  else if i =? Z.of_nat (length name) - 1 then ret Complete
  else ret Matching.

(** A name that has matched so far. *)
Definition match_name (name : list Z) (c : Z) (found : comp (exec D) unit) : comp (exec D) unit :=
  let! r := match_next name c in
  match r with
  | Mismatch => put_hs h_general
  | Complete => found
  | Matching => ret tt
  end.

(** [while (p+1 < pe && TOKEN(p[1])) p++;] *)
Fixpoint skip_tokens (fuel pe : nat) : comp (exec D) unit :=
  let! p := get pos in
  if (p + 1 <? pe)%nat then
    match fuel with
    | O => fail Diverge
    | S fuel =>
        let! c := char_at (p + 1) in
        if TOKEN c =? 0 then ret tt else
        do! modify (set_pos (p + 1)) in
        skip_tokens fuel pe
    end
  else ret tt.

(** [p + MIN(left, max_header_size)] *)
Definition pe_of (p : nat) : nat := p + Z.to_nat (Z.min (Z.of_nat (len - p)) max_header_size).

(** The [switch] on [header_state] for a character of the name. *)
Definition header_field_char (ch c : Z) : comp (exec D) unit :=
  let! h := member header_state in
  match h with
  | h_general => let! p := get pos in skip_tokens len (pe_of p)
  | h_C => do! inc_index in put_hs (if c =? "o"%ch then h_CO else h_general)
  | h_CO => do! inc_index in put_hs (if c =? "n"%ch then h_CON else h_general)
  | h_CON =>
      do! inc_index in
      put_hs (if c =? "n"%ch then h_matching_connection
              else if c =? "t"%ch then h_matching_content_length else h_general)
  | h_matching_connection => match_name CONNECTION c (put_hs h_connection)
  | h_matching_proxy_connection => match_name PROXY_CONNECTION c (put_hs h_connection)
  | h_matching_content_length => match_name CONTENT_LENGTH c (put_hs h_content_length)
  | h_matching_transfer_encoding =>
      match_name TRANSFER_ENCODING c
        (put (fun ps => set_uses_transfer_encoding true (set_header_state h_transfer_encoding ps)))
  | h_matching_upgrade => match_name UPGRADE c (put_hs h_upgrade)
  | h_connection | h_content_length | h_transfer_encoding | h_upgrade =>
      if negb (ch =? " "%ch) then put_hs h_general else ret tt
  | _ => fail Abort
  end.

(** The loop over the characters of the name; the result is [ch] after it. *)
Fixpoint header_field_loop (fuel : nat) (ch : Z) : comp (exec D) Z :=
  let! p := get pos in
  if (p =? len)%nat then ret ch else
  match fuel with
  | O => fail Diverge
  | S fuel =>
      let! ch := char_at p in
      let c := TOKEN ch in
      if c =? 0 then ret ch else
      do! header_field_char ch c in
      do! modify (fun x => set_pos (pos x + 1) x) in
      header_field_loop fuel ch
  end.

Definition case_header_field (ch : Z) : act :=
  let! start := get pos in
  let! ch := header_field_loop len ch in
  let! p := get pos in
  if (p =? len)%nat then
    do! modify (set_pos (p - 1)) in
    COUNT_HEADER_SIZE (p - 1 - start) break
  else
    COUNT_HEADER_SIZE (p - start) (
      if ch =? ":"%ch then
        do! UPDATE_STATE s_header_value_discard_ws in
        CALLBACK_DATA header_field break
      else error HPE_INVALID_HEADER_TOKEN).

(** ** The value of a header *)

Definition case_header_value_start (ch : Z) : act :=
  do! MARK header_value in
  do! UPDATE_STATE s_header_value in
  do! put (set_index 0) in
  let c := LOWER ch in
  let! h := member header_state in
  match h with
  | h_upgrade => do! put (fun ps => set_header_state h_general (add_flag F_UPGRADE ps)) in break
  | h_transfer_encoding =>
      do! put_hs (if c =? "c"%ch then h_matching_transfer_encoding_chunked
                  else h_matching_transfer_encoding_token) in break
  | h_matching_transfer_encoding_token_start => break
  | h_content_length =>
      if negb (IS_NUM ch) then error HPE_INVALID_CONTENT_LENGTH else
      let! seen := member (has_flag F_CONTENTLENGTH) in
      if seen : bool then error HPE_UNEXPECTED_CONTENT_LENGTH else
      do! put (fun ps => set_header_state h_content_length_num
                           (set_content_length (ch - "0"%ch) (add_flag F_CONTENTLENGTH ps))) in
      break
  | h_content_length_ws => break
  | h_connection =>
      do! put_hs (if c =? "k"%ch then h_matching_connection_keep_alive
                  else if c =? "c"%ch then h_matching_connection_close
                  else if c =? "u"%ch then h_matching_connection_upgrade
                  else h_matching_connection_token) in break
  | h_matching_connection_token_start => break
  | _ => do! put_hs h_general in break
  end.

Definition case_header_value_discard_ws (ch : Z) : act :=
  if (ch =? " "%ch) || (ch =? TAB) then break
  else if ch =? CR then do! UPDATE_STATE s_header_value_discard_ws_almost_done in break
  else if ch =? LF then do! UPDATE_STATE s_header_value_discard_lws in break
  else case_header_value_start ch.

(** [for (; p != pe; p++)] of [h_general]: the result is whether an error was
    found. *)
Fixpoint general_value_loop (fuel pe : nat) : comp (exec D) bool :=
  let! p := get pos in
  if (p =? pe)%nat then ret false else
  match fuel with
  | O => fail Diverge
  | S fuel =>
      let! ch := char_at p in
      if (ch =? CR) || (ch =? LF) then do! modify (set_pos (p - 1)) in ret false else
      let! lenient := member lenient_http_headers in
      if negb lenient && negb (IS_HEADER_CHAR ch) then do! SET_ERRNO HPE_INVALID_HEADER_TOKEN in ret true else
      do! modify (set_pos (p + 1)) in
      general_value_loop fuel pe
  end.

(** The result of the [switch] on [h_state]: its new value, or [goto error]. *)
Definition stay (h : header_states) : comp (exec D) (option header_states) := ret (Some h).
Definition value_error (e : http_errno) (h : header_states) : comp (exec D) (option header_states) :=
  do! SET_ERRNO e in do! put_hs h in ret None.

(** A value that is compared with a keyword, in lower case. *)
Definition match_value (name : list Z) (c : Z) (same found no : header_states)
    : comp (exec D) (option header_states) :=
  let! r := match_next name c in
  stay (match r with Mismatch => no | Complete => found | Matching => same end).

Definition content_length_char (ch : Z) : comp (exec D) (option header_states) :=
  if ch =? " "%ch then stay h_content_length_ws
  else if negb (IS_NUM ch) then value_error HPE_INVALID_CONTENT_LENGTH h_content_length_num
  else
    let! n := member content_length in
    let t := wrap 64 (wrap 64 (n * 10) + (ch - "0"%ch)) in
    if (ULLONG_MAX - 10) / 10 <? n then value_error HPE_INVALID_CONTENT_LENGTH h_content_length_num
    else do! put (set_content_length t) in stay h_content_length_num.

(** A token that is not a keyword, up to the next comma. *)
Definition skip_token (start same : header_states) (ch : Z) : comp (exec D) (option header_states) :=
  if ch =? ","%ch then do! put (set_index 0) in stay start else stay same.

(** After a complete keyword of [Connection]. *)
Definition after_connection (f : Z) (same : header_states) (ch : Z) : comp (exec D) (option header_states) :=
  if ch =? ","%ch then
    do! put (fun ps => set_index 0 (add_flag f ps)) in stay h_matching_connection_token_start
  else if negb (ch =? " "%ch) then stay h_matching_connection_token else stay same.

Definition header_value_char (h_state : header_states) (ch c : Z) : comp (exec D) (option header_states) :=
  match h_state with
  | h_general =>
      let! p := get pos in
      let! bad := general_value_loop len (pe_of p) in
      if bad : bool then ret None else
      let! p := get pos in
      do! (if (p =? len)%nat then modify (set_pos (p - 1)) else ret tt) in
      stay h_general
  | h_connection | h_transfer_encoding => fail Abort
  | h_content_length => if ch =? " "%ch then stay h_content_length else content_length_char ch
  | h_content_length_num => content_length_char ch
  | h_content_length_ws =>
      if ch =? " "%ch then stay h_content_length_ws
      else value_error HPE_INVALID_CONTENT_LENGTH h_content_length_ws
  | h_matching_transfer_encoding_token_start =>
      stay (if c =? "c"%ch then h_matching_transfer_encoding_chunked
            else if negb (TOKEN c =? 0) then h_matching_transfer_encoding_token
            else if (c =? " "%ch) || (c =? TAB) then h_state else h_general)
  | h_matching_transfer_encoding_chunked =>
      match_value CHUNKED c h_state h_transfer_encoding_chunked h_matching_transfer_encoding_token
  | h_matching_transfer_encoding_token => skip_token h_matching_transfer_encoding_token_start h_state ch
  | h_matching_connection_token_start =>
      stay (if c =? "k"%ch then h_matching_connection_keep_alive
            else if c =? "c"%ch then h_matching_connection_close
            else if c =? "u"%ch then h_matching_connection_upgrade
            else if negb (TOKEN c =? 0) then h_matching_connection_token
            else if (c =? " "%ch) || (c =? TAB) then h_state else h_general)
  | h_matching_connection_keep_alive =>
      match_value KEEP_ALIVE c h_state h_connection_keep_alive h_matching_connection_token
  | h_matching_connection_close =>
      match_value CLOSE c h_state h_connection_close h_matching_connection_token
  | h_matching_connection_upgrade =>
      match_value UPGRADE c h_state h_connection_upgrade h_matching_connection_token
  | h_matching_connection_token => skip_token h_matching_connection_token_start h_state ch
  | h_transfer_encoding_chunked =>
      stay (if negb (ch =? " "%ch) then h_matching_transfer_encoding_token else h_state)
  | h_connection_keep_alive => after_connection F_CONNECTION_KEEP_ALIVE h_state ch
  | h_connection_close => after_connection F_CONNECTION_CLOSE h_state ch
  | h_connection_upgrade => after_connection F_CONNECTION_UPGRADE h_state ch
  | _ => do! UPDATE_STATE s_header_value in stay h_general
  end.

(** The loop over the characters of the value, from [start], and what follows it.
    [after] is the code after the loop. *)
Definition after_header_value (start : nat) (h_state : header_states) : act :=
  do! put_hs h_state in
  let! p := get pos in
  let p := if (p =? len)%nat then (p - 1)%nat else p in
  do! modify (set_pos p) in
  COUNT_HEADER_SIZE (p - start) break.

Fixpoint header_value_loop (fuel start : nat) (h_state : header_states) : act :=
  let! p := get pos in
  if (p =? len)%nat then after_header_value start h_state else
  match fuel with
  | O => fail Diverge
  | S fuel =>
      let! ch := char_at p in
      if ch =? CR then
        do! UPDATE_STATE s_header_almost_done in
        do! put_hs h_state in
        CALLBACK_DATA header_value (after_header_value start h_state)
      else if ch =? LF then
        do! UPDATE_STATE s_header_almost_done in
        COUNT_HEADER_SIZE (p - start) (
          do! put_hs h_state in
          CALLBACK_DATA_NOADVANCE header_value (REEXECUTE ch))
      else
        let! lenient := member lenient_http_headers in
        if negb lenient && negb (IS_HEADER_CHAR ch) then error HPE_INVALID_HEADER_TOKEN else
        let! r := header_value_char h_state ch (LOWER ch) in
        match r with
        | None => ret GotoError
        | Some h_state =>
            do! modify (fun x => set_pos (pos x + 1) x) in
            header_value_loop fuel start h_state
        end
  end.

Definition case_header_value (ch : Z) : act :=
  let! start := get pos in
  let! h_state := member header_state in
  header_value_loop len start h_state.

Definition case_header_almost_done (ch : Z) : act :=
  if negb (ch =? LF) then error HPE_LF_EXPECTED else
  do! UPDATE_STATE s_header_value_lws in break.

(** The flag that a finished header sets. *)
Definition finished_flag (h : header_states) : option Z :=
  match h with
  | h_connection_keep_alive => Some F_CONNECTION_KEEP_ALIVE
  | h_connection_close => Some F_CONNECTION_CLOSE
  | h_transfer_encoding_chunked => Some F_CHUNKED
  | h_connection_upgrade => Some F_CONNECTION_UPGRADE
  | _ => None
  end.

Definition finish_header : comp (exec D) unit :=
  let! h := member header_state in
  match finished_flag h with Some f => put (add_flag f) | None => ret tt end.

Definition case_header_value_lws (ch : Z) : act :=
  if (ch =? " "%ch) || (ch =? TAB) then
    let! h := member header_state in
    do! (if decide (h = h_content_length_num) then put_hs h_content_length_ws else ret tt) in
    do! UPDATE_STATE s_header_value_start in
    REEXECUTE ch
  else
    do! finish_header in
    do! UPDATE_STATE s_header_field_start in
    REEXECUTE ch.

Definition case_header_value_discard_ws_almost_done : Z -> act := expect LF s_header_value_discard_lws.

Definition case_header_value_discard_lws (ch : Z) : act :=
  if (ch =? " "%ch) || (ch =? TAB) then do! UPDATE_STATE s_header_value_discard_ws in break else
  let! h := member header_state in
  if decide (h = h_content_length) then error HPE_INVALID_CONTENT_LENGTH else
  do! finish_header in
  do! MARK header_value in
  do! UPDATE_STATE s_header_field_start in
  CALLBACK_DATA_NOADVANCE header_value (REEXECUTE ch).

(** ** The end of the headers *)

(** [parser->upgrade], before [on_headers_complete]. *)
Definition upgrade_of (ps : http_parser D) : bool :=
  if has_flag F_UPGRADE ps && has_flag F_CONNECTION_UPGRADE ps
  then bool_decide (type_ ps = HTTP_REQUEST) || (status_code ps =? 101)
  else method ps =? HTTP_CONNECT.

Definition call_headers_complete (k : act) : act :=
  match on_headers_complete settings with
  | None => k
  | Some f =>
      let! rt := lift parser set_parser f in
      if rt =? 0 then k
      else if rt =? 2 then do! put (fun ps => add_flag F_SKIPBODY (set_upgrade true ps)) in k
      else if rt =? 1 then do! put (add_flag F_SKIPBODY) in k
      else
        do! SET_ERRNO HPE_CB_headers_complete in
        let! p := get pos in RETURN p
  end.

Definition case_headers_almost_done (ch : Z) : act :=
  STRICT_CHECK (negb (ch =? LF)) (
  let! ps := get parser in
  if has_flag F_TRAILING ps then
    do! UPDATE_STATE s_message_done in
    CALLBACK_NOTIFY_NOADVANCE chunk_complete (REEXECUTE ch)
  else if uses_transfer_encoding ps && has_flag F_CONTENTLENGTH ps &&
          (if has_flag F_CHUNKED ps then negb (allow_chunked_length ps) else negb (lenient_http_headers ps))
  then error HPE_UNEXPECTED_CONTENT_LENGTH
  else
    do! UPDATE_STATE s_headers_done in
    do! put (fun ps => set_upgrade (upgrade_of ps) ps) in
    call_headers_complete (
      let! e := member errno in
      if decide (e = HPE_OK) then REEXECUTE ch
      else let! p := get pos in RETURN p)).

(** [UPDATE_STATE(NEW_MESSAGE()); CALLBACK_NOTIFY(message_complete);] *)
Definition finish_message (k : act) : act :=
  let! s := member NEW_MESSAGE in
  do! UPDATE_STATE s in
  CALLBACK_NOTIFY message_complete k.

Definition has_body (ps : http_parser D) : bool :=
  has_flag F_CHUNKED ps || (0 <? content_length ps) && negb (content_length ps =? ULLONG_MAX).

(** [parser->nread = 0; nread = 0;] *)
Definition reset_nread : comp (exec D) unit :=
  modify (fun x => set_l_nread 0 (set_parser (set_nread 0 (parser x)) x)).

Definition case_headers_done (ch : Z) : act :=
  STRICT_CHECK (negb (ch =? LF)) (
  do! reset_nread in
  let! ps := get parser in
  let! p := get pos in
  if upgrade ps && ((method ps =? HTTP_CONNECT) || has_flag F_SKIPBODY ps || negb (has_body ps)) then
    finish_message (RETURN (p + 1))
  else if has_flag F_SKIPBODY ps then finish_message break
  else if has_flag F_CHUNKED ps then do! UPDATE_STATE s_chunk_size_start in break
  else if uses_transfer_encoding ps then
    if bool_decide (type_ ps = HTTP_REQUEST) && negb (lenient_http_headers ps) then
      do! SET_ERRNO HPE_INVALID_TRANSFER_ENCODING in RETURN p
    else do! UPDATE_STATE s_body_identity_eof in break
  else if content_length ps =? 0 then finish_message break
  else if negb (content_length ps =? ULLONG_MAX) then do! UPDATE_STATE s_body_identity in break
  else if negb (http_message_needs_eof ps) then finish_message break
  else do! UPDATE_STATE s_body_identity_eof in break).

(** ** The body *)

(** [MARK(body)], and the bytes that belong to the body are consumed but for the
    last. *)
Definition take_body : comp (exec D) unit :=
  let! p := get pos in
  let! n := member content_length in
  let to_read := Z.min n (Z.of_nat (len - p)) in
  do! assert (negb (n =? 0) && negb (n =? ULLONG_MAX)) in
  do! MARK body in
  do! put (set_content_length (n - to_read)) in
  modify (set_pos (p + Z.to_nat to_read - 1)).

Definition case_body_identity (ch : Z) : act :=
  do! take_body in
  let! n := member content_length in
  if n =? 0 then
    do! UPDATE_STATE s_message_done in
    let! p := get pos in
    CALLBACK_DATA_ body 1 p (REEXECUTE ch)
  else break.

Definition case_body_identity_eof (ch : Z) : act :=
  do! MARK body in
  do! modify (set_pos (len - 1)) in break.

Definition case_message_done (ch : Z) : act :=
  finish_message (
    let! up := member upgrade in
    if up : bool then let! p := get pos in RETURN (p + 1) else break).

Definition assert_chunked : comp (exec D) unit :=
  let! b := member (has_flag F_CHUNKED) in assert b.

Definition unhex_of (ch : Z) : Z := nth (Z.to_nat ch) unhex 0.

Definition case_chunk_size_start (ch : Z) : act :=
  let! n := get l_nread in
  do! assert (n =? 1) in
  do! assert_chunked in
  if unhex_of ch =? -1 then error HPE_INVALID_CHUNK_SIZE else
  do! put (set_content_length (unhex_of ch)) in
  do! UPDATE_STATE s_chunk_size in break.

Definition case_chunk_size (ch : Z) : act :=
  do! assert_chunked in
  if ch =? CR then do! UPDATE_STATE s_chunk_size_almost_done in break
  else if unhex_of ch =? -1 then
    if (ch =? ";"%ch) || (ch =? " "%ch) then do! UPDATE_STATE s_chunk_parameters in break
    else error HPE_INVALID_CHUNK_SIZE
  else
    let! n := member content_length in
    let t := wrap 64 (wrap 64 (n * 16) + unhex_of ch) in
    if (ULLONG_MAX - 16) / 16 <? n then error HPE_INVALID_CONTENT_LENGTH else
    do! put (set_content_length t) in break.

Definition case_chunk_parameters (ch : Z) : act :=
  do! assert_chunked in
  if ch =? CR then do! UPDATE_STATE s_chunk_size_almost_done in break else break.

Definition case_chunk_size_almost_done (ch : Z) : act :=
  do! assert_chunked in
  STRICT_CHECK (negb (ch =? LF)) (
  do! reset_nread in
  let! n := member content_length in
  do! (if n =? 0 then
         do! put (add_flag F_TRAILING) in UPDATE_STATE s_header_field_start
       else UPDATE_STATE s_chunk_data) in
  CALLBACK_NOTIFY chunk_header break).

Definition case_chunk_data (ch : Z) : act :=
  do! assert_chunked in
  do! take_body in
  let! n := member content_length in
  do! (if n =? 0 then UPDATE_STATE s_chunk_data_almost_done else ret tt) in
  break.

Definition case_chunk_data_almost_done (ch : Z) : act :=
  do! assert_chunked in
  let! n := member content_length in
  do! assert (n =? 0) in
  STRICT_CHECK (negb (ch =? CR)) (
  do! UPDATE_STATE s_chunk_data_done in
  CALLBACK_DATA body break).

Definition case_chunk_data_done (ch : Z) : act :=
  do! assert_chunked in
  STRICT_CHECK (negb (ch =? LF)) (
  do! reset_nread in
  do! UPDATE_STATE s_chunk_size_start in
  CALLBACK_NOTIFY chunk_complete break).

(** ** The loop *)

Definition switch (s : state) (ch : Z) : act :=
  match s with
  | s_dead => case_dead ch
  | s_start_req_or_res => case_start_req_or_res ch
  | s_res_or_resp_H => case_res_or_resp_H ch
  | s_start_res => case_start_res ch
  | s_res_H => case_res_H ch
  | s_res_HT => case_res_HT ch
  | s_res_HTT => case_res_HTT ch
  | s_res_HTTP => case_res_HTTP ch
  | s_res_http_major => case_res_http_major ch
  | s_res_http_dot => case_res_http_dot ch
  | s_res_http_minor => case_res_http_minor ch
  | s_res_http_end => case_res_http_end ch
  | s_res_first_status_code => case_res_first_status_code ch
  | s_res_status_code => case_res_status_code ch
  | s_res_status_start => case_res_status_start ch
  | s_res_status => case_res_status ch
  | s_res_line_almost_done => case_res_line_almost_done ch
  | s_start_req => case_start_req ch
  | s_req_method => case_req_method ch
  | s_req_spaces_before_url => case_req_spaces_before_url ch
  | s_req_schema | s_req_schema_slash | s_req_schema_slash_slash | s_req_server_start => case_req_schema ch
  | s_req_server | s_req_server_with_at | s_req_path | s_req_query_string_start | s_req_query_string
  | s_req_fragment_start | s_req_fragment => case_req_url ch
  | s_req_http_start => case_req_http_start ch
  | s_req_http_H => case_req_http_H ch
  | s_req_http_HT => case_req_http_HT ch
  | s_req_http_HTT => case_req_http_HTT ch
  | s_req_http_HTTP => case_req_http_HTTP ch
  | s_req_http_I => case_req_http_I ch
  | s_req_http_IC => case_req_http_IC ch
  | s_req_http_major => case_req_http_major ch
  | s_req_http_dot => case_req_http_dot ch
  | s_req_http_minor => case_req_http_minor ch
  | s_req_http_end => case_req_http_end ch
  | s_req_line_almost_done => case_req_line_almost_done ch
  | s_header_field_start => case_header_field_start ch
  | s_header_field => case_header_field ch
  | s_header_value_discard_ws => case_header_value_discard_ws ch
  | s_header_value_discard_ws_almost_done => case_header_value_discard_ws_almost_done ch
  | s_header_value_discard_lws => case_header_value_discard_lws ch
  | s_header_value_start => case_header_value_start ch
  | s_header_value => case_header_value ch
  | s_header_value_lws => case_header_value_lws ch
  | s_header_almost_done => case_header_almost_done ch
  | s_chunk_size_start => case_chunk_size_start ch
  | s_chunk_size => case_chunk_size ch
  | s_chunk_parameters => case_chunk_parameters ch
  | s_chunk_size_almost_done => case_chunk_size_almost_done ch
  | s_headers_almost_done => case_headers_almost_done ch
  | s_headers_done => case_headers_done ch
  | s_chunk_data => case_chunk_data ch
  | s_chunk_data_almost_done => case_chunk_data_almost_done ch
  | s_chunk_data_done => case_chunk_data_done ch
  | s_body_identity => case_body_identity ch
  | s_body_identity_eof => case_body_identity_eof ch
  | s_message_done => case_message_done ch
  end.

(** The label [reexecute].  The longest chain of jumps for one byte has four. *)
Fixpoint reexecute (fuel : nat) (ch : Z) : act :=
  match fuel with
  | O => fail Diverge
  | S fuel =>
      let! s := get p_state in
      let! f := switch s ch in
      match f with Reexecute ch => reexecute fuel ch | f => ret f end
  end.

Definition one_byte (ch : Z) : act :=
  let! s := get p_state in
  if PARSING_HEADER s then COUNT_HEADER_SIZE 1 (reexecute 8 ch) else reexecute 8 ch.

(** The [for] over the bytes: [Break] when it has come to the end. *)
Fixpoint main_loop (fuel : nat) : act :=
  let! p := get pos in
  if (p =? len)%nat then break else
  match fuel with
  | O => fail Diverge
  | S fuel =>
      let! ch := char_at p in
      let! f := one_byte ch in
      match f with
      | Break => do! modify (fun x => set_pos (pos x + 1) x) in main_loop fuel
      | f => ret f
      end
  end.

(** The mark a call of the function starts with: data that the previous call cut. *)
Definition initial_mark (s : state) : option data_cb :=
  match s with
  | s_header_field => Some header_field
  | s_header_value => Some header_value
  | s_req_path | s_req_schema | s_req_schema_slash | s_req_schema_slash_slash | s_req_server_start
  | s_req_server | s_req_server_with_at | s_req_query_string_start | s_req_query_string
  | s_req_fragment_start | s_req_fragment => Some url
  | s_res_status => Some status
  | _ => None
  end.

(** At most one mark is set. *)
Definition count_marks (x : exec D) : nat :=
  let one n := match marks x n with Some _ => 1%nat | None => 0%nat end in
  one header_field + one header_value + one url + one body + one status.

(** After the loop: the callbacks for data that goes on in the next call. *)
Definition leftovers : act :=
  let! n := get count_marks in
  do! assert (n <=? 1)%nat in
  CALLBACK_DATA_NOADVANCE header_field (
  CALLBACK_DATA_NOADVANCE header_value (
  CALLBACK_DATA_NOADVANCE url (
  CALLBACK_DATA_NOADVANCE body (
  CALLBACK_DATA_NOADVANCE status (
  RETURN len))))).

(** The label [error]. *)
Definition at_error : act :=
  let! e := member errno in
  do! (if decide (e = HPE_OK) then SET_ERRNO HPE_UNKNOWN else ret tt) in
  let! p := get pos in RETURN p.

(** [len == 0]: the end of the stream. *)
Definition at_eof : act :=
  let! s := get p_state in
  match s with
  | s_body_identity_eof => CALLBACK_NOTIFY_NOADVANCE message_complete (ret (Return 0))
  | s_dead | s_start_req_or_res | s_start_res | s_start_req => ret (Return 0)
  | _ => do! SET_ERRNO HPE_INVALID_EOF_STATE in ret (Return 1)
  end.

Definition execute_body : act :=
  let! e := member errno in
  if negb (bool_decide (e = HPE_OK)) then ret (Return 0) else
  if (len =? 0)%nat then at_eof else
  let! s := get p_state in
  do! (match initial_mark s with Some n => modify (set_mark n (Some 0%nat)) | None => ret tt end) in
  let! f := main_loop len in
  match f with
  | Break => leftovers
  | GotoError => at_error
  | f => ret f
  end.

Definition http_parser_execute : comp (http_parser D) Z := fun ps =>
  match execute_body (mkExec ps 0 (state_ ps) (nread ps) (fun _ => None)) with
  | (Ok (Return n), x) => (Ok (Z.of_nat n), parser x)
  | (Ok _, x) => (UB, parser x)
  | (Throw e, x) => (Throw e, parser x)
  | (Abort, x) => (Abort, parser x)
  | (UB, x) => (UB, parser x)
  | (Deadlock, x) => (Deadlock, parser x)
  | (Diverge, x) => (Diverge, parser x)
  end.
End execute.
