(* ===== verification/ParserSafety.v ===== *)
(** * ParserSafety: http_parser_execute returns, on any bytes

    An invariant of the parser between calls, and the proof that a call keeps it:
    no assertion of the library fails, no table is read out of bounds, and the
    loop ends. *)

From stdpp Require Import base list numbers.
From S2P Require Import Prelude Words ParserTables ParserUrl ParserState ParserExec.

Local Open Scope Z_scope.

(** ** The invariant *)

(** The index is inside of the method that is compared, or at its end. *)
Definition method_ok (m i : Z) : Prop :=
  exists s, method_strings !! Z.to_nat m = Some s /\ 0 <= i <= Z.of_nat (length s).

(** The values of [header_state] while a name, and while a value is read. *)
Definition field_hs (h : header_states) : bool :=
  match h with
  | h_general | h_C | h_CO | h_CON | h_matching_connection | h_matching_proxy_connection
  | h_matching_content_length | h_matching_transfer_encoding | h_matching_upgrade
  | h_connection | h_content_length | h_transfer_encoding | h_upgrade => true
  | _ => false
  end.

Definition value_hs (h : header_states) : bool :=
  match h with h_connection | h_transfer_encoding => false | _ => true end.

(** What a state relies on; [k] is the number of bytes counted since the end of
    the headers or of the last chunk where a chunk is to start. *)
Definition st_ok {D} (k : Z) (s : state) (ps : http_parser D) (n : Z) : Prop :=
  match s with
  | s_req_method => method_ok (method ps) (index ps)
  | s_header_field => field_hs (header_state ps) = true
  | s_header_value => value_hs (header_state ps) = true
  | s_chunk_size_start => has_flag F_CHUNKED ps = true /\ n = k
  | s_chunk_size | s_chunk_parameters | s_chunk_size_almost_done =>
      has_flag F_CHUNKED ps = true /\ content_length ps <= 2 ^ 64 - 17
  | s_chunk_data => has_flag F_CHUNKED ps = true /\ 0 < content_length ps <= 2 ^ 64 - 17
  | s_chunk_data_almost_done => has_flag F_CHUNKED ps = true /\ content_length ps = 0
  | s_chunk_data_done => has_flag F_CHUNKED ps = true
  | s_body_identity => 0 < content_length ps < ULLONG_MAX
  | _ => True
  end.

(** The invariant between calls. *)
Definition parser_ok {D} (ps : http_parser D) : Prop :=
  errno ps = HPE_OK -> 0 <= content_length ps < 2 ^ 64 /\ st_ok 0 (state_ ps) ps (nread ps).

(** The states in which a mark may be set. *)
Definition owner (n : data_cb) (s : state) : bool :=
  match s with
  | s_header_field => bool_decide (n = header_field)
  | s_header_value => bool_decide (n = header_value)
  | s_req_path | s_req_schema | s_req_schema_slash | s_req_schema_slash_slash | s_req_server_start
  | s_req_server | s_req_server_with_at | s_req_query_string_start | s_req_query_string
  | s_req_fragment_start | s_req_fragment => bool_decide (n = url)
  | s_res_status => bool_decide (n = status)
  | s_body_identity | s_body_identity_eof | s_chunk_data | s_chunk_data_almost_done => bool_decide (n = body)
  | _ => false
  end.

Section safety.
Context {D : Type}.
Variable max_header_size : Z.
Variable settings : http_parser_settings D.
Variable bytes : list Z.

#[local] Notation len := (length bytes).
Implicit Types x : exec D.

(** A callback returns and changes the object of the user only; data callbacks are
    asked for no more than a piece of the bytes. *)
Definition calls_ok (f : comp (http_parser D) Z) : Prop :=
  forall ps, exists rt d, f ps = (Ok rt, set_data d ps).

Definition settings_ok : Prop :=
  (forall n f, notify_of settings n = Some f -> calls_ok f) /\
  (forall f, on_headers_complete settings = Some f -> calls_ok f) /\
  (forall n f l, data_of settings n = Some f -> (length l <= len)%nat -> calls_ok (f l)).

Hypothesis Hsettings : settings_ok.

(** The invariant inside of the loop. *)
Definition inv (k : Z) x : Prop :=
  errno (parser x) = HPE_OK /\
  0 <= content_length (parser x) < 2 ^ 64 /\
  st_ok k (p_state x) (parser x) (l_nread x) /\
  (forall n i, marks x n = Some i -> owner n (p_state x) = true /\ (i <= pos x)%nat).

(** The states from which the label [reexecute] can be reached, in order. *)
Definition rank (s : state) : nat :=
  match s with
  | s_header_value_lws | s_header_value_discard_lws => 4
  | s_header_field_start => 3
  | s_headers_almost_done => 2
  | s_res_status_code => 2
  | s_res_status_start | s_start_req_or_res | s_body_identity | s_header_value => 1
  | _ => 0
  end.

Definition post (r p : nat) (f : flow) x : Prop :=
  match f with
  | Break => inv 0 x /\ (p <= pos x < len)%nat
  | Reexecute _ => inv 1 x /\ (rank (p_state x) < r)%nat /\ (p <= pos x < len)%nat
  | GotoError => (pos x <= len)%nat /\ errno (parser x) <> HPE_OK
  | Return n => (n <= len)%nat /\ parser_ok (parser x) /\ (errno (parser x) = HPE_OK -> upgrade (parser x) = true)
  end.

(** ** The macros *)

Lemma wp_error e r p x : (pos x <= len)%nat -> e <> HPE_OK -> wp (error e) (post r p) x.
Proof. intros Hp He. eexists. eexists. split; [reflexivity|]. done. Qed.

Lemma wp_count v k Q x :
  (wp (error HPE_HEADER_OVERFLOW) Q (set_l_nread (wrap 32 (l_nread x + wrap 32 (Z.of_nat v))) x)) ->
  wp k Q (set_l_nread (wrap 32 (l_nread x + wrap 32 (Z.of_nat v))) x) ->
  wp (COUNT_HEADER_SIZE max_header_size v k) Q x.
Proof.
  intros He Hk. unfold COUNT_HEADER_SIZE. apply wp_bind, wp_modify, wp_bind, wp_get. by destruct (_ <? _).
Qed.

Lemma wp_strict (b : bool) k Q x :
  (b = true -> wp (error HPE_STRICT) Q x) -> (b = false -> wp k Q x) -> wp (STRICT_CHECK b k) Q x.
Proof. intros He Hk. unfold STRICT_CHECK. destruct b; auto. Qed.

Lemma wp_mark n Q x :
  (marks x n = None -> Q tt (set_mark n (Some (pos x)) x)) -> (forall i, marks x n = Some i -> Q tt x) ->
  wp (MARK n) Q x.
Proof. intros H0 H1. apply wp_modify. destruct (marks x n) eqn:E; eauto. Qed.

(** After a callback only [data] and [state] have changed. *)
Definition called (d : D) x : exec D := set_parser (set_data d (set_state_ (p_state x) (parser x))) x.

Lemma wp_call_back_gen f e ER k (Q : flow -> exec D -> Prop) x : calls_ok f -> e <> HPE_OK -> errno (parser x) = HPE_OK ->
  (forall x', errno (parser x') = e -> Q (Return ER) x') -> (forall d, wp k Q (called d x)) -> wp (call_back f e ER k) Q x.
Proof.
  intros Hf He Hok HQ Hk. unfold call_back.
  apply wp_bind, wp_get, wp_bind, wp_modify, wp_bind.
  destruct (Hf (set_state_ (p_state x) (parser x))) as (rt & d & Hrun).
  exists rt, (set_parser (set_data d (set_state_ (p_state x) (parser x))) x). split.
  { unfold lift. cbn [parser set_parser]. by rewrite Hrun. }
  apply wp_bind. destruct (negb (rt =? 0)).
  - apply wp_modify, wp_bind, wp_get, wp_bind, wp_modify, wp_bind, wp_get. cbn.
    rewrite decide_False by done. apply wp_ret. by apply HQ.
  - apply wp_ret, wp_bind, wp_get, wp_bind, wp_modify, wp_bind, wp_get. cbn [parser set_parser set_p_state errno set_data set_state_].
    rewrite decide_True by done. specialize (Hk d). destruct x. exact Hk.
Qed.

Lemma wp_call_back f e ER k r p x : calls_ok f -> (ER <= len)%nat -> e <> HPE_OK -> errno (parser x) = HPE_OK ->
  (forall d, wp k (post r p) (called d x)) -> wp (call_back f e ER k) (post r p) x.
Proof.
  intros Hf HER He Hok Hk. apply wp_call_back_gen; try done.
  intros x' Hx'. split_and!; [done|intros H|intros H]; congruence.
Qed.

Lemma wp_notify n ER k r p x : (ER <= len)%nat -> errno (parser x) = HPE_OK ->
  (forall d, wp k (post r p) (called d x)) -> wp k (post r p) x ->
  wp (CALLBACK_NOTIFY_ settings n ER k) (post r p) x.
Proof using Hsettings.
  intros HER Hok Hc Hk. unfold CALLBACK_NOTIFY_. apply wp_bind, wp_get, wp_bind, wp_assert; [by apply bool_decide_eq_true|].
  destruct (notify_of settings n) as [f|] eqn:Hf; [|done].
  apply wp_call_back; [by apply (proj1 Hsettings n)|done|by destruct n|done|done].
Qed.

Lemma wp_data n extra ER k r p x : (ER <= len)%nat -> errno (parser x) = HPE_OK ->
  (forall d, wp k (post r p) (set_mark n None (called d x))) ->
  wp k (post r p) (set_mark n None x) -> (marks x n = None -> wp k (post r p) x) ->
  wp (CALLBACK_DATA_ settings bytes n extra ER k) (post r p) x.
Proof using Hsettings.
  intros HER Hok Hc Hk H0. unfold CALLBACK_DATA_. apply wp_bind, wp_get, wp_bind, wp_assert; [by apply bool_decide_eq_true|].
  apply wp_bind, wp_get. destruct (marks x n) as [start|] eqn:Hm; [|auto].
  apply wp_bind, wp_get. destruct (data_of settings n) as [f|] eqn:Hf.
  - apply wp_call_back; [|done|by destruct n|done|].
    + eapply (proj2 (proj2 Hsettings)); [exact Hf|]. rewrite length_take, length_drop. lia.
    + intros d. apply wp_bind, wp_modify. apply Hc.
  - apply wp_bind, wp_modify. exact Hk.
Qed.

Lemma wp_chunked Q x : has_flag F_CHUNKED (parser x) = true -> Q tt x -> wp assert_chunked Q x.
Proof. intros H HQ. apply wp_bind, wp_get, wp_assert; [exact H|exact HQ]. Qed.

Lemma parse_url_char_states s ch :
  let s' := parse_url_char s ch in s' = s_dead \/ forall n, owner n s' = bool_decide (n = url).
Proof.
  cbn. unfold parse_url_char, url_server_char.
  destruct s; repeat case_match; first [by left|right; by intros []].
Qed.

Lemma wp_url_char ch r p x : errno (parser x) = HPE_OK -> 0 <= content_length (parser x) < 2 ^ 64 ->
  (forall n i, marks x n = Some i -> n = url /\ (i <= pos x)%nat) -> (p <= pos x < len)%nat ->
  wp (url_char ch) (post r p) x.
Proof.
  intros Herr Hcl Hmk Hp. unfold url_char. apply wp_bind, wp_get, wp_bind, wp_modify, wp_bind, wp_get.
  cbn [p_state set_p_state].
  destruct (parse_url_char_states (p_state x) ch) as [->|Ho].
  - rewrite decide_True by done. apply wp_error; [cbn; lia|done].
  - destruct (decide _) as [Hd|_]; [apply wp_error; [cbn; lia|done]|].
    apply wp_ret. cbn [post]. split; [|exact Hp]. unfold inv. cbn. split_and!; [done|lia|lia| |].
    + specialize (Ho url). rewrite bool_decide_true in Ho by done.
      destruct (parse_url_char (p_state x) ch); done.
    + intros n i Hi. destruct (Hmk n i Hi) as [-> Hle]. rewrite Ho. by rewrite bool_decide_true by done.
Qed.

Lemma wp_headers_complete k r p x : (pos x <= len)%nat -> errno (parser x) = HPE_OK ->
  (forall ps, errno ps = HPE_OK -> content_length ps = content_length (parser x) -> wp k (post r p) (set_parser ps x)) ->
  wp (call_headers_complete settings k) (post r p) x.
Proof using Hsettings.
  intros Hp Herr Hk. unfold call_headers_complete.
  destruct (on_headers_complete settings) as [f|] eqn:Hf; [|destruct x; by apply Hk].
  destruct (proj1 (proj2 Hsettings) f Hf (parser x)) as (rt & d & Hrun).
  apply wp_bind. exists rt, (set_parser (set_data d (parser x)) x). split; [unfold lift; by rewrite Hrun|].
  destruct (rt =? 0); [by apply Hk|]. destruct (rt =? 2); [apply wp_bind, wp_modify; by apply (Hk (add_flag _ _))|].
  destruct (rt =? 1); [apply wp_bind, wp_modify; by apply (Hk (add_flag _ _))|].
  apply wp_bind, wp_modify, wp_bind, wp_get. apply wp_bind, wp_modify, wp_ret. by split_and!.
Qed.

(** ** One byte *)

(** The goal of a case, and the tactics that run it. *)
Definition case_ok (s : state) (m : act) : Prop :=
  forall x, inv 1 x -> p_state x = s -> (pos x < len)%nat -> wp m (post (rank s) (pos x)) x.

End safety.

(** A mark that is set in a state without marks. *)
Ltac no_mark H := match type of H with ?mk ?n = Some ?i =>
  match goal with Hm : forall n i, mk n = Some i -> _ |- _ => destruct (Hm n i H); discriminate end end.

Create HintDb parser.
#[local] Arguments unhex_of : simpl never.

Lemma unhex_range ch : (unhex_of ch =? -1) = false -> 0 <= unhex_of ch <= 15.
Proof.
  intros H. apply Z.eqb_neq in H. unfold unhex_of in *.
  assert (Forall (fun v => -1 <= v <= 15) unhex) as Hall.
  { apply List.Forall_forall. intros v Hv.
    assert (forallb (fun v => (-1 <=? v) && (v <=? 15)) unhex = true) as Hb by (vm_compute; reflexivity).
    rewrite forallb_forall in Hb. apply Hb in Hv. lia. }
  destruct (nth_in_or_default (Z.to_nat ch) unhex 0) as [Hin|Hd]; [|rewrite Hd; lia].
  rewrite List.Forall_forall in Hall. apply Hall in Hin. lia.
Qed.

Lemma method_ok_HEAD : method_ok HTTP_HEAD 2.
Proof. eexists. split; [reflexivity|cbn; lia]. Qed.

Lemma first_method_ok ch m : first_method ch = Some m -> method_ok m 1.
Proof.
  unfold first_method. intros H.
  repeat match type of H with (if ?b then _ else _) = _ => destruct b end; simplify_eq;
    eexists; (split; [reflexivity|cbn; lia]).
Qed.

Lemma IS_NUM_range ch : negb (IS_NUM ch) = false -> 0 <= ch - 48 <= 9.
Proof. unfold IS_NUM. rewrite negb_false_iff, andb_true_iff, !Z.leb_le. lia. Qed.

Lemma wrap_range w z : 0 <= w -> 0 <= wrap w z < 2 ^ w.
Proof. intros H. apply Z.mod_pos_bound. lia. Qed.

(** The comparison with a method stays inside of its text. *)
Lemma method_length m s : method_strings !! m = Some s -> (length s <= 11)%nat.
Proof.
  intros H. assert (forallb (fun s => (length s <=? 11)%nat) method_strings = true) as Hall by reflexivity.
  rewrite forallb_forall in Hall. apply Nat.leb_le, Hall, list_elem_of_In. by eapply list_elem_of_lookup_2.
Qed.

Lemma matcher_ok m i : method_ok m i -> exists c, matcher_at m i = Ok c /\
  0 <= i <= 11 /\ (c <> 0 -> method_ok m (wrap 5 (i + 1))).
Proof.
  intros (s & Hs & Hi). pose proof (method_length _ _ Hs) as Hl. unfold matcher_at. rewrite Hs.
  destruct (Nat.ltb_spec (Z.to_nat i) (length s)).
  - eexists. split; [done|]. split; [lia|]. intros _. exists s. split; [done|].
    unfold wrap. rewrite Z.mod_small by (change (2 ^ 5) with 32; lia). lia.
  - destruct (Nat.eqb_spec (Z.to_nat i) (length s)); [|lia]. exists 0. split; [done|]. split; [lia|done].
Qed.

Lemma next_method_ok m i ch new : next_method m i ch = Some new -> method_ok new (wrap 5 (i + 1)).
Proof.
  unfold next_method. destruct (List.find _ _) as [[[[m' i'] ch'] n]|] eqn:Hf; [|done]. intros [= ->].
  apply List.find_some in Hf as [Hin Hc]. apply andb_true_iff in Hc as [Hc _]. apply andb_true_iff in Hc as [_ Hi].
  apply Z.eqb_eq in Hi as ->.
  assert (forallb (fun '(_, i, _, new) => match method_strings !! Z.to_nat new with
    | Some s => (0 <=? wrap 5 (i + 1)) && (wrap 5 (i + 1) <=? Z.of_nat (length s)) | None => false end) method_switch = true)
    as Hall by (vm_compute; reflexivity).
  rewrite forallb_forall in Hall. apply Hall in Hin. destruct (method_strings !! Z.to_nat new) as [s|] eqn:Hs; [|done].
  exists s. split; [done|]. apply andb_true_iff in Hin as [??]. lia.
Qed.

(** Another digit of a chunk size: the check before it leaves no room to wrap. *)
Lemma chunk_digit n d : 0 <= n -> ((ULLONG_MAX - 16) / 16 <? n) = false -> 0 <= d <= 15 ->
  wrap 64 (wrap 64 (n * 16) + d) = n * 16 + d /\ n * 16 + d <= 2 ^ 64 - 17.
Proof.
  intros Hn H Hd. apply Z.ltb_ge in H.
  replace ((ULLONG_MAX - 16) / 16) with (2 ^ 60 - 2) in H by reflexivity.
  unfold wrap. rewrite (Z.mod_small (n * 16)), Z.mod_small by lia. lia.
Qed.

(** Another digit of a content length. *)
Lemma length_digit n d : 0 <= n -> ((ULLONG_MAX - 10) / 10 <? n) = false -> 0 <= d <= 9 ->
  wrap 64 (wrap 64 (n * 10) + d) = n * 10 + d /\ n * 10 + d < ULLONG_MAX.
Proof.
  intros Hn H Hd. apply Z.ltb_ge in H.
  replace ((ULLONG_MAX - 10) / 10) with 1844674407370955160 in H by reflexivity.
  unfold ULLONG_MAX, wrap. rewrite (Z.mod_small (n * 10)), Z.mod_small by lia. lia.
Qed.

Lemma st_ok_new {D} k (ps ps' : http_parser D) n : st_ok k (NEW_MESSAGE ps) ps' n.
Proof.
  unfold NEW_MESSAGE, start_state. destruct (http_should_keep_alive ps); [|done]. by destruct (decide _).
Qed.

Lemma parser_ok_new {D} (ps ps' : http_parser D) : state_ ps' = NEW_MESSAGE ps -> 0 <= content_length ps' < 2 ^ 64 -> parser_ok ps'.
Proof. intros Hs Hc _. split; [done|]. rewrite Hs. apply st_ok_new. Qed.

#[local] Hint Resolve method_ok_HEAD first_method_ok : parser.

(** The marks before [url_char]. *)
Ltac url_marks := let m := fresh "m" in let i := fresh "i" in let Hi := fresh "Hi" in
  intros m i Hi; cbn in Hi |- *;
  try (destruct (decide (m = url)); [subst; split; [done|]; simplify_eq; try lia|]);
  match goal with Hm : forall n i, ?mk n = Some i -> _, H : ?mk _ = Some _ |- _ =>
    destruct (Hm _ _ H) as [Ho Hle]; cbn in Ho; first [discriminate | apply bool_decide_eq_true in Ho; done | exact Hle] end.

(** Read a field of a modified state. *)
Ltac exec_simpl_in H :=
  cbn [parser pos p_state l_nread marks set_parser set_pos set_p_state set_l_nread set_marks set_mark
       content_length set_content_length errno set_errno set_nread set_index index header_state
       called set_data set_state_ set_flags add_flag upgrade set_upgrade] in H.

(** The marks after a case: a mark that was set belongs to the old state. *)
Ltac marks_tac := let m := fresh "m" in let i := fresh "i" in let Hi := fresh "Hi" in
  intros m i Hi; cbn in Hi |- *;
  repeat match type of Hi with
    | context [decide (?a = ?b)] => destruct (decide (a = b)); [subst|]
    | context [match ?mk ?k with _ => _ end] => destruct (mk k) eqn:?; cbn in Hi
    end; simplify_eq;
  repeat match goal with
    | Hm : forall n i, ?mk n = Some i -> _, H : ?mk ?k = Some ?j |- _ =>
        lazymatch goal with Hd : (j <= _)%nat |- _ => fail | _ => idtac end;
        let Ho := fresh "Ho" in let Hle := fresh "Hle" in destruct (Hm k j H) as [Ho Hle]
    end; cbn in *;
  repeat match goal with Ho : bool_decide (?a = ?b) = true |- _ => apply bool_decide_eq_true in Ho; first [subst a|subst b] end;
  first [discriminate | congruence | done | split; [first [done | by apply bool_decide_eq_true]|lia] | by destruct m].

(** A goal about one field. *)
Ltac leaf_tac := first
  [ done | assumption | lia | tauto | marks_tac | by eauto with parser
  | match goal with H : negb (IS_NUM _) = false |- _ => apply IS_NUM_range in H; lia end
  | match goal with H : (unhex_of _ =? -1) = false |- _ => apply unhex_range in H; lia end
  | match goal with H : (unhex_of _ =? -1) = false, G : (_ <? _) = false |- _ =>
      apply unhex_range in H; pose proof (fun Hn => chunk_digit _ _ Hn G H) as Hd; destruct Hd as [-> ?]; lia end
  | apply st_ok_new
  | let H := fresh in intros H; cbn in H; discriminate
  | match goal with H : upgrade _ && _ = true |- _ -> _ => intros _; apply andb_true_iff in H; tauto end
  | match goal with H : content_length _ = content_length _ |- _ => cbn in H; rewrite H; lia end
  | match goal with H : (_ =? _) = true |- _ => apply Z.eqb_eq in H; lia end
  | match goal with H : (_ =? _) = false |- _ => apply Z.eqb_neq in H; lia end
  | match goal with H : negb (_ =? ULLONG_MAX) = true |- _ =>
      apply negb_true_iff, Z.eqb_neq in H; unfold ULLONG_MAX in *; lia end
  | apply andb_true_iff; rewrite !negb_true_iff, !Z.eqb_neq; unfold ULLONG_MAX in *; lia
  | eapply parser_ok_new; [reflexivity|cbn; lia]
  | match goal with H : header_state _ = _ |- _ => cbn in H; rewrite H; done end
  | repeat match goal with |- context [if ?b then _ else _] => destruct b end; done
  | idtac ].

(** Run the head of the computation. *)
Ltac wp_step := cbv zeta; lazymatch goal with
  | |- wp (bind _ _) _ _ => apply wp_bind
  | |- wp (get _) _ _ => apply wp_get
  | |- wp (member _) _ _ => apply wp_get
  | |- wp (modify _) _ _ => apply wp_modify
  | |- wp (put _) _ _ => apply wp_modify
  | |- wp (UPDATE_STATE _) _ _ => apply wp_modify
  | |- wp (MARK _) _ _ => apply wp_mark; [intros ?|let Hm := fresh in intros ? Hm; try (cbn in Hm; no_mark Hm)]
  | |- wp inc_index _ _ => apply wp_modify
  | |- wp (put_hs _) _ _ => apply wp_modify
  | |- wp start_message _ _ => apply wp_modify
  | |- wp reset_nread _ _ => apply wp_modify
  | |- wp (ret _) _ _ => apply wp_ret
  | |- wp break _ _ => apply wp_ret
  | |- wp (REEXECUTE _) _ _ => apply wp_ret
  | |- wp (error _) _ _ => apply wp_error; [cbn; lia|done]
  | |- wp (STRICT_CHECK _ _) _ _ => apply wp_strict; intros ?
  | |- wp (COUNT_HEADER_SIZE _ _ _) _ _ => apply wp_count
  | |- wp (expect _ _ _) _ _ => unfold expect
  | |- wp finish_header _ _ => unfold finish_header
  | |- wp (finish_message _ _) _ _ => unfold finish_message
  | |- wp (RETURN _) _ _ => unfold RETURN
  | |- wp assert_chunked _ _ => apply wp_chunked; [cbn; tauto|]
  | |- wp (assert _) _ _ => apply wp_assert; [cbn; leaf_tac|]
  | |- wp (url_char _) _ _ => apply wp_url_char; [cbn; assumption|cbn; lia|url_marks|cbn; lia]
  | |- wp (CALLBACK_NOTIFY _ _ _) _ _ => unfold CALLBACK_NOTIFY
  | |- wp (CALLBACK_NOTIFY_NOADVANCE _ _ _) _ _ => unfold CALLBACK_NOTIFY_NOADVANCE
  | |- wp (CALLBACK_NOTIFY_ _ _ _ _) _ _ => eapply wp_notify; [eassumption|cbn; lia|cbn; try assumption|intros ?|]
  | |- wp (CALLBACK_DATA _ _ _ _) _ _ => unfold CALLBACK_DATA
  | |- wp (CALLBACK_DATA_NOADVANCE _ _ _ _) _ _ => unfold CALLBACK_DATA_NOADVANCE
  | |- wp (CALLBACK_DATA_ _ _ _ _ _ _) _ _ => eapply wp_data; [eassumption|cbn; lia|cbn; try assumption|intros ?| |intros ?]
  | |- wp (SET_ERRNO _) _ _ => apply wp_modify
  | |- wp (call_headers_complete _ _) _ _ => eapply wp_headers_complete; [eassumption|cbn; lia|cbn; assumption|intros ? ? ?]
  | |- wp (take_body _) _ _ => unfold take_body
  | |- wp (if ?b then _ else _) _ _ => let E := fresh "E" in destruct b eqn:E; exec_simpl_in E
  | |- wp (match ?b with _ => _ end) _ _ => let E := fresh "E" in destruct b eqn:E; exec_simpl_in E
  end; cbn beta.

Ltac open_case :=
  intros [ps p st n mk] (Herr & Hcl & Hst & Hmk) Hs Hp;
  cbn [parser pos p_state l_nread marks] in *; subst st; cbn [st_ok] in Hst; cbn [rank];
  repeat match type of Hst with _ /\ _ => let H := fresh "Hst" in destruct Hst as [H Hst] end.

Ltac post_tac := cbn [post]; unfold inv; cbn; split_and?; leaf_tac.

Ltac case_tac := open_case; repeat wp_step; post_tac.

Section cases.
Context {D : Type}.
Variable max_header_size : Z.
Variable settings : http_parser_settings D.
Variable bytes : list Z.
Hypothesis Hsettings : settings_ok settings bytes.

#[local] Notation ok := (case_ok (D := D) bytes).

(** ** The loops of the header states *)

Lemma wp_char_at i Q x : (i < length bytes)%nat -> (forall c, bytes !! i = Some c -> Q c x) -> wp (char_at (D := D) bytes i) Q x.
Proof using.
  intros Hi HQ. destruct (lookup_lt_is_Some_2 bytes i Hi) as [c Hc].
  exists c, x. split; [unfold char_at; by rewrite Hc|auto].
Qed.

(** What a loop leaves alone. *)
Definition frame (x x' : exec D) : Prop :=
  p_state x' = p_state x /\ l_nread x' = l_nread x /\ marks x' = marks x /\ (pos x <= pos x')%nat.

Lemma frame_refl x : frame x x.
Proof. done. Qed.

Lemma frame_trans x y z : frame x y -> frame y z -> frame x z.
Proof. intros (? & ? & ? & ?) (? & ? & ? & ?). unfold frame. split_and!; congruence || lia. Qed.

Definition same_numbers (x x' : exec D) : Prop :=
  errno (parser x') = errno (parser x) /\ content_length (parser x') = content_length (parser x).

Lemma skip_tokens_spec fuel pe : forall (x : exec D), (pe <= length bytes)%nat -> (pos x < length bytes)%nat ->
  (pe - pos x <= fuel)%nat ->
  wp (skip_tokens (D := D) bytes fuel pe) (fun _ x' => exists q, x' = set_pos q x /\ (pos x <= q < length bytes)%nat) x.
Proof using.
  induction fuel as [|fuel IH]; intros x Hpe Hp Hf; cbn [skip_tokens]; apply wp_bind, wp_get;
    destruct (Nat.ltb_spec (pos x + 1) pe); try lia.
  1,3: apply wp_ret; exists (pos x); split; [by destruct x|lia].
  apply wp_bind, wp_char_at; [lia|]. intros c _. destruct (TOKEN c =? 0).
  - apply wp_ret. exists (pos x). split; [by destruct x|lia].
  - apply wp_bind, wp_modify. eapply wp_mono; [apply IH; cbn; lia|].
    intros _ x' (q & -> & Hq). exists q. cbn in *. split; [done|lia].
Qed.

Lemma pe_of_le p : (p <= length bytes)%nat -> (p <= pe_of max_header_size bytes p <= length bytes)%nat.
Proof using. intros Hp. unfold pe_of. lia. Qed.

(** A step of the comparison with a name only moves [index]. *)
Lemma match_next_spec name c (x : exec D) : exists r i, match_next name c x = (Ok r, set_parser (set_index i (parser x)) x).
Proof.
  set (i := wrap 5 (index (parser x) + 1)). unfold match_next, inc_index, put, member.
  rewrite bind_modify, bind_get. cbn [parser set_parser index set_index]. fold i.
  destruct (_ || _); [by exists Mismatch, i|]. destruct (_ =? _); [by exists Complete, i|by exists Matching, i].
Qed.

Lemma match_name_spec name c h (found : comp (exec D) unit) (x : exec D) : field_hs h = true -> field_hs (header_state (parser x)) = true ->
  (forall y, wp found (fun _ y' => frame y y' /\ same_numbers y y' /\ pos y' = pos y /\ header_state (parser y') = h) y) ->
  wp (match_name name c found)
    (fun _ x' => frame x x' /\ same_numbers x x' /\ pos x' = pos x /\ field_hs (header_state (parser x')) = true) x.
Proof.
  intros Hh Hx Hf. unfold match_name. destruct (match_next_spec name c x) as (r & i & Hm).
  apply wp_bind. exists r, (set_parser (set_index i (parser x)) x). split; [done|]. destruct r.
  - by apply wp_modify.
  - eapply wp_mono; [apply Hf|]. intros _ y' (? & ? & Hp & ->). done.
  - by apply wp_ret.
Qed.

Lemma header_field_char_spec ch c (x : exec D) : field_hs (header_state (parser x)) = true -> (pos x < length bytes)%nat ->
  wp (header_field_char max_header_size bytes ch c)
    (fun _ x' => frame x x' /\ same_numbers x x' /\ (pos x' < length bytes)%nat /\ field_hs (header_state (parser x')) = true) x.
Proof using.
  intros Hx Hp. unfold header_field_char. apply wp_bind, wp_get.
  destruct (header_state (parser x)) eqn:Hh; try discriminate.
  all: try (lazymatch goal with |- wp (match_name _ _ _) _ _ =>
    eapply wp_mono;
      [eapply match_name_spec; cycle 1;
        [by rewrite Hh|intros y; apply wp_modify; unfold frame, same_numbers; cbn; split_and!; reflexivity|reflexivity]
      |cbn; intros _ x' (? & ? & -> & ?); done] end).
  - apply wp_bind, wp_get. pose proof (pe_of_le (pos x)).
    eapply wp_mono; [apply skip_tokens_spec; lia|]. intros _ x' (q & -> & Hq). cbn. rewrite Hh.
    unfold frame, same_numbers; cbn. split_and!; done || lia.
  - apply wp_bind, wp_modify, wp_modify. cbn. by destruct (_ =? _).
  - apply wp_bind, wp_modify, wp_modify. cbn. by destruct (_ =? _).
  - apply wp_bind, wp_modify, wp_modify. cbn. do 2 (destruct (_ =? _); [done|]). done.
  - destruct (negb _); [by apply wp_modify|]. apply wp_ret. by rewrite Hh.
  - destruct (negb _); [by apply wp_modify|]. apply wp_ret. by rewrite Hh.
  - destruct (negb _); [by apply wp_modify|]. apply wp_ret. by rewrite Hh.
  - destruct (negb _); [by apply wp_modify|]. apply wp_ret. by rewrite Hh.
Qed.

Lemma header_field_loop_spec fuel : forall ch (x : exec D), field_hs (header_state (parser x)) = true ->
  (pos x <= length bytes)%nat -> (length bytes - pos x <= fuel)%nat ->
  wp (header_field_loop max_header_size bytes fuel ch)
    (fun _ x' => frame x x' /\ same_numbers x x' /\ (pos x' <= length bytes)%nat /\ field_hs (header_state (parser x')) = true) x.
Proof using.
  induction fuel as [|fuel IH]; intros ch x Hx Hp Hf; cbn [header_field_loop]; apply wp_bind, wp_get;
    destruct (Nat.eqb_spec (pos x) (length bytes)); try lia; [by apply wp_ret..|].
  apply wp_bind, wp_char_at; [lia|]. intros c _. cbv zeta. destruct (TOKEN c =? 0); [by apply wp_ret|].
  apply wp_bind. eapply wp_mono; [apply header_field_char_spec; [done|lia]|]. cbn beta.
  intros _ x1 (Hfr & [He Hc] & Hp1 & Hx1). apply wp_bind, wp_modify.
  destruct Hfr as (Hs & Hn & Hm & Hle).
  eapply wp_mono; [apply IH; [done|cbn; lia..]|]. intros ch' x' (Hfr' & [He' Hc'] & Hp' & Hx'). cbn in *.
  destruct Hfr' as (Hs' & Hn' & Hm' & Hle'). cbn in *.
  unfold frame, same_numbers. split_and!; try congruence; lia.
Qed.

Lemma ok_header_field ch : ok s_header_field (case_header_field max_header_size settings bytes ch).
Proof using Hsettings.
  unfold case_header_field. open_case. apply wp_bind, wp_get, wp_bind.
  eapply wp_mono; [apply header_field_loop_spec; [exact Hst|cbn; lia..]|].
  intros ch' [ps1 p1 st1 n1 mk1] (Hfr & [He1 Hc1] & Hp1 & Hx1). destruct Hfr as (Hs & Hn & Hm & Hle).
  cbn in Hs, Hn, Hm, Hle, He1, Hc1, Hp1, Hx1. subst st1 n1 mk1. rewrite <- He1 in Herr. rewrite <- Hc1 in Hcl.
  apply wp_bind, wp_get. cbn [pos]. destruct (Nat.eqb_spec p1 (length bytes)); repeat wp_step; post_tac.
Qed.

Lemma general_value_loop_spec fuel pe : forall (x : exec D), (pos x <= pe <= length bytes)%nat ->
  errno (parser x) = HPE_OK -> (pe - pos x <= fuel)%nat ->
  wp (general_value_loop bytes fuel pe) (fun bad x' =>
    if bad : bool then (pos x' <= length bytes)%nat /\ errno (parser x') <> HPE_OK
    else exists q, x' = set_pos q x /\ (pos x - 1 <= q <= pe)%nat /\
      (forall c, bytes !! pos x = Some c -> (c =? CR) || (c =? LF) = false -> (pos x <= q)%nat)) x.
Proof using.
  induction fuel as [|fuel IH]; intros x Hp Herr Hf; cbn [general_value_loop]; apply wp_bind, wp_get;
    destruct (Nat.eqb_spec (pos x) pe) as [Heq|Hne]; try lia.
  1,2: apply wp_ret; exists (pos x); split; [by destruct x|]; split; [lia|intros; lia].
  apply wp_bind, wp_char_at; [lia|]. intros c Hc. destruct ((c =? CR) || (c =? LF)) eqn:Hcr.
  - apply wp_bind, wp_modify, wp_ret. exists (pos x - 1)%nat. split; [done|]. split; [lia|].
    rewrite Hc. intros c' [= <-]. congruence.
  - apply wp_bind, wp_get. destruct (negb _ && negb _).
    + apply wp_bind, wp_modify, wp_ret. cbn. split; [lia|done].
    + apply wp_bind, wp_modify. eapply wp_mono; [apply IH; cbn; first [done|lia]|].
      intros [] x'; cbn; [done|]. intros (q & -> & Hq & _). exists q. split; [done|]. split; [lia|intros; lia].
Qed.

(** What the [switch] on [h_state] leaves. *)
Definition value_post (x : exec D) (r : option header_states) (x' : exec D) : Prop :=
  match r with
  | Some h => frame x x' /\ value_hs h = true /\ errno (parser x') = HPE_OK /\
              0 <= content_length (parser x') < 2 ^ 64 /\ (pos x' < length bytes)%nat
  | None => (pos x' <= length bytes)%nat /\ errno (parser x') <> HPE_OK
  end.

Lemma value_stay h (x : exec D) f : value_hs h = true -> errno (parser x) = HPE_OK ->
  0 <= content_length (parser x) < 2 ^ 64 -> (pos x < length bytes)%nat ->
  content_length (f (parser x)) = content_length (parser x) -> errno (f (parser x)) = errno (parser x) ->
  value_post x (Some h) (set_parser (f (parser x)) x).
Proof using. intros Hh He Hc Hp Hc' He'. unfold value_post, frame. cbn. rewrite Hc', He'. split_and!; done || lia. Qed.

Lemma wp_value_error e h (x : exec D) : (pos x <= length bytes)%nat -> e <> HPE_OK -> wp (value_error e h) (value_post x) x.
Proof using. intros Hp He. apply wp_bind, wp_modify, wp_bind, wp_modify, wp_ret. done. Qed.

Lemma wp_stay h (x : exec D) : value_hs h = true -> errno (parser x) = HPE_OK ->
  0 <= content_length (parser x) < 2 ^ 64 -> (pos x < length bytes)%nat -> wp (stay h) (value_post x) x.
Proof using. intros. apply wp_ret. unfold value_post, frame. split_and!; done || lia. Qed.

Section value_char.
Context (x : exec D) (Herr : errno (parser x) = HPE_OK) (Hcl : 0 <= content_length (parser x) < 2 ^ 64)
  (Hp : (pos x < length bytes)%nat).

Lemma content_length_char_spec ch : wp (content_length_char ch) (value_post x) x.
Proof using Herr Hcl Hp.
  unfold content_length_char. destruct (ch =? " "%ch); [by apply wp_stay|].
  destruct (negb (IS_NUM ch)); [apply wp_value_error; [lia|done]|].
  apply wp_bind, wp_get. cbv zeta. destruct (_ <? _); [apply wp_value_error; [lia|done]|].
  apply wp_bind, wp_modify, wp_ret. cbn. split_and!; try done; by apply wrap_range.
Qed.

Lemma match_value_spec name c same found no :
  value_hs same = true -> value_hs found = true -> value_hs no = true ->
  wp (match_value name c same found no) (value_post x) x.
Proof using Herr Hcl Hp.
  intros H1 H2 H3. unfold match_value. destruct (match_next_spec name c x) as (r & i & Hm).
  apply wp_bind. exists r, (set_parser (set_index i (parser x)) x). split; [done|]. apply wp_ret.
  apply (value_stay _ _ (set_index i)); try done. by destruct r.
Qed.

Lemma skip_token_spec start same ch : value_hs start = true -> value_hs same = true ->
  wp (skip_token start same ch) (value_post x) x.
Proof using Herr Hcl Hp.
  intros H1 H2. unfold skip_token. destruct (_ =? _); [|by apply wp_stay].
  apply wp_bind, wp_modify, wp_ret. by apply (value_stay _ _ (set_index 0)).
Qed.

Lemma after_connection_spec f same ch : value_hs same = true -> wp (after_connection f same ch) (value_post x) x.
Proof using Herr Hcl Hp.
  intros H1. unfold after_connection. destruct (_ =? _).
  - apply wp_bind, wp_modify, wp_ret. by apply (value_stay _ _ (fun ps => set_index 0 (add_flag f ps))).
  - destruct (negb _); by apply wp_stay.
Qed.

Lemma header_value_char_spec h ch c : value_hs h = true -> p_state x = s_header_value ->
  bytes !! pos x = Some ch -> (ch =? CR) || (ch =? LF) = false ->
  wp (header_value_char max_header_size bytes h ch c) (value_post x) x.
Proof using Herr Hcl Hp.
  intros Hh Hs Hch Hcr. destruct h; try discriminate; cbn [header_value_char].
  all: try (apply wp_bind, wp_modify, wp_ret; unfold value_post, frame; cbn; rewrite Hs; split_and!; done || lia).
  all: try (by apply match_value_spec).
  all: try (by apply skip_token_spec).
  all: try (by apply after_connection_spec).
  all: try (apply wp_stay; try done; repeat (destruct (_ =? _); try done); done).
  all: try apply content_length_char_spec.
  - apply wp_bind, wp_get, wp_bind. pose proof (pe_of_le (pos x)).
    eapply wp_mono; [apply general_value_loop_spec; [lia|done|lia]|]. cbn beta.
    intros [] x'; [intros [??]; by apply wp_ret|].
    intros (q & -> & Hq & Hge). specialize (Hge ch Hch Hcr).
    apply wp_bind, wp_get, wp_bind. cbn [pos set_pos].
    destruct (Nat.eqb_spec q (length bytes)); [apply wp_modify|apply wp_ret]; apply wp_ret; cbn; unfold frame; cbn; split_and!; done || lia.
  - destruct (ch =? " "%ch); [by apply wp_stay|apply content_length_char_spec].
  - destruct (ch =? " "%ch); [by apply wp_stay|apply wp_value_error; [lia|done]].
Qed.
End value_char.

Lemma after_header_value_spec start h (x : exec D) r p : errno (parser x) = HPE_OK ->
  0 <= content_length (parser x) < 2 ^ 64 -> (p <= start <= pos x)%nat -> (start < length bytes)%nat ->
  (pos x <= length bytes)%nat -> value_hs h = true ->
  (p_state x = s_header_value \/ p_state x = s_header_almost_done) ->
  (forall n i, marks x n = Some i -> owner n (p_state x) = true /\ (i <= start)%nat) ->
  wp (after_header_value max_header_size bytes start h) (post bytes r p) x.
Proof using.
  intros Herr Hcl Hs Hlt Hp Hh Hst Hmk. unfold after_header_value.
  apply wp_bind, wp_modify, wp_bind, wp_get. cbv zeta. apply wp_bind, wp_modify. apply wp_count.
  - apply wp_error; [|done]. cbn. destruct (_ =? _)%nat; lia.
  - apply wp_ret. cbn [post]. unfold inv. cbn. destruct (Nat.eqb_spec (pos x) (length bytes));
      (split; [|lia]); (split; [done|]); (split; [lia|]);
      (split; [by destruct Hst as [-> | ->]|]); intros m k Hm; destruct (Hmk m k Hm); split; done || lia.
Qed.

Lemma header_value_loop_spec fuel start p : forall h (x : exec D), errno (parser x) = HPE_OK ->
  0 <= content_length (parser x) < 2 ^ 64 -> (p <= start <= pos x)%nat -> (start < length bytes)%nat ->
  (pos x <= length bytes)%nat -> value_hs h = true -> p_state x = s_header_value ->
  (forall n i, marks x n = Some i -> n = header_value /\ (i <= start)%nat) ->
  (length bytes - pos x <= fuel)%nat ->
  wp (header_value_loop max_header_size settings bytes fuel start h) (post bytes 1 p) x.
Proof using Hsettings.
  induction fuel as [|fuel IH]; intros h x Herr Hcl Hs Hlt Hp Hh Hst Hmk Hf; cbn [header_value_loop];
    apply wp_bind, wp_get; destruct (Nat.eqb_spec (pos x) (length bytes)) as [Heq|Hne]; try lia.
  1,2: apply after_header_value_spec; auto; intros m k Hm; destruct (Hmk m k Hm) as [-> ?]; by rewrite Hst.
  apply wp_bind, wp_char_at; [lia|]. intros c Hc.
  destruct (Z.eqb_spec c CR) as [|Hcr]; [|destruct (Z.eqb_spec c LF) as [|Hlf]].
  - apply wp_bind, wp_modify, wp_bind, wp_modify. unfold CALLBACK_DATA. apply wp_bind, wp_get.
    eapply wp_data; [exact Hsettings|cbn; lia|exact Herr|intros d| |intros Hno; cbn in Hno].
    all: apply after_header_value_spec; try done; try (cbn; lia); try (by right).
    all: intros m k Hm; cbn in Hm; try (destruct (decide (m = header_value)); [done|]);
      destruct (Hmk m k Hm) as [-> ?]; done || congruence.
  - apply wp_bind, wp_modify. apply wp_count; [apply wp_error; [cbn; lia|done]|].
    apply wp_bind, wp_modify. unfold CALLBACK_DATA_NOADVANCE. apply wp_bind, wp_get.
    eapply wp_data; [exact Hsettings|cbn; lia|exact Herr|intros d| |intros Hno; cbn in Hno]; apply wp_ret; cbn [post]; unfold inv; cbn;
      (split; [|lia]); (split; [done|]); (split; [lia|]); (split; [done|]); intros m k Hm; cbn in Hm;
      try (destruct (decide (m = header_value)); [done|]); destruct (Hmk m k Hm) as [-> ?]; congruence.
  - apply wp_bind, wp_get. destruct (negb _ && negb _); [apply wp_error; [lia|done]|].
    apply wp_bind. assert ((c =? CR) || (c =? LF) = false) as Hcc.
    { apply orb_false_iff. by rewrite !Z.eqb_neq. }
    eapply wp_mono; [apply header_value_char_spec; try done; lia|]. cbn beta. intros [h'|] x'.
    + intros ((Hs' & Hn' & Hm' & Hle) & Hh' & He' & Hc' & Hp'). apply wp_bind, wp_modify.
      apply IH; cbn; try done; try lia; [congruence|]. by rewrite Hm'.
    + intros [Hle He]. by apply wp_ret.
Qed.

Lemma ok_header_value ch : ok s_header_value (case_header_value max_header_size settings bytes ch).
Proof using Hsettings.
  unfold case_header_value. open_case. apply wp_bind, wp_get, wp_bind, wp_get. cbn [pos parser].
  apply header_value_loop_spec; cbn; try done; try lia.
  intros m k Hm. destruct (Hmk m k Hm) as [Ho ?]. by apply bool_decide_eq_true in Ho.
Qed.

Lemma ok_req_method ch : ok s_req_method (case_req_method ch).
Proof using.
  unfold case_req_method. open_case. destruct (Z.eqb_spec ch 0) as [|Hch]; [repeat wp_step|].
  do 4 wp_step. wp_step. destruct (matcher_ok _ _ Hst) as (c & Hc & Hi & Hnext).
  exists c, (mkExec ps p s_req_method n mk). split; [cbn [parser]; by rewrite Hc|].
  cbn [parser] in *. repeat wp_step; post_tac.
  - apply Hnext. apply Z.eqb_eq in E0. congruence.
  - by eapply next_method_ok.
Qed.

Lemma ok_dead ch : ok s_dead (case_dead ch).
Proof using. unfold case_dead. case_tac. Qed.
Lemma ok_start_req_or_res ch : ok s_start_req_or_res (case_start_req_or_res settings ch).
Proof using Hsettings. unfold case_start_req_or_res. case_tac. Qed.
Lemma ok_res_or_resp_H ch : ok s_res_or_resp_H (case_res_or_resp_H ch).
Proof using. unfold case_res_or_resp_H. case_tac. Qed.
Lemma ok_start_res ch : ok s_start_res (case_start_res settings ch).
Proof using Hsettings. unfold case_start_res. case_tac. Qed.
Lemma ok_res_H ch : ok s_res_H (case_res_H ch).
Proof using. unfold case_res_H. case_tac. Qed.
Lemma ok_res_HT ch : ok s_res_HT (case_res_HT ch).
Proof using. unfold case_res_HT. case_tac. Qed.
Lemma ok_res_HTT ch : ok s_res_HTT (case_res_HTT ch).
Proof using. unfold case_res_HTT. case_tac. Qed.
Lemma ok_res_HTTP ch : ok s_res_HTTP (case_res_HTTP ch).
Proof using. unfold case_res_HTTP. case_tac. Qed.
Lemma ok_res_http_major ch : ok s_res_http_major (case_res_http_major ch).
Proof using. unfold case_res_http_major. case_tac. Qed.
Lemma ok_res_http_dot ch : ok s_res_http_dot (case_res_http_dot ch).
Proof using. unfold case_res_http_dot. case_tac. Qed.
Lemma ok_res_http_minor ch : ok s_res_http_minor (case_res_http_minor ch).
Proof using. unfold case_res_http_minor. case_tac. Qed.
Lemma ok_res_http_end ch : ok s_res_http_end (case_res_http_end ch).
Proof using. unfold case_res_http_end. case_tac. Qed.
Lemma ok_res_first_status_code ch : ok s_res_first_status_code (case_res_first_status_code ch).
Proof using. unfold case_res_first_status_code. case_tac. Qed.
Lemma ok_res_status_code ch : ok s_res_status_code (case_res_status_code ch).
Proof using. unfold case_res_status_code. case_tac. Qed.
Lemma ok_res_status_start ch : ok s_res_status_start (case_res_status_start ch).
Proof using. unfold case_res_status_start. case_tac. Qed.
Lemma ok_res_status ch : ok s_res_status (case_res_status settings bytes ch).
Proof using Hsettings. unfold case_res_status. case_tac. Qed.
Lemma ok_res_line_almost_done ch : ok s_res_line_almost_done (case_res_line_almost_done ch).
Proof using. unfold case_res_line_almost_done. case_tac. Qed.
Lemma ok_start_req ch : ok s_start_req (case_start_req settings ch).
Proof using Hsettings. unfold case_start_req. case_tac. Qed.
Lemma ok_req_spaces_before_url ch : ok s_req_spaces_before_url (case_req_spaces_before_url ch).
Proof using. unfold case_req_spaces_before_url. case_tac. Qed.
Lemma ok_req_schema ch : ok s_req_schema (case_req_schema ch).
Proof using. unfold case_req_schema. case_tac. Qed.
Lemma ok_req_schema_slash ch : ok s_req_schema_slash (case_req_schema ch).
Proof using. unfold case_req_schema. case_tac. Qed.
Lemma ok_req_schema_slash_slash ch : ok s_req_schema_slash_slash (case_req_schema ch).
Proof using. unfold case_req_schema. case_tac. Qed.
Lemma ok_req_server_start ch : ok s_req_server_start (case_req_schema ch).
Proof using. unfold case_req_schema. case_tac. Qed.
Lemma ok_req_server ch : ok s_req_server (case_req_url settings bytes ch).
Proof using Hsettings. unfold case_req_url. case_tac. Qed.
Lemma ok_req_server_with_at ch : ok s_req_server_with_at (case_req_url settings bytes ch).
Proof using Hsettings. unfold case_req_url. case_tac. Qed.
Lemma ok_req_path ch : ok s_req_path (case_req_url settings bytes ch).
Proof using Hsettings. unfold case_req_url. case_tac. Qed.
Lemma ok_req_query_string_start ch : ok s_req_query_string_start (case_req_url settings bytes ch).
Proof using Hsettings. unfold case_req_url. case_tac. Qed.
Lemma ok_req_query_string ch : ok s_req_query_string (case_req_url settings bytes ch).
Proof using Hsettings. unfold case_req_url. case_tac. Qed.
Lemma ok_req_fragment_start ch : ok s_req_fragment_start (case_req_url settings bytes ch).
Proof using Hsettings. unfold case_req_url. case_tac. Qed.
Lemma ok_req_fragment ch : ok s_req_fragment (case_req_url settings bytes ch).
Proof using Hsettings. unfold case_req_url. case_tac. Qed.
Lemma ok_req_http_start ch : ok s_req_http_start (case_req_http_start ch).
Proof using. unfold case_req_http_start. case_tac. Qed.
Lemma ok_req_http_H ch : ok s_req_http_H (case_req_http_H ch).
Proof using. unfold case_req_http_H. case_tac. Qed.
Lemma ok_req_http_HT ch : ok s_req_http_HT (case_req_http_HT ch).
Proof using. unfold case_req_http_HT. case_tac. Qed.
Lemma ok_req_http_HTT ch : ok s_req_http_HTT (case_req_http_HTT ch).
Proof using. unfold case_req_http_HTT. case_tac. Qed.
Lemma ok_req_http_HTTP ch : ok s_req_http_HTTP (case_req_http_HTTP ch).
Proof using. unfold case_req_http_HTTP. case_tac. Qed.
Lemma ok_req_http_I ch : ok s_req_http_I (case_req_http_I ch).
Proof using. unfold case_req_http_I. case_tac. Qed.
Lemma ok_req_http_IC ch : ok s_req_http_IC (case_req_http_IC ch).
Proof using. unfold case_req_http_IC. case_tac. Qed.
Lemma ok_req_http_major ch : ok s_req_http_major (case_req_http_major ch).
Proof using. unfold case_req_http_major. case_tac. Qed.
Lemma ok_req_http_dot ch : ok s_req_http_dot (case_req_http_dot ch).
Proof using. unfold case_req_http_dot. case_tac. Qed.
Lemma ok_req_http_minor ch : ok s_req_http_minor (case_req_http_minor ch).
Proof using. unfold case_req_http_minor. case_tac. Qed.
Lemma ok_req_http_end ch : ok s_req_http_end (case_req_http_end ch).
Proof using. unfold case_req_http_end. case_tac. Qed.
Lemma ok_req_line_almost_done ch : ok s_req_line_almost_done (case_req_line_almost_done ch).
Proof using. unfold case_req_line_almost_done. case_tac. Qed.
Lemma ok_header_field_start ch : ok s_header_field_start (case_header_field_start ch).
Proof using. unfold case_header_field_start. case_tac. Qed.
Lemma ok_header_value_discard_ws ch : ok s_header_value_discard_ws (case_header_value_discard_ws ch).
Proof using. unfold case_header_value_discard_ws, case_header_value_start. case_tac. Qed.
Lemma ok_header_value_discard_ws_almost_done ch : ok s_header_value_discard_ws_almost_done (case_header_value_discard_ws_almost_done ch).
Proof using. unfold case_header_value_discard_ws_almost_done. case_tac. Qed.
Lemma ok_header_value_discard_lws ch : ok s_header_value_discard_lws (case_header_value_discard_lws settings bytes ch).
Proof using Hsettings. unfold case_header_value_discard_lws. case_tac. Qed.
Lemma ok_header_value_start ch : ok s_header_value_start (case_header_value_start ch).
Proof using. unfold case_header_value_start. case_tac. Qed.
Lemma ok_header_value_lws ch : ok s_header_value_lws (case_header_value_lws ch).
Proof using. unfold case_header_value_lws. case_tac. Qed.
Lemma ok_header_almost_done ch : ok s_header_almost_done (case_header_almost_done ch).
Proof using. unfold case_header_almost_done. case_tac. Qed.
Lemma ok_chunk_size_start ch : ok s_chunk_size_start (case_chunk_size_start ch).
Proof using. unfold case_chunk_size_start. case_tac. Qed.
Lemma ok_chunk_size ch : ok s_chunk_size (case_chunk_size ch).
Proof using. unfold case_chunk_size. case_tac. Qed.
Lemma ok_chunk_parameters ch : ok s_chunk_parameters (case_chunk_parameters ch).
Proof using. unfold case_chunk_parameters. case_tac. Qed.
Lemma ok_chunk_size_almost_done ch : ok s_chunk_size_almost_done (case_chunk_size_almost_done settings ch).
Proof using Hsettings. unfold case_chunk_size_almost_done. case_tac. Qed.
Lemma ok_headers_almost_done ch : ok s_headers_almost_done (case_headers_almost_done settings ch).
Proof using Hsettings. unfold case_headers_almost_done. case_tac. Qed.
Lemma ok_headers_done ch : ok s_headers_done (case_headers_done settings ch).
Proof using Hsettings. unfold case_headers_done. case_tac. Qed.
Lemma ok_chunk_data ch : ok s_chunk_data (case_chunk_data bytes ch).
Proof using. unfold case_chunk_data. case_tac. Qed.
Lemma ok_chunk_data_almost_done ch : ok s_chunk_data_almost_done (case_chunk_data_almost_done settings bytes ch).
Proof using Hsettings. unfold case_chunk_data_almost_done. case_tac. Qed.
Lemma ok_chunk_data_done ch : ok s_chunk_data_done (case_chunk_data_done settings ch).
Proof using Hsettings. unfold case_chunk_data_done. case_tac. Qed.
Lemma ok_body_identity ch : ok s_body_identity (case_body_identity settings bytes ch).
Proof using Hsettings. unfold case_body_identity. case_tac. Qed.
Lemma ok_body_identity_eof ch : ok s_body_identity_eof (case_body_identity_eof bytes ch).
Proof using. unfold case_body_identity_eof. case_tac. Qed.
Lemma ok_message_done ch : ok s_message_done (case_message_done settings ch).
Proof using Hsettings. unfold case_message_done. case_tac. Qed.

Lemma switch_ok s ch : ok s (switch max_header_size settings bytes s ch).
Proof using Hsettings.
  destruct s; cbn [switch].
  - apply ok_dead.
  - apply ok_start_req_or_res.
  - apply ok_res_or_resp_H.
  - apply ok_start_res.
  - apply ok_res_H.
  - apply ok_res_HT.
  - apply ok_res_HTT.
  - apply ok_res_HTTP.
  - apply ok_res_http_major.
  - apply ok_res_http_dot.
  - apply ok_res_http_minor.
  - apply ok_res_http_end.
  - apply ok_res_first_status_code.
  - apply ok_res_status_code.
  - apply ok_res_status_start.
  - apply ok_res_status.
  - apply ok_res_line_almost_done.
  - apply ok_start_req.
  - apply ok_req_method.
  - apply ok_req_spaces_before_url.
  - apply ok_req_schema.
  - apply ok_req_schema_slash.
  - apply ok_req_schema_slash_slash.
  - apply ok_req_server_start.
  - apply ok_req_server.
  - apply ok_req_server_with_at.
  - apply ok_req_path.
  - apply ok_req_query_string_start.
  - apply ok_req_query_string.
  - apply ok_req_fragment_start.
  - apply ok_req_fragment.
  - apply ok_req_http_start.
  - apply ok_req_http_H.
  - apply ok_req_http_HT.
  - apply ok_req_http_HTT.
  - apply ok_req_http_HTTP.
  - apply ok_req_http_I.
  - apply ok_req_http_IC.
  - apply ok_req_http_major.
  - apply ok_req_http_dot.
  - apply ok_req_http_minor.
  - apply ok_req_http_end.
  - apply ok_req_line_almost_done.
  - apply ok_header_field_start.
  - apply ok_header_field.
  - apply ok_header_value_discard_ws.
  - apply ok_header_value_discard_ws_almost_done.
  - apply ok_header_value_discard_lws.
  - apply ok_header_value_start.
  - apply ok_header_value.
  - apply ok_header_value_lws.
  - apply ok_header_almost_done.
  - apply ok_chunk_size_start.
  - apply ok_chunk_size.
  - apply ok_chunk_parameters.
  - apply ok_chunk_size_almost_done.
  - apply ok_headers_almost_done.
  - apply ok_headers_done.
  - apply ok_chunk_data.
  - apply ok_chunk_data_almost_done.
  - apply ok_chunk_data_done.
  - apply ok_body_identity.
  - apply ok_body_identity_eof.
  - apply ok_message_done.
Qed.
End cases.
