(* ===== verification/ParserTheorems.v ===== *)
(** * ParserTheorems: what http_parser guarantees

    The loop of [http_parser_execute] on top of its cases ([ParserSafety.v]), and
    the theorems about the library. *)

From stdpp Require Import base list numbers.
From S2P Require Import Prelude Words ParserTables ParserUrl ParserState ParserExec ParserSafety.

Local Open Scope Z_scope.

Section execute.
Context {D : Type}.
Variable max_header_size : Z.
Variable settings : http_parser_settings D.
Variable bytes : list Z.
Hypothesis Hsettings : settings_ok settings bytes.

(** ** The loop *)

Lemma rank_le s : (rank s <= 4)%nat.
Proof using. by destruct s; cbn; lia. Qed.

Lemma reexecute_ok fuel : forall ch (x : exec D), inv 1 x -> (pos x < length bytes)%nat -> (rank (p_state x) < fuel)%nat ->
  wp (reexecute max_header_size settings bytes fuel ch) (post bytes 0 (pos x)) x.
Proof using Hsettings.
  induction fuel as [|fuel IH]; intros ch x Hx Hp Hf; [lia|]. cbn [reexecute].
  apply wp_bind, wp_get, wp_bind. eapply wp_mono; [by apply (switch_ok max_header_size settings bytes Hsettings (p_state x))|].
  intros [|ch'| |n] x'; cbn [post]; intros H; [by apply wp_ret| |by apply wp_ret..].
  destruct H as (Hinv & Hr & Hle & Hlt). eapply wp_mono; [apply IH; [done|lia|lia]|].
  intros [|c| |n] x''; cbn [post]; [|intros (_ & ? & _); lia|done|done].
  intros [? ?]. split; [done|lia].
Qed.

Lemma inv_count (x : exec D) : inv 0 x -> PARSING_HEADER (p_state x) = true ->
  inv 1 (set_l_nread (wrap 32 (l_nread x + wrap 32 (Z.of_nat 1))) x).
Proof using.
  intros (He & Hc & Hst & Hmk) _. unfold inv. cbn. split_and!; try done; try lia.
  destruct (p_state x); try done. cbn in *. destruct Hst as [? ->]. by split.
Qed.

Lemma inv_nocount (x : exec D) : inv 0 x -> PARSING_HEADER (p_state x) = false -> inv 1 x.
Proof using.
  intros (He & Hc & Hst & Hmk) Hph. unfold inv. split_and!; try done; try lia. by destruct (p_state x).
Qed.

Lemma one_byte_ok ch (x : exec D) : inv 0 x -> (pos x < length bytes)%nat ->
  wp (one_byte max_header_size settings bytes ch) (post bytes 0 (pos x)) x.
Proof using Hsettings.
  intros Hx Hp. unfold one_byte. apply wp_bind, wp_get. pose proof (rank_le (p_state x)).
  destruct (PARSING_HEADER (p_state x)) eqn:Hph.
  - apply wp_count; [apply wp_error; [cbn; lia|done]|].
    apply (reexecute_ok 8 ch (set_l_nread _ x)); [by apply inv_count|done|cbn; lia].
  - apply reexecute_ok; [by apply inv_nocount|done|lia].
Qed.

Definition loop_post (f : flow) (x : exec D) : Prop :=
  match f with
  | Break => inv 0 x /\ pos x = length bytes
  | Reexecute _ => False
  | GotoError => (pos x <= length bytes)%nat /\ errno (parser x) <> HPE_OK
  | Return n => (n <= length bytes)%nat /\ parser_ok (parser x) /\ (errno (parser x) = HPE_OK -> upgrade (parser x) = true)
  end.

Lemma main_loop_ok fuel : forall x : exec D, inv 0 x -> (pos x <= length bytes)%nat -> (length bytes - pos x <= fuel)%nat ->
  wp (main_loop max_header_size settings bytes fuel) loop_post x.
Proof using Hsettings.
  induction fuel as [|fuel IH]; intros x Hx Hp Hf; cbn [main_loop]; apply wp_bind, wp_get;
    destruct (Nat.eqb_spec (pos x) (length bytes)) as [|Hne]; try lia; [by apply wp_ret..|].
  apply wp_bind, wp_char_at; [lia|]. intros ch _. apply wp_bind.
  eapply wp_mono; [apply one_byte_ok; [done|lia]|].
  intros [|c| |n] x'; cbn [post]; [|intros (_ & ? & _); lia|by intros; apply wp_ret..].
  intros [(He & Hc & Hst & Hmk) Hp']. apply wp_bind, wp_modify. apply IH; [|cbn; lia..].
  unfold inv. cbn. split_and!; try done; try lia. intros m k Hm. destruct (Hmk m k Hm). split; [done|lia].
Qed.

(** ** What is left at the end *)

Definition at_end (x : exec D) : Prop :=
  errno (parser x) = HPE_OK /\ 0 <= content_length (parser x) < 2 ^ 64 /\
  st_ok 0 (p_state x) (parser x) (l_nread x) /\ pos x = length bytes.

Definition end_post (f : flow) (x : exec D) : Prop :=
  exists n, f = Return n /\ (n <= length bytes)%nat /\ parser_ok (parser x) /\
    (errno (parser x) = HPE_OK -> n = length bytes).

Lemma leftover_step m k : (forall x, at_end x -> wp k end_post x) ->
  forall x, at_end x -> wp (CALLBACK_DATA_NOADVANCE settings bytes m k) end_post x.
Proof using Hsettings.
  intros Hk x (He & Hc & Hst & Hp). unfold CALLBACK_DATA_NOADVANCE. apply wp_bind, wp_get.
  unfold CALLBACK_DATA_. apply wp_bind, wp_get, wp_bind, wp_assert; [by apply bool_decide_eq_true|].
  apply wp_bind, wp_get. destruct (marks x m) as [start|]; [|by apply Hk].
  apply wp_bind, wp_get. cbv zeta. destruct (data_of settings m) as [f|] eqn:Hf; [|apply wp_bind, wp_modify; by apply Hk].
  apply wp_call_back_gen; [|by destruct m|done| |].
  - apply (proj2 (proj2 Hsettings) m f); [done|]. rewrite length_take, length_drop. lia.
  - intros x' Hx'. exists (pos x). split_and!; [done|lia|intros H|intros H]; destruct m; cbn in Hx'; congruence.
  - intros d. apply wp_bind, wp_modify. apply Hk. unfold at_end. cbn. split_and!; done || lia.
Qed.

Lemma count_marks_le (x : exec D) : inv 0 x -> (count_marks x <= 1)%nat.
Proof using.
  intros (_ & _ & _ & Hmk). unfold count_marks.
  assert (forall n, owner n (p_state x) = false -> match marks x n with Some _ => 1 | None => 0 end = 0)%nat as H0.
  { intros n Hn. destruct (marks x n) eqn:Hm; [|done]. destruct (Hmk _ _ Hm). congruence. }
  assert (forall n, match marks x n with Some _ => 1 | None => 0 end <= 1)%nat as H1 by (intros n; destruct (marks x n); lia).
  pose proof (H1 header_field). pose proof (H1 header_value). pose proof (H1 url). pose proof (H1 body). pose proof (H1 status).
  destruct (p_state x) eqn:Hs;
    rewrite ?(H0 header_field eq_refl), ?(H0 header_value eq_refl), ?(H0 url eq_refl), ?(H0 body eq_refl), ?(H0 status eq_refl); lia.
Qed.

Lemma leftovers_ok (x : exec D) : inv 0 x -> pos x = length bytes -> wp (leftovers settings bytes) end_post x.
Proof using Hsettings.
  intros Hx Hp. unfold leftovers. apply wp_bind, wp_get, wp_bind, wp_assert; [apply Nat.leb_le; by apply count_marks_le|].
  revert x Hx Hp. enough (forall x, at_end x -> wp (CALLBACK_DATA_NOADVANCE settings bytes header_field (
    CALLBACK_DATA_NOADVANCE settings bytes header_value (CALLBACK_DATA_NOADVANCE settings bytes url (
    CALLBACK_DATA_NOADVANCE settings bytes body (CALLBACK_DATA_NOADVANCE settings bytes status (RETURN (length bytes)))))))
    end_post x) as H.
  { intros x (? & ? & ? & ?) Hp. by apply H. }
  do 5 apply leftover_step. intros x (He & Hc & Hst & Hp). unfold RETURN. apply wp_bind, wp_modify, wp_ret.
  exists (length bytes). by split_and!.
Qed.

Lemma initial_mark_owner s n : initial_mark s = Some n -> owner n s = true.
Proof using. destruct s; intros [= <-]; reflexivity. Qed.

(** ** A call *)

Lemma eof_ok (ps : http_parser D) : parser_ok ps -> errno ps = HPE_OK ->
  exists n ps', http_parser_execute max_header_size settings [] ps = (Ok (Z.of_nat n), ps') /\ parser_ok ps' /\
    (n = 0%nat \/ n = 1%nat /\ errno ps' = HPE_INVALID_EOF_STATE).
Proof using Hsettings.
  intros Hok He. destruct (Hok He) as [Hc Hst].
  set (Q := fun (f : flow) (x : exec D) => exists n, f = Return n /\ parser_ok (parser x) /\
    (n = 0%nat \/ n = 1%nat /\ errno (parser x) = HPE_INVALID_EOF_STATE)).
  enough (wp (execute_body max_header_size settings []) Q (mkExec ps 0 (state_ ps) (nread ps) (fun _ => None)))
    as (f & x & Hrun & n & -> & Hps & Hn).
  { exists n, (parser x). unfold http_parser_execute. by rewrite Hrun. }
  unfold execute_body. apply wp_bind, wp_get. cbn [parser]. rewrite bool_decide_true by done. cbn [negb length Nat.eqb].
  unfold at_eof. apply wp_bind, wp_get. cbn [p_state].
  destruct (state_ ps) eqn:Hs;
    try (apply wp_bind, wp_modify, wp_ret; exists 1%nat; by split_and!; [|intros H|right]);
    try (apply wp_ret; exists 0%nat; split_and!; [done|exact Hok|by left]).
  unfold CALLBACK_NOTIFY_NOADVANCE. apply wp_bind, wp_get. cbn [pos].
  unfold CALLBACK_NOTIFY_. apply wp_bind, wp_get, wp_bind, wp_assert; [by apply bool_decide_eq_true|].
  destruct (notify_of settings message_complete) as [f|] eqn:Hf.
  - apply wp_call_back_gen; [by apply (proj1 Hsettings message_complete)|done|done| |].
    + intros x' Hx'. exists 0%nat. split_and!; [done|intros H; cbn in Hx'; congruence|by left].
    + intros d. apply wp_ret. exists 0%nat. split_and!; [done| |by left]. intros _. cbn. done.
  - apply wp_ret. exists 0%nat. split_and!; [done|exact Hok|by left].
Qed.

Lemma http_parser_execute_ok (ps : http_parser D) : parser_ok ps -> (length bytes <> 0)%nat -> errno ps = HPE_OK ->
  exists n ps', http_parser_execute max_header_size settings bytes ps = (Ok (Z.of_nat n), ps') /\
    (n <= length bytes)%nat /\ parser_ok ps' /\
    (errno ps' = HPE_OK -> n = length bytes \/ upgrade ps' = true).
Proof using Hsettings.
  intros Hok Hlen He. destruct (Hok He) as [Hc Hst].
  set (Q := fun (f : flow) (x : exec D) => exists n, f = Return n /\ (n <= length bytes)%nat /\ parser_ok (parser x) /\
    (errno (parser x) = HPE_OK -> n = length bytes \/ upgrade (parser x) = true)).
  enough (wp (execute_body max_header_size settings bytes) Q (mkExec ps 0 (state_ ps) (nread ps) (fun _ => None)))
    as (f & x & Hrun & n & -> & Hn & Hps & Hup).
  { exists n, (parser x). unfold http_parser_execute. rewrite Hrun. done. }
  unfold execute_body. apply wp_bind, wp_get. cbn [parser]. rewrite bool_decide_true by done. cbn [negb].
  destruct (Nat.eqb_spec (length bytes) 0) as [|Hne]; [done|]. apply wp_bind, wp_get, wp_bind. cbn [p_state].
  assert (forall x, inv 0 x -> pos x = 0%nat -> wp (let! f := main_loop max_header_size settings bytes (length bytes) in
    match f with Break => leftovers settings bytes | GotoError => at_error | f => ret f end) Q x) as Hrest.
  { intros x Hx Hp. apply wp_bind. eapply wp_mono; [apply main_loop_ok; [done|lia..]|].
    intros [|c| |n'] x'; cbn [loop_post]; [|done| |].
    - intros [??]. eapply wp_mono; [by apply leftovers_ok|]. intros f y (k & -> & ? & ? & ?). exists k. split_and!; auto.
    - intros [Hle Herr]. unfold at_error. apply wp_bind, wp_get. rewrite decide_False by done.
      apply wp_bind, wp_ret, wp_bind, wp_get. apply wp_bind, wp_modify, wp_ret. exists (pos x').
      split_and!; [done|done|intros H; done|intros H; done].
    - intros (? & ? & ?). apply wp_ret. exists n'. split_and!; auto. }
  destruct (initial_mark (state_ ps)) as [m|] eqn:Hm.
  - apply wp_modify. apply Hrest; [|done]. unfold inv. cbn. split_and!; try done; try lia. intros k i Hk. cbn in Hk.
    destruct (decide (k = m)) as [->|]; [|done]. injection Hk as <-. split; [by apply initial_mark_owner|lia].
  - apply wp_ret. apply Hrest; [|done]. by unfold inv.
Qed.
End execute.

(** A parser that has failed is left alone. *)
Lemma execute_failed {D} max (settings : http_parser_settings D) bytes (ps : http_parser D) : errno ps <> HPE_OK ->
  http_parser_execute max settings bytes ps = (Ok 0, ps).
Proof.
  intros He. unfold http_parser_execute, execute_body, member. rewrite bind_get. cbn [parser]. by rewrite bool_decide_false.
Qed.

(** ** Claims *)

(** C1: (safety) [http_parser_execute] on a parser in any state it can be in
    between calls, and on any bytes, returns: no assertion of the library fails and
    no table is read out of bounds, whatever the callbacks return.  It consumes at
    most the bytes given, all of them unless it reports an error or the protocol
    is upgraded, and leaves such a parser again; a parser that has reported an
    error consumes nothing any more and is left alone. *)
Theorem execute_total {D} max (settings : http_parser_settings D) bytes (ps : http_parser D) :
  settings_ok settings bytes -> parser_ok ps ->
  exists n ps', http_parser_execute max settings bytes ps = (Ok (Z.of_nat n), ps') /\ parser_ok ps' /\
    (errno ps <> HPE_OK -> n = 0%nat /\ ps' = ps) /\
    (errno ps = HPE_OK -> bytes <> [] -> (n <= length bytes)%nat /\
       (errno ps' = HPE_OK -> n = length bytes \/ upgrade ps' = true)) /\
    (errno ps = HPE_OK -> bytes = [] -> n = 0%nat \/ n = 1%nat /\ errno ps' = HPE_INVALID_EOF_STATE).
Proof.
  intros Hset Hok. destruct (decide (errno ps = HPE_OK)) as [He|He].
  - destruct (decide (bytes = [])) as [->|Hb].
    + by destruct (eof_ok max settings [] Hset ps Hok He) as (n & ps' & Hrun & Hps & Hn); exists n, ps'; split_and!.
    + destruct (http_parser_execute_ok max settings bytes Hset ps Hok) as (n & ps' & Hrun & Hn & Hps & Hup);
        [by destruct bytes|done|]. exists n, ps'. split_and!; done.
  - exists 0%nat, ps. split_and!; try done. by apply execute_failed.
Qed.

(** ** Witnesses *)

Lemma init_ok {D} t (d : D) : parser_ok (http_parser_init t d).
Proof. intros _. split; [done|]. by destruct t. Qed.

Lemma no_settings_ok {D} bytes : settings_ok (D := D) http_parser_settings_init bytes.
Proof. split_and!; [by intros []|done|by intros []]. Qed.

(** The beginning of a message, its end, and a parser that has failed. *)
Lemma execute_total_witness : exists n ps',
  http_parser_execute 81920 http_parser_settings_init [71; 69; 84; 32; 47] (http_parser_init HTTP_REQUEST tt) = (Ok (Z.of_nat n), ps') /\
  parser_ok ps' /\ (errno ps' = HPE_OK -> n = 5%nat \/ upgrade ps' = true).
Proof.
  destruct (execute_total 81920 http_parser_settings_init [71; 69; 84; 32; 47] (http_parser_init HTTP_REQUEST tt)
    (no_settings_ok _) (init_ok _ _)) as (n & ps' & Hrun & Hok & _ & Hn & _).
  exists n, ps'. split; [exact Hrun|]. split; [exact Hok|]. apply Hn; done.
Defined.
