(* ===== verification/ParserLoops.v ===== *)
(** * ParserLoops: the scans of header names and values, character by character

    [http_parser_execute] reads names and values of headers in loops of their own,
    which run ahead over the characters that do not matter: the rest of a name that
    is no keyword, and a value without a meaning for the parser.  Here are the plain
    loops, which go through the same list of characters one by one, and the proof that
    the fast ones do the same. *)

From stdpp Require Import base list numbers.
From S2P Require Import Prelude Words ParserTables ParserUrl ParserState ParserExec.

Local Open Scope Z_scope.

Section loops.
Context {D : Type}.
Variable max_header_size : Z.
Variable settings : http_parser_settings D.
Variable bytes : list Z.

#[local] Notation len := (length bytes).
Implicit Types e : exec D.

(** ** The plain loops *)

Definition advance : comp (exec D) unit := modify (fun e => set_pos (pos e + 1) e).

(** One character of a name. *)
Definition field_char_ref (ch : Z) : comp (exec D) unit :=
  let! h := member header_state in
  match h with
  | h_general => ret tt
  | _ => header_field_char max_header_size bytes ch (TOKEN ch)
  end.

Fixpoint field_ref (l : list Z) (ch : Z) : comp (exec D) Z :=
  match l with
  | [] => ret ch
  | c :: l =>
      if TOKEN c =? 0 then ret c else
      do! field_char_ref c in
      do! advance in
      field_ref l c
  end.

(** Where the scan of a value ends: with the bytes, at the end of the line, or at a
    character that it does not accept. *)
Inductive value_end : Set := AtEnd (h : header_states) | AtCR (h : header_states) | AtLF (h : header_states) | Bad.

Definition value_char_ref (h : header_states) (ch : Z) : comp (exec D) (option header_states) :=
  match h with
  | h_general => stay h_general
  | _ => header_value_char max_header_size bytes h ch (LOWER ch)
  end.

(** [Bad] has set the error. *)
Fixpoint value_ref (l : list Z) (h : header_states) : comp (exec D) value_end :=
  match l with
  | [] => ret (AtEnd h)
  | ch :: l =>
      if ch =? CR then ret (AtCR h)
      else if ch =? LF then ret (AtLF h)
      else
        let! lenient := member lenient_http_headers in
        if negb lenient && negb (IS_HEADER_CHAR ch) then do! SET_ERRNO HPE_INVALID_HEADER_TOKEN in ret Bad else
        let! r := value_char_ref h ch in
        match r with
        | None => ret Bad
        | Some h => do! advance in value_ref l h
        end
  end.

(** What the code does at each end of the scan that began at [start]. *)
Definition value_finish (start : nat) (r : value_end) : act (D := D) :=
  match r with
  | AtEnd h => after_header_value max_header_size bytes start h
  | AtCR h =>
      do! UPDATE_STATE s_header_almost_done in
      do! put_hs h in
      CALLBACK_DATA settings bytes header_value (after_header_value max_header_size bytes start h)
  | AtLF h =>
      let! p := get pos in
      do! UPDATE_STATE s_header_almost_done in
      COUNT_HEADER_SIZE max_header_size (p - start) (
        do! put_hs h in
        CALLBACK_DATA_NOADVANCE settings bytes header_value (REEXECUTE LF))
  | Bad => ret GotoError
  end.

(** ** Lists and positions *)

Lemma bind_ext {A B} (m1 m2 : comp (exec D) A) (k1 k2 : A -> comp (exec D) B) e :
  m1 e = m2 e -> (forall a e', m1 e = (Ok a, e') -> k1 a e' = k2 a e') -> bind m1 k1 e = bind m2 k2 e.
Proof. unfold bind. intros <- Hk. destruct (m1 e) as [[a| | | | |] e']; try done. by apply Hk. Qed.

Lemma drop_head p c l : drop p bytes = c :: l -> bytes !! p = Some c /\ l = drop (p + 1) bytes /\ (p < len)%nat.
Proof.
  intros H. assert (bytes !! p = Some c) as Hc.
  { rewrite <- (Nat.add_0_r p), <- lookup_drop, H. done. }
  split; [done|]. split; [|by eapply lookup_lt_Some].
  by rewrite <- drop_drop, H.
Qed.

Lemma drop_none p : (p <= len)%nat -> drop p bytes = [] -> p = len.
Proof. intros Hp H. apply (f_equal length) in H. rewrite length_drop in H. simpl in H. lia. Qed.

Lemma char_at_run i c e : bytes !! i = Some c -> char_at (D := D) bytes i e = (Ok c, e).
Proof. intros H. unfold char_at. by rewrite H. Qed.

Lemma pe_of_all p : (p <= len)%nat -> Z.of_nat len <= max_header_size -> pe_of max_header_size bytes p = len.
Proof. unfold pe_of. lia. Qed.

(** ** Names *)

(** A continuation that does not look at the character when all bytes are read. *)
Definition indifferent {A} (k : Z -> comp (exec D) A) : Prop :=
  forall c1 c2 e, pos e = len -> k c1 e = k c2 e.

Lemma field_ref_ch {A} l c1 c2 (k : Z -> comp (exec D) A) e : indifferent k -> (pos e <= len)%nat ->
  l = drop (pos e) bytes -> bind (field_ref l c1) k e = bind (field_ref l c2) k e.
Proof.
  intros Hk Hp Hl. destruct l as [|c l]; [|done]. cbn [field_ref]. rewrite !bind_ret_l. apply Hk.
  by apply drop_none.
Qed.

(** What leaves the value of [g]. *)
Section leaves.
Context {X : Type} (g : exec D -> X).

Definition leaves {A} (m : comp (exec D) A) : Prop := forall e a e', m e = (Ok a, e') -> g e' = g e.

Lemma leaves_ret {A} (a : A) : leaves (ret a).
Proof. by intros e b e' [= _ <-]. Qed.
Lemma leaves_fail {A} (o : outcome A) : leaves (fail o).
Proof. by intros e b e' [= _ <-]. Qed.
Lemma leaves_get {A} (f : exec D -> A) : leaves (get f).
Proof. by intros e b e' [= _ <-]. Qed.
Lemma leaves_modify f : (forall e, g (f e) = g e) -> leaves (modify f).
Proof. intros H e b e' [= _ <-]. apply H. Qed.
Lemma leaves_bind {A B} (m : comp (exec D) A) (k : A -> comp (exec D) B) :
  leaves m -> (forall a, leaves (k a)) -> leaves (bind m k).
Proof. intros Hm Hk e b e' (a & e1 & H1 & H2)%bind_Ok_inv. by rewrite (Hk a _ _ _ H2), (Hm _ _ _ H1). Qed.
End leaves.

Create HintDb leaves.
#[local] Hint Resolve leaves_ret leaves_fail leaves_get : leaves.

Ltac leaves := repeat first
  [ solve [eauto 1 with leaves]
  | apply leaves_bind; [|intros ?]
  | apply leaves_modify; intros ?; reflexivity
  | progress cbv zeta
  | match goal with |- leaves _ (match ?x with _ => _ end) => destruct x end ].

(** A character of a name moves neither the position nor the error. *)
Lemma field_char_ref_leaves {X} (g : exec D -> X) ch : (forall f e, (forall ps, errno (f ps) = errno ps) -> g (set_parser (f (parser e)) e) = g e) ->
  leaves g (field_char_ref ch).
Proof.
  intros Hg e a e'. unfold field_char_ref, header_field_char, member. rewrite !bind_get.
  assert (forall f, (forall ps, errno (f ps) = errno ps) -> leaves g (put f)) as Hput.
  { intros f Hf. apply leaves_modify. intros e1. by apply Hg. }
  destruct (header_state (parser e)) eqn:Hh; try (rewrite bind_get, Hh); revert e a e' Hh;
    match goal with |- forall e a e', _ -> ?m e = _ -> _ => enough (leaves g m) as H by (intros e a e' _; apply H) end;
    unfold match_name, match_next, put_hs, inc_index, member; repeat first [apply Hput; done | leaves].
Qed.

Lemma field_char_ref_pos ch : leaves pos (field_char_ref ch).
Proof. by apply field_char_ref_leaves. Qed.

Lemma field_char_ref_errno ch : leaves (fun e => errno (parser e)) (field_char_ref ch).
Proof. apply field_char_ref_leaves. intros f e Hf. apply Hf. Qed.

Lemma advance_run e : advance e = (Ok tt, set_pos (pos e + 1) e).
Proof. done. Qed.

(** The run ahead over the rest of a name. *)
Lemma skip_tokens_ref {A} (k : Z -> comp (exec D) A) l : forall fuel F ch e, indifferent k ->
  drop (pos e + 1) bytes = l -> (pos e < len)%nat -> (length l <= fuel)%nat -> (length l <= F)%nat ->
  header_state (parser e) = h_general ->
  bind (do! skip_tokens bytes fuel len in do! advance in header_field_loop max_header_size bytes F ch) k e =
  bind (do! advance in field_ref l ch) k e.
Proof.
  induction l as [|c l IH]; intros fuel F ch e Hk Hl Hp Hf HF Hh.
  - assert (pos e + 1 = len)%nat as He by (apply drop_none; [lia|done]).
    rewrite !bind_assoc. destruct fuel; cbn [skip_tokens]; rewrite bind_assoc, bind_get; destruct (Nat.ltb_spec (pos e + 1) len); try lia.
    all: rewrite bind_ret_l; rewrite !bind_assoc; unfold advance; rewrite !bind_modify; cbn [field_ref].
    all: destruct F; cbn [header_field_loop]; rewrite bind_assoc, bind_get; cbn [pos set_pos].
    all: rewrite He; destruct (Nat.eqb_spec len len); [|done]; done.
  - destruct (drop_head _ _ _ Hl) as (Hc & Hl' & Hlt). simpl in Hf, HF.
    destruct fuel as [|fuel]; [lia|]. destruct F as [|F]; [lia|].
    cbn [skip_tokens]. rewrite !bind_assoc, bind_get. destruct (Nat.ltb_spec (pos e + 1) len); [|lia].
    rewrite bind_assoc, (bind_Ok _ _ _ _ _ (char_at_run _ _ _ Hc)). cbn [field_ref].
    destruct (TOKEN c =? 0) eqn:Ht.
    + rewrite bind_ret_l. unfold advance. rewrite !bind_assoc, !bind_modify. cbn [header_field_loop].
      rewrite bind_assoc, bind_get. cbn [pos set_pos]. destruct (Nat.eqb_spec (pos e + 1) len); [lia|].
      rewrite bind_assoc, (bind_Ok _ _ _ _ _ (char_at_run _ _ _ Hc)). cbv zeta. by rewrite Ht.
    + rewrite bind_assoc, bind_modify, (bind_Ok _ _ _ _ _ (advance_run e)).
      unfold field_char_ref, member. rewrite !bind_assoc, bind_get. cbn [parser set_pos]. rewrite Hh, bind_ret_l.
      specialize (IH fuel (S F) ch (set_pos (pos e + 1) e) Hk). cbn [pos set_pos parser] in IH.
      rewrite !bind_assoc in IH. rewrite IH; [|by rewrite Hl'|lia|lia|lia|done].
      rewrite !(bind_Ok _ _ _ _ _ (advance_run _)), bind_assoc, (bind_Ok _ _ _ _ _ (advance_run _)).
      apply field_ref_ch; [done|cbn; lia|cbn; by rewrite <- Hl'].
Qed.

Section bounded.
Hypothesis Hmax : Z.of_nat len <= max_header_size.

Lemma header_field_loop_ref {A} (k : Z -> comp (exec D) A) fuel : forall ch e, indifferent k -> (pos e <= len)%nat ->
  (len - pos e <= fuel)%nat ->
  bind (header_field_loop max_header_size bytes fuel ch) k e = bind (field_ref (drop (pos e) bytes) ch) k e.
Proof using Hmax.
  induction fuel as [|fuel IH]; intros ch e Hk Hp Hf; cbn [header_field_loop]; rewrite bind_assoc, bind_get;
    destruct (Nat.eqb_spec (pos e) len) as [Heq|Hne]; try lia; [by rewrite drop_ge by lia..|].
  destruct (drop (pos e) bytes) as [|c l] eqn:Hl; [apply drop_none in Hl; lia|].
  destruct (drop_head _ _ _ Hl) as (Hc & Hl' & Hlt). cbn [field_ref].
  rewrite bind_assoc, (bind_Ok _ _ _ _ _ (char_at_run _ _ _ Hc)). cbv zeta. destruct (TOKEN c =? 0); [done|].
  change (modify (fun x : exec D => set_pos (pos x + 1) x)) with advance.
  assert (forall e1, pos e1 = pos e ->
    bind (do! advance in header_field_loop max_header_size bytes fuel c) k e1 = bind (do! advance in field_ref l c) k e1) as Hstep.
  { intros e1 He1. rewrite !bind_assoc, !(bind_Ok _ _ _ _ _ (advance_run _)).
    rewrite IH by (done || (cbn; lia)). cbn [pos set_pos]. by rewrite He1, <- Hl'. }
  destruct (decide (header_state (parser e) = h_general)) as [Hh|Hh].
  - unfold header_field_char, field_char_ref, member. rewrite !bind_assoc, !bind_get, Hh, bind_ret_l, bind_assoc, bind_get.
    rewrite pe_of_all by done. pose proof (skip_tokens_ref k l len fuel c e Hk) as Hs. rewrite bind_assoc in Hs.
    apply (f_equal length) in Hl. rewrite length_drop in Hl. simpl in Hl. apply Hs; try done; lia.
  - assert (header_field_char max_header_size bytes c (TOKEN c) e = field_char_ref c e) as Hc1.
    { unfold field_char_ref, member. rewrite bind_get. by destruct (header_state (parser e)). }
    rewrite !bind_assoc. apply bind_ext; [done|]. intros [] e1 He1. apply Hstep.
    apply (field_char_ref_pos c e tt). by rewrite <- Hc1.
Qed.

(** *** The case of a name with the plain loop. *)
Definition case_header_field_ref (ch : Z) : act :=
  let! start := get pos in
  let! ch := field_ref (drop start bytes) ch in
  let! p := get pos in
  if (p =? len)%nat then
    do! modify (set_pos (p - 1)) in
    COUNT_HEADER_SIZE max_header_size (p - 1 - start) break
  else
    COUNT_HEADER_SIZE max_header_size (p - start) (
      if ch =? ":"%ch then
        do! UPDATE_STATE s_header_value_discard_ws in
        CALLBACK_DATA settings bytes header_field break
      else error HPE_INVALID_HEADER_TOKEN).

Lemma case_header_field_plain ch e : (pos e <= len)%nat ->
  case_header_field max_header_size settings bytes ch e = case_header_field_ref ch e.
Proof using Hmax.
  intros Hp. unfold case_header_field, case_header_field_ref. rewrite !bind_get. apply header_field_loop_ref; [|done|lia].
  intros c1 c2 e1 He1. rewrite !bind_get. by destruct (Nat.eqb_spec (pos e1) len).
Qed.

(** ** Values *)

Lemma value_char_ref_pos h ch : leaves pos (value_char_ref h ch).
Proof.
  destruct h; unfold value_char_ref, header_value_char, match_value, skip_token, after_connection, content_length_char,
    match_next, value_error, stay, SET_ERRNO, UPDATE_STATE, put_hs, put, inc_index, member; leaves.
Qed.

(** The run ahead over a value without a meaning. *)
Lemma general_value_ref start l : forall fuel F e, drop (pos e) bytes = l -> (pos e <= len)%nat -> (0 < len)%nat ->
  (length l <= fuel)%nat ->
  (0 < pos e /\ length l <= F)%nat \/ (exists c l', l = c :: l' /\ c <> CR /\ c <> LF /\ (length l' <= F)%nat) ->
  (let! bad := general_value_loop bytes fuel len in
   if bad : bool then ret GotoError else
   let! p := get pos in
   do! (if (p =? len)%nat then modify (set_pos (p - 1)) else ret tt) in
   do! advance in header_value_loop max_header_size settings bytes F start h_general) e =
  (let! r := value_ref l h_general in value_finish start r) e.
Proof using Type.
  induction l as [|c l IH]; intros fuel F e Hl Hp Hlen Hf H0.
  - assert (pos e = len) as He by (apply drop_none; done). cbn [value_ref]. rewrite bind_ret_l. cbn [value_finish].
    destruct fuel; cbn [general_value_loop]; rewrite bind_assoc, bind_get, He; (destruct (Nat.eqb_spec len len); [|done]);
      rewrite bind_ret_l, bind_get, He; (destruct (Nat.eqb_spec len len); [|done]);
      rewrite bind_modify, (bind_Ok _ _ _ _ _ (advance_run _)); cbn [pos set_pos];
      destruct F; cbn [header_value_loop]; rewrite bind_get; cbn [pos set_pos];
      (replace (len - 1 + 1)%nat with len by lia); (destruct (Nat.eqb_spec len len); [|done]);
      (replace (set_pos len (set_pos (len - 1) e)) with e by (destruct e; cbn in *; by rewrite He)); done.
  - destruct (drop_head _ _ _ Hl) as (Hc & Hl' & Hlt). simpl in Hf.
    destruct fuel as [|fuel]; [lia|]. cbn [general_value_loop value_ref].
    rewrite bind_assoc, bind_get. destruct (Nat.eqb_spec (pos e) len); [lia|].
    rewrite bind_assoc, (bind_Ok _ _ _ _ _ (char_at_run _ _ _ Hc)).
    destruct (Z.eqb_spec c CR) as [Hcr|Hcr]; [|destruct (Z.eqb_spec c LF) as [Hlf|Hlf]]; cbn [orb].
    1,2: assert (0 < pos e /\ S (length l) <= F)%nat as [? ?] by (destruct H0 as [|(c' & l' & [= <- <-] & ? & ? & _)]; [done|congruence]);
      (destruct F as [|F]; [lia|]).
    1,2: rewrite bind_assoc, bind_modify, !bind_ret_l, bind_get; cbn [pos set_pos];
      (destruct (Nat.eqb_spec (pos e - 1) len); [lia|]); rewrite bind_ret_l, (bind_Ok _ _ _ _ _ (advance_run _));
      cbn [pos set_pos header_value_loop]; (replace (pos e - 1 + 1)%nat with (pos e) by lia);
      (replace (set_pos (pos e) (set_pos (pos e - 1) e)) with e by (by destruct e));
      rewrite bind_get; (destruct (Nat.eqb_spec (pos e) len); [lia|]);
      rewrite (bind_Ok _ _ _ _ _ (char_at_run _ _ _ Hc)).
    + rewrite Hcr. done.
    + rewrite Hlf. cbn [value_finish]. by rewrite bind_get.
    + unfold member. rewrite !bind_assoc, !bind_get.
      destruct (negb _ && negb _); [by rewrite !bind_assoc|].
      cbn [value_char_ref]. unfold stay. rewrite !bind_assoc, bind_modify, bind_ret_l, bind_assoc.
      rewrite (bind_Ok _ _ _ _ _ (advance_run e)).
      rewrite (IH fuel F); [done|by rewrite Hl'|cbn; lia|done|lia|left; cbn].
      destruct H0 as [[_ ?]|(c' & l' & [= <- <-] & _ & _ & ?)]; simpl in *; lia.
Qed.

Lemma header_value_loop_ref start fuel : forall h e, (pos e <= len)%nat -> (0 < len)%nat -> (len - pos e <= fuel)%nat ->
  header_value_loop max_header_size settings bytes fuel start h e =
  (let! r := value_ref (drop (pos e) bytes) h in value_finish start r) e.
Proof using Hmax.
  induction fuel as [|fuel IH]; intros h e Hp Hlen Hf; cbn [header_value_loop]; rewrite bind_get;
    destruct (Nat.eqb_spec (pos e) len) as [Heq|Hne]; try lia; [by rewrite drop_ge by lia..|].
  destruct (drop (pos e) bytes) as [|c l] eqn:Hl; [apply drop_none in Hl; lia|].
  destruct (drop_head _ _ _ Hl) as (Hc & Hl' & Hlt).
  rewrite (bind_Ok _ _ _ _ _ (char_at_run _ _ _ Hc)).
  destruct (Z.eqb_spec c CR) as [->|Hcr]; [done|].
  destruct (Z.eqb_spec c LF) as [->|Hlf]; [done|].
  unfold member. rewrite bind_get.
  destruct (negb (lenient_http_headers (parser e)) && negb (IS_HEADER_CHAR c)) eqn:Hbad.
  - cbn [value_ref]. rewrite (proj2 (Z.eqb_neq c CR) Hcr), (proj2 (Z.eqb_neq c LF) Hlf). unfold member.
    by rewrite bind_assoc, bind_get, Hbad.
  - destruct (decide (h = h_general)) as [->|Hh].
    + pose proof (f_equal length Hl) as Hn. rewrite length_drop in Hn. simpl in Hn.
      rewrite <- (general_value_ref start (c :: l) len fuel e Hl) by
        (done || (simpl; lia) || (right; exists c, l; split_and!; done || lia)).
      cbn [header_value_char]. rewrite bind_assoc, bind_get, pe_of_all by done. rewrite bind_assoc.
      apply bind_ext; [done|]. intros [] e1 _; [done|]. rewrite !bind_assoc. rewrite !bind_get.
      rewrite !bind_assoc. apply bind_ext; [done|]. intros [] e2 _. unfold stay. by rewrite bind_ret_l.
    + cbn [value_ref]. rewrite (proj2 (Z.eqb_neq c CR) Hcr), (proj2 (Z.eqb_neq c LF) Hlf). unfold member.
      rewrite bind_assoc, bind_get, Hbad, bind_assoc.
      apply bind_ext; [by destruct h|]. intros [h'|] e1 He1; [|done]. rewrite bind_assoc.
      assert (pos e1 = pos e) as Hpos.
      { apply (value_char_ref_pos h c e (Some h')). rewrite <- He1. by destruct h. }
      change (modify (fun x : exec D => set_pos (pos x + 1) x)) with advance.
      rewrite !(bind_Ok _ _ _ _ _ (advance_run _)), IH by (cbn; lia). cbn [pos set_pos]. by rewrite Hpos, <- Hl'.
Qed.

(** *** The case of a value with the plain loop. *)
Definition case_header_value_ref (ch : Z) : act :=
  let! start := get pos in
  let! h_state := member header_state in
  let! r := value_ref (drop start bytes) h_state in
  value_finish start r.

Lemma case_header_value_plain ch e : (pos e < len)%nat ->
  case_header_value max_header_size settings bytes ch e = case_header_value_ref ch e.
Proof using Hmax.
  intros Hp. unfold case_header_value, case_header_value_ref, member. rewrite !bind_get. apply header_value_loop_ref; lia.
Qed.
End bounded.
End loops.

(** ** The theorem *)

(** C26: (equivalence) The scans that run ahead are an optimisation only: on a call with
    no more bytes than the limit for headers, the cases of a header name and of a header
    value do, in every state of the parser, what the plain loops over the characters
    do, with the same result, the same state of the parser and the same calls of the
    user's functions. *)
Theorem scans_are_plain {D} max (settings : http_parser_settings D) bytes ch (e : exec D) :
  Z.of_nat (length bytes) <= max -> (pos e < length bytes)%nat ->
  case_header_field max settings bytes ch e = case_header_field_ref max settings bytes ch e /\
  case_header_value max settings bytes ch e = case_header_value_ref max settings bytes ch e.
Proof.
  intros Hmax Hp. split; [apply case_header_field_plain|apply case_header_value_plain]; done || lia.
Qed.

(** The value of a header that is none of the parser's, up to the end of its line. *)
Lemma scans_are_plain_witness :
  let e := mkExec (set_header_state h_general (http_parser_init HTTP_REQUEST tt)) 0 s_header_value 1 (fun _ => None) in
  case_header_value 81920 http_parser_settings_init [118; 97; 108; 13; 10] 118 e =
  case_header_value_ref 81920 http_parser_settings_init [118; 97; 108; 13; 10] 118 e.
Proof.
  cbv zeta.
  destruct (scans_are_plain 81920 http_parser_settings_init [118; 97; 108; 13; 10] 118
    (mkExec (set_header_state h_general (http_parser_init HTTP_REQUEST tt)) 0 s_header_value 1 (fun _ => None))) as [_ H];
    [simpl; lia|simpl; lia|exact H].
Defined.
