(* ===== verification/ParserFrame.v ===== *)
(** * ParserFrame: the object of the user changes through callbacks only

    A property of the object that every callback keeps is kept by
    [http_parser_execute], whatever the bytes and the state of the parser. *)

From stdpp Require Import base list numbers.
From S2P Require Import Prelude Words ParserTables ParserUrl ParserState ParserExec.

Local Open Scope Z_scope.

Section frame.
Context {D : Type}.
Variable max_header_size : Z.
Variable settings : http_parser_settings D.
Variable bytes : list Z.
Variable I : D -> Prop.

(** A computation on the parser that keeps [I]. *)
Definition keeps_data {A} (f : comp (http_parser D) A) : Prop := forall ps, I (data ps) -> I (data (snd (f ps))).

Definition callbacks_keep : Prop :=
  (forall n f, notify_of settings n = Some f -> keeps_data f) /\
  (forall f, on_headers_complete settings = Some f -> keeps_data f) /\
  (forall n f l, data_of settings n = Some f -> keeps_data (f l)).

Hypothesis Hcallbacks : callbacks_keep.

Definition holds (x : exec D) : Prop := I (data (parser x)).

Definition keeps_I {A} (m : comp (exec D) A) : Prop := forall x, holds x -> holds (snd (m x)).

Lemma keeps_I_ret {A} (a : A) : keeps_I (ret a).
Proof using. by intros x. Qed.
Lemma keeps_I_fail {A} (o : outcome A) : keeps_I (fail o).
Proof using. by intros x. Qed.
Lemma keeps_I_get {A} (f : exec D -> A) : keeps_I (get f).
Proof using. by intros x. Qed.
Lemma keeps_I_modify f : (forall x, holds x -> holds (f x)) -> keeps_I (modify f).
Proof using. by intros Hf x Hx; apply Hf. Qed.
Lemma keeps_I_bind {A B} (m : comp (exec D) A) (k : A -> comp (exec D) B) :
  keeps_I m -> (forall a, keeps_I (k a)) -> keeps_I (bind m k).
Proof using.
  intros Hm Hk x Hx. specialize (Hm x Hx). unfold bind. destruct (m x) as [[a| | | | |] x']; try exact Hm. by apply Hk.
Qed.
Lemma keeps_I_assert b : keeps_I (CCZOE_ASSERT b).
Proof using. intros x Hx. by destruct b. Qed.
Lemma keeps_I_call {A} (f : comp (http_parser D) A) : keeps_data f -> keeps_I (lift parser set_parser f).
Proof using. intros Hf x Hx. specialize (Hf (parser x) Hx). unfold lift. by destruct (f (parser x)). Qed.

Create HintDb frame.
#[local] Hint Resolve keeps_I_ret keeps_I_fail keeps_I_get keeps_I_assert : frame.

(** Walk through a definition. *)
Ltac frame_modify := apply keeps_I_modify; intros ? ?; solve [assumption | unfold holds in *; repeat case_match; assumption].
Ltac frame := repeat
  match goal with
  | |- forall _, _ => intro
  | |- keeps_I (let _ := _ in _) => cbv zeta
  | |- keeps_I (bind _ _) => apply keeps_I_bind
  | |- keeps_I (modify _) => frame_modify
  | |- keeps_I (match ?x with _ => _ end) => destruct x eqn:?
  | |- keeps_I _ => solve [eauto 2 with frame]
  end.

Lemma call_back_keeps f e ER k : keeps_data f -> keeps_I k -> keeps_I (call_back f e ER k).
Proof using.
  intros Hf Hk. unfold call_back. pose proof (keeps_I_call f Hf).
  unfold put, member, SET_ERRNO, UPDATE_STATE. frame.
Qed.
#[local] Hint Resolve call_back_keeps : frame.

Lemma notify_keeps n ER k : keeps_I k -> keeps_I (CALLBACK_NOTIFY_ settings n ER k).
Proof using Hcallbacks.
  intros Hk. unfold CALLBACK_NOTIFY_, member, assert. apply keeps_I_bind; [apply keeps_I_get|intros e].
  apply keeps_I_bind; [apply keeps_I_assert|intros _]. destruct (notify_of settings n) as [f|] eqn:Hf; [|done].
  apply call_back_keeps; [by apply (proj1 Hcallbacks n)|done].
Qed.

Lemma data_keeps n extra ER k : keeps_I k -> keeps_I (CALLBACK_DATA_ settings bytes n extra ER k).
Proof using Hcallbacks.
  intros Hk. unfold CALLBACK_DATA_, member, assert. apply keeps_I_bind; [apply keeps_I_get|intros e].
  apply keeps_I_bind; [apply keeps_I_assert|intros _]. apply keeps_I_bind; [apply keeps_I_get|intros [start|]]; [|done].
  apply keeps_I_bind; [apply keeps_I_get|intros p]. cbv zeta.
  assert (keeps_I (do! modify (set_mark n None) in k)) by frame.
  destruct (data_of settings n) as [f|] eqn:Hf; [|done].
  apply call_back_keeps; [by apply (proj2 (proj2 Hcallbacks) n)|done].
Qed.
#[local] Hint Resolve notify_keeps data_keeps : frame.

Lemma NOTIFY_keeps n k : keeps_I k -> keeps_I (CALLBACK_NOTIFY settings n k).
Proof using Hcallbacks. intros Hk. unfold CALLBACK_NOTIFY. frame. Qed.
Lemma NOTIFY_NOADVANCE_keeps n k : keeps_I k -> keeps_I (CALLBACK_NOTIFY_NOADVANCE settings n k).
Proof using Hcallbacks. intros Hk. unfold CALLBACK_NOTIFY_NOADVANCE. frame. Qed.
Lemma DATA_keeps n k : keeps_I k -> keeps_I (CALLBACK_DATA settings bytes n k).
Proof using Hcallbacks. intros Hk. unfold CALLBACK_DATA. frame. Qed.
Lemma DATA_NOADVANCE_keeps n k : keeps_I k -> keeps_I (CALLBACK_DATA_NOADVANCE settings bytes n k).
Proof using Hcallbacks. intros Hk. unfold CALLBACK_DATA_NOADVANCE. frame. Qed.
Lemma error_keeps e : keeps_I (error e).
Proof using. unfold error, SET_ERRNO. frame. Qed.
Lemma RETURN_keeps n : keeps_I (RETURN n).
Proof using. unfold RETURN. frame. Qed.
#[local] Hint Resolve NOTIFY_keeps NOTIFY_NOADVANCE_keeps DATA_keeps DATA_NOADVANCE_keeps error_keeps RETURN_keeps : frame.
Lemma COUNT_keeps v k : keeps_I k -> keeps_I (COUNT_HEADER_SIZE max_header_size v k).
Proof using. intros Hk. unfold COUNT_HEADER_SIZE. frame. Qed.
Lemma STRICT_keeps b k : keeps_I k -> keeps_I (STRICT_CHECK b k).
Proof using. intros Hk. unfold STRICT_CHECK. frame. Qed.
Lemma put_keeps f : (forall ps, data (f ps) = data ps) -> keeps_I (put f).
Proof using. intros Hf x Hx. unfold holds. cbn. by rewrite Hf. Qed.
Lemma char_at_keeps i : keeps_I (char_at bytes i).
Proof using. unfold char_at. frame. Qed.
Lemma MARK_keeps n : keeps_I (MARK n).
Proof using. unfold MARK. frame. Qed.
Lemma expect_keeps c next ch : keeps_I (expect c next ch).
Proof using. unfold expect, STRICT_CHECK, UPDATE_STATE, break. frame. Qed.
#[local] Hint Resolve COUNT_keeps STRICT_keeps char_at_keeps MARK_keeps expect_keeps : frame.
#[local] Hint Extern 2 (keeps_I (put _)) => apply put_keeps; intros ?; reflexivity : frame.
#[local] Hint Extern 2 (keeps_I (modify _)) => apply keeps_I_modify; intros ? ?; assumption : frame.

(** With the macros. *)
Ltac run := repeat first
  [ match goal with
    | |- keeps_I (CALLBACK_NOTIFY _ _ _) => apply NOTIFY_keeps
    | |- keeps_I (CALLBACK_NOTIFY_NOADVANCE _ _ _) => apply NOTIFY_NOADVANCE_keeps
    | |- keeps_I (CALLBACK_DATA _ _ _ _) => apply DATA_keeps
    | |- keeps_I (CALLBACK_DATA_NOADVANCE _ _ _ _) => apply DATA_NOADVANCE_keeps
    | |- keeps_I (CALLBACK_DATA_ _ _ _ _ _ _) => apply data_keeps
    | |- keeps_I (COUNT_HEADER_SIZE _ _ _) => apply COUNT_keeps
    | |- keeps_I (STRICT_CHECK _ _) => apply STRICT_keeps
    end
  | progress frame ].

(** *** The loops *)

Lemma match_next_keeps name c : keeps_I (match_next name c).
Proof using. unfold match_next, inc_index, member. run. Qed.
#[local] Hint Resolve match_next_keeps : frame.
Lemma match_name_keeps name c found : keeps_I found -> keeps_I (match_name name c found).
Proof using. intros Hk. unfold match_name, put_hs. run. Qed.
Lemma skip_tokens_keeps fuel : forall pe, keeps_I (skip_tokens bytes fuel pe).
Proof using. induction fuel as [|fuel IH]; intros pe; cbn [skip_tokens]; run. Qed.
#[local] Hint Resolve match_name_keeps skip_tokens_keeps : frame.
Lemma header_field_char_keeps ch c : keeps_I (header_field_char max_header_size bytes ch c).
Proof using.
  unfold header_field_char, inc_index, put_hs, member. run.
Qed.
#[local] Hint Resolve header_field_char_keeps : frame.
Lemma header_field_loop_keeps fuel : forall ch, keeps_I (header_field_loop max_header_size bytes fuel ch).
Proof using. induction fuel as [|fuel IH]; intros ch; cbn [header_field_loop]; run. Qed.
Lemma general_value_loop_keeps fuel : forall pe, keeps_I (general_value_loop bytes fuel pe).
Proof using. induction fuel as [|fuel IH]; intros pe; cbn [general_value_loop]; unfold SET_ERRNO, member; run. Qed.
#[local] Hint Resolve header_field_loop_keeps general_value_loop_keeps : frame.
Lemma header_value_char_keeps h ch c : keeps_I (header_value_char max_header_size bytes h ch c).
Proof using.
  unfold header_value_char, match_value, skip_token, after_connection, content_length_char, value_error, stay,
    SET_ERRNO, UPDATE_STATE, put_hs, member. run.
Qed.
#[local] Hint Resolve header_value_char_keeps : frame.
Lemma header_value_loop_keeps fuel : forall start h, keeps_I (header_value_loop max_header_size settings bytes fuel start h).
Proof using Hcallbacks.
  induction fuel as [|fuel IH]; intros start h; cbn [header_value_loop];
    unfold after_header_value, UPDATE_STATE, put_hs, member, break, REEXECUTE; run.
Qed.
#[local] Hint Resolve header_value_loop_keeps : frame.

Lemma headers_complete_keeps k : keeps_I k -> keeps_I (call_headers_complete settings k).
Proof using Hcallbacks.
  intros Hk. unfold call_headers_complete. destruct (on_headers_complete settings) as [f|] eqn:Hf; [|done].
  apply keeps_I_bind; [apply keeps_I_call, (proj1 (proj2 Hcallbacks)); done|]. unfold SET_ERRNO. run.
Qed.
#[local] Hint Resolve headers_complete_keeps : frame.

(** *** The cases *)

Lemma switch_keeps s ch : keeps_I (switch max_header_size settings bytes s ch).
Proof using Hcallbacks.
  destruct s; cbn [switch];
    cbv beta delta [case_dead case_start_req_or_res case_res_or_resp_H case_start_res case_res_H case_res_HT case_res_HTT
      case_res_HTTP case_res_http_major case_res_http_dot case_res_http_minor case_res_http_end case_res_first_status_code
      case_res_status_code case_res_status_start case_res_status case_res_line_almost_done case_start_req case_req_method
      case_req_spaces_before_url case_req_schema case_req_url case_req_http_start case_req_http_H case_req_http_HT
      case_req_http_HTT case_req_http_I case_req_http_IC case_req_http_HTTP case_req_http_major case_req_http_dot
      case_req_http_minor case_req_http_end case_req_line_almost_done case_header_field_start case_header_field
      case_header_value_start case_header_value_discard_ws case_header_value case_header_almost_done case_header_value_lws
      case_header_value_discard_ws_almost_done case_header_value_discard_lws case_headers_almost_done case_headers_done
      case_body_identity case_body_identity_eof case_message_done case_chunk_size_start case_chunk_size case_chunk_parameters
      case_chunk_size_almost_done case_chunk_data case_chunk_data_almost_done case_chunk_data_done
      start_message url_char finish_header finish_message take_body reset_nread assert_chunked assert
      inc_index put_hs UPDATE_STATE SET_ERRNO member break REEXECUTE];
    run.
  apply headers_complete_keeps. run.
Qed.
#[local] Hint Resolve switch_keeps : frame.

Lemma reexecute_keeps fuel : forall ch, keeps_I (reexecute max_header_size settings bytes fuel ch).
Proof using Hcallbacks. induction fuel as [|fuel IH]; intros ch; cbn [reexecute]; run. Qed.
#[local] Hint Resolve reexecute_keeps : frame.

Lemma main_loop_keeps fuel : keeps_I (main_loop max_header_size settings bytes fuel).
Proof using Hcallbacks.
  induction fuel as [|fuel IH]; cbn [main_loop]; unfold one_byte, break; run.
Qed.
#[local] Hint Resolve main_loop_keeps : frame.

Lemma execute_keeps ps : I (data ps) -> I (data (snd (http_parser_execute max_header_size settings bytes ps))).
Proof using Hcallbacks.
  intros Hps.
  assert (keeps_I (execute_body max_header_size settings bytes)) as Hbody.
  { unfold execute_body, at_eof, at_error, leftovers, SET_ERRNO, member, assert. run. }
  specialize (Hbody (mkExec ps 0 (state_ ps) (nread ps) (fun _ => None)) Hps). unfold http_parser_execute.
  destruct (execute_body _ _ _ _) as [[[]| | | | |] x]; exact Hbody.
Qed.
End frame.
