(* ===== verification/ParserSim.v ===== *)
(** * ParserSim: the same code on all the bytes and on one of them

    A judgement on two runs of the same piece of [http_parser_execute]: one inside of a
    call on many bytes, and one in a call on the byte at the position of the first
    alone.  Rules for the macros, and the cases of the [switch] that consume one
    byte.  [ParserChunks.v] builds on it. *)

From stdpp Require Import base list numbers.
From S2P Require Import Prelude Words ParserTables ParserUrl ParserState ParserExec ParserSafety ParserLoops.

Local Open Scope Z_scope.

(** ** Callbacks that see a stream *)

(** A parser with other values of the members that differ between the runs. *)
Definition blind {D} (d : D) (s : state) (n : Z) (ps : http_parser D) : http_parser D :=
  set_data d (set_state_ s (set_nread n ps)).

(** A callback whose effect depends neither on the saved state nor on the saved count
    of header bytes. *)
Definition blind_cb {D} (f : comp (http_parser D) Z) : Prop :=
  exists rt g, (forall ps, f ps = (Ok (rt ps), set_data (g ps) ps)) /\
    forall s n ps, rt (set_state_ s (set_nread n ps)) = rt ps /\ g (set_state_ s (set_nread n ps)) = g ps.

(** The data callbacks append: [A n l] is the effect of the bytes [l], and the effect
    of two pieces is that of the whole. *)
Record collects {D} (settings : http_parser_settings D) (A : data_cb -> list Z -> D -> D) : Prop := mkCollects {
  col_data : forall n f l ps, data_of settings n = Some f -> f l ps = (Ok 0, set_data (A n l (data ps)) ps);
  col_none : forall n l d, data_of settings n = None -> A n l d = d;
  col_nil : forall n d, A n [] d = d;
  col_app : forall n l1 l2 d, A n (l1 ++ l2) d = A n l2 (A n l1 d);
  col_notify : forall n f, notify_of settings n = Some f -> blind_cb f;
  col_headers : forall f, on_headers_complete settings = Some f -> blind_cb f
}.

Lemma collects_ok {D} settings (A : data_cb -> list Z -> D -> D) bytes : collects settings A -> settings_ok settings bytes.
Proof.
  intros HA. split_and!.
  - intros n f Hf ps. destruct (col_notify _ _ HA n f Hf) as (rt & g & H & _). eauto.
  - intros f Hf ps. destruct (col_headers _ _ HA f Hf) as (rt & g & H & _). eauto.
  - intros n f l Hf _ ps. rewrite (col_data _ _ HA n f l ps Hf). eauto.
Qed.

Section sim.
Context {D : Type}.
Variable max_header_size : Z.
Variable settings : http_parser_settings D.
Variable A : data_cb -> list Z -> D -> D.
Hypothesis HA : collects settings A.
Variable bytes : list Z.
Variable c0 : Z.                      (* the only byte of the second run *)
Implicit Types (e x : exec D) (mk : option (data_cb * nat)) (mo : option data_cb) (p : nat) (st : state).

(** ** The relation between the two states *)

Definition mark_fn mk (m : data_cb) : option nat :=
  match mk with Some (n, j) => if decide (m = n) then Some j else None | None => None end.

(** What the first run has not told the callbacks yet, and the second has. *)
Definition pend mk p (d : D) : D :=
  match mk with Some (n, j) => A n (take (p - j) (drop j bytes)) d | None => d end.

Definition mark_le mk p : Prop := match mk with Some (_, j) => (j <= p)%nat | None => True end.

(** At the position [p] of the first run, in the state [st], with the marks and counts
    given. *)
Definition rel p mk mo st (N N' : Z) e x : Prop :=
  exists d s n mks, x = mkExec (blind d s n (parser e)) 0 st N' mks /\
    pos e = p /\ p_state e = st /\ l_nread e = N /\
    (forall m, marks e m = mark_fn mk m) /\ (forall m, mks m = mark_fn ((fun m => (m, O)) <$> mo) m) /\
    d = pend mk p (data (parser e)) /\ mark_le mk p.

(** [m'] follows [m] to a result that [Q] relates. *)
Definition both {X} (Q : X -> exec D -> X -> exec D -> Prop) p mk mo st N N' (m m' : comp (exec D) X) : Prop :=
  forall e x a e', rel p mk mo st N N' e x -> m e = (Ok a, e') -> exists a' x', m' x = (Ok a', x') /\ Q a e' a' x'.

(** The mark of the second run is the one a call begins with in this state. *)
Definition fits st mk mo : Prop := mo = fst <$> mk /\ initial_mark st = mo.

(** The states whose case may consume several bytes. *)
Definition multi st : bool :=
  match st with s_header_field | s_header_value | s_body_identity | s_body_identity_eof | s_chunk_data => true | _ => false end.

(** After the byte at [p]: the mark is one a call begins with, or that of a body
    whose last byte was it or the last byte of all. *)
Definition fits_next p st mk mo : Prop :=
  mo = fst <$> mk /\
  (initial_mark st = mo \/
   (mo = Some body /\ initial_mark st = None /\ (st = s_chunk_data_almost_done \/ (p + 1)%nat = length bytes))).

(** How the results of a case at [p] are related; [M] bounds the count of header
    bytes. *)
Definition outc p (M : Z) (f : flow) e (f' : flow) x : Prop :=
  match f with
  | Break => f' = Break /\ exists mk mo st N, rel p mk mo st N N e x /\ 0 <= N <= M /\ fits_next p st mk mo
  | Reexecute c => f' = Reexecute c /\ exists mk mo st N, rel p mk mo st N N e x /\ 0 <= N <= M /\ fits st mk mo /\ multi st = false
  | GotoError => f' = GotoError /\ pos e = p /\ pos x = O /\ errno (parser x) = errno (parser e) /\ errno (parser e) <> HPE_OK
  | Return v => exists w, f' = Return w /\ v = (p + w)%nat /\ errno (parser x) = errno (parser e) /\
      (errno (parser e) = HPE_OK -> w = 1%nat /\ parser x = parser e /\ 0 <= nread (parser e) <= M)
  end.

(** ** Rules *)

Section rules.
Context {X : Type} (Q : X -> exec D -> X -> exec D -> Prop).
Context (p : nat) (mk : option (data_cb * nat)) (mo : option data_cb) (st : state) (N N' : Z).

Notation both_ := (both Q p mk mo st N N').

Lemma both_ret a a' : (forall e x, rel p mk mo st N N' e x -> Q a e a' x) -> both_ (ret a) (ret a').
Proof. intros H e x b e' Hr [= <- <-]. eexists _, _. split; [done|]. by apply H. Qed.

Lemma both_fail (o : outcome X) : (forall a e x, o = Ok a -> rel p mk mo st N N' e x -> Q a e a x) -> both_ (fail o) (fail o).
Proof. intros H e x b e' Hr [= -> <-]. eexists _, _. split; [done|]. by apply H. Qed.

Lemma both_bind {Y} (m m' : comp (exec D) Y) (k k' : Y -> comp (exec D) X) (R : Y -> exec D -> Y -> exec D -> Prop) :
  both R p mk mo st N N' m m' ->
  (forall a e a' x, R a e a' x -> forall b e', k a e = (Ok b, e') -> exists b' x', k' a' x = (Ok b', x') /\ Q b e' b' x') ->
  both_ (bind m k) (bind m' k').
Proof.
  intros Hm Hk e x b e' Hr (a & e1 & H1 & H2)%bind_Ok_inv.
  destruct (Hm e x a e1 Hr H1) as (a' & x1 & H1' & HR). destruct (Hk _ _ _ _ HR _ _ H2) as (b' & x' & H2' & HQ).
  exists b', x'. by rewrite (bind_Ok _ _ _ _ _ H1').
Qed.

Lemma both_assoc {Y Z} (m m' : comp (exec D) Y) (k k' : Y -> comp (exec D) Z) (h h' : Z -> comp (exec D) X) :
  both_ (bind m (fun a => bind (k a) h)) (bind m' (fun a => bind (k' a) h')) -> both_ (bind (bind m k) h) (bind (bind m' k') h').
Proof. intros H e x b e' Hr He. rewrite bind_assoc in He. rewrite bind_assoc. by apply (H e x). Qed.

Lemma both_ret_l {Y} (a a' : Y) k k' : both_ (k a) (k' a') -> both_ (bind (ret a) k) (bind (ret a') k').
Proof. done. Qed.

Lemma both_fail_l {Y} (o : outcome Y) k k' : (forall a, o = Ok a -> both_ (k a) (k' a)) -> both_ (bind (fail o) k) (bind (fail o) k').
Proof.
  intros H e x b e' Hr He. destruct o as [a| | | | |]; try done. rewrite bind_fail_Ok in *. by apply (H a eq_refl e x).
Qed.

Lemma both_member {Y} (f : http_parser D -> Y) k k' : (forall d s n ps, f (blind d s n ps) = f ps) ->
  (forall ps, both_ (k (f ps)) (k' (f ps))) -> both_ (bind (member f) k) (bind (member f) k').
Proof.
  intros Hf H e x b e' Hr He. unfold member in *. rewrite bind_get in *.
  destruct Hr as (d & s & n & mks & -> & Hr). cbn [parser]. rewrite Hf. apply (H _ e _ b e'); [|done].
  exists d, s, n, mks. done.
Qed.

Lemma both_get_parser k : (forall d s n ps, k (blind d s n ps) = k ps) -> (forall ps, both_ (k ps) (k ps)) ->
  both_ (bind (get parser) k) (bind (get parser) k).
Proof.
  intros Hk H e x b e' Hr He. rewrite bind_get in *. assert (k (parser x) = k (parser e)) as ->.
  { destruct Hr as (d & s & n & mks & -> & _). apply Hk. }
  by apply (H (parser e) e x b e').
Qed.

Lemma both_get_state k k' : both_ (k st) (k' st) -> both_ (bind (get p_state) k) (bind (get p_state) k').
Proof.
  intros H e x b e' Hr He. rewrite bind_get in *.
  assert (p_state e = st /\ p_state x = st) as [E1 E2] by (destruct Hr as (? & ? & ? & ? & -> & ? & ? & _); done).
  rewrite E1 in He. rewrite E2. by apply (H e x).
Qed.

Lemma both_get_pos k k' : both_ (k p) (k' O) -> both_ (bind (get pos) k) (bind (get pos) k').
Proof.
  intros H e x b e' Hr He. rewrite bind_get in *.
  assert (pos e = p /\ pos x = O) as [E1 E2] by (destruct Hr as (? & ? & ? & ? & -> & ? & _); done).
  rewrite E1 in He. rewrite E2. by apply (H e x).
Qed.

Lemma both_get_nread k k' : both_ (k N) (k' N') -> both_ (bind (get l_nread) k) (bind (get l_nread) k').
Proof.
  intros H e x b e' Hr He. rewrite bind_get in *.
  assert (l_nread e = N /\ l_nread x = N') as [E1 E2] by (destruct Hr as (? & ? & ? & ? & -> & ? & ? & ? & _); done).
  rewrite E1 in He. rewrite E2. by apply (H e x).
Qed.

Lemma both_put (f : http_parser D -> http_parser D) k k' :
  (forall d s n ps, f (blind d s n ps) = blind d s n (f ps)) -> (forall ps, data (f ps) = data ps) ->
  both_ (k tt) (k' tt) -> both_ (bind (put f) k) (bind (put f) k').
Proof.
  intros Hf Hd H e x b e' Hr He. unfold put in *. rewrite bind_modify in *. refine (H _ _ b e' _ He).
  destruct Hr as (d & s & n & mks & -> & Hp & Hst & HN & Hm & Hm' & Hpd & Hle).
  exists d, s, n, mks. cbn [parser set_parser pos p_state l_nread marks]. by rewrite Hf, Hd.
Qed.

Lemma both_state s' k k' : both Q p mk mo s' N N' (k tt) (k' tt) -> both_ (bind (UPDATE_STATE s') k) (bind (UPDATE_STATE s') k').
Proof.
  intros H e x b e' Hr He. unfold UPDATE_STATE in *. rewrite bind_modify in *. refine (H _ _ b e' _ He).
  destruct Hr as (d & s & n & mks & -> & Hp & Hst & HN & Hm & Hm' & Hpd & Hle). by exists d, s, n, mks.
Qed.

Lemma both_reset k k' : both Q p mk mo st 0 0 (k tt) (k' tt) -> both_ (bind reset_nread k) (bind reset_nread k').
Proof.
  intros H e x b e' Hr He. unfold reset_nread in *. rewrite bind_modify in *. refine (H _ _ b e' _ He).
  destruct Hr as (d & s & n & mks & -> & Hp & Hst & HN & Hm & Hm' & Hpd & Hle). by exists d, s, 0, mks.
Qed.

Lemma both_assert b k k' : (b = true -> both_ (k tt) (k' tt)) -> both_ (bind (assert b) k) (bind (assert b) k').
Proof. intros H. destruct b; [|by intros e x b e' _ [=]]. by apply H. Qed.

End rules.

(** *** The callbacks *)

Lemma mark_fn_single (mo : option data_cb) m j : mark_fn ((fun m => (m, O)) <$> mo) m = Some j -> j = O.
Proof. destruct mo as [n|]; simpl; [|done]. destruct (decide _); [|done]. by intros [= <-]. Qed.

(** The effect of a data callback on a state. *)
Definition tell (n : data_cb) (l : list Z) e : exec D :=
  set_mark n None (set_parser (set_data (A n l (data (parser e)))
    (match data_of settings n with Some _ => set_state_ (p_state e) (parser e) | None => parser e end)) e).

Lemma data_run B n extra ER (k : act) e j : errno (parser e) = HPE_OK -> marks e n = Some j ->
  CALLBACK_DATA_ settings B n extra ER k e = k (tell n (take (pos e - j + extra) (drop j B)) e).
Proof using HA.
  intros He Hj. unfold CALLBACK_DATA_, member, tell. rewrite bind_get, He. unfold assert.
  rewrite bind_CCZOE_ASSERT, bool_decide_true, bind_get, Hj, bind_get by done. cbv zeta.
  destruct (data_of settings n) as [f|] eqn:Hf.
  - unfold call_back, put, member, UPDATE_STATE, lift. rewrite bind_get, bind_modify. unfold bind at 1. cbn [parser set_parser].
    rewrite (col_data _ _ HA n f _ _ Hf). cbn [negb Z.eqb].
    rewrite bind_ret_l, bind_get, bind_modify, bind_get. cbn [parser set_parser set_p_state state_ set_data set_state_ errno].
    destruct (decide (errno (parser e) = HPE_OK)); [|done]. done.
  - rewrite bind_modify. f_equal. rewrite (col_none _ _ HA) by done. by destruct e as [[] ? ? ? ?].
Qed.

Lemma data_run_none B n extra ER (k : act) e : errno (parser e) = HPE_OK -> marks e n = None ->
  CALLBACK_DATA_ settings B n extra ER k e = k e.
Proof.
  intros He Hj. unfold CALLBACK_DATA_, member. rewrite bind_get, He. unfold assert.
  by rewrite bind_CCZOE_ASSERT, bool_decide_true, bind_get, Hj by done.
Qed.

(** A data callback is reached without an error only. *)
Lemma data_run_errno B n extra ER (k : act) e r : CALLBACK_DATA_ settings B n extra ER k e = (Ok r.1, r.2) ->
  errno (parser e) = HPE_OK.
Proof.
  unfold CALLBACK_DATA_, member. rewrite bind_get. unfold assert. rewrite bind_CCZOE_ASSERT. by case_bool_decide.
Qed.

Section callbacks.
Context (Q : flow -> exec D -> flow -> exec D -> Prop).
Context (p : nat) (st : state) (N N' : Z).

Lemma rel_errno mk mo e x : rel p mk mo st N N' e x -> errno (parser x) = errno (parser e).
Proof. by intros (d & s & n & mks & -> & _). Qed.

(** A data callback for the mark that is set. *)
Lemma both_data n j extra ER ER' (k k' : act) : take extra [c0] = take extra (drop p bytes) ->
  both Q p None None st N N' k k' ->
  both Q p (Some (n, j)) (Some n) st N N' (CALLBACK_DATA_ settings bytes n extra ER k) (CALLBACK_DATA_ settings [c0] n extra ER' k').
Proof using HA.
  intros Hx H e x a e' Hr He. pose proof (data_run_errno bytes n extra ER k e (a, e') He) as Hok.
  pose proof (rel_errno _ _ _ _ Hr) as Hok'. rewrite Hok in Hok'.
  destruct Hr as (d & s & m & mks & -> & Hp & Hst & HN & Hm & Hm' & Hd & Hle). cbn in Hle.
  rewrite (data_run bytes n extra ER k e j Hok) in He by (rewrite Hm; simpl; by rewrite decide_True).
  rewrite (data_run [c0] n extra ER' k' _ 0%nat Hok') by (cbn [marks]; rewrite Hm'; simpl; by rewrite decide_True).
  refine (H _ _ _ _ _ He). cbn [pos p_state parser]. rewrite Hp, drop_0. change (0 - 0 + extra)%nat with extra. rewrite Hx.
  exists (A n (take (p - j + extra) (drop j bytes)) (data (parser e))),
    (match data_of settings n with Some _ => st | None => s end), m, (fun k => if decide (k = n) then None else mks k).
  unfold tell. cbn [parser set_parser set_mark set_marks pos p_state l_nread marks].
  assert (A n (take extra (drop p bytes)) d = A n (take (p - j + extra) (drop j bytes)) (data (parser e))) as Hdd.
  { rewrite Hd. simpl. rewrite <- (col_app _ _ HA), <- take_take_drop, drop_drop. by replace (j + (p - j))%nat with p by lia. }
  split_and!; try done.
  - cbn [data set_data]. rewrite <- Hdd, Hst. by destruct (data_of settings n).
  - intros k0. destruct (decide (k0 = n)); [done|]. rewrite Hm. simpl. by rewrite decide_False.
  - intros k0. destruct (decide (k0 = n)); [done|]. rewrite Hm'. simpl. by rewrite decide_False.
Qed.

(** The mark of a body that the second run has been told of to its end. *)
Lemma both_data_carried n j ER ER' (k k' : act) :
  both Q p None None st N N' k k' ->
  both Q p (Some (n, j)) None st N N' (CALLBACK_DATA_ settings bytes n 0 ER k) (CALLBACK_DATA_ settings [c0] n 0 ER' k').
Proof using HA.
  intros H e x a e' Hr He. pose proof (data_run_errno bytes n 0 ER k e (a, e') He) as Hok.
  pose proof (rel_errno _ _ _ _ Hr) as Hok'. rewrite Hok in Hok'.
  destruct Hr as (d & s & m & mks & -> & Hp & Hst & HN & Hm & Hm' & Hd & Hle).
  rewrite (data_run bytes n 0 ER k e j Hok) in He by (rewrite Hm; simpl; by rewrite decide_True).
  rewrite (data_run_none [c0] n 0 ER' k' _ Hok') by (cbn [marks]; by rewrite Hm').
  refine (H _ _ _ _ _ He). rewrite Hp, Nat.add_0_r. cbn in Hd.
  exists d, s, m, mks. unfold tell. cbn [parser set_parser set_mark set_marks pos p_state l_nread marks].
  split_and!; try done.
  - by destruct (data_of settings n).
  - intros k0. destruct (decide (k0 = n)); [done|]. rewrite Hm. simpl. by rewrite decide_False.
Qed.

Lemma both_data_none n extra ER ER' (k k' : act) :
  both Q p None None st N N' k k' ->
  both Q p None None st N N' (CALLBACK_DATA_ settings bytes n extra ER k) (CALLBACK_DATA_ settings [c0] n extra ER' k').
Proof.
  intros H e x a e' Hr He. pose proof (data_run_errno bytes n extra ER k e (a, e') He) as Hok.
  pose proof (rel_errno _ _ _ _ Hr) as Hok'. rewrite Hok in Hok'.
  pose proof Hr as (d & s & m & mks & -> & Hp & Hst & HN & Hm & Hm' & Hd & Hle).
  rewrite (data_run_none bytes n extra ER k e Hok) in He by (by rewrite Hm).
  rewrite (data_run_none [c0] n extra ER' k' _ Hok') by (cbn [marks]; by rewrite Hm').
  by apply (H _ _ _ _ Hr).
Qed.

(** A callback without data, with no mark set. *)
Lemma both_call f er ER ER' (k k' : act) : blind_cb f -> er <> HPE_OK ->
  (forall e x, errno (parser e) = er -> errno (parser x) = er -> Q (Return ER) e (Return ER') x) ->
  both Q p None None st N N' k k' ->
  forall e x a e', errno (parser e) = HPE_OK -> rel p None None st N N' e x ->
  call_back f er ER k e = (Ok a, e') -> exists a' x', call_back f er ER' k' x = (Ok a', x') /\ Q a e' a' x'.
Proof.
  intros (rt & g & Hf & Hb) Her HQ H e x a e' Hok (d & s & m & mks & -> & Hp & Hst & HN & Hm & Hm' & Hd & Hle) He.
  unfold call_back, put, member, UPDATE_STATE, lift in *. rewrite bind_get, bind_modify in *.
  unfold bind at 1 in He. unfold bind at 1. cbn [parser set_parser p_state] in *. rewrite Hf in He |- *.
  destruct (Hb st m (parser e)) as [Hrt Hg].
  assert (rt (set_state_ st (blind d s m (parser e))) = rt (set_state_ (p_state e) (parser e)) /\
          g (set_state_ st (blind d s m (parser e))) = g (set_state_ (p_state e) (parser e))) as [Hrt' Hg'].
  { assert (data (parser e) = d) as <- by done. rewrite Hst.
    destruct (Hb st m (parser e)) as [E1 E2]. destruct (Hb st (nread (parser e)) (parser e)) as [E3 E4].
    replace (set_state_ st (blind (data (parser e)) s m (parser e))) with (set_state_ st (set_nread m (parser e)))
      by (by destruct (parser e)).
    replace (set_state_ st (parser e)) with (set_state_ st (set_nread (nread (parser e)) (parser e)))
      by (by destruct (parser e)). by rewrite E1, E2, E3, E4. }
  rewrite Hst in *. rewrite Hrt', Hg' in *. cbn [pend] in Hd.
  destruct (negb (rt (set_state_ st (parser e)) =? 0)).
  - unfold SET_ERRNO in *. rewrite bind_modify, bind_get, bind_modify, bind_get in *.
    cbn [parser set_parser set_p_state errno set_errno] in *.
    destruct (decide (er = HPE_OK)); [done|]. injection He as <- <-. eexists _, _. split; [done|]. by apply HQ.
  - rewrite bind_ret_l, bind_get, bind_modify, bind_get in *.
    cbn [parser set_parser set_p_state state_ set_data set_state_ set_nread errno blind] in *.
    destruct (decide (errno (parser e) = HPE_OK)); [|done].
    refine (H _ _ _ _ _ He). exists (g (set_state_ st (parser e))), st, m, mks. by split_and!.
Qed.

Lemma both_notify n ER ER' (k k' : act) :
  (forall e x, errno (parser e) = errno (parser x) -> errno (parser e) <> HPE_OK -> Q (Return ER) e (Return ER') x) ->
  both Q p None None st N N' k k' ->
  both Q p None None st N N' (CALLBACK_NOTIFY_ settings n ER k) (CALLBACK_NOTIFY_ settings n ER' k').
Proof using HA.
  intros HQ H. unfold CALLBACK_NOTIFY_. intros e x a e' Hr He. unfold member in *. rewrite bind_get in *.
  rewrite (rel_errno _ _ _ _ Hr). unfold assert in *. rewrite bind_CCZOE_ASSERT in *.
  case_bool_decide as Hok; [|done]. destruct (notify_of settings n) as [f|] eqn:Hf; [|by apply (H e x)].
  refine (both_call f (notify_errno n) ER ER' k k' (col_notify _ _ HA n f Hf) _ _ H e x a e' Hok Hr He); [by destruct n|].
  intros e1 x1 E1 E2. apply HQ; [congruence|]. rewrite E1. by destruct n.
Qed.
End callbacks.

(** *** The ends of a case *)

Section ends.
Context (M : Z) (p : nat) (mk : option (data_cb * nat)) (mo : option data_cb) (st : state).

Lemma both_break N : 0 <= N <= M -> fits_next p st mk mo -> both (outc p M) p mk mo st N N break break.
Proof. intros HN Hf. apply both_ret. intros e x Hr. split; [done|]. by exists mk, mo, st, N. Qed.

Lemma both_reexecute c N : 0 <= N <= M -> fits st mk mo -> multi st = false -> both (outc p M) p mk mo st N N (REEXECUTE c) (REEXECUTE c).
Proof. intros HN Hf Hm. apply both_ret. intros e x Hr. split; [done|]. by exists mk, mo, st, N. Qed.

Lemma both_error er N N' : er <> HPE_OK -> both (outc p M) p mk mo st N N' (error er) (error er).
Proof.
  intros Her e x a e' (d & s & n & mks & -> & Hp & _) [= <- <-]. eexists _, _. split; [reflexivity|]. by cbn.
Qed.

Lemma both_fail_RETURN er v w N N' : er <> HPE_OK -> v = (p + w)%nat ->
  both (outc p M) p mk mo st N N' (do! SET_ERRNO er in RETURN v) (do! SET_ERRNO er in RETURN w).
Proof.
  intros Her Hv e x a e' (d & s & n & mks & -> & Hp & _) [= <- <-]. eexists _, _. split; [reflexivity|]. exists w. cbn. split_and!; done.
Qed.

Lemma both_count v v' N N' k k' C : C = wrap 32 (N + wrap 32 (Z.of_nat v)) -> C = wrap 32 (N' + wrap 32 (Z.of_nat v')) ->
  both (outc p M) p mk mo st C C k k' ->
  both (outc p M) p mk mo st N N' (COUNT_HEADER_SIZE max_header_size v k) (COUNT_HEADER_SIZE max_header_size v' k').
Proof.
  intros HM HM' H e x a e' Hr He. unfold COUNT_HEADER_SIZE in *. rewrite bind_modify, bind_get in *. cbn [l_nread set_l_nread] in *.
  destruct Hr as (d & s & n & mks & -> & Hp & Hst & HN & Hm & Hm' & Hd & Hle). cbn [l_nread] in *.
  rewrite HN, <- HM in He. rewrite <- HM'.
  destruct (max_header_size <? C).
  - injection He as <- <-. eexists _, _. split; [reflexivity|]. by cbn.
  - refine (H _ _ _ _ _ He). by exists d, s, n, mks.
Qed.

Lemma both_strict b N N' k k' : both (outc p M) p mk mo st N N' k k' ->
  both (outc p M) p mk mo st N N' (STRICT_CHECK b k) (STRICT_CHECK b k').
Proof. intros H. unfold STRICT_CHECK. destruct b; [by apply both_error|done]. Qed.
End ends.

(** The end of a message, or of the headers, with the rest of the bytes not for the
    parser. *)
Lemma both_RETURN M p st v N : v = (p + 1)%nat -> 0 <= N <= M ->
  both (outc p M) p None None st N N (RETURN v) (RETURN 1).
Proof.
  intros -> HN e x a e' (d & s & n & mks & -> & Hp & Hst & Hn & Hm & Hm' & Hd & Hle) [= <- <-].
  eexists _, _. split; [reflexivity|]. exists 1%nat. cbn. split_and!; [done..|]. intros _. cbn in Hd. subst d st N. split_and!; [done|..|lia|lia].
  by destruct (parser e).
Qed.

(** A check whether the callback before it has set an error. *)
Lemma both_errno_check M p mk mo st N (k k' : act) : both (outc p M) p mk mo st N N k k' ->
  both (outc p M) p mk mo st N N
    (let! er := member errno in if decide (er = HPE_OK) then k else let! q := get pos in RETURN q)
    (let! er := member errno in if decide (er = HPE_OK) then k' else let! q := get pos in RETURN q).
Proof.
  intros Hk e x a e' Hr He. unfold member in *. rewrite bind_get in *. rewrite (rel_errno _ _ _ _ _ _ _ _ Hr).
  destruct (decide (errno (parser e) = HPE_OK)) as [|Hne]; [by apply (Hk e x)|].
  destruct Hr as (d & s & n & mks & -> & Hp & Hr). rewrite bind_get in *. injection He as <- <-. eexists _, _. split; [reflexivity|].
  exists O. cbn. split_and!; [done|lia|done..].
Qed.

Lemma both_MARK (Q : flow -> exec D -> flow -> exec D -> Prop) p st N N' n (k k' : unit -> act) :
  both Q p (Some (n, p)) (Some n) st N N' (k tt) (k' tt) ->
  both Q p None None st N N' (bind (MARK n) k) (bind (MARK n) k').
Proof using HA.
  intros H e x a e' (d & s & m & mks & -> & Hp & Hst & HN & Hm & Hm' & Hd & Hle) He.
  unfold MARK in *. rewrite bind_modify in *. cbn [marks] in *. rewrite Hm in He. rewrite Hm'. cbn [mark_fn fmap option_fmap option_map] in *.
  refine (H _ _ _ _ _ He). exists d, s, m, (fun k => if decide (k = n) then Some 0%nat else mks k).
  cbn [parser set_mark set_marks pos p_state l_nread marks].
  split_and!; try done.
  - intros k0. cbn. rewrite Hp. destruct (decide (k0 = n)); [done|]. by rewrite Hm.
  - intros k0. cbn. destruct (decide (k0 = n)); [done|]. by rewrite Hm'.
  - rewrite Hd. cbn. by rewrite Nat.sub_diag, (col_nil _ _ HA).
  - cbn. lia.
Qed.

Lemma both_headers_complete M p st N N' k k' : both (outc p M) p None None st N N' k k' ->
  both (outc p M) p None None st N N' (call_headers_complete settings k) (call_headers_complete settings k').
Proof using HA.
  intros H. unfold call_headers_complete. destruct (on_headers_complete settings) as [f|] eqn:Hf; [|done].
  destruct (col_headers _ _ HA f Hf) as (rt & g & Hrun & Hb).
  intros e x a e' (d & s & m & mks & -> & Hp & Hst & HN & Hm & Hm' & Hd & Hle) He.
  unfold lift in *. unfold bind at 1 in He. unfold bind at 1. cbn [parser] in *. rewrite Hrun in He |- *.
  cbn [pend] in Hd. subst d. destruct (Hb s m (parser e)) as [E1 E2].
  replace (blind (data (parser e)) s m (parser e)) with (set_state_ s (set_nread m (parser e))) in * by (by destruct (parser e)).
  rewrite E1, E2.
  assert (rel p None None st N N' (set_parser (set_data (g (parser e)) (parser e)) e)
    (set_parser (set_data (g (parser e)) (set_state_ s (set_nread m (parser e))))
       (mkExec (set_state_ s (set_nread m (parser e))) 0 st N' mks))) as Hr.
  { exists (g (parser e)), s, m, mks. by split_and!. }
  revert He Hr. generalize (set_parser (set_data (g (parser e)) (parser e)) e).
  generalize (set_parser (set_data (g (parser e)) (set_state_ s (set_nread m (parser e))))
       (mkExec (set_state_ s (set_nread m (parser e))) 0 st N' mks)). intros x1 e1 He Hr.
  destruct (rt (parser e) =? 0); [by apply (H e1 x1)|].
  destruct (rt (parser e) =? 2); [|destruct (rt (parser e) =? 1)].
  1,2: revert He; eapply both_put; [by intros|by intros|exact H|exact Hr].
  destruct Hr as (d' & s' & n' & mks' & -> & Hp' & _). injection He as <- <-.
  eexists _, _. split; [reflexivity|]. exists O. cbn. split_and!; [done|lia|done..].
Qed.

(** ** The cases that consume one byte *)

Lemma url_char_mark s ch : parse_url_char s ch = s_dead \/ initial_mark (parse_url_char s ch) = Some url.
Proof. unfold parse_url_char, url_server_char. destruct s; repeat case_match; first [by left|by right]. Qed.

Lemma both_url_char M p j s ch N : 0 <= N <= M -> both (outc p M) p (Some (url, j)) (Some url) s N N (url_char ch) (url_char ch).
Proof.
  intros HN. unfold url_char. apply both_get_state, both_state, both_get_state.
  destruct (url_char_mark s ch) as [->|Hm]; [by apply both_error|].
  destruct (decide _); [by apply both_error|]. apply both_break; [done|]. split; [done|by left].
Qed.

Lemma NEW_MESSAGE_mark (ps : http_parser D) : initial_mark (NEW_MESSAGE ps) = None /\ multi (NEW_MESSAGE ps) = false.
Proof. unfold NEW_MESSAGE, start_state. destruct (http_should_keep_alive ps); [|done]. by destruct (decide _). Qed.

Lemma both_finish_message M p st N k k' : (forall s, initial_mark s = None -> both (outc p M) p None None s N N k k') ->
  both (outc p M) p None None st N N (finish_message settings k) (finish_message settings k').
Proof using HA.
  intros H. unfold finish_message, CALLBACK_NOTIFY. apply both_member; [by intros|]. intros ps.
  apply both_state, both_get_pos, both_notify.
  - intros e x He Hne. exists 1%nat. by split_and!.
  - apply H, NEW_MESSAGE_mark.
Qed.
End sim.

(** Walk through a case on both sides. *)
Ltac both_end := first
  [ apply both_break; [lia|]; (split; [reflexivity|first [by left|right; split_and!; solve [reflexivity|by left]]])
  | apply both_break; [lia|]; (split; [reflexivity|left; assumption])
  | apply both_reexecute; [lia|by split|reflexivity]
  | apply both_error; discriminate
  | apply both_RETURN; lia
  | apply both_fail_RETURN; [discriminate|lia] ].

Ltac both_step := cbv zeta beta; lazymatch goal with
  | |- both _ _ _ _ _ _ _ _ _ (bind (bind _ _) _) _ => apply both_assoc
  | |- both _ _ _ _ _ _ _ _ _ (bind (ret _) _) _ => apply both_ret_l
  | |- both _ _ _ _ _ _ _ _ _ (bind (put _) _) _ => apply both_put; [reflexivity|reflexivity|]
  | |- both _ _ _ _ _ _ _ _ _ (bind (put_hs _) _) _ => unfold put_hs
  | |- both _ _ _ _ _ _ _ _ _ (bind inc_index _) _ => apply both_put; [reflexivity|reflexivity|]
  | |- both _ _ _ _ _ _ _ _ _ (bind start_message _) _ => apply both_put; [reflexivity|reflexivity|]
  | |- both _ _ _ _ _ _ _ _ _ (bind (UPDATE_STATE (if ?b then _ else _)) _) _ => destruct b
  | |- both _ _ _ _ _ _ _ _ _ (bind (UPDATE_STATE _) _) _ => apply both_state
  | |- both _ _ _ _ _ _ _ _ _ (bind reset_nread _) _ => apply both_reset
  | |- both _ _ _ _ _ _ _ _ _ (bind (member errno) _) _ => apply both_errno_check
  | |- both _ _ _ _ _ _ _ _ _ (bind (member _) _) _ => apply both_member; [reflexivity|intros ?]
  | |- both _ _ _ _ _ _ _ _ _ (bind (get parser) _) _ => apply both_get_parser; [reflexivity|intros ?]
  | |- both _ _ _ _ _ _ _ _ _ (bind (get p_state) _) _ => apply both_get_state
  | |- both _ _ _ _ _ _ _ _ _ (bind (get pos) _) _ => apply both_get_pos
  | |- both _ _ _ _ _ _ _ _ _ (bind (get l_nread) _) _ => apply both_get_nread
  | |- both _ _ _ _ _ _ _ _ _ (bind (fail _) _) _ => apply both_fail_l; intros ? ?
  | |- both _ _ _ _ _ _ _ _ _ (bind (assert _) _) _ => apply both_assert; intros ?
  | |- both _ _ _ _ _ _ _ _ _ (bind assert_chunked _) _ => unfold assert_chunked
  | |- both _ _ _ _ _ _ _ _ _ (bind finish_header _) _ => unfold finish_header
  | |- both _ _ _ _ _ _ _ _ _ (bind (MARK _) _) _ => eapply both_MARK; [eassumption|]
  | |- both _ _ _ _ _ _ _ _ _ (bind (if ?b then _ else _) _) _ => destruct b
  | |- both _ _ _ _ _ _ _ _ _ (bind (match ?b with _ => _ end) _) _ => destruct b
  | |- both _ _ _ _ _ _ _ _ _ (STRICT_CHECK _ _) _ => apply both_strict
  | |- both _ _ _ _ _ _ _ _ _ (COUNT_HEADER_SIZE _ _ _) _ => eapply both_count; [reflexivity|reflexivity|]
  | |- both _ _ _ _ _ _ _ _ _ (CALLBACK_NOTIFY _ _ _) _ => unfold CALLBACK_NOTIFY
  | |- both _ _ _ _ _ _ _ _ _ (CALLBACK_NOTIFY_NOADVANCE _ _ _) _ => unfold CALLBACK_NOTIFY_NOADVANCE
  | |- both _ _ _ _ _ _ _ _ _ (CALLBACK_NOTIFY_ _ _ _ _) (CALLBACK_NOTIFY_ _ _ ?w _) =>
      eapply both_notify; [eassumption|intros ? ? ? ?; exists w; split_and!; [reflexivity|lia|congruence|congruence]|]
  | |- both _ _ _ _ _ _ _ _ _ (CALLBACK_DATA _ _ _ _) _ => unfold CALLBACK_DATA
  | |- both _ _ _ _ _ _ _ _ _ (CALLBACK_DATA_NOADVANCE _ _ _ _) _ => unfold CALLBACK_DATA_NOADVANCE
  | |- both _ _ _ _ (Some _) (Some _) _ _ _ (CALLBACK_DATA_ _ _ _ _ _ _) _ => eapply both_data; [eassumption|first [reflexivity|eassumption]|]
  | |- both _ _ _ _ None None _ _ _ (CALLBACK_DATA_ _ _ _ _ _ _) _ => apply both_data_none
  | |- both _ _ _ _ (Some _) None _ _ _ (CALLBACK_DATA_ _ _ _ _ _ _) _ => eapply both_data_carried; [eassumption|]
  | |- both _ _ _ _ _ _ _ _ _ (call_headers_complete _ _) _ => eapply both_headers_complete; [eassumption|]
  | |- both _ _ _ _ _ _ _ _ _ (finish_message _ _) _ => eapply both_finish_message; [eassumption|intros ? ?]
  | |- both _ _ _ _ _ _ _ _ _ (url_char _) _ => apply both_url_char; lia
  | |- both _ _ _ _ _ _ _ _ _ (expect _ _ _) _ => unfold expect
  | |- both _ _ _ _ _ _ _ _ _ (if ?b then _ else _) _ => destruct b
  | |- both _ _ _ _ _ _ _ _ _ (match ?b with _ => _ end) _ => destruct b
  end.

Ltac both_case := repeat first [both_step | both_end].

Section cases.
Context {D : Type}.
Variable max_header_size : Z.
Variable settings : http_parser_settings D.
Variable A : data_cb -> list Z -> D -> D.
Hypothesis HA : collects settings A.
Variable bytes : list Z.
Variable c0 : Z.

Notation both := (both A bytes).
Notation outc := (outc A bytes).

Lemma switch_both M p mk mo st N c : 0 <= N <= M -> multi st = false -> fits st mk mo ->
  both (outc p M) p mk mo st N N (switch max_header_size settings bytes st c) (switch max_header_size settings [c0] st c).
Proof using HA.
  intros HN Hm [-> Hi]. destruct st; try discriminate Hm; cbn [switch]; cbn in Hi; try (destruct mk as [[n j]|]; [|done]); try (destruct mk; [done|]).
  all: try (injection Hi as <-).
  all: cbn [fmap option_fmap option_map fst].
  all: cbv beta delta [case_dead case_start_req_or_res case_res_or_resp_H case_start_res case_res_H case_res_HT case_res_HTT
      case_res_HTTP case_res_http_major case_res_http_dot case_res_http_minor case_res_http_end case_res_first_status_code
      case_res_status_code case_res_status_start case_res_status case_res_line_almost_done case_start_req case_req_method
      case_req_spaces_before_url case_req_schema case_req_url case_req_http_start case_req_http_H case_req_http_HT
      case_req_http_HTT case_req_http_I case_req_http_IC case_req_http_HTTP case_req_http_major case_req_http_dot
      case_req_http_minor case_req_http_end case_req_line_almost_done case_header_field_start
      case_header_value_start case_header_value_discard_ws case_header_almost_done case_header_value_lws
      case_header_value_discard_ws_almost_done case_header_value_discard_lws case_headers_almost_done case_headers_done
      case_message_done case_chunk_size_start case_chunk_size case_chunk_parameters
      case_chunk_size_almost_done case_chunk_data_almost_done case_chunk_data_done].
  all: both_case.
Qed.

(** The byte after the data of a chunk, when the mark of its body is still set. *)
Lemma chunk_data_end_both M p j N c : 0 <= N <= M ->
  both (outc p M) p (Some (body, j)) None s_chunk_data_almost_done N N
    (switch max_header_size settings bytes s_chunk_data_almost_done c)
    (switch max_header_size settings [c0] s_chunk_data_almost_done c).
Proof using HA. intros HN. cbn [switch]. unfold case_chunk_data_almost_done. both_case. Qed.

(** A state and marks from which one byte is related on both sides. *)
Definition starts st mk mo : Prop :=
  multi st = false /\ (fits st mk mo \/ (st = s_chunk_data_almost_done /\ mo = None /\ exists j, mk = Some (body, j))).

Lemma switch_starts M p mk mo st N c : 0 <= N <= M -> starts st mk mo ->
  both (outc p M) p mk mo st N N (switch max_header_size settings bytes st c) (switch max_header_size settings [c0] st c).
Proof using HA.
  intros HN [Hm [Hf|(-> & -> & j & ->)]]; [by apply switch_both|by apply chunk_data_end_both].
Qed.

Lemma reexecute_both M fuel : forall c p mk mo st N, 0 <= N <= M -> starts st mk mo ->
  both (outc p M) p mk mo st N N (reexecute max_header_size settings bytes fuel c) (reexecute max_header_size settings [c0] fuel c).
Proof using HA.
  induction fuel as [|fuel IH]; intros c p mk mo st N HN Hs; cbn [reexecute]; [by apply both_fail|].
  apply both_get_state. eapply both_bind; [by apply switch_starts|]. intros f e f' x Hf b e' He.
  destruct f as [|c'| |v]; cbn [ParserSim.outc] in Hf.
  - destruct Hf as [-> Hf]. injection He as <- <-. by eexists _, _.
  - destruct Hf as (-> & mk1 & mo1 & st1 & N1 & Hr & HN1 & Hfit & Hm). apply (IH c' p mk1 mo1 st1 N1 HN1 (conj Hm (or_introl Hfit)) e x b e' Hr He).
  - destruct Hf as [-> Hf]. injection He as <- <-. by eexists _, _.
  - destruct Hf as (w & -> & Hf). injection He as <- <-. eexists _, _. split; [done|]. by exists w.
Qed.

Lemma one_byte_both c p mk mo st N : 0 <= N -> starts st mk mo ->
  both (outc p (N + 1)) p mk mo st N N (one_byte max_header_size settings bytes c) (one_byte max_header_size settings [c0] c).
Proof using HA.
  intros HN Hs. unfold one_byte. apply both_get_state. destruct (PARSING_HEADER st); [|apply reexecute_both; [lia|done]].
  eapply both_count; [reflexivity..|]. apply reexecute_both; [|done]. change (wrap 32 (Z.of_nat 1)) with 1. unfold wrap.
  split; [by apply Z.mod_pos_bound|apply Z.mod_le; lia].
Qed.
End cases.
