(* ===== verification/ParserChunks.v ===== *)
(** * ParserChunks: how the bytes are cut does not matter

    [http_parser_execute] may be given a message in pieces of any sizes.  When the
    data callbacks append what they are given, the calls on the pieces tell the user
    what one call on all the bytes tells him, and leave the same parser.  The proof
    compares a call with the calls on its single bytes ([feed]). *)

From stdpp Require Import base list numbers.
From S2P Require Import Prelude Words ParserTables ParserUrl ParserState ParserExec ParserSafety ParserTheorems ParserLoops ParserSim.

Local Open Scope Z_scope.

Section chunks.
Context {D : Type}.
Variable max_header_size : Z.
Variable settings : http_parser_settings D.
Variable A : data_cb -> list Z -> D -> D.
Hypothesis HA : collects settings A.
Implicit Types (e x : exec D) (ps : http_parser D).

Notation execute := (http_parser_execute max_header_size settings).

(** ** Calls on pieces *)

(** The pieces in order, up to the first that is not consumed or ends in an error: the
    number of bytes consumed. *)
Fixpoint feed_chunks (ls : list (list Z)) : comp (http_parser D) Z :=
  match ls with
  | [] => ret 0
  | l :: ls =>
      let! n := execute l in
      let! er := get errno in
      if (n =? Z.of_nat (length l)) && bool_decide (er = HPE_OK)
      then let! m := feed_chunks ls in ret (n + m)
      else ret n
  end.

(** One byte at a time. *)
Definition feed (l : list Z) : comp (http_parser D) Z := feed_chunks (map (fun c => [c]) l).

Lemma feed_step c l ps ps1 : execute [c] ps = (Ok 1, ps1) -> errno ps1 = HPE_OK ->
  feed (c :: l) ps = (let! m := feed l in ret (1 + m)) ps1.
Proof.
  intros H He. unfold feed. cbn [map feed_chunks]. rewrite (bind_Ok _ _ _ _ _ H), bind_get, He. by rewrite bool_decide_true.
Qed.

Lemma feed_stop c l ps n ps1 : execute [c] ps = (Ok n, ps1) -> n <> 1 \/ errno ps1 <> HPE_OK ->
  feed (c :: l) ps = (Ok n, ps1).
Proof.
  intros H Hn. unfold feed. cbn [map feed_chunks]. rewrite (bind_Ok _ _ _ _ _ H), bind_get. cbn [length].
  destruct (Z.eqb_spec n (Z.of_nat 1)); [|done]. destruct Hn as [|Hn]; [lia|]. by rewrite bool_decide_false.
Qed.

(** An error ends it. *)
Lemma feed_error l1 l2 ps n ps1 : errno ps = HPE_OK -> feed l1 ps = (Ok n, ps1) -> errno ps1 <> HPE_OK ->
  feed (l1 ++ l2) ps = (Ok n, ps1).
Proof.
  revert ps n. induction l1 as [|c l1 IH]; intros ps n He Hf Hne; [by injection Hf as <- <-|].
  unfold feed in *. cbn [map app feed_chunks] in *. apply bind_Ok_inv in Hf as (m & ps2 & H1 & H2).
  rewrite (bind_Ok _ _ _ _ _ H1), bind_get in *. destruct (_ =? _); [|done]. cbn [andb] in *.
  case_bool_decide as Hok; [|done]. apply bind_Ok_inv in H2 as (k & ps3 & H2 & [= <- <-]).
  specialize (IH ps2 k Hok H2 Hne). by rewrite (bind_Ok _ _ _ _ _ IH).
Qed.

(** All of [l] is consumed. *)
Fixpoint feeds (l : list Z) ps ps1 : Prop :=
  match l with
  | [] => ps1 = ps
  | c :: l => exists ps2, execute [c] ps = (Ok 1, ps2) /\ errno ps2 = HPE_OK /\ feeds l ps2 ps1
  end.

Lemma feeds_feed l1 l2 ps ps1 : feeds l1 ps ps1 ->
  feed (l1 ++ l2) ps = (let! m := feed l2 in ret (Z.of_nat (length l1) + m)) ps1.
Proof.
  revert ps. induction l1 as [|c l1 IH]; intros ps; cbn [feeds app].
  - intros ->. unfold bind. by destruct (feed l2 ps) as [[n| | | | |] ps2].
  - intros (ps2 & H1 & He & H2). rewrite (feed_step _ _ _ _ H1 He). specialize (IH ps2 H2).
    unfold bind in IH |- *. rewrite IH. destruct (feed l2 ps1) as [[k| | | | |] ps4]; try done. cbn [length ret].
    unfold ret. f_equal. f_equal. lia.
Qed.

Lemma feeds_app l1 l2 ps ps1 ps2 : feeds l1 ps ps1 -> feeds l2 ps1 ps2 -> feeds (l1 ++ l2) ps ps2.
Proof.
  revert ps. induction l1 as [|c l1 IH]; intros ps; cbn [feeds app]; [by intros ->|].
  intros (ps3 & H1 & He & H2) H3. exists ps3. split_and!; auto.
Qed.

(** ** The end of a call *)

(** The parser that a call leaves: the rest of the data told, the locals saved. *)
Definition saved (mk : option (data_cb * list Z)) e : http_parser D :=
  blind (match mk with Some (n, l) => A n l (data (parser e)) | None => data (parser e) end) (p_state e) (l_nread e) (parser e).

Section ending.
Variable B : list Z.

Lemma noadvance_none m (k : act) e : errno (parser e) = HPE_OK -> marks e m = None ->
  CALLBACK_DATA_NOADVANCE settings B m k e = k e.
Proof. intros He Hm. unfold CALLBACK_DATA_NOADVANCE. rewrite bind_get. by apply data_run_none. Qed.

Lemma noadvance_some m (k : act) e j : errno (parser e) = HPE_OK -> marks e m = Some j ->
  CALLBACK_DATA_NOADVANCE settings B m k e = k (tell settings A m (take (pos e - j + 0) (drop j B)) e).
Proof. intros He Hm. unfold CALLBACK_DATA_NOADVANCE. rewrite bind_get. by apply (data_run settings A HA). Qed.

Lemma tell_errno n l e : errno (parser (tell settings A n l e)) = errno (parser e).
Proof. unfold tell. cbn. by destruct (data_of settings n). Qed.

Lemma tell_marks n l e m : marks (tell settings A n l e) m = if decide (m = n) then None else marks e m.
Proof. done. Qed.

Lemma leftovers_run mk e : errno (parser e) = HPE_OK -> (forall m, marks e m = mark_fn mk m) ->
  exists e', leftovers settings B e = (Ok (Return (length B)), e') /\
    parser e' = saved ((fun '(n, j) => (n, take (pos e - j) (drop j B))) <$> mk) e.
Proof using HA.
  intros He Hm. unfold leftovers. rewrite bind_get. unfold assert. rewrite bind_CCZOE_ASSERT.
  assert ((count_marks e <=? 1)%nat = true) as ->.
  { unfold count_marks. rewrite !Hm. destruct mk as [[[] j]|]; reflexivity. }
  destruct mk as [[n j]|]; cbn [mark_fn fmap option_fmap option_map] in *.
  - destruct n; repeat first
      [ rewrite noadvance_none by
          first [ exact He | rewrite Hm; reflexivity | rewrite tell_errno; exact He | rewrite tell_marks, ?Hm; reflexivity ]
      | erewrite noadvance_some by first [ exact He | rewrite Hm; reflexivity ] ];
      rewrite Nat.add_0_r; eexists; (split; [reflexivity|]); unfold saved, tell; cbn;
      by case_match.
  - rewrite !noadvance_none by first [exact He|by rewrite Hm]. eexists. split; [reflexivity|]. by unfold saved.
Qed.
End ending.

(** ** A call on one byte *)

(** Where a call starts. *)
Definition start ps : exec D :=
  let x0 := mkExec ps 0 (state_ ps) (nread ps) (fun _ => None) in
  match initial_mark (state_ ps) with Some n => set_mark n (Some O) x0 | None => x0 end.

Lemma start_eq ps : parser (start ps) = ps /\ pos (start ps) = O /\ p_state (start ps) = state_ ps /\ l_nread (start ps) = nread ps /\
  forall m, marks (start ps) m = mark_fn ((fun m => (m, O)) <$> initial_mark (state_ ps)) m.
Proof. unfold start. destruct (initial_mark (state_ ps)) as [n|]; by split_and!. Qed.

(** A call from there on. *)
Definition rest (B : list Z) : act :=
  let! f := main_loop max_header_size settings B (length B) in
  match f with Break => leftovers settings B | GotoError => at_error | f => ret f end.

Lemma execute_start B ps f x : errno ps = HPE_OK -> B <> [] -> rest B (start ps) = (Ok f, x) ->
  execute B ps = (match f with Return n => Ok (Z.of_nat n) | _ => UB end, parser x).
Proof.
  intros He HB Hr. unfold http_parser_execute.
  assert (execute_body max_header_size settings B (mkExec ps 0 (state_ ps) (nread ps) (fun _ => None)) = rest B (start ps)) as ->.
  { unfold execute_body, member. rewrite bind_get. cbn [parser]. rewrite He, bool_decide_true by done. cbn [negb].
    destruct (Nat.eqb_spec (length B) 0); [by destruct B|]. rewrite bind_get. cbn [p_state]. unfold start.
    by destruct (initial_mark (state_ ps)). }
  rewrite Hr. by destruct f.
Qed.

Lemma single_run c ps f x : errno ps = HPE_OK -> one_byte max_header_size settings [c] c (start ps) = (Ok f, x) ->
  match f with
  | Break => forall mo, pos x = O -> errno (parser x) = HPE_OK -> (forall m, marks x m = mark_fn ((fun m => (m, O)) <$> mo) m) ->
      execute [c] ps = (Ok 1, saved ((fun m => (m, [c])) <$> mo) x)
  | GotoError => errno (parser x) <> HPE_OK -> exists ps1, execute [c] ps = (Ok (Z.of_nat (pos x)), ps1) /\ errno ps1 = errno (parser x)
  | Return w => execute [c] ps = (Ok (Z.of_nat w), parser x)
  | Reexecute _ => True
  end.
Proof using HA.
  intros He Hx. destruct (start_eq ps) as (_ & Hpos & _).
  assert (forall K : flow -> act, bind (main_loop max_header_size settings [c] (length [c])) K (start ps) =
    match f with Break => K Break (set_pos (pos x + 1) x) | f => K f x end \/ pos x <> O /\ f = Break) as Hl.
  { intros K. cbn [length main_loop]. rewrite bind_assoc, bind_get, Hpos. cbn [Nat.eqb].
    rewrite bind_assoc, (bind_Ok _ _ _ _ _ (char_at_run [c] 0 c (start ps) eq_refl)), bind_assoc, (bind_Ok _ _ _ _ _ Hx).
    destruct f; [|by left..]. destruct (decide (pos x = O)) as [Hp|]; [left|by right].
    rewrite bind_assoc, bind_modify, bind_assoc, bind_get. cbn [pos set_pos]. by rewrite Hp. }
  specialize (Hl (fun f => match f with Break => leftovers settings [c] | GotoError => at_error | f => ret f end)).
  change (bind (main_loop _ _ _ _) _ (start ps)) with (rest [c] (start ps)) in Hl.
  destruct f as [|c'| |w]; [|done|..].
  - intros mo Hp Hok Hm. destruct Hl as [Hl|[]]; [|done].
    destruct (leftovers_run [c] ((fun m => (m, O)) <$> mo) (set_pos (pos x + 1) x) Hok Hm) as (x' & Hrun & Hps).
    rewrite (execute_start [c] ps (Return 1) x' He) by (done || by rewrite Hl).
    rewrite Hps. cbn [pos set_pos]. rewrite Hp. by destruct mo.
  - intros Hok. destruct Hl as [Hl|[]]; [|done]. unfold at_error, member in Hl. rewrite bind_get, decide_False in Hl by done.
    eexists. split; [eapply (execute_start [c] ps (Return (pos x))); [done|done|rewrite Hl; reflexivity]|]. done.
  - destruct Hl as [Hl|[]]; [|done]. by rewrite (execute_start [c] ps (Return w) x He).
Qed.

(** ** Between two bytes *)

Section bytes.
Variable bytes : list Z.
#[local] Notation len := (length bytes).
#[local] Notation rel := (rel A bytes).
#[local] Notation both := (both A bytes).
#[local] Notation outc := (outc A bytes).
#[local] Notation pend := (pend A bytes).

Definition fits_head p st (mk : option (data_cb * nat)) : Prop :=
  initial_mark st = fst <$> mk \/
  (fst <$> mk = Some body /\ initial_mark st = None /\ (st = s_chunk_data_almost_done \/ p = len)).

(** The parser [qs] is what the calls on the single bytes before [p] have left, when the
    call on all of them is in the state [e] there. *)
Definition same p e (qs : http_parser D) : Prop :=
  exists mk, qs = blind (pend mk p (data (parser e))) (p_state e) (l_nread e) (parser e) /\
    pos e = p /\ (forall m, marks e m = mark_fn mk m) /\ mark_le mk p /\ fits_head p (p_state e) mk.

Lemma start_mk qs : start qs = mkExec qs 0 (state_ qs) (nread qs) (marks (start qs)).
Proof. unfold start. by destruct (initial_mark (state_ qs)). Qed.

(** The start of a call on the next byte. *)
Lemma rel_start p mk e qs N' : qs = blind (pend mk p (data (parser e))) (p_state e) N' (parser e) ->
  pos e = p -> (forall m, marks e m = mark_fn mk m) -> mark_le mk p ->
  rel p mk (initial_mark (p_state e)) (p_state e) (l_nread e) N' e (start qs).
Proof.
  intros -> Hp Hm Hle. destruct (start_eq (blind (pend mk p (data (parser e))) (p_state e) N' (parser e))) as (_ & _ & _ & _ & Hs).
  exists (pend mk p (data (parser e))), (p_state e), N', (marks (start (blind (pend mk p (data (parser e))) (p_state e) N' (parser e)))).
  split; [apply start_mk|]. by split_and!.
Qed.

Lemma same_rel p e qs : same p e qs -> (p < len)%nat -> multi (p_state e) = false ->
  exists mk mo, rel p mk mo (p_state e) (l_nread e) (l_nread e) e (start qs) /\ starts (p_state e) mk mo.
Proof.
  intros (mk & Hq & Hp & Hm & Hle & Hf) Hlt Hmu. exists mk, (initial_mark (p_state e)).
  split; [by apply rel_start|]. split; [done|]. destruct Hf as [Hf|(Hb & Hi & Hs)].
  - left. by split.
  - right. destruct mk as [[n j]|]; [|done]. injection Hb as ->. destruct Hs as [Hs|]; [|lia]. split_and!; eauto.
Qed.

Lemma pend_next mk p c d : bytes !! p = Some c -> mark_le mk p ->
  match fst <$> mk with Some m => A m [c] (pend mk p d) | None => pend mk p d end = pend mk (p + 1) d.
Proof using HA.
  intros Hc Hle. destruct mk as [[n j]|]; [|done]. cbn [fmap option_fmap option_map fst ParserSim.pend] in *. cbn in Hle.
  rewrite <- (col_app _ _ HA). f_equal. replace [c] with (take 1 (drop (p - j) (drop j bytes))).
  - rewrite take_take_drop. f_equal. lia.
  - rewrite drop_drop. replace (j + (p - j))%nat with p by lia. by rewrite (drop_S _ _ _ Hc).
Qed.

(** After a byte without incident. *)
Lemma break_next p M e x c : outc p M Break e Break x -> errno (parser e) = HPE_OK -> bytes !! p = Some c ->
  exists mo, pos x = O /\ pos e = p /\ errno (parser x) = HPE_OK /\ 0 <= l_nread e <= M /\
    (forall m, marks x m = mark_fn ((fun m => (m, O)) <$> mo) m) /\
    same (p + 1) (set_pos (pos e + 1) e) (saved ((fun m => (m, [c])) <$> mo) x).
Proof using HA.
  intros (_ & mk & mo & st & N & (d & s & n & mks & -> & Hp & Hst & HN & Hm & Hm' & Hd & Hle) & HM & Hmo & Hf) Hok Hc.
  exists mo. split_and!; try done; try congruence; try (rewrite HN; lia).
  exists mk. cbn [parser set_pos pos p_state l_nread marks]. split_and!; try done.
  - rewrite <- (pend_next mk p c _ Hc Hle), <- Hmo, <- Hd. unfold saved. cbn. rewrite Hst, HN. by destruct mo.
  - by rewrite Hp.
  - destruct mk as [[]|]; cbn in *; lia.
  - unfold fits_head. rewrite Hst, <- Hmo. destruct Hf as [Hf|(-> & Hi & Hx)]; [by left|right]. by split_and!.
Qed.

(** ** Pieces of the cases of several bytes *)

Hypothesis Hmax : max_header_size < 2 ^ 32.

Lemma count_run v (k : act) e : 0 <= l_nread e -> l_nread e + Z.of_nat v <= max_header_size ->
  COUNT_HEADER_SIZE max_header_size v k e = k (set_l_nread (l_nread e + Z.of_nat v) e).
Proof using Hmax.
  intros H0 H1. unfold COUNT_HEADER_SIZE. rewrite bind_modify, bind_get. cbn [l_nread set_l_nread]. unfold wrap.
  rewrite (Z.mod_small (Z.of_nat v)), Z.mod_small by lia. destruct (Z.ltb_spec max_header_size (l_nread e + Z.of_nat v)); [lia|done].
Qed.

Lemma both_tail {X} (Q : X -> exec D -> X -> exec D -> Prop) p mk mo st N N' m m' :
  both Q p mk mo st N N' (bind m ret) (bind m' ret) -> both Q p mk mo st N N' m m'.
Proof. intros H e x a e' Hr He. rewrite <- bind_ret_r in He. destruct (H e x a e' Hr He) as (a' & x' & Hx & HQ). rewrite bind_ret_r in Hx. eauto. Qed.

(** The states stay related. *)
Definition stays p mk mo st N N' (a : unit) e (a' : unit) x : Prop := rel p mk mo st N N' e x.

Ltac both_go := repeat first [both_step | apply both_ret; intros ? ? ?; assumption | apply both_tail].

(** One step of both runs by the rules. *)
Ltac by_both Q p mk mo st N N' Hr := match goal with
  | He : ?m ?e = (Ok ?a, ?e1) |- exists a' x', ?m' ?x = (Ok a', x') /\ _ =>
      let H := fresh in assert (both Q p mk mo st N N' m m') as H; [both_go|exact (H e x a e1 Hr He)] end.

Variable c0 : Z.

Lemma field_char_both p mk mo st N N' ch :
  both (stays p mk mo st N N') p mk mo st N N' (field_char_ref max_header_size bytes ch) (field_char_ref max_header_size [c0] ch).
Proof.
  intros e x a e' Hr He.
  assert (header_state (parser x) = header_state (parser e)) as Hh by (by destruct Hr as (? & ? & ? & ? & -> & _)).
  unfold field_char_ref, header_field_char, member in *. rewrite !bind_get in *. rewrite Hh.
  destruct (header_state (parser e)) eqn:Hs; try (rewrite bind_get, Hs in He; rewrite bind_get, Hh); try done.
  all: unfold match_name, match_next in *; by_both (stays p mk mo st N N') p mk mo st N N' Hr.
Qed.

(** A character of a value: the same new state of the scan, or the same error. *)
Definition value_rel p mk mo N N' (r : option header_states) e (r' : option header_states) x : Prop :=
  r' = r /\
  match r with
  | Some _ => rel p mk mo s_header_value N N' e x
  | None => pos e = p /\ pos x = O /\ errno (parser x) = errno (parser e) /\ errno (parser e) <> HPE_OK
  end.

Lemma both_value_error p mk mo N N' er h : er <> HPE_OK ->
  both (value_rel p mk mo N N') p mk mo s_header_value N N' (value_error er h) (value_error er h).
Proof.
  intros Her e x a e' (d & s & n & mks & -> & Hp & _) [= <- <-]. eexists _, _. split; [reflexivity|]. by cbn.
Qed.

Lemma both_stay p mk mo N N' h :
  both (value_rel p mk mo N N') p mk mo s_header_value N N' (stay h) (stay h).
Proof. apply both_ret. intros e x Hr. by split. Qed.

Lemma value_char_both p mk mo N N' h ch :
  both (value_rel p mk mo N N') p mk mo s_header_value N N'
    (value_char_ref max_header_size bytes h ch) (value_char_ref max_header_size [c0] h ch).
Proof.
  unfold value_char_ref, header_value_char, match_value, match_next, skip_token, after_connection, content_length_char.
  destruct h; repeat first [both_step | apply both_stay | apply both_value_error; discriminate | apply both_fail; discriminate].
Qed.

(** The scan does not look at the [header_state] of the parser. *)
Definition with_hs (h : header_states) e : exec D := set_parser (set_header_state h (parser e)) e.

Lemma value_char_hs h ch h0 e r e' : value_char_ref max_header_size bytes h ch e = (Ok r, e') ->
  exists e'', value_char_ref max_header_size bytes h ch (with_hs h0 e) = (Ok r, e'') /\
    match r with
    | Some _ => e'' = with_hs h0 e' /\ errno (parser e') = errno (parser e)
    | None => pos e'' = pos e' /\ errno (parser e'') = errno (parser e')
    end.
Proof.
  unfold value_char_ref, header_value_char, match_value, match_next, skip_token, after_connection, content_length_char, value_error,
    stay, SET_ERRNO, UPDATE_STATE, put_hs, inc_index, put, member, with_hs, bind, get, modify, ret, fail.
  intros H. destruct h; cbn in H |- *; repeat (case_match; cbn in H |- *); simplify_eq; eexists; (split; [reflexivity|]); done.
Qed.
End bytes.
End chunks.
