(* ===== verification/ParserPieces.v ===== *)
(** * ParserPieces: a message in pieces

    The cases of [http_parser_execute] that consume several bytes, against calls on
    the single bytes, and the theorem: how a message is cut does not matter. *)

From stdpp Require Import base list numbers.
From S2P Require Import Prelude Words ParserTables ParserUrl ParserState ParserExec ParserSafety ParserTheorems ParserLoops ParserSim ParserChunks.

Local Open Scope Z_scope.

Section pieces.
Context {D : Type}.
Variable max_header_size : Z.
Variable settings : http_parser_settings D.
Variable A : data_cb -> list Z -> D -> D.
Hypothesis HA : collects settings A.
Variable bytes : list Z.
Hypothesis Hmax : max_header_size < 2 ^ 32.
Implicit Types (e x : exec D) (ps qs : http_parser D).

#[local] Notation len := (length bytes).
#[local] Notation execute := (http_parser_execute max_header_size settings).
#[local] Notation feed := (feed max_header_size settings).
#[local] Notation feeds := (feeds max_header_size settings).
#[local] Notation rel := (rel A bytes).
#[local] Notation both := (both A bytes).
#[local] Notation outc := (outc A bytes).
#[local] Notation pend := (pend A bytes).
#[local] Notation same := (same A bytes).
#[local] Notation saved := (saved A).
#[local] Notation byte := (one_byte max_header_size settings).

(** ** The calls on the single bytes from [p] on *)

(** What they come to, when the call on all the bytes has ended the case of the byte
    at [p] with [f] in the state [e]; the count of header bytes exceeds the number of
    bytes read by at most [M]. *)
Definition result p (M : Z) (f : flow) e qs : Prop :=
  match f with
  | Break => (p <= pos e + 1)%nat /\ 0 <= l_nread e <= M + Z.of_nat (pos e + 1) /\
      exists qs1, feeds (take (pos e + 1 - p) (drop p bytes)) qs qs1 /\ same (pos e + 1) (set_pos (pos e + 1) e) qs1
  | Reexecute _ => False
  | GotoError => errno (parser e) <> HPE_OK /\ (p <= pos e)%nat /\
      exists qs1, feed (drop p bytes) qs = (Ok (Z.of_nat (pos e - p)), qs1) /\ errno qs1 = errno (parser e)
  | Return v => (p <= v)%nat /\
      (errno (parser e) = HPE_OK -> feeds (take (v - p) (drop p bytes)) qs (parser e) /\ 0 <= nread (parser e) <= M + Z.of_nat v) /\
      (errno (parser e) <> HPE_OK -> exists qs1, feed (drop p bytes) qs = (Ok (Z.of_nat (v - p)), qs1) /\ errno qs1 = errno (parser e))
  end.

(** One byte goes by. *)
Lemma result_step p M f e qs c qs1 : bytes !! p = Some c -> execute [c] qs = (Ok 1, qs1) -> errno qs1 = HPE_OK ->
  result (p + 1) M f e qs1 -> result p M f e qs.
Proof using Type.
  intros Hc Hx He. rewrite Nat.add_1_r. unfold result.
  destruct f as [| | |v]; [|done|..]; rewrite ?(drop_S _ _ _ Hc).
  - intros (Hp & HN & qs2 & Hf & Hs). split_and!; try lia. exists qs2. split; [|done].
    replace (pos e + 1 - p)%nat with (S (pos e + 1 - S p)) by lia. cbn [take ParserChunks.feeds]. eauto.
  - intros (Hok & Hp & qs2 & Hf & Hs). split_and!; [done|lia|]. exists qs2. split; [|done].
    rewrite (feed_step _ _ _ _ _ _ Hx He), (bind_Ok _ _ _ _ _ Hf). unfold ret. do 2 f_equal. lia.
  - intros (Hp & H1 & H2). split_and!; [lia| |].
    + intros Hok. destruct (H1 Hok) as [Hf Hn]. split; [|done].
      replace (v - p)%nat with (S (v - S p)) by lia. cbn [take ParserChunks.feeds]. eauto.
    + intros Hok. destruct (H2 Hok) as (qs2 & Hf & Hs). exists qs2. split; [|done].
      rewrite (feed_step _ _ _ _ _ _ Hx He), (bind_Ok _ _ _ _ _ Hf). unfold ret. do 2 f_equal. lia.
Qed.

(** The last byte of the case. *)
Lemma result_one p M f e qs c f' x : errno qs = HPE_OK -> bytes !! p = Some c -> byte [c] c (start qs) = (Ok f', x) ->
  outc p (M + Z.of_nat (p + 1)) f e f' x -> (f = Break -> errno (parser e) = HPE_OK) -> (forall c', f <> Reexecute c') -> result p M f e qs.
Proof using HA.
  intros Hq Hc Hx Ho Hok Hre. pose proof (single_run max_header_size settings A HA c qs f' x Hq Hx) as Hrun.
  unfold result. rewrite (drop_S _ _ _ Hc). destruct f as [|c'| |v]; [..|].
  - pose proof Ho as [-> _]. destruct (break_next settings A HA bytes p _ e x c Ho (Hok eq_refl) Hc) as (mo & Hpx & Hpe & Hexo & HN & Hm & Hs).
    specialize (Hrun mo Hpx Hexo Hm). split_and!; [lia..|]. eexists. split; [|by rewrite Hpe in *; exact Hs].
    rewrite Hpe. replace (p + 1 - p)%nat with 1%nat by lia. cbn [take ParserChunks.feeds].
    eexists. split_and!; [exact Hrun| |done]. unfold ParserChunks.saved. by destruct mo.
  - by destruct (Hre c').
  - destruct Ho as (-> & Hpe & Hpx & He & Hne). split_and!; [done|lia|].
    destruct (Hrun ltac:(congruence)) as (ps1 & H1 & H2). exists ps1. split; [|congruence].
    rewrite (feed_stop _ _ _ _ _ _ _ H1); [f_equal; f_equal; lia|right; congruence].
  - destruct Ho as (w & -> & -> & He & Hok'). split_and!; [lia| |].
    + intros Hok2. destruct (Hok' Hok2) as (-> & Hxe & HN). rewrite Hxe in Hrun.
      replace (p + 1 - p)%nat with 1%nat by lia. cbn [take ParserChunks.feeds]. split; [|lia].
      exists (parser e). by split_and!.
    + intros Hne. exists (parser x). split; [|done].
      rewrite (feed_stop _ _ _ _ _ _ _ Hrun); [f_equal; f_equal; lia|right; congruence].
Qed.

(** The parser between two bytes of a case. *)
Lemma saved_next q mk mo st N N' c e x : rel q mk mo st N N' e x -> mo = fst <$> mk -> bytes !! q = Some c ->
  saved ((fun m => (m, [c])) <$> mo) x = blind (pend mk (q + 1) (data (parser e))) st N' (parser e).
Proof using HA.
  intros (d & s & n & mks & -> & Hp & Hst & HN & Hm & Hm' & Hd & Hle) -> Hc.
  rewrite <- (pend_next settings A HA bytes mk q c _ Hc Hle), <- Hd. unfold ParserChunks.saved. by destruct mk as [[]|].
Qed.

(** A byte that leaves both runs in the same case. *)
Lemma result_stay q mk mo st N N' c qs e x M f e1 : errno qs = HPE_OK -> bytes !! q = Some c ->
  byte [c] c (start qs) = (Ok Break, x) -> rel q mk mo st N N' e x -> mo = fst <$> mk -> errno (parser e) = HPE_OK ->
  result (q + 1) M f e1 (blind (pend mk (q + 1) (data (parser e))) st N' (parser e)) -> result q M f e1 qs.
Proof using HA.
  intros Hq Hc Hx Hr Hmo Hok. apply (result_step q M f e1 qs c); [done| |done].
  rewrite <- (saved_next q mk mo st N N' c e x Hr Hmo Hc).
  destruct Hr as (d & s & n & mks & -> & Hp & Hst & HN & Hm & Hm' & Hd & Hle).
  by apply (single_run max_header_size settings A HA c qs Break _ Hq Hx mo).
Qed.

(** ** The count of a header byte *)

Definition go_on (B : list Z) (f : flow) : act :=
  match f with Reexecute ch => reexecute max_header_size settings B 7 ch | f => ret f end.

Definition counted e : exec D := set_l_nread (l_nread e + 1) e.

Lemma byte_header B c e : PARSING_HEADER (p_state e) = true -> 0 <= l_nread e -> l_nread e + 1 <= max_header_size ->
  byte B c e = (let! f := switch max_header_size settings B (p_state e) c in go_on B f) (counted e).
Proof using Hmax.
  intros Hh H0 H1. unfold one_byte. rewrite bind_get, Hh. rewrite (count_run max_header_size Hmax) by lia. done.
Qed.

Lemma byte_body B c e : PARSING_HEADER (p_state e) = false ->
  byte B c e = (let! f := switch max_header_size settings B (p_state e) c in go_on B f) e.
Proof using Type. intros Hh. unfold one_byte. by rewrite bind_get, Hh. Qed.

Lemma count_sum n v : 0 <= n -> n + Z.of_nat v <= max_header_size -> wrap 32 (n + wrap 32 (Z.of_nat v)) = n + Z.of_nat v.
Proof using Hmax. intros H0 H1. unfold wrap. by rewrite (Z.mod_small (Z.of_nat v)), Z.mod_small by lia. Qed.

(** The end of a case goes on in another. *)
Lemma go_on_run M p c0 f e f' x b e' : outc p M f e f' x -> go_on bytes f e = (Ok b, e') ->
  exists b' x', go_on [c0] f' x = (Ok b', x') /\ outc p M b e' b' x'.
Proof using HA.
  intros Hf He. destruct f as [|c'| |v]; cbn [ParserSim.outc] in Hf.
  - destruct Hf as [-> Hf]. injection He as <- <-. by eexists _, _.
  - destruct Hf as (-> & mk1 & mo1 & st1 & N1 & Hr & HN1 & Hfit & Hmu).
    apply (reexecute_both max_header_size settings A HA bytes c0 M 7 c' p mk1 mo1 st1 N1 HN1 (conj Hmu (or_introl Hfit)) e x b e' Hr He).
  - destruct Hf as [-> Hf]. injection He as <- <-. by eexists _, _.
  - destruct Hf as (w & -> & Hf). injection He as <- <-. eexists _, _. split; [done|]. by exists w.
Qed.

Lemma reexecute_not B fuel : forall c e f e', reexecute max_header_size settings B fuel c e = (Ok f, e') -> forall c', f <> Reexecute c'.
Proof using Type.
  induction fuel as [|fuel IH]; intros c e f e' He c'; cbn [reexecute] in He; [done|].
  rewrite bind_get in He. apply bind_Ok_inv in He as (g & e1 & _ & Hg).
  destruct g; [by injection Hg as <- _|by eapply IH|by injection Hg as <- _..].
Qed.

Lemma go_on_not B g e f e' : go_on B g e = (Ok f, e') -> forall c', f <> Reexecute c'.
Proof using Type. destruct g; intros He c'; [by injection He as <- _|by eapply reexecute_not|by injection He as <- _..]. Qed.

Lemma both_eq {X} (Q : X -> exec D -> X -> exec D -> Prop) p mk mo st N N' m m' n n' :
  (forall e x, rel p mk mo st N N' e x -> m e = n e /\ m' x = n' x) -> both Q p mk mo st N N' n n' -> both Q p mk mo st N N' m m'.
Proof using Type. intros H Hn e x a e' Hr He. destruct (H e x Hr) as [E1 E2]. rewrite E1 in He. rewrite E2. by apply (Hn e x). Qed.

(** The last byte of a case, with both runs of its end related. *)
Lemma result_both p M m m' c e x qs f e1 : errno qs = HPE_OK -> bytes !! p = Some c ->
  (forall g e2, m e = (Ok g, e2) -> exists g' x2, m' x = (Ok g', x2) /\ outc p (M + Z.of_nat (p + 1)) g e2 g' x2) ->
  byte [c] c (start qs) = bind m' (go_on [c]) x -> bind m (go_on bytes) e = (Ok f, e1) ->
  (f = Break -> errno (parser e1) = HPE_OK) -> result p M f e1 qs.
Proof using HA.
  intros Hq Hc Hm Hx He Hok. apply bind_Ok_inv in He as (g & e2 & H1 & H2).
  destruct (Hm g e2 H1) as (g' & x2 & H1' & Ho). rewrite (bind_Ok _ _ _ _ _ H1') in Hx.
  destruct (go_on_run _ p c g e2 g' x2 f e1 Ho H2) as (f' & x' & Hx' & Ho'). rewrite Hx' in Hx.
  eapply result_one; try done. by eapply go_on_not.
Qed.

(** ** A name *)

Section name.
Context (p j : nat) (N : Z).
Hypothesis HN : 0 <= N.
Hypothesis Hroom : N + Z.of_nat (len - p) <= max_header_size.
Hypothesis Hj : (j <= p)%nat.
#[local] Notation mk := (Some (header_field, j)).

(** What follows the scan. *)
Definition field_rest (B : list Z) (start : nat) (ch : Z) : act :=
  let! q := get pos in
  if (q =? length B)%nat then
    do! modify (set_pos (q - 1)) in
    COUNT_HEADER_SIZE max_header_size (q - 1 - start) break
  else
    COUNT_HEADER_SIZE max_header_size (q - start) (
      if ch =? ":"%ch then
        do! UPDATE_STATE s_header_value_discard_ws in
        CALLBACK_DATA settings B header_field break
      else error HPE_INVALID_HEADER_TOKEN).

Definition field_at q e qs : Prop :=
  (p <= q <= len)%nat /\ pos e = q /\ p_state e = s_header_field /\ l_nread e = N + 1 /\
  (forall m, marks e m = mark_fn mk m) /\ errno (parser e) = HPE_OK /\
  qs = blind (pend mk q (data (parser e))) s_header_field (N + Z.of_nat (q - p)) (parser e).

(** The call on the byte at [q]. *)
Lemma field_one q e qs c : field_at q e qs -> bytes !! q = Some c ->
  byte [c] c (start qs) = (let! f := case_header_field_ref max_header_size settings [c] c in go_on [c] f) (counted (start qs)) /\
  rel q mk (Some header_field) s_header_field (N + 1) (N + Z.of_nat (q - p) + 1) e (counted (start qs)).
Proof using HA Hmax HN Hroom Hj.
  intros (Hq & Hp & Hst & Hn & Hm & Hok & ->) Hc. pose proof (lookup_lt_Some _ _ _ Hc).
  pose proof (rel_start A bytes q mk e _ (N + Z.of_nat (q - p)) eq_refl Hp Hm ltac:(cbn; lia)) as Hr.
  rewrite Hst, Hn in Hr. destruct Hr as (d & s & n & mks & E & _ & _ & _ & _ & Hm' & Hd & Hle). split.
  - assert (p_state (start (blind (pend mk q (data (parser e))) s_header_field (N + Z.of_nat (q - p)) (parser e))) = s_header_field)
      as Hs by (by rewrite E).
    rewrite byte_header by (rewrite E; cbn; lia || done). rewrite Hs. cbn [switch].
    apply bind_ext; [|done]. apply case_header_field_plain; [cbn; lia|rewrite E; cbn; lia].
  - rewrite E. exists d, s, n, mks. unfold counted. cbn [parser pos p_state l_nread marks set_l_nread]. by split_and!.
Qed.

Lemma field_end q c : (p <= q < len)%nat ->
  both (outc q (N - Z.of_nat p + Z.of_nat (q + 1))) q mk (Some header_field) s_header_field (N + 1) (N + Z.of_nat (q - p) + 1)
    (field_rest bytes p c) (field_rest [c] 0 c).
Proof using HA Hmax HN Hroom Hj.
  intros Hq. eapply both_eq with
    (n := COUNT_HEADER_SIZE max_header_size (q - p) (if c =? ":"%ch then _ else error HPE_INVALID_HEADER_TOKEN))
    (n' := COUNT_HEADER_SIZE max_header_size 0 (if c =? ":"%ch then _ else error HPE_INVALID_HEADER_TOKEN)).
  { intros e x (d & s & n & mks & -> & Hp & _). unfold field_rest. rewrite !bind_get, Hp.
    destruct (Nat.eqb_spec q len); [lia|]. cbn [pos length Nat.eqb Nat.sub]. by split. }
  apply both_count with (C := N + 1 + Z.of_nat (q - p)); [rewrite count_sum; lia..|].
  both_case.
Qed.

Lemma field_last v q e x c : (p <= v <= len)%nat -> rel q mk (Some header_field) s_header_field (N + 1) (N + Z.of_nat (v - p)) e x ->
  (let! a := do! advance in ret c in let! f := field_rest [c] 0 a in go_on [c] f) x = (Ok Break, x).
Proof using Hmax HN Hroom Hj.
  intros Hv (d & s & n & mks & -> & _). rewrite bind_assoc, (bind_Ok _ _ _ _ _ (advance_run _)), bind_ret_l.
  unfold field_rest.
  rewrite bind_assoc, bind_get. cbn [pos set_pos length Nat.add Nat.eqb Nat.sub]. rewrite bind_assoc, bind_modify. unfold bind.
  rewrite (count_run max_header_size Hmax) by (cbn [l_nread set_pos]; lia). cbn. by rewrite Z.add_0_r.
Qed.

Lemma field_sim l : forall q ch e qs f e1, drop q bytes = l -> field_at q e qs -> (q = len -> (p < q)%nat) ->
  (let! ch := field_ref max_header_size bytes l ch in let! f := field_rest bytes p ch in go_on bytes f) e = (Ok f, e1) ->
  (f = Break -> errno (parser e1) = HPE_OK) -> result q (N - Z.of_nat p) f e1 qs.
Proof using HA Hmax HN Hroom Hj.
  induction l as [|c l IH]; intros q ch e qs f e1 Hl Hat Hlt Hrun Hgood; cbn [field_ref] in Hrun.
  - pose proof Hat as (Hq & Hp & Hst & Hn & Hm & Hok & Hqs).
    assert (q = len) as -> by (apply drop_none; [lia|done]). specialize (Hlt eq_refl).
    rewrite bind_ret_l in Hrun. unfold field_rest in Hrun. rewrite bind_assoc, bind_get, Hp, Nat.eqb_refl, bind_assoc, bind_modify in Hrun.
    unfold bind in Hrun. rewrite (count_run max_header_size Hmax) in Hrun by (cbn [l_nread set_pos]; lia). injection Hrun as <- <-.
    cbn [result pos set_pos l_nread set_l_nread]. split_and!; [lia..|].
    replace (len - 1 + 1 - len)%nat with O by lia. exists qs. split; [done|].
    exists mk. cbn [parser set_pos pos p_state l_nread marks set_l_nread]. split_and!; try done.
    + rewrite Hqs, Hst, Hn. replace (len - 1 + 1)%nat with len by lia. f_equal; lia.
    + cbn; lia.
    + left. by rewrite Hst.
  - destruct (drop_head _ _ _ _ Hl) as (Hc & Hl' & Hlen). destruct (field_one q e qs c Hat Hc) as (Hone & Hr).
    pose proof Hat as (Hq & Hp & Hst & Hn & Hm & Hok & Hqs).
    assert (case_header_field_ref max_header_size settings [c] c (counted (start qs)) =
      (let! ch := field_ref max_header_size [c] [c] c in field_rest [c] 0 ch) (counted (start qs))) as Hcase.
    { unfold case_header_field_ref. rewrite bind_get. destruct Hr as (? & ? & ? & ? & -> & _). done. }
    rewrite (bind_ext (D := D) _ _ _ _ _ Hcase) in Hone by done.
    cbn [field_ref] in Hone. rewrite bind_assoc in Hone.
    destruct (TOKEN c =? 0) eqn:Ht.
    + rewrite bind_ret_l in *. eapply result_both; [by rewrite Hqs|done|exact (fun g e2 => field_end q c ltac:(lia) e _ g e2 Hr)|exact Hone|exact Hrun|done].
    + rewrite !bind_assoc in *. apply bind_Ok_inv in Hrun as ([] & e2 & Hch & Hrun). rewrite bind_assoc, (bind_Ok _ _ _ _ _ (advance_run e2)) in Hrun.
      destruct (field_char_both max_header_size A bytes c q mk (Some header_field) s_header_field _ _ c e _ _ _ Hr Hch) as ([] & x2 & Hx & Hr2).
      rewrite (bind_Ok _ _ _ _ _ Hx) in Hone.
      pose proof (field_char_ref_errno max_header_size bytes c e tt e2 Hch) as Hok2. cbn beta in Hok2. rewrite Hok in Hok2.
      unfold stays in Hr2.
      replace (N + Z.of_nat (q - p) + 1) with (N + Z.of_nat (q + 1 - p)) in Hr2 by lia.
      eapply (result_stay q); [by rewrite Hqs|exact Hc| |exact Hr2|done|exact Hok2|eapply (IH (q + 1)%nat); [done| |lia|exact Hrun|done]].
      * rewrite Hone. apply (field_last (q + 1)%nat q e2); [lia|exact Hr2].
      * destruct Hr2 as (? & ? & ? & ? & _ & Hp2 & Hst2 & Hn2 & Hm2 & _). unfold field_at.
        cbn [parser set_pos pos p_state l_nread marks]. split_and!; try done; lia.
Qed.
End name.

(** ** A value *)

Lemma after_mid B start h e : (pos e < length B)%nat ->
  after_header_value max_header_size B start h e =
  (do! put_hs h in COUNT_HEADER_SIZE max_header_size (pos e - start) break) e.
Proof using Type.
  intros Hp. unfold after_header_value, put_hs, put. rewrite !bind_modify, bind_get. cbn [pos set_parser].
  destruct (Nat.eqb_spec (pos e) (length B)); [lia|]. rewrite bind_modify. by destruct e.
Qed.

Section value.
Context (p j : nat) (N : Z).
Hypothesis HN : 0 <= N.
Hypothesis Hroom : N + Z.of_nat (len - p) <= max_header_size.
Hypothesis Hj : (j <= p)%nat.
#[local] Notation mk := (Some (header_value, j)).

(** The scan keeps the state [h] of the value in a local variable. *)
Definition value_at q (h : header_states) e qs : Prop :=
  (p <= q <= len)%nat /\ pos e = q /\ p_state e = s_header_value /\ l_nread e = N + 1 /\
  (forall m, marks e m = mark_fn mk m) /\ errno (parser e) = HPE_OK /\
  qs = blind (pend mk q (data (parser e))) s_header_value (N + Z.of_nat (q - p)) (set_header_state h (parser e)).

(** The call on the byte at [q]. *)
Lemma value_one q h e qs c : value_at q h e qs -> bytes !! q = Some c ->
  byte [c] c (start qs) =
    (let! r := value_ref max_header_size [c] [c] h in
     let! f := value_finish max_header_size settings [c] 0 r in go_on [c] f) (counted (start qs)) /\
  rel q mk (Some header_value) s_header_value (N + 1) (N + Z.of_nat (q - p) + 1) (with_hs h e) (counted (start qs)).
Proof using HA Hmax HN Hroom Hj.
  intros (Hq & Hp & Hst & Hn & Hm & Hok & ->) Hc. pose proof (lookup_lt_Some _ _ _ Hc).
  pose proof (rel_start A bytes q mk (with_hs h e) _ (N + Z.of_nat (q - p)) eq_refl Hp Hm ltac:(cbn; lia)) as Hr.
  cbn [with_hs p_state set_parser l_nread parser data set_header_state] in Hr.
  rewrite Hst, Hn in Hr. destruct Hr as (d & s & n & mks & E & _ & _ & _ & _ & Hm' & Hd & Hle). split.
  - set (x := start _) in *.
    assert (p_state x = s_header_value) as Hs by (by rewrite E).
    rewrite byte_header by (rewrite E; cbn; lia || done). rewrite Hs. cbn [switch].
    transitivity ((let! f := case_header_value_ref max_header_size settings [c] c in go_on [c] f) (counted x)).
    + apply bind_ext; [|done]. apply case_header_value_plain; [cbn; lia|rewrite E; cbn; lia].
    + rewrite E. unfold case_header_value_ref, member. rewrite bind_assoc, bind_get, bind_assoc, bind_get. by rewrite bind_assoc.
  - rewrite E. exists d, s, n, mks. unfold counted. cbn [parser pos p_state l_nread marks set_l_nread]. by split_and!.
Qed.

(** The ends at which the value is complete: they do not look at the member
    [header_state]. *)
Lemma finish_hs q h r e : (p <= q < len)%nat -> pos e = q -> l_nread e = N + 1 -> r = AtCR h \/ r = AtLF h ->
  value_finish max_header_size settings bytes p r e = value_finish max_header_size settings bytes p r (with_hs h e).
Proof using Hmax HN Hroom Hj.
  intros Hq Hp Hn. unfold value_finish, put_hs, put, UPDATE_STATE. intros [-> | ->]; rewrite ?bind_get, !bind_modify; [done|].
  cbn [pos with_hs set_parser]. rewrite Hp, !(count_run max_header_size Hmax) by (cbn; lia). done.
Qed.

Lemma value_end_both q c h r : (p <= q < len)%nat -> r = AtCR h \/ r = AtLF h ->
  both (outc q (N - Z.of_nat p + Z.of_nat (q + 1))) q mk (Some header_value) s_header_value (N + 1) (N + Z.of_nat (q - p) + 1)
    (value_finish max_header_size settings bytes p r) (value_finish max_header_size settings [c] 0 r).
Proof using HA Hmax HN Hroom Hj.
  intros Hq [-> | ->]; cbn [value_finish].
  - do 6 both_step.
    eapply both_eq with
    (n := do! put_hs h in COUNT_HEADER_SIZE max_header_size (q - p) break) (n' := do! put_hs h in COUNT_HEADER_SIZE max_header_size 0 break).
    { intros e x (d & s & n & mks & -> & Hp & _). rewrite !after_mid by (cbn; lia). by rewrite Hp. }
    both_step. both_step. apply both_count with (C := N + 1 + Z.of_nat (q - p)); [rewrite count_sum; lia..|]. both_case.
  - both_step. both_step. apply both_count with (C := N + 1 + Z.of_nat (q - p)); [rewrite count_sum; lia..|]. both_case.
Qed.

Lemma value_last q h h' v e x c : (p <= v <= len)%nat -> rel q mk (Some header_value) s_header_value (N + 1) (N + Z.of_nat (v - p)) (with_hs h e) x ->
  (let! r := (do! advance in ret (AtEnd h')) in let! f := value_finish max_header_size settings [c] 0 r in go_on [c] f) x = (Ok Break, with_hs h' x).
Proof using Hmax HN Hroom Hj.
  intros Hv (d & s & n & mks & -> & _). rewrite bind_assoc, (bind_Ok _ _ _ _ _ (advance_run _)), bind_ret_l.
  cbn [value_finish]. unfold after_header_value, put_hs, put.
  rewrite bind_assoc, bind_modify, bind_assoc, bind_get. cbv zeta. cbn [pos set_pos set_parser length Nat.add Nat.eqb Nat.sub].
  rewrite bind_assoc, bind_modify. unfold bind.
  rewrite (count_run max_header_size Hmax) by (cbn [l_nread set_pos set_parser]; lia). cbn. by rewrite Z.add_0_r.
Qed.

Lemma rel_with_hs q mo st N0 N' h e x : rel q mk mo st N0 N' e x -> rel q mk mo st N0 N' (with_hs h e) (with_hs h x).
Proof using Type.
  intros (d & s & n & mks & -> & H). by exists d, s, n, mks.
Qed.

(** The value goes on in the next call. *)
Lemma value_nil h e qs f e1 : value_at len h e qs -> (p < len)%nat ->
  (let! f := value_finish max_header_size settings bytes p (AtEnd h) in go_on bytes f) e = (Ok f, e1) ->
  result len (N - Z.of_nat p) f e1 qs.
Proof using HA Hmax HN Hroom Hj.
  intros Hat Hlt Hrun.
  pose proof Hat as (Hq & Hp & Hst & Hn & Hm & Hok & Hqs).
  cbn [value_finish] in Hrun. unfold after_header_value, put_hs, put in Hrun.
  rewrite bind_assoc, bind_modify, bind_assoc, bind_get in Hrun. cbn [pos set_parser] in Hrun.
  cbv zeta in Hrun. rewrite Hp, Nat.eqb_refl, bind_assoc, bind_modify in Hrun.
  unfold bind in Hrun. rewrite (count_run max_header_size Hmax) in Hrun by (cbn [l_nread set_pos set_parser]; lia). injection Hrun as <- <-.
  cbn [result pos set_pos l_nread set_l_nread set_parser]. split_and!; [lia..|].
  replace (len - 1 + 1 - len)%nat with O by lia. exists qs. split; [done|].
  exists mk. cbn [parser set_pos pos p_state l_nread marks set_l_nread set_parser]. split_and!; try done.
  - rewrite Hqs, Hst, Hn. replace (len - 1 + 1)%nat with len by lia. f_equal; lia.
  - cbn; lia.
  - left. by rewrite Hst.
Qed.

Lemma value_sim l : forall q h e qs f e1, drop q bytes = l -> value_at q h e qs -> (q = len -> (p < q)%nat) ->
  (let! r := value_ref max_header_size bytes l h in
   let! f := value_finish max_header_size settings bytes p r in go_on bytes f) e = (Ok f, e1) ->
  (f = Break -> errno (parser e1) = HPE_OK) -> result q (N - Z.of_nat p) f e1 qs.
Proof using HA Hmax HN Hroom Hj.
  induction l as [|c l IH]; intros q h e qs f e1 Hl Hat Hlt Hrun Hgood; cbn [value_ref] in Hrun.
  - pose proof Hat as (Hq & _). assert (q = len) as -> by (apply drop_none; [lia|done]).
    by apply (value_nil h e qs f e1 Hat (Hlt eq_refl)).
  - destruct (drop_head _ _ _ _ Hl) as (Hc & Hl' & Hlen). destruct (value_one q h e qs c Hat Hc) as (Hone & Hr).
    pose proof Hat as (Hq & Hp & Hst & Hn & Hm & Hok & Hqs). cbn [value_ref] in Hone.
    assert (forall r r', r = AtCR h \/ r = AtLF h -> r' = r ->
      byte [c] c (start qs) = (let! r := ret r in let! f := value_finish max_header_size settings [c] 0 r in go_on [c] f) (counted (start qs)) ->
      (let! r := ret r' in let! f := value_finish max_header_size settings bytes p r in go_on bytes f) e = (Ok f, e1) ->
      result q (N - Z.of_nat p) f e1 qs) as Hend.
    { intros r r' Hr' -> Hone' Hrun'. rewrite bind_ret_l in *.
      eapply result_both; [by rewrite Hqs|exact Hc|exact (fun g e2 => value_end_both q c h r ltac:(lia) Hr' _ _ g e2 Hr)|exact Hone'| |done].
      rewrite <- Hrun'. unfold bind. by rewrite <- (finish_hs q h r e) by (done || lia). }
    destruct (c =? CR); [by apply (Hend (AtCR h) (AtCR h)); [left|..]|].
    destruct (c =? LF); [by apply (Hend (AtLF h) (AtLF h)); [right|..]|].
    clear Hend. unfold member in *. rewrite !bind_assoc, !bind_get in *.
    assert (lenient_http_headers (parser (counted (start qs))) = lenient_http_headers (parser e)) as Hlen'
      by (by destruct Hr as (? & ? & ? & ? & -> & _)). rewrite Hlen' in Hone.
    destruct (negb (lenient_http_headers (parser e)) && negb (IS_HEADER_CHAR c)) eqn:Hbad.
    + destruct Hr as (d & s & n & mks & E & _). rewrite E in Hone. injection Hrun as <- <-.
      eapply (result_one q _ GotoError); [by rewrite Hqs|exact Hc|etransitivity; [exact Hone|reflexivity]|by cbn|done|done].
    + rewrite !bind_assoc in *. apply bind_Ok_inv in Hrun as (r & e2 & Hch & Hrun).
      destruct (value_char_hs max_header_size bytes h c h e r e2 Hch) as (e3 & Hch' & He3).
      destruct (value_char_both max_header_size A bytes c q mk (Some header_value) _ _ h c _ _ _ _ Hr Hch') as (r' & x2 & Hx & -> & Hv).
      rewrite (bind_Ok _ _ _ _ _ Hx) in Hone. destruct r as [h'|].
      * destruct He3 as [-> Hok2]. rewrite Hok in Hok2.
        replace (N + Z.of_nat (q - p) + 1) with (N + Z.of_nat (q + 1 - p)) in Hv by lia.
        rewrite (value_last q h h' (q + 1)%nat e2 x2 c) in Hone by (lia || exact Hv).
        apply (rel_with_hs q _ _ _ _ h') in Hv.
        rewrite bind_assoc, (bind_Ok _ _ _ _ _ (advance_run e2)) in Hrun.
        eapply (result_stay q); [by rewrite Hqs|exact Hc|exact Hone|exact Hv|done|exact Hok2|].
        eapply (IH (q + 1)%nat h'); [done| |lia|exact Hrun|done].
        destruct Hv as (? & ? & ? & ? & _ & Hp2 & Hst2 & Hn2 & Hm2 & _). unfold value_at.
        cbn [parser set_pos pos p_state l_nread marks with_hs set_parser] in *. split_and!; try done; lia.
      * destruct He3 as [Hp3 Hok3]. destruct Hv as (Hpe & Hpx & Hxe & Hne). injection Hrun as <- <-.
        eapply (result_one q _ GotoError); [by rewrite Hqs|exact Hc|etransitivity; [exact Hone|reflexivity]| |done|done].
        cbn. split_and!; congruence.
Qed.
End value.

(** ** A body *)

Lemma result_prefix m : forall p M f e qs qs1, (p + m <= len)%nat -> feeds (take m (drop p bytes)) qs qs1 ->
  result (p + m) M f e qs1 -> result p M f e qs.
Proof using Type.
  induction m as [|m IH]; intros p M f e qs qs1 Hp Hf Hr; [rewrite Nat.add_0_r in Hr; cbn in Hf; by rewrite <- Hf|].
  destruct (lookup_lt_is_Some_2 bytes p ltac:(lia)) as [c Hc]. rewrite (drop_S _ _ _ Hc) in Hf. cbn in Hf.
  destruct Hf as (qs2 & H1 & H2 & H3). eapply result_step; [done..|]. rewrite Nat.add_1_r.
  eapply IH; [|exact H3|by rewrite Nat.add_succ_comm]. lia.
Qed.

(** [take_body] computed. *)
Definition taken (B : list Z) e : nat := Z.to_nat (Z.min (content_length (parser e)) (Z.of_nat (length B - pos e))).
Definition body_taken (B : list Z) e : exec D :=
  mkExec (set_content_length (content_length (parser e) - Z.of_nat (taken B e)) (parser e)) (pos e + taken B e - 1)
    (p_state e) (l_nread e) (fun m => if decide (m = body) then Some (pos e) else marks e m).

Lemma take_body_run B e : 0 < content_length (parser e) < ULLONG_MAX -> marks e body = None ->
  take_body B e = (Ok tt, body_taken B e).
Proof using Type.
  intros Hn Hm. unfold take_body, member, MARK, put. rewrite !bind_get. cbv zeta. unfold assert.
  rewrite bind_CCZOE_ASSERT. destruct (Z.eqb_spec (content_length (parser e)) 0); [lia|].
  destruct (Z.eqb_spec (content_length (parser e)) ULLONG_MAX); [lia|]. cbn [negb andb]. rewrite !bind_modify, Hm.
  unfold modify, body_taken, taken. cbn [parser set_parser set_mark set_marks pos p_state l_nread marks set_pos].
  rewrite Z2Nat.id by lia. done.
Qed.

(** A state in which a body is read, up to its length. *)
Definition in_body st (ps : http_parser D) : Prop :=
  (st = s_body_identity \/ st = s_chunk_data /\ has_flag F_CHUNKED ps = true) /\
  0 < content_length ps < ULLONG_MAX /\ errno ps = HPE_OK.

(** What follows [take_body] there. *)
Definition body_rest (B : list Z) st (ch : Z) : act :=
  let! n := member content_length in
  match st with
  | s_body_identity =>
      if n =? 0 then
        do! UPDATE_STATE s_message_done in
        let! p := get pos in
        CALLBACK_DATA_ settings B body 1 p (REEXECUTE ch)
      else break
  | _ => do! (if n =? 0 then UPDATE_STATE s_chunk_data_almost_done else ret tt) in break
  end.

Lemma body_run B ch e : in_body (p_state e) (parser e) -> marks e body = None ->
  byte B ch e = (let! f := body_rest B (p_state e) ch in go_on B f) (body_taken B e).
Proof using Type.
  intros (Hs & Hn & He) Hm. rewrite byte_body by (by destruct Hs as [-> | [-> _]]).
  destruct Hs as [-> | [-> Hc]]; cbn [switch]; unfold case_body_identity, case_chunk_data, body_rest; rewrite !bind_assoc.
  - by rewrite (bind_Ok _ _ _ _ _ (take_body_run B e Hn Hm)).
  - unfold assert_chunked, member, assert. rewrite !bind_assoc, bind_get, Hc, bind_CCZOE_ASSERT.
    by rewrite bind_assoc, (bind_Ok _ _ _ _ _ (take_body_run B e Hn Hm)).
Qed.

Lemma start_body ps : in_body (state_ ps) ps -> start ps = mkExec ps 0 (state_ ps) (nread ps) (fun _ => None).
Proof using Type. intros (Hs & _). unfold start. by destruct Hs as [-> | [-> _]]. Qed.

Lemma body_one c ps : in_body (state_ ps) ps -> 1 < content_length ps ->
  execute [c] ps = (Ok 1, set_data (A body [c] (data ps)) (set_content_length (content_length ps - 1) ps)).
Proof using HA.
  intros Hps H1. pose proof (start_body ps Hps) as Hst. pose proof Hps as (Hs & Hn & He).
  assert (byte [c] c (start ps) = (Ok Break, body_taken [c] (start ps))) as Hx.
  { rewrite Hst, body_run by done. unfold body_rest, member. rewrite bind_assoc, bind_get.
    assert (content_length (parser (body_taken [c] (mkExec ps 0 (state_ ps) (nread ps) (fun _ => None)))) =? 0 = false) as ->.
    { cbn. apply Z.eqb_neq. unfold taken. cbn. lia. }
    cbn [p_state]. by destruct Hs as [-> | [-> _]]. }
  rewrite (single_run max_header_size settings A HA c ps Break _ He Hx (Some body)).
  - rewrite Hst. unfold ParserChunks.saved, body_taken, taken, blind. cbn. f_equal.
    replace (Z.of_nat (Z.to_nat (Z.min (content_length ps) (Z.of_nat 1)))) with 1 by lia. by destruct ps.
  - rewrite Hst. unfold body_taken, taken. cbn. lia.
  - by rewrite Hst.
  - intros m. rewrite Hst. unfold body_taken. cbn. by case_decide.
Qed.

Lemma body_feeds l : forall ps, in_body (state_ ps) ps -> Z.of_nat (length l) < content_length ps ->
  feeds l ps (set_data (A body l (data ps)) (set_content_length (content_length ps - Z.of_nat (length l)) ps)).
Proof using HA.
  induction l as [|c l IH]; intros ps Hps Hl; cbn [ParserChunks.feeds length] in *.
  - rewrite (col_nil _ _ HA), Z.sub_0_r. by destruct ps.
  - eexists. split_and!; [apply body_one; [done|lia]|apply Hps|].
    set (ps1 := set_data _ _). specialize (IH ps1).
    replace (set_data _ _) with (set_data (A body l (data ps1)) (set_content_length (content_length ps1 - Z.of_nat (length l)) ps1)).
    + apply IH; [|unfold ps1; cbn; lia]. destruct Hps as (? & ? & ?). unfold ps1, in_body. cbn. split_and!; done || lia.
    + unfold ps1, set_data, set_content_length. cbn. f_equal; [lia|by rewrite <- (col_app _ _ HA)].
Qed.

(** Before a byte of a body no mark is set. *)
Lemma same_body p e qs : same p e qs -> (p < len)%nat -> initial_mark (p_state e) = None -> p_state e <> s_chunk_data_almost_done ->
  qs = blind (data (parser e)) (p_state e) (l_nread e) (parser e) /\ pos e = p /\ forall m, marks e m = None.
Proof using Type.
  intros (mk & -> & Hp & Hm & Hle & [Hf|(_ & _ & [Hf|Hf])]) Hlt Hi Hs; [|done|lia].
  rewrite Hi in Hf. by destruct mk.
Qed.

Lemma message_done_ch B fuel c1 c2 e : p_state e = s_message_done ->
  reexecute max_header_size settings B fuel c1 e = reexecute max_header_size settings B fuel c2 e.
Proof using Type. intros Hs. destruct fuel; cbn [reexecute]; [done|]. by rewrite !bind_get, Hs. Qed.

(** The last byte of a body counts for nothing. *)
Lemma body_rest_ch B st c1 c2 e j : errno (parser e) = HPE_OK -> marks e body = Some j ->
  (let! f := body_rest B st c1 in go_on B f) e = (let! f := body_rest B st c2 in go_on B f) e.
Proof using HA.
  intros He Hm. unfold body_rest, member. rewrite !bind_assoc, !bind_get. destruct st; try done.
  destruct (_ =? 0); [|done]. unfold UPDATE_STATE. rewrite !bind_assoc, !bind_modify, !bind_assoc, !bind_get. unfold bind.
  rewrite !(data_run settings A HA B body 1 _ _ _ j) by done. cbn [REEXECUTE ret go_on].
  apply message_done_ch. done.
Qed.

Lemma body_rest_both M q st N c j (n : Z) : bytes !! q = Some c -> 0 <= N <= M -> st = s_body_identity \/ st = s_chunk_data ->
  (n = 0 \/ (q + 1)%nat = len) -> forall e x f e1, content_length (parser e) = n -> rel q (Some (body, j)) (Some body) st N N e x ->
  body_rest bytes st c e = (Ok f, e1) -> exists f' x', body_rest [c] st c x = (Ok f', x') /\ outc q M f e1 f' x'.
Proof using HA.
  intros Hc HN Hst Hn e x f e1 Hcl Hr Hrun.
  assert (content_length (parser x) = n) as Hcl' by (by destruct Hr as (? & ? & ? & ? & -> & _)).
  unfold body_rest, member in *. rewrite bind_get in *. rewrite Hcl in Hrun. rewrite Hcl'.
  assert (take 1 [c] = take 1 (drop q bytes)) as Htake by (by rewrite (drop_S _ _ _ Hc)).
  destruct (Z.eqb_spec n 0) as [->|Hne].
  - destruct Hst as [-> | ->]; revert Hr Hrun;
      match goal with |- _ -> ?m e = _ -> exists f' x', ?m' x = _ /\ _ =>
        enough (both (outc q M) q (Some (body, j)) (Some body) _ N N m m') as H by (intros Hr Hrun; exact (H e x f e1 Hr Hrun)) end;
      both_case.
  - destruct Hn as [|Hq]; [done|].
    assert (both (outc q M) q (Some (body, j)) (Some body) st N N break break) as H.
    { apply both_break; [lia|]. split; [done|]. right. split_and!; [done| |by right]. by destruct Hst as [-> | ->]. }
    destruct Hst as [-> | ->]; exact (H e x f e1 Hr Hrun).
Qed.

Lemma blind_length d d' s N a b ps :
  set_content_length b (set_data d (set_content_length a (blind d' s N ps))) = blind d s N (set_content_length b ps).
Proof using Type. done. Qed.

Lemma body_sim p e qs ch f e1 : same p e qs -> in_body (p_state e) (parser e) -> (p < len)%nat -> 0 <= l_nread e ->
  byte bytes ch e = (Ok f, e1) -> (f = Break -> errno (parser e1) = HPE_OK) -> result p (l_nread e - Z.of_nat p) f e1 qs.
Proof using HA.
  intros Hsame Hin Hp HN Hrun Hgood. pose proof Hin as (Hst & Hn & Hok).
  destruct (same_body p e qs Hsame Hp) as (Hqs & Hpos & Hm); [by destruct Hst as [-> | [-> _]]..|].
  set (n := content_length (parser e)) in *. set (k := taken bytes e).
  assert (k = Z.to_nat (Z.min n (Z.of_nat (len - p)))) as Hk by (unfold k, taken, n; by rewrite Hpos).
  set (l := take (k - 1) (drop p bytes)). set (q := (p + (k - 1))%nat).
  assert (length l = k - 1)%nat as Hl by (unfold l; rewrite length_take, length_drop; lia).
  assert (in_body (state_ qs) qs /\ content_length qs = n /\ state_ qs = p_state e) as (Hinq & Hnq & Hsq) by (rewrite Hqs; done).
  pose proof (body_feeds l qs Hinq ltac:(lia)) as Hfeeds.
  set (qs1 := set_data (A body l (data qs)) (set_content_length (content_length qs - Z.of_nat (length l)) qs)) in Hfeeds.
  apply (result_prefix (k - 1) p _ f e1 qs qs1); [lia|exact Hfeeds|]. change (p + (k - 1))%nat with q.
  destruct (lookup_lt_is_Some_2 bytes q ltac:(lia)) as [c Hc].
  assert (in_body (state_ qs1) qs1) as Hin1.
  { destruct Hinq as (? & ? & ?). unfold qs1, in_body. cbn. split_and!; done || lia. }
  rewrite body_run in Hrun by done.
  rewrite (body_rest_ch bytes (p_state e) ch c (body_taken bytes e) p) in Hrun by (done || (cbn; by rewrite Hpos)).
  assert (rel q (Some (body, p)) (Some body) (p_state e) (l_nread e) (l_nread e) (body_taken bytes e) (body_taken [c] (start qs1))) as Hr.
  { rewrite start_body by done. exists (A body l (data (parser e))), (p_state e), (l_nread e), (fun m => if decide (m = body) then Some O else None).
    split_and!; [|cbn; fold k; lia|done..| | |cbn; by replace (q - p)%nat with (k - 1)%nat by lia|cbn; lia].
    - unfold body_taken at 1. cbn [parser pos p_state l_nread marks].
      assert (content_length qs1 = n - Z.of_nat (k - 1)) as Hq1 by (unfold qs1; cbn; rewrite Hl; lia).
      assert (taken [c] (mkExec qs1 0 (state_ qs1) (nread qs1) (fun _ => None)) = 1%nat) as -> by (unfold taken; cbn [parser pos length]; lia).
      assert (forall b, set_content_length b qs1 = blind (A body l (data (parser e))) (p_state e) (l_nread e) (set_content_length b (parser e)))
        as Hqb by (intros b; unfold qs1; rewrite Hqs; apply blind_length).
      rewrite Hq1, Hqb. replace (n - Z.of_nat (k - 1) - Z.of_nat 1) with (n - Z.of_nat k) by lia.
      assert (state_ qs1 = p_state e /\ nread qs1 = l_nread e) as [-> ->] by (unfold qs1; by rewrite Hqs).
      done.
    - intros m. cbn. rewrite Hm, Hpos. done.
    - intros m. cbn. done. }
  eapply (result_both q); [apply Hin1|exact Hc| | |exact Hrun|done].
  - intros g e2. eapply (body_rest_both _ q (p_state e) (l_nread e) c p); try done.
    + lia.
    + destruct Hst as [|[]]; auto.
    + cbn. fold n k. lia.
  - rewrite body_run by (rewrite start_body by done; done). rewrite start_body by done. cbn [p_state]. by rewrite <- Hsq.
Qed.

(** A body up to the end of the stream. *)
Lemma eof_run B c e : p_state e = s_body_identity_eof -> marks e body = None ->
  byte B c e = (Ok Break, mkExec (parser e) (length B - 1) (p_state e) (l_nread e) (fun m => if decide (m = body) then Some (pos e) else marks e m)).
Proof using Type.
  intros Hs Hm. rewrite byte_body by (by rewrite Hs). rewrite Hs. cbn [switch]. unfold case_body_identity_eof, MARK.
  rewrite bind_assoc, bind_modify, bind_assoc, bind_modify, Hm.  unfold set_pos. cbn. by rewrite Hs.
Qed.

Lemma eof_feeds l : forall ps, state_ ps = s_body_identity_eof -> errno ps = HPE_OK -> feeds l ps (set_data (A body l (data ps)) ps).
Proof using HA.
  induction l as [|c l IH]; intros ps Hs He; cbn [ParserChunks.feeds].
  - rewrite (col_nil _ _ HA). by destruct ps.
  - exists (set_data (A body [c] (data ps)) ps). split_and!; [|done|].
    + assert (start ps = mkExec ps 0 (state_ ps) (nread ps) (fun _ => None)) as Hst by (unfold start; by rewrite Hs).
      assert (byte [c] c (start ps) = (Ok Break, mkExec ps 0 (state_ ps) (nread ps) (fun m => if decide (m = body) then Some O else None)))
        as Hx by (rewrite Hst; by rewrite eof_run).
      rewrite (single_run max_header_size settings A HA c ps Break _ He Hx (Some body) eq_refl He ltac:(done)).
      unfold ParserChunks.saved, blind. cbn. by destruct ps.
    + specialize (IH (set_data (A body [c] (data ps)) ps) Hs He). cbn [data set_data] in IH.
      replace (set_data (A body (c :: l) (data ps)) ps) with (set_data (A body l (A body [c] (data ps))) (set_data (A body [c] (data ps)) ps));
        [exact IH|]. by rewrite <- (col_app _ _ HA).
Qed.

Lemma eof_sim p e qs ch f e1 : same p e qs -> p_state e = s_body_identity_eof -> (p < len)%nat -> 0 <= l_nread e ->
  errno (parser e) = HPE_OK -> byte bytes ch e = (Ok f, e1) -> result p (l_nread e - Z.of_nat p) f e1 qs.
Proof using HA.
  intros Hsame Hs Hp HN Hok Hrun. destruct (same_body p e qs Hsame Hp) as (Hqs & Hpos & Hm); [by rewrite Hs..|].
  rewrite eof_run in Hrun by done. injection Hrun as <- <-. cbn [result pos l_nread].
  split_and!; [lia..|]. exists (set_data (A body (drop p bytes) (data qs)) qs). split.
  - rewrite take_ge by (rewrite length_drop; lia). apply eof_feeds; rewrite Hqs; done.
  - exists (Some (body, p)). cbn [parser set_pos pos p_state l_nread marks ParserSim.pend]. split_and!.
    + rewrite take_ge by (rewrite length_drop; lia). by rewrite Hqs.
    + done.
    + intros m. cbn. rewrite Hm, Hpos. done.
    + cbn. lia.
    + right. split_and!; [done|by rewrite Hs|right; lia].
Qed.

(** ** One turn of the loop *)

Lemma same_scan n st p e qs : same p e qs -> p_state e = st -> initial_mark st = Some n -> exists j, (j <= p)%nat /\
  pos e = p /\ (forall m, marks e m = mark_fn (Some (n, j)) m) /\
  qs = blind (pend (Some (n, j)) p (data (parser e))) (p_state e) (l_nread e) (parser e).
Proof using Type.
  intros (mk & Hqs & Hp & Hm & Hle & Hf) Hs Hi. destruct Hf as [Hf|(_ & Hf & _)]; [|congruence].
  rewrite Hs, Hi in Hf. destruct mk as [[n' j]|]; [|done]. injection Hf as <-. exists j. by split_and!.
Qed.

Lemma step_sim p e qs c f e1 : Z.of_nat len <= max_header_size -> same p e qs -> inv 0 e -> (p < len)%nat -> bytes !! p = Some c -> 0 <= l_nread e ->
  l_nread e + Z.of_nat (len - p) <= max_header_size -> byte bytes c e = (Ok f, e1) -> (f = Break -> errno (parser e1) = HPE_OK) ->
  (forall c', f <> Reexecute c') -> result p (l_nread e - Z.of_nat p) f e1 qs.
Proof using HA Hmax.
  intros Hlen Hsame (Hok & Hcl & Hst & _) Hp Hc HN Hroom Hrun Hgood Hre.
  assert (errno qs = HPE_OK) as Hq by (by destruct Hsame as (? & -> & _)).
  destruct (multi (p_state e)) eqn:Hmulti.
  - destruct (p_state e) eqn:Hs; try discriminate Hmulti.
    + destruct (same_scan header_field _ p e qs Hsame Hs eq_refl) as (j & Hj & Hpos & Hm & Hqs).
      rewrite byte_header, Hs in Hrun by (rewrite ?Hs; done || lia). cbn [switch] in Hrun. unfold bind at 1 in Hrun.
      rewrite case_header_field_plain in Hrun by (cbn; lia). fold (bind (case_header_field_ref max_header_size settings bytes c) (go_on bytes) (counted e)) in Hrun.
      unfold case_header_field_ref in Hrun. rewrite bind_assoc, bind_get, bind_assoc in Hrun. cbn [pos counted set_l_nread] in Hrun. rewrite Hpos in Hrun.
      eapply (field_sim p j (l_nread e) HN Hroom Hj (drop p bytes) p c (counted e)); [done| |lia|exact Hrun|done].
      unfold field_at. cbn [parser set_l_nread counted pos p_state l_nread marks]. split_and!; try done; try lia.
      rewrite Hqs, Hs. f_equal. lia.
    + destruct (same_scan header_value _ p e qs Hsame Hs eq_refl) as (j & Hj & Hpos & Hm & Hqs).
      rewrite byte_header, Hs in Hrun by (rewrite ?Hs; done || lia). cbn [switch] in Hrun. unfold bind at 1 in Hrun.
      rewrite case_header_value_plain in Hrun by (cbn; lia). fold (bind (case_header_value_ref max_header_size settings bytes c) (go_on bytes) (counted e)) in Hrun.
      unfold case_header_value_ref, member in Hrun. rewrite bind_assoc, bind_get, bind_assoc, bind_get, bind_assoc in Hrun.
      cbn [pos counted set_l_nread parser] in Hrun. rewrite Hpos in Hrun.
      eapply (value_sim p j (l_nread e) HN Hroom Hj (drop p bytes) p _ (counted e)); [done| |lia|exact Hrun|done].
      unfold value_at. cbn [parser set_l_nread counted pos p_state l_nread marks]. split_and!; try done; try lia.
      rewrite Hqs, Hs, Nat.sub_diag, Z.add_0_r. by destruct (parser e).
    + destruct Hst as [Hch Hst]. eapply body_sim; try done. rewrite Hs. unfold in_body, ULLONG_MAX.
      split_and!; [by right|lia..|done].
    + cbn in Hst. eapply body_sim; try done. rewrite Hs. unfold in_body. split_and!; [by left|lia..|done].
    + by eapply eof_sim.
  - destruct (same_rel A bytes p e qs Hsame Hp Hmulti) as (mk & mo & Hr & Hstarts).
    destruct (one_byte_both max_header_size settings A HA bytes c c p mk mo _ _ HN Hstarts e _ f e1 Hr Hrun) as (f' & x & Hx & Ho).
    eapply result_one; try done. by replace (l_nread e - Z.of_nat p + Z.of_nat (p + 1)) with (l_nread e + 1) by lia.
Qed.

(** ** The loop *)

Definition loop_result p (M : Z) (f : flow) e qs : Prop :=
  match f with
  | Break => pos e = len /\ 0 <= l_nread e <= M + Z.of_nat len /\ exists qs1, feeds (drop p bytes) qs qs1 /\ same len e qs1
  | f => result p M f e qs
  end.

Lemma inv_advance e : inv 0 e -> inv 0 (set_pos (pos e + 1) e).
Proof using Type.
  intros (He & Hc & Hst & Hmk). unfold inv. cbn. split_and!; try done; try lia. intros m k Hm. destruct (Hmk m k Hm). split; [done|lia].
Qed.

Lemma result_mono p M M' f e qs : M <= M' -> result p M f e qs -> result p M' f e qs.
Proof using Type.
  intros HM. destruct f as [| | |v]; [|done..|].
  - intros (? & ? & ?). split_and!; done || lia.
  - intros (? & H & ?). split_and!; [done| |done]. intros Hok. destruct (H Hok). split_and!; done || lia.
Qed.

Lemma loop_sim M fuel : forall e qs f e1, Z.of_nat len <= max_header_size -> same (pos e) e qs -> inv 0 e -> (pos e <= len)%nat ->
  0 <= l_nread e <= M + Z.of_nat (pos e) -> M + Z.of_nat len <= max_header_size ->
  main_loop max_header_size settings bytes fuel e = (Ok f, e1) -> loop_result (pos e) M f e1 qs.
Proof using HA Hmax.
  induction fuel as [|fuel IH]; intros e qs f e1 Hlen Hsame Hinv Hp HN HM Hrun; cbn [main_loop] in Hrun; rewrite bind_get in Hrun;
    destruct (Nat.eqb_spec (pos e) len) as [Heq|Hne]; try done.
  1,2: injection Hrun as <- <-; cbn [loop_result]; rewrite Heq in *; split_and!; [done|lia..|]; exists qs; by rewrite drop_all.
  destruct (lookup_lt_is_Some_2 bytes (pos e) ltac:(lia)) as [c Hc].
  rewrite (bind_Ok _ _ _ _ _ (char_at_run _ _ _ _ Hc)) in Hrun. apply bind_Ok_inv in Hrun as (g & e2 & Hbyte & Hrun).
  destruct (one_byte_ok max_header_size settings bytes (collects_ok _ _ bytes HA) c e Hinv ltac:(lia)) as (g' & e2' & Hbyte' & Hpost).
  rewrite Hbyte in Hbyte'. injection Hbyte' as <- <-.
  assert (result (pos e) M g e2 qs) as Hres.
  { apply (result_mono (pos e) (l_nread e - Z.of_nat (pos e))); [lia|].
    apply (step_sim (pos e) e qs c g e2); try done; try lia; [intros ->; apply Hpost|intros c' ->; destruct Hpost; lia]. }
  destruct g as [|c'| |v]; cbn [post] in Hpost; [|lia|by injection Hrun as <- <-..].
  destruct Hres as (Hle & HN2 & qs1 & Hf1 & Hs1). destruct Hpost as [Hinv2 Hp2]. rewrite bind_modify in Hrun.
  specialize (IH (set_pos (pos e2 + 1) e2) qs1 f e1 Hlen Hs1 (inv_advance e2 Hinv2)). cbn [pos set_pos l_nread] in IH.
  specialize (IH ltac:(lia) HN2 HM Hrun).
  assert (drop (pos e) bytes = take (pos e2 + 1 - pos e) (drop (pos e) bytes) ++ drop (pos e2 + 1) bytes) as Hd.
  { rewrite <- (take_drop (pos e2 + 1 - pos e) (drop (pos e) bytes)) at 1. rewrite drop_drop. do 2 f_equal. lia. }
  assert (forall f, f <> Break -> result (pos e2 + 1) M f e1 qs1 -> result (pos e) M f e1 qs) as Hnext.
  { intros f' Hf' Hr. apply (result_prefix (pos e2 + 1 - pos e) (pos e) M f' e1 qs qs1); [lia|done|].
    by replace (pos e + (pos e2 + 1 - pos e))%nat with (pos e2 + 1)%nat by lia. }
  destruct f; cbn [loop_result] in *; try by apply Hnext.
  destruct IH as (? & ? & qs2 & Hf2 & Hs2). split_and!; [done|lia..|]. exists qs2. split; [|done]. rewrite Hd. by eapply feeds_app.
Qed.

(** ** A call *)

Lemma start_same ps : same 0 (start ps) ps.
Proof using HA.
  destruct (start_eq ps) as (H1 & H2 & H3 & H4 & H5). exists ((fun m => (m, O)) <$> initial_mark (state_ ps)).
  rewrite H1, H3, H4. split_and!; try done.
  - replace (ParserSim.pend A bytes _ 0 (data ps)) with (data ps); [by destruct ps|].
    destruct (initial_mark (state_ ps)) as [n|]; [|done]. cbn. by rewrite (col_nil _ _ HA).
  - destruct (initial_mark (state_ ps)); [cbn; lia|done].
  - left. by destruct (initial_mark (state_ ps)).
Qed.

Lemma start_inv ps : parser_ok ps -> errno ps = HPE_OK -> inv 0 (start ps).
Proof using Type.
  intros Hok He. destruct (Hok He) as [Hc Hst]. destruct (start_eq ps) as (H1 & H2 & H3 & H4 & H5).
  unfold inv. rewrite H1, H2, H3, H4. split_and!; try done; try lia. intros n i. rewrite H5. intros Hm.
  pose proof (mark_fn_single _ _ _ Hm) as ->. split; [|lia]. apply initial_mark_owner.
  destruct (initial_mark (state_ ps)) as [n'|]; cbn in Hm; [|done]. by case_decide; subst.
Qed.

(** The calls on the single bytes do what one call on all of them does. *)
Lemma call_feeds ps n ps1 : parser_ok ps -> errno ps = HPE_OK -> bytes <> [] -> 0 <= nread ps ->
  nread ps + Z.of_nat len <= max_header_size -> execute bytes ps = (Ok n, ps1) -> (errno ps1 = HPE_OK -> n = Z.of_nat len) ->
  if decide (errno ps1 = HPE_OK) then feeds bytes ps ps1 /\ 0 <= nread ps1 <= nread ps + Z.of_nat len
  else exists ps2, feed bytes ps = (Ok n, ps2) /\ errno ps2 = errno ps1.
Proof using HA Hmax.
  intros Hps He Hne HN Hroom Hrun Hall. destruct (start_eq ps) as (H1 & H2 & H3 & H4 & H5).
  destruct (main_loop_ok max_header_size settings bytes (collects_ok _ _ bytes HA) len (start ps) (start_inv ps Hps He))
    as (f & e & Hloop & Hpost); [lia..|].
  pose proof (loop_sim (nread ps) len (start ps) ps f e ltac:(lia)) as Hsim. rewrite H2, H4 in Hsim.
  specialize (Hsim (start_same ps) (start_inv ps Hps He) ltac:(lia) ltac:(lia) ltac:(lia) Hloop).
  pose proof (execute_start max_header_size settings bytes ps) as Hex. unfold rest in Hex.
  destruct f as [|c| |v]; cbn [loop_result loop_post] in *; [|done|..].
  - destruct Hsim as (Hp & HN' & qs1 & Hf & mk & -> & _ & Hm & _). destruct Hpost as [(Hok & _) _].
    destruct (leftovers_run settings A HA bytes mk e Hok Hm) as (e' & Hl & Hs).
    specialize (Hex (Return len) e' He Hne). rewrite (bind_Ok _ _ _ _ _ Hloop) in Hex. specialize (Hex Hl).
    rewrite Hex in Hrun. injection Hrun as <- <-.
    assert (parser e' = blind (pend mk len (data (parser e))) (p_state e) (l_nread e) (parser e)) as ->.
    { rewrite Hs. unfold ParserChunks.saved. rewrite Hp. by destruct mk as [[]|]. }
    rewrite decide_True by done. by rewrite drop_0 in Hf.
  - destruct Hsim as (Hok & _ & qs1 & Hf & Hs). rewrite (bind_Ok _ _ _ _ _ Hloop) in Hex. unfold at_error, member in Hex.
    rewrite bind_get, decide_False in Hex by done. specialize (Hex _ _ He Hne eq_refl). rewrite Hex in Hrun. injection Hrun as <- <-.
    rewrite decide_False by done. rewrite Nat.sub_0_r, drop_0 in Hf. eauto.
  - destruct Hsim as (_ & Hv1 & Hv2). rewrite (bind_Ok _ _ _ _ _ Hloop) in Hex. specialize (Hex _ _ He Hne eq_refl).
    rewrite Hex in Hrun. injection Hrun as <- <-. rewrite Nat.sub_0_r, drop_0 in *. case_decide as Hd; [|eauto].
    destruct (Hv1 Hd) as [Hf Hn]. specialize (Hall Hd). replace v with len in * by lia. by rewrite take_ge in Hf.
Qed.
End pieces.

(** ** Any pieces *)

Section chunks.
Context {D : Type}.
Variable max_header_size : Z.
Variable settings : http_parser_settings D.
Variable A : data_cb -> list Z -> D -> D.
Hypothesis HA : collects settings A.
Hypothesis Hmax : max_header_size < 2 ^ 32.

Lemma chunks_feed ls : forall ps n ps1, Forall (fun l => l <> []) ls -> parser_ok ps -> errno ps = HPE_OK -> 0 <= nread ps ->
  nread ps + Z.of_nat (length (concat ls)) <= max_header_size ->
  feed_chunks max_header_size settings ls ps = (Ok n, ps1) -> (errno ps1 = HPE_OK -> n = Z.of_nat (length (concat ls))) ->
  exists ps2, feed max_header_size settings (concat ls) ps = (Ok n, ps2) /\ errno ps2 = errno ps1 /\ (errno ps1 = HPE_OK -> ps2 = ps1).
Proof using HA Hmax.
  induction ls as [|l ls IH]; intros ps n ps1 Hne Hps He HN Hroom Hrun Hall; [injection Hrun as <- <-; by exists ps|].
  apply Forall_cons_1 in Hne as [Hl Hne]. cbn [feed_chunks concat] in *. rewrite length_app in *.
  destruct (http_parser_execute_ok max_header_size settings l (collects_ok _ _ l HA) ps Hps) as (n1 & qs & Hx & Hn1 & Hqs & _);
    [by destruct l|done|].
  rewrite (bind_Ok _ _ _ _ _ Hx), bind_get in Hrun.
  assert (errno qs = HPE_OK -> Z.of_nat n1 = Z.of_nat (length l)) as Hfull.
  { intros Hok. destruct (Z.eqb_spec (Z.of_nat n1) (Z.of_nat (length l))) as [|Hd]; [done|].
    cbn [andb] in Hrun. injection Hrun as <- <-. specialize (Hall Hok). lia. }
  pose proof (call_feeds max_header_size settings A HA l Hmax ps _ qs Hps He Hl HN ltac:(lia) Hx Hfull) as Hcall.
  destruct (decide (errno qs = HPE_OK)) as [Hok|Hbad].
  - destruct Hcall as [Hf HN']. rewrite (Hfull Hok), Z.eqb_refl, bool_decide_true in Hrun by done. cbn [andb] in Hrun.
    apply bind_Ok_inv in Hrun as (m & ps1' & Hrun & [= <- <-]).
    destruct (IH qs m ps1' Hne Hqs Hok ltac:(lia) ltac:(lia) Hrun) as (ps2 & H1 & H2 & H3); [intros Hok'; specialize (Hall Hok'); lia|].
    exists ps2. split; [|done]. rewrite (feeds_feed _ _ _ _ _ _ Hf). by rewrite (bind_Ok _ _ _ _ _ H1).
  - destruct Hcall as (ps2 & Hf & Hs). rewrite bool_decide_false, andb_false_r in Hrun by done. injection Hrun as <- <-.
    exists ps2. split_and!; [|done|done]. apply feed_error; [done..|congruence].
Qed.

Lemma chunks_total ls : forall ps, Forall (fun l => l <> []) ls -> parser_ok ps -> errno ps = HPE_OK ->
  exists n ps1, feed_chunks max_header_size settings ls ps = (Ok n, ps1).
Proof using HA.
  induction ls as [|l ls IH]; intros ps Hne Hps He; [by eexists _, _|]. apply Forall_cons_1 in Hne as [Hl Hne]. cbn [feed_chunks].
  destruct (http_parser_execute_ok max_header_size settings l (collects_ok _ _ l HA) ps Hps) as (n1 & qs & Hx & _ & Hqs & _);
    [by destruct l|done|].
  rewrite (bind_Ok _ _ _ _ _ Hx), bind_get. destruct (_ =? _); [|by eexists _, _]. cbn [andb].
  case_bool_decide as Hok; [|by eexists _, _]. destruct (IH qs Hne Hqs Hok) as (n & ps1 & Hrun).
  rewrite (bind_Ok _ _ _ _ _ Hrun). by eexists _, _.
Qed.
End chunks.

(** All the bytes were consumed, or there was an error; otherwise the parser has
    stopped before bytes that are not HTTP. *)
Definition complete {D} (l : list Z) (n : Z) (ps : http_parser D) : Prop := errno ps = HPE_OK -> n = Z.of_nat (length l).

(** C2: (equivalence) How a message is cut into the buffers that are given to
    [http_parser_execute] does not matter: with callbacks that append what they are
    told, the calls on any two lists of pieces with the same bytes return; if
    neither stops before bytes of another protocol, they consume the same number of
    bytes with the same error, and without an error they leave the same parser and
    the same object of the user.  The header bytes counted and the bytes given are to
    be within the limit for headers. *)
Theorem chunks_do_not_matter {D} max (settings : http_parser_settings D) A ls1 ls2 (ps : http_parser D) :
  collects settings A -> parser_ok ps -> errno ps = HPE_OK -> 0 <= nread ps ->
  nread ps + Z.of_nat (length (concat ls1)) <= max -> max < 2 ^ 32 -> concat ls1 = concat ls2 ->
  Forall (fun l => l <> []) ls1 -> Forall (fun l => l <> []) ls2 ->
  exists n1 ps1 n2 ps2,
    feed_chunks max settings ls1 ps = (Ok n1, ps1) /\ feed_chunks max settings ls2 ps = (Ok n2, ps2) /\
    (complete (concat ls1) n1 ps1 -> complete (concat ls1) n2 ps2 ->
     n1 = n2 /\ errno ps1 = errno ps2 /\ (errno ps1 = HPE_OK -> ps1 = ps2)).
Proof.
  intros HA Hps He HN Hroom Hmax Heq Hne1 Hne2.
  destruct (chunks_total max settings A HA ls1 ps Hne1 Hps He) as (n1 & ps1 & H1).
  destruct (chunks_total max settings A HA ls2 ps Hne2 Hps He) as (n2 & ps2 & H2).
  exists n1, ps1, n2, ps2. split_and!; [done..|]. intros Hc1 Hc2.
  destruct (chunks_feed max settings A HA Hmax ls1 ps n1 ps1 Hne1 Hps He HN Hroom H1 Hc1) as (qs1 & Hf1 & He1 & Hq1).
  rewrite Heq in *.
  destruct (chunks_feed max settings A HA Hmax ls2 ps n2 ps2 Hne2 Hps He HN Hroom H2 Hc2) as (qs2 & Hf2 & He2 & Hq2).
  rewrite Hf1 in Hf2. injection Hf2 as <- <-. split_and!; [done|congruence|]. intros Hok.
  rewrite <- Hq1 by done. apply Hq2. congruence.
Qed.

(** Callbacks that append what they are told to a list. *)
Definition note (n : data_cb) (l : list Z) : comp (http_parser (list (data_cb * Z))) Z :=
  do! modify (fun ps => set_data (data ps ++ map (pair n) l) ps) in ret 0.

Definition noting : http_parser_settings (list (data_cb * Z)) :=
  mkSettings None (Some (note url)) (Some (note status)) (Some (note header_field)) (Some (note header_value)) None
    (Some (note body)) None None None.

Lemma noting_collects : collects noting (fun n l d => d ++ map (pair n) l).
Proof.
  split.
  - intros [] f l ps [= <-]; reflexivity.
  - by intros [].
  - intros n d. apply app_nil_r.
  - intros n l1 l2 d. by rewrite map_app, app_assoc.
  - by intros [].
  - done.
Qed.

(** A request in three pieces, and in two. *)
Lemma chunks_do_not_matter_witness :
  let run ls := feed_chunks 81920 noting ls (http_parser_init HTTP_REQUEST []) in
  run [[71; 69]; [84; 32; 47; 97; 32; 72; 84; 84; 80; 47; 49; 46; 49; 13]; [10; 72; 58; 32; 98; 13; 10; 13; 10]] =
  run [[71; 69; 84; 32; 47; 97; 32; 72; 84; 84; 80; 47; 49; 46; 49; 13; 10; 72; 58; 32]; [98; 13; 10; 13; 10]].
Proof.
  set (ls1 := [[71; 69]; [84; 32; 47; 97; 32; 72; 84; 84; 80; 47; 49; 46; 49; 13]; [10; 72; 58; 32; 98; 13; 10; 13; 10]]).
  set (ls2 := [[71; 69; 84; 32; 47; 97; 32; 72; 84; 84; 80; 47; 49; 46; 49; 13; 10; 72; 58; 32]; [98; 13; 10; 13; 10]]).
  intros run. change (run ls1 = run ls2).
  assert (nread (http_parser_init HTTP_REQUEST (@nil (data_cb * Z))) + Z.of_nat (length (concat ls1)) <= 81920) as Hroom by (unfold ls1; cbn; lia).
  assert (Forall (fun l => l <> []) ls1 /\ Forall (fun l => l <> []) ls2) as [Hn1 Hn2].
  { unfold ls1, ls2. split; repeat (apply Forall_cons_2; [done|]); by apply Forall_nil_2. }
  pose proof (chunks_do_not_matter 81920 noting _ ls1 ls2 _ noting_collects (init_ok HTTP_REQUEST []) eq_refl (Z.le_refl 0) Hroom
    ltac:(lia) eq_refl Hn1 Hn2) as (n1 & ps1 & n2 & ps2 & H1 & H2 & H).
  assert (fst (run ls1) = Ok 25 /\ errno (snd (run ls1)) = HPE_OK) as [E1 E2] by (split; vm_compute; reflexivity).
  assert (fst (run ls2) = Ok 25) as E3 by (vm_compute; reflexivity).
  change (run ls1 = (Ok n1, ps1)) in H1. change (run ls2 = (Ok n2, ps2)) in H2. rewrite H1, H2 in *. cbn [fst snd] in *.
  injection E1 as ->. injection E3 as ->. destruct H as (_ & _ & Hps); [intros _; reflexivity..|]. by rewrite (Hps E2).
Defined.
