(* ===== verification/ParserUrlTheorems.v ===== *)
(** * ParserUrlTheorems: the fields of a URL

    [http_parser_parse_url] returns on any text, the fields it reports lie inside
    of the text, and the parts of a text made of a path, a query and a fragment
    are found where they are. *)

From stdpp Require Import base list numbers.
From S2P Require Import Prelude Words ParserTables ParserUrl ParserState ParserExec ParserSafety.

Local Open Scope Z_scope.

(** ** Fields lie inside of the text *)

Implicit Types u : http_parser_url.

Definition fits (n : nat) (r : Z * Z) : Prop := 0 <= fst r /\ 0 <= snd r /\ fst r + snd r <= Z.of_nat n.

Lemma fits_le n m r : fits n r -> (n <= m)%nat -> fits m r.
Proof. intros (? & ? & ?) ?. unfold fits. lia. Qed.

(** [bound f] is the part of the text that the field [f] may be in. *)
Definition within (bound : http_parser_url_fields -> nat) u : Prop := forall f, fits (bound f) (field_data u f).

Definition url_fits (n : nat) u : Prop := within (fun _ => n) u.

Lemma within_le b b' u : within b u -> (forall f, (b f <= b' f)%nat) -> within b' u.
Proof. intros H Hle f. by eapply fits_le. Qed.

Lemma wrap16_id z : 0 <= z <= 65535 -> wrap 16 z = z.
Proof. intros H. unfold wrap. apply Z.mod_small. change (2 ^ 16) with 65536. lia. Qed.

Lemma set_field_within b f r u : within b u -> fits (b f) r -> within b (set_field f r u).
Proof. intros Hu Hr g. unfold set_field. cbn. by destruct (decide (g = f)) as [->|]. Qed.

(** One more character of a field, the character at [i]. *)
Lemma inc_len_within b i f u : within b u -> fits i (field_data u f) -> (S i <= b f)%nat -> Z.of_nat i < 65535 ->
  within b (inc_len f u).
Proof.
  intros H (Ho & Hl & Hs) Hb Hi. apply set_field_within; [done|]. unfold fits. cbn [fst snd].
  rewrite wrap16_id by lia. lia.
Qed.

(** A field that starts with the character at [i]. *)
Lemma put_off_within b i f u : within b u -> (i <= b f)%nat -> Z.of_nat i < 65535 -> snd (field_data u f) = 0 ->
  within b (put_off f i u).
Proof.
  intros H Hb Hi Hl. apply set_field_within; [done|]. unfold fits. cbn [fst snd].
  rewrite Hl, wrap16_id by lia. lia.
Qed.

Lemma start_within b i f k u : within b u -> (i + k <= b f)%nat -> Z.of_nat (i + k) <= 65535 ->
  within b (put_len f (Z.of_nat k) (put_off f i u)).
Proof.
  intros H Hb Hi g. unfold put_len, put_off, set_field. cbn. destruct (decide (g = f)) as [->|]; [|apply H].
  rewrite decide_True by done. unfold fits. cbn [fst snd]. rewrite wrap16_id by lia. lia.
Qed.

Lemma start_field i f v u g : g <> f -> field_data (put_len f v (put_off f i u)) g = field_data u g.
Proof. intros. unfold put_len, put_off, set_field. cbn. by rewrite !decide_False. Qed.

Lemma start_field_eq i f v u : field_data (put_len f v (put_off f i u)) f = (wrap 16 (Z.of_nat i), v).
Proof. unfold put_len, put_off, set_field. cbn. by rewrite !decide_True. Qed.

Lemma inc_len_other f u g : g <> f -> field_data (inc_len f u) g = field_data u g.
Proof. intros. unfold inc_len, put_len, set_field. cbn. by rewrite decide_False. Qed.

(** ** The host *)

(** The host has no characters yet in these states. *)
Definition before_host (s : http_host_state) : bool :=
  match s with
  | s_http_userinfo_start | s_http_userinfo | s_http_host_start | s_http_host_v6_start => true
  | _ => false
  end.

(** While the characters of the host are read, its fields end at [i]. *)
Definition host_bound (i n : nat) (f : http_parser_url_fields) : nat :=
  match f with UF_HOST | UF_PORT | UF_USERINFO => i | _ => n end.

Definition host_inv (i n : nat) (s : http_host_state) u : Prop :=
  within (host_bound i n) u /\ (before_host s = true -> snd (field_data u UF_HOST) = 0).

(** What enters and leaves the states that count characters of the host. *)
Lemma host_char_from s ch : let s' := http_parse_host_char s ch in
  s' <> s_http_host_dead ->
  (s' <> s -> s' = s_http_host \/ s' = s_http_host_v6 -> before_host s = true) /\
  (before_host s' = true -> before_host s = true).
Proof.
  cbn. destruct s; cbn; repeat case_match; split; intros; try done;
    destruct_or?; congruence.
Qed.

(** The character at [i] of a field that goes on, or that starts with it. *)
Lemma host_more i n f u : host_bound i n f = i -> Z.of_nat i < 65535 -> (i < n)%nat -> within (host_bound i n) u ->
  within (host_bound (S i) n) (inc_len f u).
Proof.
  intros Hf Hi Hn Hu. pose proof (Hu f) as Huf. rewrite Hf in Huf.
  apply (inc_len_within _ i); [|done|destruct f; cbn in *; lia|done].
  eapply within_le; [done|]. intros []; cbn; lia.
Qed.

Lemma host_start i n f u : host_bound i n f = i -> Z.of_nat i < 65535 -> (i < n)%nat -> within (host_bound i n) u ->
  within (host_bound (S i) n) (inc_len f (mark_set f (put_len f 0 (put_off f i u)))).
Proof.
  intros Hf Hi Hn Hu. apply host_more; try done. change (within (host_bound i n) (put_len f (Z.of_nat 0) (put_off f i u))).
  apply start_within; [done|rewrite Hf; lia|lia].
Qed.

Lemma host_field_ok s ch i n u : let s' := http_parse_host_char s ch in
  s' <> s_http_host_dead -> Z.of_nat i < 65535 -> (i < n)%nat -> host_inv i n s u -> host_inv (S i) n s' (host_field s s' i u).
Proof.
  intros s' Hs' Hi Hn [Hu Hh]. destruct (host_char_from s ch Hs') as [Hfrom Hto]. fold s' in Hfrom, Hto.
  assert (forall f, f <> UF_HOST -> before_host s' = true -> snd (field_data (inc_len f u) UF_HOST) = 0) as Hmore.
  { intros f Hf Hb. rewrite inc_len_other by done. auto. }
  assert (s' <> s -> s' = s_http_host \/ s' = s_http_host_v6 -> within (host_bound (S i) n) (inc_len UF_HOST (put_off UF_HOST i u)))
    as Hhost.
  { intros ? ?. apply host_more; try done. apply put_off_within; [done|done|done|]. apply Hh. auto. }
  unfold host_inv. destruct s' eqn:E; cbn [host_field]; try done.
  all: try (split; [eapply within_le; [done|]; intros []; cbn; lia|intros ?; auto]; fail).
  all: try (split; [by apply host_more|done]; fail).
  all: destruct (decide _) as [Hd|Hd].
  all: try (split; [by apply host_more|cbn [before_host]; first [done|by apply Hmore]]; fail).
  all: try (split; [by apply host_start|intros Hb; try done; rewrite inc_len_other by done; cbn [mark_set set_field_set field_data];
    rewrite start_field by done; auto]; fail).
  all: split; [apply Hhost; auto; congruence|done].
Qed.

Lemma host_loop_ok n buf : forall i s u, Z.of_nat (i + length buf) <= 65535 -> (i + length buf <= n)%nat -> host_inv i n s u ->
  wp (host_loop buf i s) (fun _ u' => url_fits n u') u.
Proof.
  induction buf as [|ch buf IH]; intros i s u Hi Hn Hinv; cbn [host_loop length] in *.
  - apply wp_ret. destruct Hinv as [Hu _]. eapply within_le; [done|]. intros []; cbn; lia.
  - cbv zeta. destruct (decide _) as [|Hs'].
    { apply wp_ret. destruct Hinv as [Hu _]. eapply within_le; [done|]. intros []; cbn; lia. }
    apply wp_bind, wp_modify, IH; [lia..|]. apply host_field_ok; [done|lia|lia|done].
Qed.

(** The fields of the host have been marked by no one else. *)
Definition no_host_parts u : Prop := field_data u UF_PORT = (0, 0) /\ field_data u UF_USERINFO = (0, 0).

Lemma http_parse_host_ok buf fa u : Z.of_nat (length buf) <= 65535 -> url_fits (length buf) u -> no_host_parts u ->
  is_set UF_HOST u = true -> wp (http_parse_host buf fa) (fun _ u' => url_fits (length buf) u') u.
Proof.
  intros Hb Hu [Hp Hi] Hset. unfold http_parse_host. apply wp_bind, wp_get.
  destruct (field_data u UF_HOST) as [off l] eqn:Hf. apply wp_bind, wp_get, wp_bind, wp_assert; [done|].
  apply wp_bind, wp_modify. destruct (Hu UF_HOST) as (Ho & Hl & Hol). rewrite Hf in Ho, Hl, Hol. cbn in Ho, Hl, Hol.
  destruct (Z.ltb_spec (Z.of_nat (length buf)) (off + l)); [lia|]. apply wp_bind.
  assert (Z.to_nat off + length (take (Z.to_nat l) (drop (Z.to_nat off) buf)) <= length buf)%nat as Hlen
    by (rewrite length_take, length_drop; lia).
  eapply wp_mono; [apply (host_loop_ok (length buf)); [lia|lia|]|].
  - split; [|intros _; cbn; by rewrite decide_True].
    intros f. cbn. destruct (decide (f = UF_HOST)) as [->|Hne]; [rewrite Hf; unfold fits; cbn; lia|].
    destruct f; cbn [host_bound]; try apply Hu; [congruence| |]; rewrite ?Hp, ?Hi; unfold fits; cbn; lia.
  - intros [s|] u' Hu'; cbv beta; repeat case_match; by apply wp_ret.
Qed.

(** ** The URL *)

Lemma url_part_expected s ch : url_part_of (parse_url_char s ch) <> UnexpectedState.
Proof. destruct s; unfold parse_url_char, url_server_char; repeat case_match; done. Qed.

Lemma url_part_field s f : url_part_of s = Part f -> f <> UF_PORT /\ f <> UF_USERINFO.
Proof. destruct s; cbn; intros [= <-]; done. Qed.

Lemma url_loop_ok buf : forall i s f fa u, Z.of_nat (i + length buf) <= 65535 -> url_fits i u -> no_host_parts u ->
  wp (url_loop buf i s f fa) (fun _ u' => url_fits (i + length buf) u' /\ no_host_parts u') u.
Proof.
  induction buf as [|ch buf IH]; intros i s f fa u Hi Hu Hn; cbn [url_loop length] in *.
  { apply wp_ret. by rewrite Nat.add_0_r. }
  assert (url_fits (S i) u) as Hu' by (eapply within_le; [done|]; intros; lia).
  replace (i + S (length buf))%nat with (S i + length buf)%nat in * by lia. cbv zeta.
  pose proof (url_part_expected s ch) as Hex. destruct (url_part_of _) as [|uf| |] eqn:Huf; [by apply IH| | |done].
  - destruct (url_part_field _ _ Huf) as [Hp Hi']. destruct Hn as [Hn1 Hn2]. destruct (decide _).
    + apply wp_bind, wp_modify, IH; [done| |split; by rewrite inc_len_other].
      by apply (inc_len_within (fun _ => S i) i); [|apply Hu|lia..].
    + apply wp_bind, wp_modify, IH; [done| |].
      * by apply (start_within (fun _ => S i) i uf 1); [|lia..].
      * split; cbn [mark_set set_field_set field_data]; by rewrite start_field.
  - apply wp_ret. split; [|done]. eapply within_le; [exact Hu|]. cbn. lia.
Qed.

(** [http_parser_parse_url] returns on every text of at most 65535
    characters, without a failed assertion and without a read outside of the text,
    and every field it leaves in the result lies inside of the text. *)
Lemma parse_url_fits (buf : list Z) (is_connect : bool) :
  Z.of_nat (length buf) <= 65535 ->
  exists r u, http_parser_parse_url buf is_connect http_parser_url_init = (Ok r, u) /\ url_fits (length buf) u.
Proof.
  intros Hlen. change (wp (http_parser_parse_url buf is_connect) (fun _ u => url_fits (length buf) u) http_parser_url_init).
  unfold http_parser_parse_url. destruct (_ =? 0)%nat; [apply wp_ret; intros f; unfold fits; cbn; lia|].
  apply wp_bind, wp_modify, wp_bind. eapply wp_mono; [apply url_loop_ok; [done|intros f; unfold fits; cbn; lia|done]|].
  intros [fa|] u [Hu Hn]; cbn [Nat.add] in Hu; [|by apply wp_ret].
  apply wp_bind, wp_get, wp_bind, wp_get. destruct (_ && _); [by apply wp_ret|].
  apply wp_bind. apply (wp_mono _ (fun _ u' => url_fits (length buf) u')).
  { destruct (is_set UF_HOST u) eqn:Hh; [by apply http_parse_host_ok|by apply wp_ret]. }
  intros rt u' Hu'. destruct (negb _); [by apply wp_ret|]. apply wp_bind, wp_get. destruct (_ && _); [by apply wp_ret|].
  apply wp_bind, wp_get. destruct (is_set UF_PORT u'); [|by apply wp_ret]. apply wp_bind, wp_get.
  destruct (Hu' UF_PORT) as (Ho & Hl & Hs). destruct (field_data u' UF_PORT) as [off l]. cbn in Ho, Hl, Hs.
  apply wp_bind, wp_assert; [by apply Z.leb_le|]. destruct (port_loop _ _); [apply wp_bind, wp_modify, wp_ret|apply wp_ret]; done.
Qed.

(** ** The parts of a request target *)

(** The text of a field. *)
Definition slice (buf : list Z) (r : Z * Z) : list Z := take (Z.to_nat (snd r)) (drop (Z.to_nat (fst r)) buf).

(** A field that the loop has just read, and nothing else. *)
Definition grown f (i n : nat) u u' : Prop :=
  field_set u' = Z.lor (field_set u) (Z.shiftl 1 (Z.of_nat (uf_num f))) /\ port u' = port u /\
  forall g, field_data u' g = if decide (g = f) then (Z.of_nat i, Z.of_nat n) else field_data u g.

Lemma wrap16_nat n : Z.of_nat n <= 65535 -> wrap 16 (Z.of_nat n) = Z.of_nat n.
Proof. intros. apply wrap16_id. lia. Qed.

Lemma url_loop_more l rest s f u0 i0 fa : url_part_of s = Part f -> s <> s_req_server_with_at ->
  Forall (fun c => parse_url_char s c = s) l -> forall n u, Z.of_nat (i0 + n + length l) <= 65535 -> grown f i0 n u0 u ->
  exists u', url_loop (l ++ rest) (i0 + n) s f fa u = url_loop rest (i0 + n + length l) s f fa u' /\
    grown f i0 (n + length l) u0 u'.
Proof.
  intros Hs Hat. induction l as [|c l IH]; intros Hl n u Hn Hu; cbn [app length] in *.
  { exists u. by rewrite !Nat.add_0_r. }
  inversion Hl as [|? ? Hc Hl']; subst. cbn [url_loop]. rewrite Hc, Hs, bool_decide_false, orb_false_r by done.
  rewrite decide_True by done. rewrite bind_modify.
  destruct (IH Hl' (S n) (inc_len f u)) as (u' & Hrun & Hu'); [lia| |].
  - destruct Hu as (Hfs & Hp & Hfd). split_and!; [done|done|]. intros g. cbn. rewrite !Hfd.
    destruct (decide (g = f)); [|done]. rewrite decide_True by done. cbn [fst snd]. rewrite wrap16_id by lia. f_equal. lia.
  - exists u'. replace (i0 + n + S (length l))%nat with (i0 + S n + length l)%nat by lia. rewrite <- Hrun.
    split; [do 2 f_equal; lia|]. by replace (n + S (length l))%nat with (S n + length l)%nat by lia.
Qed.

(** A part, from the delimiter in front of it to its last character. *)
Lemma url_loop_part c l rest s0 s f old u i fa : parse_url_char s0 c = s -> url_part_of s = Part f ->
  s <> s_req_server_with_at -> f <> old -> Forall (fun c => parse_url_char s c = s) l -> Z.of_nat (i + S (length l)) <= 65535 ->
  exists u', url_loop ((c :: l) ++ rest) i s0 old fa u = url_loop rest (i + S (length l)) s f fa u' /\
    grown f i (S (length l)) u u'.
Proof.
  intros Hc Hs Hat Hne Hl Hi. cbn [app url_loop]. rewrite Hc, Hs, bool_decide_false, orb_false_r by done.
  rewrite decide_False, bind_modify by done.
  destruct (url_loop_more l rest s f u i fa Hs Hat Hl 1 (mark_set f (put_len f 1 (put_off f i u)))) as (u' & Hrun & Hu').
  - lia.
  - split_and!; [done|done|]. intros g. cbn [mark_set set_field_set field_data].
    destruct (decide (g = f)) as [->|]; [by rewrite start_field_eq, wrap16_nat by lia|by rewrite start_field].
  - exists u'. replace (i + S (length l))%nat with (i + 1 + length l)%nat by lia. rewrite <- Hrun.
    split; [do 2 f_equal; lia|done].
Qed.

Definition url_chars (l : list Z) : Prop := Forall (fun c => IS_URL_CHAR c = true) l.
Definition query_chars (l : list Z) : Prop := Forall (fun c => IS_URL_CHAR c || (c =? "?"%ch) = true) l.

Lemma not_sp_lf c : IS_URL_CHAR c || (c =? "?"%ch) || (c =? "#"%ch) = true ->
  (c =? " "%ch) || (c =? CR) || (c =? LF) = false /\ (c =? TAB) || (c =? FF) = false.
Proof.
  intros H. enough (forall d, (c =? d) = true -> IS_URL_CHAR d || (d =? "?"%ch) || (d =? "#"%ch) = false -> False) as Hd.
  { split; apply not_true_is_false; rewrite ?orb_true_iff; [intros [[E|E]|E]|intros [E|E]]; by eapply Hd. }
  intros d Hcd. apply Z.eqb_eq in Hcd as <-. by rewrite H.
Qed.

Lemma path_stays l : url_chars l -> Forall (fun c => parse_url_char s_req_path c = s_req_path) l.
Proof.
  apply List.Forall_impl. intros c Hc. unfold parse_url_char.
  destruct (not_sp_lf c) as [-> ->]; [by rewrite Hc|]. by rewrite Hc.
Qed.

Lemma query_next s c : s = s_req_query_string_start \/ s = s_req_query_string ->
  IS_URL_CHAR c || (c =? "?"%ch) = true -> parse_url_char s c = s_req_query_string.
Proof.
  intros Hs Hc. unfold parse_url_char. destruct (not_sp_lf c) as [-> ->]; [by rewrite Hc|].
  apply orb_true_iff in Hc as [->| ->]; destruct Hs as [-> | ->]; try done; by destruct (IS_URL_CHAR c).
Qed.

Lemma fragment_next s c : s = s_req_fragment_start \/ s = s_req_fragment ->
  IS_URL_CHAR c || (c =? "?"%ch) = true -> parse_url_char s c = s_req_fragment.
Proof.
  intros Hs Hc. unfold parse_url_char. destruct (not_sp_lf c) as [-> ->]; [by rewrite Hc|].
  apply orb_true_iff in Hc as [->| ->]; destruct Hs as [-> | ->]; try done; by destruct (IS_URL_CHAR c).
Qed.

(** A path, and a query and a fragment where there are any. *)
Definition prefixed (d : Z) (l : list Z) : list Z := match l with [] => [] | _ => d :: l end.
Definition target (path query fragment : list Z) : list Z :=
  "/"%ch :: path ++ prefixed "?"%ch query ++ prefixed "#"%ch fragment.

Lemma grown_slice f n u u' pre l post : n = length l -> grown f (length pre) n u u' -> slice (pre ++ l ++ post) (field_data u' f) = l.
Proof.
  intros -> (_ & _ & Hg). rewrite Hg, decide_True by done. unfold slice. cbn [fst snd]. rewrite !Nat2Z.id, drop_app_length.
  apply take_app_length.
Qed.

Lemma grown_set f i n u u' g : grown f i n u u' -> is_set g u' = is_set g u || bool_decide (g = f).
Proof.
  intros (Hs & _). unfold is_set. rewrite Hs, Z.lor_spec. f_equal. by destruct f, g.
Qed.

(** The loop on a target: its result, and one step of [grown] for every part. *)
Definition grown_part f (i : nat) (l : list Z) u u' : Prop := l = [] /\ u' = u \/ l <> [] /\ grown f (S i) (length l) u u'.

(** A part that may be missing. *)
Lemma url_loop_opt d l rest s0 sd s f old i u : parse_url_char s0 d = sd -> url_part_of sd = Delimiter ->
  sd <> s_req_server_with_at -> (forall c, c ∈ l -> parse_url_char sd c = s /\ parse_url_char s c = s) ->
  url_part_of s = Part f -> s <> s_req_server_with_at -> f <> old -> Z.of_nat (i + length (prefixed d l)) <= 65535 ->
  exists u', url_loop (prefixed d l ++ rest) i s0 old false u =
      url_loop rest (i + length (prefixed d l)) (match l with [] => s0 | _ => s end) (match l with [] => old | _ => f end) false u' /\
    grown_part f i l u u'.
Proof.
  intros Hd Hsd Hat Hc Hs Hat' Hf Hi. destruct l as [|c l].
  { exists u. cbn. rewrite Nat.add_0_r. split; [done|by left]. }
  cbn [prefixed length app] in *. cbn [url_loop]. rewrite Hd, Hsd, bool_decide_false by done. cbn [orb].
  destruct (url_loop_part c l rest sd s f old u (S i) false) as (u' & Hrun & Hu');
    [apply Hc; left|done|done|done| |lia|].
  { apply Forall_forall. intros x Hx. apply Hc, list_elem_of_In. by right. }
  exists u'. replace (i + S (S (length l)))%nat with (S i + S (length l))%nat by lia. rewrite <- Hrun.
  split; [done|]. right. by split.
Qed.

Lemma grown_part_other f i l u u' g : grown_part f i l u u' -> g <> f ->
  field_data u' g = field_data u g /\ is_set g u' = is_set g u.
Proof.
  intros [[_ ->]|[_ Hg]] Hne; [done|]. rewrite (grown_set _ _ _ _ _ g Hg), bool_decide_false, orb_false_r by done.
  split; [|done]. destruct Hg as (_ & _ & ->). by rewrite decide_False.
Qed.

Lemma grown_part_set f i l u u' : grown_part f i l u u' -> is_set f u = false -> is_set f u' = bool_decide (l <> []).
Proof.
  intros [[-> ->]|[Hl Hg]] Hf; [by rewrite Hf|]. rewrite (grown_set _ _ _ _ _ f Hg), Hf.
  by rewrite !bool_decide_true.
Qed.

Lemma grown_part_slice f d pre l post u u' : grown_part f (length pre) l u u' -> l <> [] ->
  slice (pre ++ prefixed d l ++ post) (field_data u' f) = l.
Proof.
  intros [[-> ->]|[_ Hg]] Hl; [done|]. replace (pre ++ prefixed d l ++ post) with ((pre ++ [d]) ++ l ++ post).
  - by apply (grown_slice f (length l) u); [|rewrite length_app, Nat.add_comm].
  - destruct l; [done|]. by rewrite <- app_assoc.
Qed.

(** [http_parser_parse_url] finds the parts of a request target: the path, the
    query after the question mark and the fragment after the number sign are the
    slices of the text that the result names, and no other part is reported. *)
Lemma parse_url_finds (path query fragment : list Z) :
  url_chars path -> query_chars query -> query_chars fragment -> Z.of_nat (length (target path query fragment)) <= 65535 ->
  exists u, http_parser_parse_url (target path query fragment) false http_parser_url_init = (Ok 0, u) /\
    slice (target path query fragment) (field_data u UF_PATH) = "/"%ch :: path /\
    (query <> [] -> slice (target path query fragment) (field_data u UF_QUERY) = query) /\
    (fragment <> [] -> slice (target path query fragment) (field_data u UF_FRAGMENT) = fragment) /\
    forall f, is_set f u = match f with UF_PATH => true | UF_QUERY => bool_decide (query <> [])
                           | UF_FRAGMENT => bool_decide (fragment <> []) | _ => false end.
Proof.
  intros Hp Hq Hfr Hlen. set (buf := target path query fragment) in *.
  assert (length buf = S (length path) + length (prefixed "?"%ch query) + length (prefixed "#"%ch fragment))%nat as Hl
    by (unfold buf, target; cbn [length]; rewrite !length_app; lia).
  destruct (url_loop_part "/"%ch path (prefixed "?"%ch query ++ prefixed "#"%ch fragment) s_req_spaces_before_url s_req_path
    UF_PATH UF_MAX http_parser_url_init 0 false) as (u1 & Hrun1 & H1); try done; [by apply path_stays|lia|].
  destruct (url_loop_opt "?"%ch query (prefixed "#"%ch fragment) s_req_path s_req_query_string_start s_req_query_string
    UF_QUERY UF_PATH (S (length path)) u1) as (u2 & Hrun2 & H2); try done; [|lia|].
  { intros c Hc%list_elem_of_In. eapply Forall_forall in Hc; [|exact Hq]. split; apply query_next; auto. }
  set (s2 := match query with [] => s_req_path | _ => s_req_query_string end) in *.
  destruct (url_loop_opt "#"%ch fragment [] s2 s_req_fragment_start s_req_fragment
    UF_FRAGMENT (match query with [] => UF_PATH | _ => UF_QUERY end) (S (length path) + length (prefixed "?"%ch query)) u2)
    as (u3 & Hrun3 & H3); try done; [by destruct query| |by destruct query|lia|].
  { intros c Hc%list_elem_of_In. eapply Forall_forall in Hc; [|exact Hfr]. split; apply fragment_next; auto. }
  assert (forall f, is_set f u3 = match f with UF_PATH => true | UF_QUERY => bool_decide (query <> [])
                           | UF_FRAGMENT => bool_decide (fragment <> []) | _ => false end) as Hset.
  { intros f. pose proof (grown_set _ _ _ _ _ f H1) as E1. change (is_set f http_parser_url_init) with (Z.testbit 0 (Z.of_nat (uf_num f))) in E1.
    rewrite Z.bits_0 in E1. destruct (decide (f = UF_FRAGMENT)) as [->|Hf].
    { apply (grown_part_set _ _ _ _ _ H3). rewrite (proj2 (grown_part_other _ _ _ _ _ UF_FRAGMENT H2 ltac:(done))), E1. done. }
    rewrite (proj2 (grown_part_other _ _ _ _ _ f H3 Hf)). destruct (decide (f = UF_QUERY)) as [->|Hf'].
    { apply (grown_part_set _ _ _ _ _ H2). by rewrite E1. }
    rewrite (proj2 (grown_part_other _ _ _ _ _ f H2 Hf')), E1. by destruct f. }
  exists u3. split_and!; [| | | |done].
  - unfold http_parser_parse_url. rewrite (proj2 (Nat.eqb_neq _ 0)) by lia. rewrite bind_modify.
    assert (url_loop buf 0 s_req_spaces_before_url UF_MAX false http_parser_url_init = (Ok (Some false), u3)) as Hrun.
    { change buf with (("/"%ch :: path) ++ prefixed "?"%ch query ++ prefixed "#"%ch fragment). rewrite Hrun1. cbn [Nat.add]. rewrite Hrun2. rewrite app_nil_r in Hrun3. by rewrite Hrun3. }
    change (set_port 0 (set_field_set 0 http_parser_url_init)) with http_parser_url_init. rewrite (bind_Ok _ _ _ _ _ Hrun).
    cbv beta iota. rewrite !bind_get, !Hset. cbn [andb]. rewrite bind_ret_l. cbn [negb Z.eqb]. rewrite !bind_get, Hset. done.
  - rewrite (proj1 (grown_part_other _ _ _ _ _ UF_PATH H3 ltac:(done))), (proj1 (grown_part_other _ _ _ _ _ UF_PATH H2 ltac:(done))).
    by apply (grown_slice UF_PATH (S (length path)) http_parser_url_init u1 [] ("/"%ch :: path) (prefixed "?"%ch query ++ prefixed "#"%ch fragment)).
  - intros Hne. rewrite (proj1 (grown_part_other _ _ _ _ _ UF_QUERY H3 ltac:(done))).
    by apply (grown_part_slice UF_QUERY "?"%ch ("/"%ch :: path) query (prefixed "#"%ch fragment) u1 u2).
  - intros Hne. replace buf with (("/"%ch :: path ++ prefixed "?"%ch query) ++ prefixed "#"%ch fragment ++ [])
      by (unfold buf, target; cbn [app]; by rewrite app_nil_r, <- app_assoc).
    apply (grown_part_slice UF_FRAGMENT "#"%ch _ fragment [] u2 u3); [|done]. cbn [length]. by rewrite length_app.
Qed.

(** C23: (bounds) [http_parser_parse_url] returns on every text of at most 65535
    characters, without a failed assertion and without a read outside of the text,
    and every field it leaves in the result lies inside of the text.  When the text
    is a request target with an absolute path, the result is success and names the
    parts: the path, the query after the question mark and the fragment after the
    number sign are the slices of the text it gives, and no other part is reported. *)
Theorem parse_url_spec (buf : list Z) (is_connect : bool) : Z.of_nat (length buf) <= 65535 ->
  (exists r u, http_parser_parse_url buf is_connect http_parser_url_init = (Ok r, u) /\ url_fits (length buf) u) /\
  (forall path query fragment, buf = target path query fragment -> is_connect = false ->
    url_chars path -> query_chars query -> query_chars fragment ->
    exists u, http_parser_parse_url buf is_connect http_parser_url_init = (Ok 0, u) /\
      slice buf (field_data u UF_PATH) = "/"%ch :: path /\
      (query <> [] -> slice buf (field_data u UF_QUERY) = query) /\
      (fragment <> [] -> slice buf (field_data u UF_FRAGMENT) = fragment) /\
      forall f, is_set f u = match f with UF_PATH => true | UF_QUERY => bool_decide (query <> [])
                             | UF_FRAGMENT => bool_decide (fragment <> []) | _ => false end).
Proof.
  intros Hl. split; [by apply parse_url_fits|].
  intros path query fragment -> -> Hp Hq Hf. by apply parse_url_finds.
Qed.

(** ** Witnesses *)

(** ["/a?b?#c"], and a host that does not end. *)
Lemma parse_url_spec_witness :
  (exists r u, http_parser_parse_url ["["%ch; ":"%ch] true http_parser_url_init = (Ok r, u) /\ url_fits 2 u) /\
  (exists u, http_parser_parse_url [47; 97; 63; 98; 63; 35; 99] false http_parser_url_init = (Ok 0, u) /\
     slice [47; 97; 63; 98; 63; 35; 99] (field_data u UF_QUERY) = [98; 63]).
Proof.
  split; [apply (parse_url_spec ["["%ch; ":"%ch] true); done|].
  destruct (proj2 (parse_url_spec [47; 97; 63; 98; 63; 35; 99] false ltac:(done)) [97] [98; 63] [99])
    as (u & Hrun & _ & Hq & _); [done|done|repeat constructor..|].
  exists u. split; [exact Hrun|by apply Hq].
Defined.
