(* ===== verification/ByteArray.v ===== *)
(** * ByteArray: the block-list byte buffer

    Models [cczoecpp/Net/ByteArray/bytearray.h] and [bytearray.cpp]: the list
    of fixed-size blocks, the raw [write]/[read] loops that walk it, growth,
    repositioning, the fixed-width, varint, zigzag, float and string codecs,
    and the scatter/gather buffers handed to [sendmsg]/[recvmsg].

    Sizes and offsets ([size_t]) are natural numbers: each is bounded by memory
    that has been allocated.  The one subtraction that could wrap,
    [m_size - m_position], is exact because the position never passes the size
    ([wf_pos] in [ByteArraySpec.v]).
    Values keep their machine width; bytes are integers in [0, 256). *)

From Stdlib Require Import Ascii.
From stdpp Require Import base list numbers strings.
From S2P Require Import Prelude Words.

Local Open Scope nat_scope.

(** [ByteArray::Node]: a block and its size.  [next] is the order of the list
    that holds the blocks. *)
Record Node : Type := mkNode { ptr : list Z; size : nat }.

Record ByteArray : Type := mkByteArray {
  m_baseSize : nat;
  m_position : nat;
  m_capacity : nat;
  m_size : nat;
  m_endian : Z;
  m_nodes : list Node;      (* the blocks reachable from m_root, in order *)
  m_curr : option nat       (* index of the current block, None = nullptr *)
}.

Record iovec : Type := mkIovec { iov_node : nat; iov_off : nat; iov_len : nat }.

Definition set_m_position (v : nat) (s : ByteArray) : ByteArray :=
  mkByteArray (m_baseSize s) v (m_capacity s) (m_size s) (m_endian s) (m_nodes s) (m_curr s).
Definition set_m_capacity (v : nat) (s : ByteArray) : ByteArray :=
  mkByteArray (m_baseSize s) (m_position s) v (m_size s) (m_endian s) (m_nodes s) (m_curr s).
Definition set_m_size (v : nat) (s : ByteArray) : ByteArray :=
  mkByteArray (m_baseSize s) (m_position s) (m_capacity s) v (m_endian s) (m_nodes s) (m_curr s).
Definition set_m_endian (v : Z) (s : ByteArray) : ByteArray :=
  mkByteArray (m_baseSize s) (m_position s) (m_capacity s) (m_size s) v (m_nodes s) (m_curr s).
Definition set_m_nodes (v : list Node) (s : ByteArray) : ByteArray :=
  mkByteArray (m_baseSize s) (m_position s) (m_capacity s) (m_size s) (m_endian s) v (m_curr s).
Definition set_m_curr (v : option nat) (s : ByteArray) : ByteArray :=
  mkByteArray (m_baseSize s) (m_position s) (m_capacity s) (m_size s) (m_endian s) (m_nodes s) v.

(** ** Pointers into the block list *)

(** [p->next]. *)
Definition next_of (s : ByteArray) (i : nat) : option nat :=
  if S i <? length (m_nodes s) then Some (S i) else None.

(** Dereference a block pointer. *)
Definition deref (p : option nat) : comp ByteArray Node := fun s =>
  match p with
  | Some i => match m_nodes s !! i with Some n => (Ok n, s) | None => (UB, s) end
  | None => (UB, s)
  end.

(** [p->next] of a pointer that may be null. *)
Definition deref_next (p : option nat) : comp ByteArray (option nat) := fun s =>
  match p with
  | Some i => (Ok (next_of s i), s)
  | None => (UB, s)
  end.

(** [memcpy] of [bs] to, and of [n] bytes from, the block at [p] at offset
    [off]. *)
Definition memcpy_to (p : option nat) (off : nat) (bs : list Z) : comp ByteArray unit := fun s =>
  match p with
  | Some i =>
      match m_nodes s !! i with
      | Some n =>
          if off + length bs <=? length (ptr n)
          then (Ok tt, set_m_nodes (<[i := mkNode (splice off bs (ptr n)) (size n)]> (m_nodes s)) s)
          else (UB, s)
      | None => (UB, s)
      end
  | None => (UB, s)
  end.

Definition memcpy_from (p : option nat) (off n : nat) : comp ByteArray (list Z) := fun s =>
  match p with
  | Some i =>
      match m_nodes s !! i with
      | Some nd =>
          if off + n <=? length (ptr nd)
          then (Ok (take n (drop off (ptr nd))), s)
          else (UB, s)
      | None => (UB, s)
      end
  | None => (UB, s)
  end.

(** [v % m_baseSize]. *)
Definition mod_base (v : nat) : comp ByteArray nat := fun s =>
  if m_baseSize s =? 0 then (UB, s) else (Ok (v mod m_baseSize s), s).

(** ** Accessors *)

Definition getBaseSize (s : ByteArray) : nat := m_baseSize s.
Definition getReadableSize (s : ByteArray) : nat := m_size s - m_position s.
Definition getCapacity (s : ByteArray) : nat := m_capacity s - m_position s.
Definition getSize (s : ByteArray) : nat := m_size s.
Definition isLittleEndian (s : ByteArray) : bool := (m_endian s =? CCZOE_LITTLE_ENDIAN)%Z.
Definition setLittleEndian : comp ByteArray unit := modify (set_m_endian CCZOE_LITTLE_ENDIAN).
Definition setBigEndian : comp ByteArray unit := modify (set_m_endian CCZOE_BIG_ENDIAN).

(** ** Raw memory *)

Section ByteArray.
(** The indeterminate content of a fresh [new char[s]] byte. *)
Context (junk : Z).

(** [Node::Node(size_t)]. *)
Definition Node_ctor (s : nat) : Node := mkNode (repeat junk s) s.

(** [ByteArray::ByteArray(size_t)]. *)
Definition ByteArray_ctor (baseSize : nat) : ByteArray :=
  mkByteArray baseSize 0 baseSize 0 CCZOE_LITTLE_ENDIAN [Node_ctor baseSize] (Some 0).

(** The [for] loop of [addCapacity]: [tmp] is the tail of the list. *)
Fixpoint add_nodes (count tmp : nat) (first : option nat) : comp ByteArray (option nat) :=
  match count with
  | O => ret first
  | S count =>
      do! modify (fun s => set_m_nodes (m_nodes s ++ [Node_ctor (m_baseSize s)]) s) in
      let first := match first with None => Some tmp | Some _ => first end in
      do! modify (fun s => set_m_capacity (m_capacity s + m_baseSize s) s) in
      add_nodes count (S tmp) first
  end.

Definition addCapacity (sz : nat) : comp ByteArray unit :=
  if sz =? 0 then ret tt else
  let! oldCap := get getCapacity in
  if sz <=? oldCap then ret tt else
  let! base := get m_baseSize in
  if base =? 0 then fail UB else
  let count := sz / base + (if oldCap <? sz mod base then 1 else 0) in
  let! tmp := get (fun s => length (m_nodes s) - 1) in
  let! first := add_nodes count tmp None in
  if oldCap =? 0 then modify (set_m_curr first) else ret tt.

(** The [while (size > 0)] loop of [write]; [buf] is what is left to copy. *)
Fixpoint write_loop (fuel npos ncap : nat) (buf : list Z) : comp ByteArray unit :=
  if length buf =? 0 then ret tt else
  match fuel with
  | O => fail Diverge
  | S fuel =>
      let! curr := get m_curr in
      if length buf <=? ncap then
        do! memcpy_to curr npos buf in
        let! node := deref curr in
        let! next := deref_next curr in
        do! (if npos + length buf =? size node then modify (set_m_curr next) else ret tt) in
        do! modify (fun s => set_m_position (m_position s + length buf) s) in
        write_loop fuel npos ncap []
      else
        do! memcpy_to curr npos (take ncap buf) in
        do! modify (fun s => set_m_position (m_position s + ncap) s) in
        let! next := deref_next curr in
        do! modify (set_m_curr next) in
        let! node := deref next in
        write_loop fuel 0 (size node) (drop ncap buf)
  end.

(** Each round but the last moves to the next block, so the number of blocks
    bounds the rounds. *)
Definition write (buf : list Z) : comp ByteArray unit :=
  if length buf <=? 0 then ret tt else
  do! addCapacity (length buf) in
  let! position := get m_position in
  let! npos := mod_base position in
  let! base := get m_baseSize in
  let ncap := base - npos in
  let! blocks := get (fun s => length (m_nodes s)) in
  do! write_loop (S blocks) npos ncap buf in
  let! position := get m_position in
  let! sz := get m_size in
  if sz <? position then modify (set_m_size position) else ret tt.

Fixpoint read_loop (fuel npos ncap sz : nat) : comp ByteArray (list Z) :=
  if sz =? 0 then ret [] else
  match fuel with
  | O => fail Diverge
  | S fuel =>
      let! curr := get m_curr in
      if sz <=? ncap then
        let! bs := memcpy_from curr npos sz in
        let! node := deref curr in
        let! next := deref_next curr in
        do! (if size node =? npos + sz then modify (set_m_curr next) else ret tt) in
        do! modify (fun s => set_m_position (m_position s + sz) s) in
        let! rest := read_loop fuel npos ncap 0 in
        ret (bs ++ rest)
      else
        let! bs := memcpy_from curr npos ncap in
        do! modify (fun s => set_m_position (m_position s + ncap) s) in
        let! next := deref_next curr in
        do! modify (set_m_curr next) in
        let! node := deref next in
        let! rest := read_loop fuel 0 (size node) (sz - ncap) in
        ret (bs ++ rest)
  end.

(** [read(void *, size_t)]: returns the bytes stored in the caller's buffer. *)
Definition read (sz : nat) : comp ByteArray (list Z) :=
  let! readable := get getReadableSize in
  if readable <? sz then fail (Throw out_of_range) else
  let! position := get m_position in
  let! npos := mod_base position in
  let! curr := get m_curr in
  let! node := deref curr in
  let! blocks := get (fun s => length (m_nodes s)) in
  read_loop (S blocks) npos (size node - npos) sz.

(** The loop of the [const] overload: the same walk with a local pointer. *)
Fixpoint read_at_loop (fuel : nat) (curr : option nat) (npos ncap sz : nat) : comp ByteArray (list Z) :=
  if sz =? 0 then ret [] else
  match fuel with
  | O => fail Diverge
  | S fuel =>
      if sz <=? ncap then
        let! bs := memcpy_from curr npos sz in
        let! node := deref curr in
        let! next := deref_next curr in
        let curr := if size node =? npos + sz then next else curr in
        let! rest := read_at_loop fuel curr npos ncap 0 in
        ret (bs ++ rest)
      else
        let! bs := memcpy_from curr npos ncap in
        let! next := deref_next curr in
        let! node := deref next in
        let! rest := read_at_loop fuel next 0 (size node) (sz - ncap) in
        ret (bs ++ rest)
  end.

(** [read(void *, size_t, size_t pos) const]: [pos] is counted up and never
    used to find the first block. *)
Definition read_at (sz pos : nat) : comp ByteArray (list Z) :=
  let! readable := get getReadableSize in
  if readable <? sz then fail (Throw out_of_range) else
  let! position := get m_position in
  let! npos := mod_base position in
  let! curr := get m_curr in
  let! node := deref curr in
  let! blocks := get (fun s => length (m_nodes s)) in
  read_at_loop (S blocks) curr npos (size node - npos) sz.

Definition clear : comp ByteArray unit :=
  do! modify (set_m_position 0) in
  do! modify (set_m_size 0) in
  do! modify (fun s => set_m_capacity (m_baseSize s) s) in
  do! modify (set_m_curr (Some 0)) in
  modify (fun s => set_m_nodes (take 1 (m_nodes s)) s).

(** The [while] of [setPosition]. *)
Fixpoint seek_loop (fuel pos : nat) : comp ByteArray unit :=
  let! curr := get m_curr in
  let! node := deref curr in
  if size node <=? pos then
    match fuel with
    | O => fail Diverge
    | S fuel =>
        let! next := deref_next curr in
        do! modify (set_m_curr next) in
        seek_loop fuel (pos - size node)
    end
  else ret tt.

Definition setPosition (pos : nat) : comp ByteArray unit :=
  let! sz := get m_size in
  if sz <? pos then fail (Throw out_of_range) else
  do! modify (set_m_position pos) in
  let! blocks := get (fun s => length (m_nodes s)) in
  seek_loop (S blocks) pos.

(** ** Fixed-width integers *)

(** The bytes of an [n]-byte value as [write(&value, n)] stores them. *)
Definition writeFint8 (value : Z) : comp ByteArray unit := write (le_bytes 1 value).
Definition writeFuint8 (value : Z) : comp ByteArray unit := write (le_bytes 1 value).

Definition swap_out (T : int_type) (value : Z) : comp ByteArray unit :=
  let! e := get m_endian in
  let value := if (e =? CCZOE_BYTE_ORDER)%Z then value else byteswap T value in
  write (le_bytes (sizeof T) value).

Definition writeFint16 (value : Z) : comp ByteArray unit := swap_out int16_t value.
Definition writeFuint16 (value : Z) : comp ByteArray unit := swap_out uint16_t value.
Definition writeFint32 (value : Z) : comp ByteArray unit := swap_out int32_t value.
Definition writeFuint32 (value : Z) : comp ByteArray unit := swap_out uint32_t value.
Definition writeFint64 (value : Z) : comp ByteArray unit := swap_out int64_t value.
Definition writeFuint64 (value : Z) : comp ByteArray unit := swap_out uint64_t value.

(** [float] and [double] are given by their bit patterns, which is all that
    [memcpy] transfers. *)
Definition writeFloat (bits : Z) : comp ByteArray unit := writeFuint32 bits.
Definition writeDouble (bits : Z) : comp ByteArray unit := writeFuint64 bits.

Definition readFint8 : comp ByteArray Z :=
  let! bs := read 1 in ret (swrap 8 (of_le bs)).
Definition readFuint8 : comp ByteArray Z :=
  let! bs := read 1 in ret (of_le bs).

(** The value of an object of type [T] with the given bytes. *)
Definition int_value (T : int_type) (bs : list Z) : Z :=
  match T with
  | int16_t => swrap 16 (of_le bs)
  | int32_t => swrap 32 (of_le bs)
  | int64_t => swrap 64 (of_le bs)
  | _ => of_le bs
  end.

(** The macro [XX(type)]. *)
Definition swap_in (T : int_type) : comp ByteArray Z :=
  let! bs := read (sizeof T) in
  let v := int_value T bs in
  let! e := get m_endian in
  if (e =? CCZOE_BYTE_ORDER)%Z then ret v else ret (byteswap T v).

Definition readFint16 : comp ByteArray Z := swap_in int16_t.
Definition readFuint16 : comp ByteArray Z := swap_in uint16_t.
Definition readFint32 : comp ByteArray Z := swap_in int32_t.
Definition readFuint32 : comp ByteArray Z := swap_in uint32_t.
Definition readFint64 : comp ByteArray Z := swap_in int64_t.
Definition readFuint64 : comp ByteArray Z := swap_in uint64_t.

Definition readFloat : comp ByteArray Z := readFuint32.
Definition readDouble : comp ByteArray Z := readFuint64.

(** ** Zigzag and varint *)

(** [-v] and [v * 2] are signed operations: overflow is undefined. *)
Definition EncodeZigzag (w v : Z) : outcome Z :=
  (if v <? 0 then
     if v =? - 2 ^ (w - 1) then UB
     else Ok (wrap w (wrap w (wrap w (- v) * 2) - 1))
   else if 2 ^ (w - 1) <=? v * 2 then UB else Ok (wrap w (v * 2)))%Z.

Definition DecodeZigzag (w v : Z) : Z :=
  swrap w (Z.lxor (Z.shiftr v 1) (wrap w (- Z.land v 1))).

Definition EncodeZigzag32 : Z -> outcome Z := EncodeZigzag 32.
Definition EncodeZigzag64 : Z -> outcome Z := EncodeZigzag 64.
Definition DecodeZigzag32 : Z -> Z := DecodeZigzag 32.
Definition DecodeZigzag64 : Z -> Z := DecodeZigzag 64.

(** The bytes put into [tmp]; [room] is what is left of the local array. *)
Fixpoint varint_bytes (room : nat) (value : Z) : outcome (list Z) :=
  match room with
  | O => UB
  | S room =>
      if (0x80 <=? value)%Z then
        match varint_bytes room (Z.shiftr value 7) with
        | Ok bs => Ok (wrap 8 (Z.lor (Z.land value 0x7f) 0x80) :: bs)
        | o => o
        end
      else Ok [wrap 8 value]
  end.

Definition write_varint (room : nat) (value : Z) : comp ByteArray unit :=
  let! tmp := fail (varint_bytes room value) in write tmp.

Definition writeUint32 (value : Z) : comp ByteArray unit := write_varint 5 value.
Definition writeUint64 (value : Z) : comp ByteArray unit := write_varint 10 value.
Definition writeInt32 (value : Z) : comp ByteArray unit :=
  let! v := fail (EncodeZigzag32 value) in writeUint32 v.
Definition writeInt64 (value : Z) : comp ByteArray unit :=
  let! v := fail (EncodeZigzag64 value) in writeUint64 v.

(** [for (int i = 0; i < 32; i += 7)], in both widths: five rounds. *)
Fixpoint read_varint (fuel : nat) (w i result : Z) : comp ByteArray Z :=
  if (i <? 32)%Z then
    match fuel with
    | O => fail Diverge
    | S fuel =>
        let! b := readFuint8 in
        if (b <? 0x80)%Z then ret (Z.lor result (wrap w (Z.shiftl b i)))
        else read_varint fuel w (i + 7) (Z.lor result (wrap w (Z.shiftl (Z.land b 0x7f) i)))
    end
  else ret result.

Definition readUint32 : comp ByteArray Z := read_varint 5 32 0 0.
Definition readUint64 : comp ByteArray Z := read_varint 5 64 0 0.
Definition readInt32 : comp ByteArray Z := let! v := readUint32 in ret (DecodeZigzag32 v).
Definition readInt64 : comp ByteArray Z := let! v := readUint64 in ret (DecodeZigzag64 v).

(** ** Length-prefixed strings *)

(** [value.size()] is converted to the parameter type of the length writer. *)
Definition writeStringF16 (value : list Z) : comp ByteArray unit :=
  do! writeFuint16 (wrap 16 (Z.of_nat (length value))) in write value.
Definition writeStringF32 (value : list Z) : comp ByteArray unit :=
  do! writeFuint32 (wrap 32 (Z.of_nat (length value))) in write value.
Definition writeStringF64 (value : list Z) : comp ByteArray unit :=
  do! writeFuint64 (wrap 64 (Z.of_nat (length value))) in write value.
Definition writeStringVint (value : list Z) : comp ByteArray unit :=
  do! writeFuint64 (wrap 64 (Z.of_nat (length value))) in write value.

Definition readStringF16 : comp ByteArray (list Z) :=
  let! len := readFuint16 in read (Z.to_nat len).
Definition readStringF32 : comp ByteArray (list Z) :=
  let! len := readFuint32 in read (Z.to_nat len).
Definition readStringF64 : comp ByteArray (list Z) :=
  let! len := readFuint64 in read (Z.to_nat len).
Definition readStringVint : comp ByteArray (list Z) :=
  let! len := readFuint64 in read (Z.to_nat len).

(** ** Files and text *)

(** [writeToFile]: [opened] tells whether [ofs.open] succeeded; the result is
    the return value and the bytes the stream received. *)
Fixpoint writeToFile_loop (fuel : nat) (curr : option nat) (readSize pos : Z)
    : comp ByteArray (list Z) :=
  if (readSize <=? 0)%Z then ret [] else
  match fuel with
  | O => fail Diverge
  | S fuel =>
      let! base := get (fun s => Z.of_nat (m_baseSize s)) in
      if (base =? 0)%Z then fail UB else
      let npos := (pos mod base)%Z in
      let len := ((if base <? readSize then base else readSize) - npos)%Z in
      if (len <? 0)%Z then fail UB else
      let! bs := memcpy_from curr (Z.to_nat npos) (Z.to_nat len) in
      let! next := deref_next curr in
      let! rest := writeToFile_loop fuel next (readSize - len) (pos + len) in
      ret (bs ++ rest)
  end.

Definition writeToFile (opened : bool) : comp ByteArray (bool * list Z) :=
  if negb opened then ret (false, []) else
  let! readSize := get getReadableSize in
  let! pos := get m_position in
  let! curr := get m_curr in
  let! blocks := get (fun s => length (m_nodes s)) in
  let! out := writeToFile_loop (S blocks) curr (Z.of_nat readSize) (Z.of_nat pos) in
  ret (true, out).

(** [readFromFile]: [ifs.read] stores up to [m_baseSize] bytes and sets [eof]
    when fewer were left. *)
Fixpoint readFromFile_loop (fuel : nat) (file : list Z) (eof : bool) : comp ByteArray unit :=
  if eof then ret tt else
  match fuel with
  | O => fail Diverge
  | S fuel =>
      let! base := get m_baseSize in
      do! write (take base file) in
      readFromFile_loop fuel (drop base file) (length file <? base)
  end.

Definition readFromFile (opened : bool) (file : list Z) : comp ByteArray bool :=
  if negb opened then ret false else
  do! readFromFile_loop (2 + length file) file false in
  ret true.

Definition toString : comp ByteArray (list Z) :=
  let! n := get getReadableSize in
  if 0 <? n then let! pos := get m_position in read_at n pos else ret [].

Definition hex_digit (d : Z) : Ascii.ascii :=
  (if d <? 10 then Ascii.ascii_of_N (Z.to_N (48 + d)) else Ascii.ascii_of_N (Z.to_N (87 + d)))%Z.

Fixpoint hex_dump (i : nat) (bs : list Z) : String.string :=
  match bs with
  | [] => String.EmptyString
  | b :: bs =>
      let body := String.String (hex_digit (b / 16)) (String.String (hex_digit (b mod 16))
                    (String.String " "%char (hex_dump (S i) bs))) in
      if (0 <? i) && (i mod 32 =? 0) then String.String "010"%char body else body
  end.

Definition toHexString : comp ByteArray String.string :=
  let! str := toString in ret (hex_dump 0 str).

(** ** Scatter/gather buffers *)

Fixpoint addWriteBuffers_loop (fuel : nat) (curr : option nat) (npos ncap len : nat)
    (buff : list iovec) : comp ByteArray (list iovec) :=
  if len =? 0 then ret buff else
  match fuel with
  | O => fail Diverge
  | S fuel =>
      let! _ := deref curr in
      let here := default 0 curr in
      if len <? ncap then
        do! modify (fun s => set_m_size (m_size s + len) s) in
        addWriteBuffers_loop fuel curr npos ncap 0 (buff ++ [mkIovec here npos len])
      else
        do! modify (fun s => set_m_size (m_size s + ncap) s) in
        let! next := deref_next curr in
        let! node := deref next in
        addWriteBuffers_loop fuel next 0 (size node) (len - ncap) (buff ++ [mkIovec here npos ncap])
  end.

Definition addWriteBuffers (buff : list iovec) (len : nat) : comp ByteArray (nat * list iovec) :=
  if len <=? 0 then ret (0, buff) else
  do! addCapacity len in
  let! position := get m_position in
  let! npos := mod_base position in
  let! curr := get m_curr in
  let! node := deref curr in
  let! blocks := get (fun s => length (m_nodes s)) in
  let! buff := addWriteBuffers_loop (S blocks) curr npos (size node - npos) len buff in
  ret (len, buff).

Fixpoint addReadBuffers_loop (fuel : nat) (curr : option nat) (npos ncap len : nat)
    (buff : list iovec) : comp ByteArray (list iovec) :=
  if len =? 0 then ret buff else
  match fuel with
  | O => fail Diverge
  | S fuel =>
      let! _ := deref curr in
      let here := default 0 curr in
      if len <=? ncap then
        addReadBuffers_loop fuel curr npos ncap 0 (buff ++ [mkIovec here npos len])
      else
        let! next := deref_next curr in
        let! node := deref next in
        addReadBuffers_loop fuel next 0 (size node) (len - ncap) (buff ++ [mkIovec here npos ncap])
  end.

Definition addReadBuffers (buff : list iovec) (len : nat) : comp ByteArray (nat * list iovec) :=
  let! readable := get getReadableSize in
  let len := if readable <? len then readable else len in
  if len =? 0 then ret (0, buff) else
  let! position := get m_position in
  let! npos := mod_base position in
  let! curr := get m_curr in
  let! node := deref curr in
  let! blocks := get (fun s => length (m_nodes s)) in
  let! buff := addReadBuffers_loop (S blocks) curr npos (size node - npos) len buff in
  ret (len, buff).

End ByteArray.
