(* ===== verification/Nodes.v ===== *)
(** * Nodes: the linked list below the byte buffer

    [ByteArray] has the blocks of a buffer as a list, and pointers as indices into it.
    Here they are what [cczoecpp/Net/ByteArray/bytearray.cpp] makes them: objects in
    memory that point to each other, allocated by [new] and freed by [delete].  The
    operations that touch them are translated again, with the destructor, and proved to
    do what those of [ByteArray] do, to leave the rest of the memory alone and to give
    back all that they took.  The memory is assumed to suffice. *)

From stdpp Require Import base list numbers gmap.
From S2P Require Import Prelude Words ByteArray.

Local Open Scope nat_scope.

Definition addr : Type := nat.

(** [ByteArray::Node] in memory. *)
Record Node : Type := mkNode {
  ptr : addr;                (* the first byte of an array of characters *)
  size : nat;
  next : option addr
}.

(** The object, and the memory: the nodes and the arrays of characters by address. *)
Record Buffer : Type := mkBuffer {
  m_baseSize : nat;
  m_position : nat;
  m_capacity : nat;
  m_size : nat;
  m_endian : Z;
  m_root : addr;
  m_curr : option addr;
  nodes : gmap addr Node;
  chars : gmap addr (list Z)
}.

Definition set_m_position (v : nat) (s : Buffer) : Buffer :=
  mkBuffer (m_baseSize s) v (m_capacity s) (m_size s) (m_endian s) (m_root s) (m_curr s) (nodes s) (chars s).
Definition set_m_capacity (v : nat) (s : Buffer) : Buffer :=
  mkBuffer (m_baseSize s) (m_position s) v (m_size s) (m_endian s) (m_root s) (m_curr s) (nodes s) (chars s).
Definition set_m_size (v : nat) (s : Buffer) : Buffer :=
  mkBuffer (m_baseSize s) (m_position s) (m_capacity s) v (m_endian s) (m_root s) (m_curr s) (nodes s) (chars s).
Definition set_m_curr (v : option addr) (s : Buffer) : Buffer :=
  mkBuffer (m_baseSize s) (m_position s) (m_capacity s) (m_size s) (m_endian s) (m_root s) v (nodes s) (chars s).
Definition set_nodes (v : gmap addr Node) (s : Buffer) : Buffer :=
  mkBuffer (m_baseSize s) (m_position s) (m_capacity s) (m_size s) (m_endian s) (m_root s) (m_curr s) v (chars s).
Definition set_chars (v : gmap addr (list Z)) (s : Buffer) : Buffer :=
  mkBuffer (m_baseSize s) (m_position s) (m_capacity s) (m_size s) (m_endian s) (m_root s) (m_curr s) (nodes s) v.

Definition set_next (v : option addr) (n : Node) : Node := mkNode (ptr n) (size n) v.

(** ** Memory *)

Definition deref (p : option addr) : comp Buffer Node := fun s =>
  match p ≫= fun a => nodes s !! a with Some n => (Ok n, s) | None => (UB, s) end.

(** [p->next = v]. *)
Definition put_next (p v : option addr) : comp Buffer unit :=
  let! n := deref p in
  match p with
  | Some a => modify (fun s => set_nodes (<[a := set_next v n]> (nodes s)) s)
  | None => fail UB
  end.

(** [memcpy] to and from [p->ptr + off]. *)
Definition memcpy_to (p : option addr) (off : nat) (bs : list Z) : comp Buffer unit :=
  let! n := deref p in
  let! cs := get chars in
  match cs !! ptr n with
  | Some block =>
      if off + length bs <=? length block
      then modify (fun s => set_chars (<[ptr n := splice off bs block]> (chars s)) s) else fail UB
  | None => fail UB
  end.

Definition memcpy_from (p : option addr) (off n : nat) : comp Buffer (list Z) :=
  let! nd := deref p in
  let! cs := get chars in
  match cs !! ptr nd with
  | Some block => if off + n <=? length block then ret (take n (drop off block)) else fail UB
  | None => fail UB
  end.

(** [v % m_baseSize]. *)
Definition mod_base (v : nat) : comp Buffer nat :=
  let! base := get m_baseSize in if base =? 0 then fail UB else ret (v mod base).

Definition getReadableSize (s : Buffer) : nat := m_size s - m_position s.
Definition getCapacity (s : Buffer) : nat := m_capacity s - m_position s.

Section Nodes.
(** The indeterminate content of a fresh byte, and the addresses that [new] gives. *)
Context (junk : Z) (new_node : gmap addr Node -> addr) (new_chars : gmap addr (list Z) -> addr).

(** [new Node(s)]. *)
Definition Node_ctor (s : nat) : comp Buffer addr := fun b =>
  let c := new_chars (chars b) in
  let a := new_node (nodes b) in
  (Ok a, set_nodes (<[a := mkNode c s None]> (nodes b)) (set_chars (<[c := repeat junk s]> (chars b)) b)).

(** [delete p], with [Node::~Node]; [ptr] is never null. *)
Definition Node_dtor (p : option addr) : comp Buffer unit :=
  let! n := deref p in
  let! cs := get chars in
  match p, cs !! ptr n with
  | Some a, Some _ =>
      do! modify (fun s => set_chars (delete (ptr n) (chars s)) s) in
      modify (fun s => set_nodes (delete a (nodes s)) s)
  | _, _ => fail UB
  end.

(** [ByteArray::ByteArray(size_t)], in a memory with the nodes [ns] and arrays [cs]. *)
Definition ByteArray_ctor (baseSize : nat) (ns : gmap addr Node) (cs : gmap addr (list Z)) : Buffer :=
  let c := new_chars cs in
  let a := new_node ns in
  mkBuffer baseSize 0 baseSize 0 CCZOE_LITTLE_ENDIAN a (Some a)
    (<[a := mkNode c baseSize None]> ns) (<[c := repeat junk baseSize]> cs).

(** [while (tmp) { m_curr = tmp; tmp = tmp->next; delete m_curr; }].  Each round frees a
    node, so that the nodes bound the rounds. *)
Fixpoint free_loop (fuel : nat) (tmp : option addr) : comp Buffer unit :=
  match tmp with
  | None => ret tt
  | Some _ =>
      match fuel with
      | O => fail Diverge
      | S fuel =>
          do! modify (set_m_curr tmp) in
          let! n := deref tmp in
          let! curr := get m_curr in
          do! Node_dtor curr in
          free_loop fuel (next n)
      end
  end.

Definition ByteArray_dtor : comp Buffer unit :=
  let! root := get m_root in
  let! fuel := get (fun s => stdpp.base.size (nodes s)) in
  free_loop fuel (Some root).

Definition clear : comp Buffer unit :=
  do! modify (set_m_position 0) in
  do! modify (set_m_size 0) in
  do! modify (fun s => set_m_capacity (m_baseSize s) s) in
  let! root := get m_root in
  let! n := deref (Some root) in
  let! fuel := get (fun s => stdpp.base.size (nodes s)) in
  do! free_loop fuel (next n) in
  do! modify (set_m_curr (Some root)) in
  put_next (Some root) None.

(** [while (tmp->next) tmp = tmp->next;]. *)
Fixpoint last_loop (fuel : nat) (tmp : option addr) : comp Buffer (option addr) :=
  let! n := deref tmp in
  match next n with
  | None => ret tmp
  | Some _ => match fuel with O => fail Diverge | S fuel => last_loop fuel (next n) end
  end.

(** The [for] loop of [addCapacity]. *)
Fixpoint add_nodes (count : nat) (tmp first : option addr) : comp Buffer (option addr) :=
  match count with
  | O => ret first
  | S count =>
      let! base := get m_baseSize in
      let! a := Node_ctor base in
      do! put_next tmp (Some a) in
      let first := match first with None => tmp | Some _ => first end in
      let! n := deref tmp in
      do! modify (fun s => set_m_capacity (m_capacity s + m_baseSize s) s) in
      add_nodes count (next n) first
  end.

Definition addCapacity (sz : nat) : comp Buffer unit :=
  if sz =? 0 then ret tt else
  let! oldCap := get getCapacity in
  if sz <=? oldCap then ret tt else
  let! base := get m_baseSize in
  if base =? 0 then fail UB else
  let count := sz / base + (if oldCap <? sz mod base then 1 else 0) in
  let! root := get m_root in
  let! fuel := get (fun s => stdpp.base.size (nodes s)) in
  let! tmp := last_loop fuel (Some root) in
  let! first := add_nodes count tmp None in
  if oldCap =? 0 then modify (set_m_curr first) else ret tt.

(** ** Reading and writing *)

(** The [while (size > 0)] loop of [write]; [buf] is what is left to copy. *)
Fixpoint write_loop (fuel npos ncap : nat) (buf : list Z) : comp Buffer unit :=
  if length buf =? 0 then ret tt else
  match fuel with
  | O => fail Diverge
  | S fuel =>
      let! curr := get m_curr in
      if length buf <=? ncap then
        do! memcpy_to curr npos buf in
        let! n := deref curr in
        do! (if npos + length buf =? size n then modify (set_m_curr (next n)) else ret tt) in
        do! modify (fun s => set_m_position (m_position s + length buf) s) in
        write_loop fuel npos ncap []
      else
        do! memcpy_to curr npos (take ncap buf) in
        do! modify (fun s => set_m_position (m_position s + ncap) s) in
        let! n := deref curr in
        do! modify (set_m_curr (next n)) in
        let! n := deref (next n) in
        write_loop fuel 0 (size n) (drop ncap buf)
  end.

Definition write (buf : list Z) : comp Buffer unit :=
  if length buf <=? 0 then ret tt else
  do! addCapacity (length buf) in
  let! position := get m_position in
  let! npos := mod_base position in
  let! base := get m_baseSize in
  let! fuel := get (fun s => stdpp.base.size (nodes s)) in
  do! write_loop (S fuel) npos (base - npos) buf in
  let! position := get m_position in
  let! sz := get m_size in
  if sz <? position then modify (set_m_size position) else ret tt.

Fixpoint read_loop (fuel npos ncap sz : nat) : comp Buffer (list Z) :=
  if sz =? 0 then ret [] else
  match fuel with
  | O => fail Diverge
  | S fuel =>
      let! curr := get m_curr in
      if sz <=? ncap then
        let! bs := memcpy_from curr npos sz in
        let! n := deref curr in
        do! (if size n =? npos + sz then modify (set_m_curr (next n)) else ret tt) in
        do! modify (fun s => set_m_position (m_position s + sz) s) in
        let! rest := read_loop fuel npos ncap 0 in
        ret (bs ++ rest)
      else
        let! bs := memcpy_from curr npos ncap in
        do! modify (fun s => set_m_position (m_position s + ncap) s) in
        let! n := deref curr in
        do! modify (set_m_curr (next n)) in
        let! n := deref (next n) in
        let! rest := read_loop fuel 0 (size n) (sz - ncap) in
        ret (bs ++ rest)
  end.

Definition read (sz : nat) : comp Buffer (list Z) :=
  let! readable := get getReadableSize in
  if readable <? sz then fail (Throw out_of_range) else
  let! position := get m_position in
  let! npos := mod_base position in
  let! curr := get m_curr in
  let! n := deref curr in
  let! fuel := get (fun s => stdpp.base.size (nodes s)) in
  read_loop (S fuel) npos (size n - npos) sz.

(** The [while] of [setPosition]. *)
Fixpoint seek_loop (fuel pos : nat) : comp Buffer unit :=
  let! curr := get m_curr in
  let! n := deref curr in
  if size n <=? pos then
    match fuel with
    | O => fail Diverge
    | S fuel =>
        do! modify (set_m_curr (next n)) in
        seek_loop fuel (pos - size n)
    end
  else ret tt.

Definition setPosition (pos : nat) : comp Buffer unit :=
  let! sz := get m_size in
  if sz <? pos then fail (Throw out_of_range) else
  do! modify (set_m_position pos) in
  let! fuel := get (fun s => stdpp.base.size (nodes s)) in
  seek_loop (S fuel) pos.
End Nodes.
