(* ===== verification/ByteArraySpec.v ===== *)
(** * ByteArraySpec: the byte buffer refines a flat array with a cursor

    The abstract buffer is a byte sequence and a position.  The invariant [wf]
    ties the block list to it; [writes] and [reads] say that an operation of
    [ByteArray] acts as an overwrite, respectively a read, of the flat
    sequence.  All codecs are proved against this interface. *)

From stdpp Require Import base list numbers.
From S2P Require Import Prelude Words ByteArray.

Local Open Scope nat_scope.

(** ** Invariant *)

Definition block_ok (base : nat) (n : Node) : Prop := size n = base /\ length (ptr n) = base.

Definition flat_nodes (ns : list Node) : list Z := concat (map ptr ns).
Definition flat (s : ByteArray) : list Z := flat_nodes (m_nodes s).

(** The bytes stored so far. *)
Definition contents (s : ByteArray) : list Z := take (m_size s) (flat s).

(** The current block of a buffer whose blocks hold [cap] bytes. *)
Definition cursor (base cap pos : nat) : option nat :=
  if pos <? cap then Some (pos / base) else None.

Record wf (s : ByteArray) : Prop := mkWf {
  wf_base : 0 < m_baseSize s;
  wf_nodes : Forall (block_ok (m_baseSize s)) (m_nodes s);
  wf_root : 0 < length (m_nodes s);
  wf_cap : m_capacity s = m_baseSize s * length (m_nodes s);
  wf_pos : m_position s <= m_size s;
  wf_size : m_size s <= m_capacity s;
  wf_curr : m_curr s = cursor (m_baseSize s) (m_capacity s) (m_position s)
}.

(** ** The flat view of the block list *)

Lemma flat_nodes_app l1 l2 : flat_nodes (l1 ++ l2) = flat_nodes l1 ++ flat_nodes l2.
Proof. unfold flat_nodes. by rewrite map_app, concat_app. Qed.

Lemma length_flat_nodes base ns :
  Forall (block_ok base) ns -> length (flat_nodes ns) = base * length ns.
Proof.
  unfold flat_nodes. induction 1 as [|n ns [_ Hn] _ IH]; simpl; [lia|].
  rewrite length_app, IH, Hn. lia.
Qed.

Lemma flat_nodes_split base ns i n :
  Forall (block_ok base) ns -> ns !! i = Some n ->
  flat_nodes ns = flat_nodes (take i ns) ++ ptr n ++ flat_nodes (drop (S i) ns) /\
  length (flat_nodes (take i ns)) = base * i.
Proof.
  intros Hf Hi. split.
  - rewrite <- (take_drop_middle ns i n Hi) at 1. by rewrite flat_nodes_app.
  - rewrite (length_flat_nodes base) by by apply Forall_take.
    rewrite length_take_le; [done|]. apply lookup_lt_Some in Hi. lia.
Qed.

Lemma flat_nodes_read base ns i n off k :
  Forall (block_ok base) ns -> ns !! i = Some n -> off + k <= base ->
  take k (drop off (ptr n)) = take k (drop (base * i + off) (flat_nodes ns)).
Proof.
  intros Hf Hi Hk. destruct (flat_nodes_split base ns i n Hf Hi) as [-> Hl].
  rewrite <- Hl, drop_app_add.
  assert (length (ptr n) = base) as Hn by (eapply Forall_lookup_1 in Hi; [|done]; apply Hi).
  rewrite drop_app_le, take_app_le; rewrite ?length_drop; [done|lia|lia].
Qed.

Lemma flat_nodes_write base ns i n off bs :
  Forall (block_ok base) ns -> ns !! i = Some n -> off + length bs <= base ->
  let ns' := <[i := mkNode (splice off bs (ptr n)) (size n)]> ns in
  Forall (block_ok base) ns' /\ length ns' = length ns /\
  flat_nodes ns' = splice (base * i + off) bs (flat_nodes ns).
Proof.
  intros Hf Hi Hb. cbv zeta.
  assert (block_ok base n) as [Hs Hn] by by eapply Forall_lookup_1 in Hi.
  assert (i < length ns) by by eapply lookup_lt_Some.
  split; [|split].
  - apply Forall_insert; [done|]. split; simpl; [done|]. rewrite length_splice; lia.
  - apply length_insert.
  - destruct (flat_nodes_split base ns i n Hf Hi) as [-> Hl].
    rewrite insert_take_drop by done.
    rewrite flat_nodes_app. cbn [flat_nodes map concat].
    rewrite <- Hl, splice_app_r, splice_app_l by lia. done.
Qed.

Lemma flat_nodes_grow ns k n :
  flat_nodes (ns ++ repeat n k) = flat_nodes ns ++ concat (repeat (ptr n) k).
Proof. rewrite flat_nodes_app. f_equal. unfold flat_nodes. by rewrite map_repeat. Qed.

Lemma cursor_Some base n i off :
  off < base -> i < n -> cursor base (base * n) (base * i + off) = Some i.
Proof.
  intros Ho Hi. unfold cursor. destruct (Nat.ltb_spec (base * i + off) (base * n)); [|nia].
  f_equal. rewrite Nat.mul_comm, Nat.div_add_l, Nat.div_small by lia. lia.
Qed.

Lemma cursor_next base n i :
  0 < base -> cursor base (base * n) (base * i + base) = (if S i <? n then Some (S i) else None).
Proof.
  intros Hb. destruct (Nat.ltb_spec (S i) n).
  - replace (base * i + base) with (base * S i + 0) by lia. by apply cursor_Some.
  - unfold cursor. destruct (Nat.ltb_spec (base * i + base) (base * n)); [nia|done].
Qed.

(** ** The copy loops *)

(** [s] with another position, block list and current block. *)
Definition moved (s : ByteArray) (pos : nat) (ns : list Node) (c : option nat) : ByteArray :=
  mkByteArray (m_baseSize s) pos (m_capacity s) (m_size s) (m_endian s) ns c.

Lemma memcpy_to_Ok s i nd off bs :
  m_nodes s !! i = Some nd -> off + length bs <= length (ptr nd) ->
  memcpy_to (Some i) off bs s =
    (Ok tt, set_m_nodes (<[i := mkNode (splice off bs (ptr nd)) (size nd)]> (m_nodes s)) s).
Proof. intros Hi Hl. unfold memcpy_to. rewrite Hi. by apply Nat.leb_le in Hl as ->. Qed.

Lemma memcpy_from_Ok s i nd off k :
  m_nodes s !! i = Some nd -> off + k <= length (ptr nd) ->
  memcpy_from (Some i) off k s = (Ok (take k (drop off (ptr nd))), s).
Proof. intros Hi Hl. unfold memcpy_from. rewrite Hi. by apply Nat.leb_le in Hl as ->. Qed.

Lemma node_deref_Ok s i nd : m_nodes s !! i = Some nd -> deref (Some i) s = (Ok nd, s).
Proof. intros Hi. unfold deref. by rewrite Hi. Qed.

Lemma deref_next_Some s i : deref_next (Some i) s = (Ok (next_of s i), s).
Proof. done. Qed.

Lemma mod_base_Ok s v : 0 < m_baseSize s -> mod_base v s = (Ok (v mod m_baseSize s), s).
Proof. intros. unfold mod_base. by destruct (Nat.eqb_spec (m_baseSize s) 0); [lia|]. Qed.

(** Equality of two updated states, field by field. *)
Ltac ba_eq :=
  cbn [write_loop read_loop length Nat.eqb];
  unfold ret, moved, set_m_position, set_m_capacity, set_m_size, set_m_endian, set_m_nodes, set_m_curr;
  cbn [m_baseSize m_position m_capacity m_size m_endian m_nodes m_curr];
  do 2 f_equal; first [done | lia | congruence].

Section loops.
Context (base n : nat) (Hbase : 0 < base).
Implicit Types s : ByteArray.

(** A state whose [n] blocks hold [base] bytes each and whose current block
    is the [i]-th. *)
Definition at_block s i : Prop :=
  m_baseSize s = base /\ Forall (block_ok base) (m_nodes s) /\ length (m_nodes s) = n /\
  m_curr s = Some i /\ i < n.

Lemma at_block_node s i : at_block s i -> exists nd, m_nodes s !! i = Some nd /\ block_ok base nd.
Proof.
  intros (? & Hf & Hn & ? & Hi). rewrite <- Hn in Hi.
  destruct (lookup_lt_is_Some_2 _ _ Hi) as [nd Hnd].
  exists nd. split; [done|]. by eapply Forall_lookup_1 in Hnd.
Qed.

(** The loop writes from block [i], whatever [m_position] says. *)
Lemma write_loop_spec fuel : forall s i npos buf,
  at_block s i -> npos < base ->
  base * i + npos + length buf <= base * n -> 0 < length buf -> n - i <= fuel ->
  exists ns',
    write_loop fuel npos (base - npos) buf s =
      (Ok tt, moved s (m_position s + length buf) ns'
                (cursor base (base * n) (base * i + npos + length buf))) /\
    Forall (block_ok base) ns' /\ length ns' = n /\
    flat_nodes ns' = splice (base * i + npos) buf (flat s).
Proof using Hbase.
  induction fuel as [|fuel IH]; intros s i npos buf Hat Hnp Hfit Hlen Hfuel;
    [destruct Hat as (_ & _ & _ & _ & ?); lia|].
  destruct (at_block_node s i Hat) as (nd & Hnd & Hs & Hl).
  destruct Hat as (Hb & Hf & Hn & Hc & Hi).
  destruct (flat_nodes_write base (m_nodes s) i nd npos
              (take (base - npos) buf) Hf Hnd) as (Hf' & Hl' & Hfl).
  { rewrite length_take. lia. }
  cbn [write_loop]. destruct (Nat.eqb_spec (length buf) 0); [lia|].
  rewrite bind_get, Hc. destruct (Nat.leb_spec (length buf) (base - npos)).
  - rewrite (take_ge buf) in * by lia.
    rewrite (bind_Ok _ _ _ _ _ (memcpy_to_Ok s i nd npos buf Hnd ltac:(lia))).
    set (s1 := set_m_nodes _ s).
    rewrite (bind_Ok _ _ _ _ _ (node_deref_Ok s1 i _ ltac:(by apply list_lookup_insert_eq; lia))).
    rewrite (bind_Ok _ _ _ _ _ (deref_next_Some s1 i)).
    unfold next_of, s1; cbn [m_nodes set_m_nodes size]. rewrite Hl', Hn, Hs.
    exists (<[i:=mkNode (splice npos buf (ptr nd)) (size nd)]> (m_nodes s)).
    split; [|split; [done|split; [by rewrite Hl'|done]]].
    rewrite <- Nat.add_assoc.
    destruct (Nat.eqb_spec (npos + length buf) base) as [He|He].
    + rewrite He, cursor_next by done. rewrite !bind_modify. unfold moved.
      destruct fuel; ba_eq.
    + rewrite cursor_Some by lia. rewrite bind_ret_l, !bind_modify. unfold moved.
      destruct fuel; ba_eq.
  - assert (length (take (base - npos) buf) = base - npos) as Ht by (rewrite length_take; lia).
    rewrite (bind_Ok _ _ _ _ _ (memcpy_to_Ok s i nd npos _ Hnd ltac:(rewrite Ht; lia))).
    rewrite bind_modify.
    rewrite (bind_Ok _ _ _ _ _ (deref_next_Some _ i)), bind_modify.
    unfold next_of; cbn [m_nodes set_m_nodes set_m_position]. rewrite Hl', Hn.
    assert (S i < n) by nia. destruct (Nat.ltb_spec (S i) n); [|lia].
    set (s1 := set_m_curr _ _).
    assert (at_block s1 (S i)) as Hat1 by (unfold at_block, s1; simpl; rewrite Hl'; auto).
    destruct (at_block_node s1 (S i) Hat1) as (nd1 & Hnd1 & Hs1 & _).
    rewrite (bind_Ok _ _ _ _ _ (node_deref_Ok s1 _ _ Hnd1)), Hs1.
    destruct (IH s1 (S i) 0 (drop (base - npos) buf) Hat1) as (ns' & He & Hns & Hnl & Hnf);
      rewrite ?length_drop; try lia.
    rewrite Nat.sub_0_r in He. rewrite He.
    exists ns'. rewrite length_drop. unfold s1, moved in *; simpl in *.
    replace (base * S i + 0) with (base * i + npos + (base - npos)) in * by lia.
    replace (m_position s + (base - npos) + (length buf - (base - npos)))
      with (m_position s + length buf) by lia.
    replace (base * i + npos + (base - npos) + (length buf - (base - npos)))
      with (base * i + npos + length buf) by lia.
    split; [done|]. split; [done|]. split; [done|].
    rewrite Hnf. unfold flat. simpl. rewrite Hfl.
    rewrite <- Ht at 1. rewrite splice_app, take_drop; [done|].
    rewrite (length_flat_nodes base), Hn by done. lia.
Qed.

Lemma read_loop_spec fuel : forall s i npos k,
  at_block s i -> npos < base -> m_position s = base * i + npos ->
  base * i + npos + k <= base * n -> 0 < k -> n - i <= fuel ->
  read_loop fuel npos (base - npos) k s =
    (Ok (take k (drop (m_position s) (flat s))),
     moved s (m_position s + k) (m_nodes s) (cursor base (base * n) (m_position s + k))).
Proof using Hbase.
  induction fuel as [|fuel IH]; intros s i npos k Hat Hnp Hpos Hfit Hk Hfuel;
    [destruct Hat as (_ & _ & _ & _ & ?); lia|].
  destruct (at_block_node s i Hat) as (nd & Hnd & Hs & Hl).
  destruct Hat as (Hb & Hf & Hn & Hc & Hi).
  cbn [read_loop]. destruct (Nat.eqb_spec k 0); [lia|].
  rewrite bind_get, Hc. destruct (Nat.leb_spec k (base - npos)).
  - rewrite (bind_Ok _ _ _ _ _ (memcpy_from_Ok s i nd npos k Hnd ltac:(lia))).
    rewrite (bind_Ok _ _ _ _ _ (node_deref_Ok s i _ Hnd)).
    rewrite (bind_Ok _ _ _ _ _ (deref_next_Some s i)).
    rewrite (flat_nodes_read base (m_nodes s) i nd npos k Hf Hnd) by lia.
    rewrite <- Hpos. fold (flat s). unfold next_of. rewrite Hn, Hs.
    rewrite Hpos, <- Nat.add_assoc.
    destruct (Nat.eqb_spec base (npos + k)) as [He|He].
    + rewrite <- He, cursor_next by done. rewrite !bind_modify.
      destruct fuel; cbn [read_loop]; cbn [Nat.eqb]; rewrite bind_ret_l, app_nil_r; ba_eq.
    + rewrite cursor_Some by lia. rewrite bind_ret_l, !bind_modify.
      destruct fuel; cbn [read_loop]; cbn [Nat.eqb]; rewrite bind_ret_l, app_nil_r; ba_eq.
  - rewrite (bind_Ok _ _ _ _ _ (memcpy_from_Ok s i nd npos (base - npos) Hnd ltac:(lia))), bind_modify.
    rewrite (bind_Ok _ _ _ _ _ (deref_next_Some _ i)), bind_modify.
    unfold next_of; cbn [m_nodes set_m_position]. rewrite Hn.
    assert (S i < n) by nia. destruct (Nat.ltb_spec (S i) n); [|lia].
    set (s1 := set_m_curr _ _).
    assert (at_block s1 (S i)) as Hat1 by (unfold at_block, s1; simpl; auto).
    destruct (at_block_node s1 (S i) Hat1) as (nd1 & Hnd1 & Hs1 & _).
    rewrite (bind_Ok _ _ _ _ _ (node_deref_Ok s1 _ _ Hnd1)), Hs1.
    pose proof (IH s1 (S i) 0 (k - (base - npos)) Hat1) as He.
    rewrite Nat.sub_0_r in He.
    rewrite (bind_Ok _ _ _ _ _ (He ltac:(lia) ltac:(unfold s1; simpl; lia) ltac:(lia)
               ltac:(lia) ltac:(lia))).
    rewrite (flat_nodes_read base (m_nodes s) i nd npos _ Hf Hnd) by lia.
    rewrite <- Hpos. unfold flat, s1; simpl.
    rewrite <- drop_drop, take_take_drop.
    replace (base - npos + (k - (base - npos))) with k by lia.
    replace (m_position s + (base - npos) + (k - (base - npos)))
      with (m_position s + k) by lia. ba_eq.
Qed.

Lemma read_at_loop_spec fuel : forall s i j npos k,
  at_block s j -> i < n -> npos < base ->
  base * i + npos + k <= base * n -> 0 < k -> n - i <= fuel ->
  read_at_loop fuel (Some i) npos (base - npos) k s =
    (Ok (take k (drop (base * i + npos) (flat s))), s).
Proof using Hbase.
  induction fuel as [|fuel IH]; intros s i j npos k Hat Hi Hnp Hfit Hk Hfuel; [lia|].
  destruct Hat as (Hb & Hf & Hn & Hc & Hj).
  destruct (lookup_lt_is_Some_2 (m_nodes s) i ltac:(lia)) as [nd Hnd].
  assert (block_ok base nd) as [Hs Hl] by by eapply Forall_lookup_1 in Hnd.
  cbn [read_at_loop]. destruct (Nat.eqb_spec k 0); [lia|].
  destruct (Nat.leb_spec k (base - npos)).
  - rewrite (bind_Ok _ _ _ _ _ (memcpy_from_Ok s i nd npos k Hnd ltac:(lia))).
    rewrite (bind_Ok _ _ _ _ _ (node_deref_Ok s i _ Hnd)).
    rewrite (bind_Ok _ _ _ _ _ (deref_next_Some s i)).
    rewrite (flat_nodes_read base (m_nodes s) i nd npos k Hf Hnd) by lia.
    destruct fuel; cbn [read_at_loop]; cbn [Nat.eqb]; by rewrite bind_ret_l, app_nil_r.
  - rewrite (bind_Ok _ _ _ _ _ (memcpy_from_Ok s i nd npos (base - npos) Hnd ltac:(lia))).
    rewrite (bind_Ok _ _ _ _ _ (deref_next_Some _ i)).
    unfold next_of. rewrite Hn.
    assert (S i < n) by nia. destruct (Nat.ltb_spec (S i) n); [|lia].
    destruct (lookup_lt_is_Some_2 (m_nodes s) (S i) ltac:(lia)) as [nd1 Hnd1].
    assert (block_ok base nd1) as [Hs1 _] by by eapply Forall_lookup_1 in Hnd1.
    rewrite (bind_Ok _ _ _ _ _ (node_deref_Ok s _ _ Hnd1)), Hs1.
    pose proof (IH s (S i) j 0 (k - (base - npos))) as He.
    rewrite Nat.sub_0_r in He.
    rewrite (bind_Ok _ _ _ _ _ (He ltac:(unfold at_block; auto) ltac:(lia) ltac:(lia) ltac:(lia)
               ltac:(lia) ltac:(lia))).
    rewrite (flat_nodes_read base (m_nodes s) i nd npos _ Hf Hnd) by lia.
    unfold flat. replace (base * S i + 0) with (base * i + npos + (base - npos)) by lia.
    rewrite <- (drop_drop _ (base - npos) (base * i + npos)), take_take_drop.
    by replace (base - npos + (k - (base - npos))) with k by lia.
Qed.
End loops.

(** ** Well-formed buffers *)

Lemma wf_length_flat s : wf s -> length (flat s) = m_capacity s.
Proof. intros H. rewrite (wf_cap s H). apply length_flat_nodes, H. Qed.

Lemma wf_length_contents s : wf s -> length (contents s) = m_size s.
Proof.
  intros H. unfold contents. rewrite length_take, (wf_length_flat s H).
  pose proof (wf_size s H). lia.
Qed.

Lemma wf_at_block s : wf s -> m_position s < m_capacity s ->
  at_block (m_baseSize s) (length (m_nodes s)) s (m_position s / m_baseSize s) /\
  m_position s = m_baseSize s * (m_position s / m_baseSize s) + m_position s mod m_baseSize s /\
  m_position s mod m_baseSize s < m_baseSize s.
Proof.
  intros [Hb Hf Hr Hc Hp Hs Hcur] Hlt.
  pose proof (Nat.div_mod_eq (m_position s) (m_baseSize s)) as Hdm.
  pose proof (Nat.mod_upper_bound (m_position s) (m_baseSize s)).
  split; [|lia]. unfold at_block. split; [done|]. split; [done|]. split; [done|]. split.
  - rewrite Hcur. unfold cursor. by apply Nat.ltb_lt in Hlt as ->.
  - apply Nat.Div0.div_lt_upper_bound. lia.
Qed.

(** [s'] is [s] with [bs] written at the cursor of the flat sequence. *)
Record writes (s : ByteArray) (bs : list Z) (s' : ByteArray) : Prop := mkWrites {
  writes_wf : wf s';
  writes_base : m_baseSize s' = m_baseSize s;
  writes_endian : m_endian s' = m_endian s;
  writes_pos : m_position s' = m_position s + length bs;
  writes_size : m_size s' = m_size s `max` m_position s';
  writes_cap : m_capacity s <= m_capacity s';
  writes_room : m_position s' <= m_capacity s -> m_capacity s' = m_capacity s;
  writes_contents : contents s' = splice (m_position s) bs (contents s)
}.

(** Appending blocks leaves the current block of a buffer that is not full. *)
Lemma cursor_grow base n k pos :
  pos < base * n -> cursor base (base * (n + k)) pos = cursor base (base * n) pos.
Proof.
  intros H. unfold cursor.
  destruct (Nat.ltb_spec pos (base * n)), (Nat.ltb_spec pos (base * (n + k))); [done|nia|lia|lia].
Qed.

Section growth.
Context (junk : Z).

(** [add_nodes] appends [count] fresh blocks and reports the old tail. *)
Lemma add_nodes_spec count : forall s tmp first,
  add_nodes junk count tmp first s =
    (Ok (match first with None => if count =? 0 then None else Some tmp | Some _ => first end),
     set_m_capacity (m_capacity s + m_baseSize s * count)
       (set_m_nodes (m_nodes s ++ repeat (Node_ctor junk (m_baseSize s)) count) s)).
Proof.
  induction count as [|count IH]; intros s tmp first; cbn [add_nodes].
  - unfold ret. rewrite app_nil_r, Nat.mul_0_r, Nat.add_0_r. by destruct first, s.
  - rewrite !bind_modify, IH.
    cbn [set_m_capacity set_m_nodes m_capacity m_nodes m_baseSize Nat.eqb].
    f_equal; [by destruct first|].
    unfold set_m_capacity, set_m_nodes; cbn. f_equal; [lia|].
    by rewrite <- app_assoc.
Qed.

Lemma growth_enough base sz oldCap :
  0 < base -> oldCap < sz ->
  sz <= oldCap + base * (sz / base + (if oldCap <? sz mod base then 1 else 0)).
Proof.
  intros Hb Hlt. pose proof (Nat.div_mod_eq sz base).
  pose proof (Nat.mod_upper_bound sz base).
  destruct (Nat.ltb_spec oldCap (sz mod base)); lia.
Qed.

(** The state [addCapacity] leaves when the buffer is not full. *)
Definition grown (s : ByteArray) (k : nat) : ByteArray :=
  set_m_capacity (m_capacity s + m_baseSize s * k)
    (set_m_nodes (m_nodes s ++ repeat (Node_ctor junk (m_baseSize s)) k) s).

Lemma grown_0 s : grown s 0 = s.
Proof. unfold grown. rewrite Nat.mul_0_r, Nat.add_0_r, app_nil_r. by destruct s. Qed.

Lemma addCapacity_spec s sz :
  wf s -> m_position s < m_capacity s ->
  exists k, addCapacity junk sz s = (Ok tt, grown s k) /\
            m_position s + sz <= m_capacity (grown s k) /\
            (m_position s + sz <= m_capacity s -> k = 0).
Proof.
  intros Hwf Hlt. pose proof (wf_base s Hwf).
  unfold addCapacity. destruct (Nat.eqb_spec sz 0).
  { exists 0. rewrite grown_0. unfold grown; simpl. split; [done|]. split; [lia|done]. }
  rewrite bind_get. unfold getCapacity. destruct (Nat.leb_spec sz (m_capacity s - m_position s)).
  { exists 0. rewrite grown_0. unfold grown; simpl. split; [done|]. split; [lia|done]. }
  rewrite !bind_get. destruct (Nat.eqb_spec (m_baseSize s) 0); [lia|].
  rewrite bind_get.
  erewrite bind_Ok by apply add_nodes_spec.
  destruct (Nat.eqb_spec (m_capacity s - m_position s) 0); [lia|].
  eexists. split; [reflexivity|]. unfold grown; simpl.
  pose proof (growth_enough (m_baseSize s) sz (m_capacity s - m_position s)). lia.
Qed.

Lemma grown_wf s k :
  wf s -> m_position s < m_capacity s ->
  wf (grown s k) /\ contents (grown s k) = contents s /\
  m_capacity (grown s k) = m_baseSize s * length (m_nodes (grown s k)).
Proof.
  intros [Hb Hf Hr Hc Hp Hs Hcur] Hlt.
  assert (m_capacity (grown s k) = m_baseSize s * length (m_nodes (grown s k))) as Hcap.
  { unfold grown; simpl. rewrite length_app, repeat_length. lia. }
  split; [|split; [|done]].
  - constructor; unfold grown in *; simpl in *; rewrite ?length_app in *; try lia.
    + apply Forall_app; split; [done|]. apply List.Forall_forall. intros x ->%repeat_spec.
      split; simpl; [done|apply repeat_length].
    + rewrite Hcur, Hc. rewrite <- cursor_grow with (k:=k) by lia. f_equal. lia.
  - unfold contents, flat, grown; simpl. rewrite flat_nodes_app, take_app_le; [done|].
    rewrite (length_flat_nodes (m_baseSize s)) by done. lia.
Qed.

(** [take] of a splice that ends after the cut or before it. *)
Lemma take_max_splice sz pos (bs l : list Z) :
  pos <= sz -> pos + length bs <= length l -> sz <= length l ->
  take (sz `max` (pos + length bs)) (splice pos bs l) = splice pos bs (take sz l).
Proof.
  intros. unfold splice. rewrite take_take, (Nat.min_l pos sz) by lia.
  rewrite take_app_ge by (rewrite length_take; lia). f_equal.
  rewrite length_take, Nat.min_l by lia.
  rewrite take_app_ge by lia. f_equal.
  rewrite skipn_firstn_comm. f_equal. lia.
Qed.

(** Writing to a buffer that is not full overwrites the flat sequence at the
    cursor, growing it as needed. *)
Lemma write_writes s buf :
  wf s -> m_position s < m_capacity s ->
  exists s', write junk buf s = (Ok tt, s') /\ writes s buf s'.
Proof.
  intros Hwf Hlt. unfold write. destruct (Nat.leb_spec (length buf) 0) as [Hz|Hz].
  { destruct buf; [|simpl in Hz; lia]. exists s. split; [done|].
    pose proof (wf_pos s Hwf).
    constructor; rewrite ?splice_nil; simpl; auto; lia. }
  destruct (addCapacity_spec s (length buf) Hwf Hlt) as (k & Hadd & Hroom & Hk).
  rewrite (bind_Ok _ _ _ _ _ Hadd).
  destruct (grown_wf s k Hwf Hlt) as (Hwf1 & Hcont & Hcap).
  assert (m_position s + length buf <= m_capacity s -> m_capacity (grown s k) = m_capacity s) as Hsame
    by (intros Hle; rewrite (Hk Hle); by rewrite grown_0).
  assert (m_position (grown s k) = m_position s /\ m_size (grown s k) = m_size s /\
          m_baseSize (grown s k) = m_baseSize s /\ m_endian (grown s k) = m_endian s /\
          m_capacity s <= m_capacity (grown s k))
    as (Hp1 & Hs1 & Hb1 & He1 & Hc1) by (unfold grown; simpl; repeat split; lia).
  set (s1 := grown s k) in *. clearbody s1.
  destruct (wf_at_block s1 Hwf1 ltac:(lia)) as (Hat & Hpos & Hoff).
  rewrite bind_get. rewrite (bind_Ok _ _ _ _ _ (mod_base_Ok s1 _ (wf_base _ Hwf1))), !bind_get.
  edestruct (write_loop_spec (m_baseSize s1) (length (m_nodes s1)) (wf_base _ Hwf1)
              (S (length (m_nodes s1))) s1 (m_position s1 / m_baseSize s1)
              (m_position s1 mod m_baseSize s1) buf Hat Hoff)
    as (ns' & Hloop & Hf & Hn & Hfl); [lia..|].
  rewrite (bind_Ok _ _ _ _ _ Hloop).
  rewrite !bind_get. rewrite <- Hb1 in Hcap. rewrite <- Hcap.
  rewrite <- Hpos in *.
  set (s2 := moved _ _ _ _).
  exists (set_m_size (m_size s `max` (m_position s + length buf)) s2).
  pose proof (wf_pos s Hwf). pose proof (wf_size s Hwf).
  split.
  - unfold s2; simpl. rewrite Hp1, Hs1.
    destruct (Nat.ltb_spec (m_size s) (m_position s + length buf)).
    + unfold modify. do 2 f_equal. lia.
    + unfold ret, set_m_size, moved; simpl. do 2 f_equal. lia.
  - pose proof (wf_length_flat s1 Hwf1) as Hfs1.
    constructor; unfold s2; simpl; try lia.
    + constructor; unfold moved; simpl; rewrite ?Hn; auto; try lia.
      all: apply Hwf1.
    + rewrite <- Hcont. unfold contents, flat; simpl. rewrite Hfl, Hp1, Hs1.
      apply take_max_splice; unfold flat in *; lia.
Qed.
End growth.

(** ** Reading *)

(** [s] after [n] bytes have been consumed. *)
Definition advanced (s : ByteArray) (n : nat) : ByteArray :=
  moved s (m_position s + n) (m_nodes s)
    (cursor (m_baseSize s) (m_capacity s) (m_position s + n)).

Lemma advanced_wf s n :
  wf s -> m_position s + n <= m_size s -> wf (advanced s n) /\ contents (advanced s n) = contents s.
Proof.
  intros [] Hn. split; [|done]. constructor; unfold advanced; simpl; auto.
Qed.

Lemma contents_read s n :
  wf s -> m_position s + n <= m_size s ->
  take n (drop (m_position s) (flat s)) = take n (drop (m_position s) (contents s)).
Proof.
  intros Hwf Hn. unfold contents. rewrite !take_drop_commute, take_take. f_equal. f_equal. lia.
Qed.

Lemma read_reads s n :
  wf s -> m_position s < m_capacity s -> m_position s + n <= m_size s ->
  read n s = (Ok (take n (drop (m_position s) (contents s))), advanced s n).
Proof.
  intros Hwf Hlt Hn. destruct (wf_at_block s Hwf Hlt) as (Hat & Hpos & Hoff).
  destruct (at_block_node _ _ s _ Hat) as (nd & Hnd & Hs & Hl).
  pose proof Hat as (_ & _ & _ & Hc & _).
  unfold read. rewrite bind_get. unfold getReadableSize.
  destruct (Nat.ltb_spec (m_size s - m_position s) n); [lia|].
  rewrite bind_get, (bind_Ok _ _ _ _ _ (mod_base_Ok s _ (wf_base _ Hwf))), bind_get, Hc.
  rewrite (bind_Ok _ _ _ _ _ (node_deref_Ok s _ nd Hnd)), bind_get, Hs.
  destruct (decide (n = 0)) as [->|].
  { cbn [read_loop]. cbn [Nat.eqb]. unfold ret, advanced, moved. rewrite Nat.add_0_r.
    rewrite <- (wf_curr s Hwf). by destruct s. }
  rewrite <- (contents_read s n Hwf Hn). unfold advanced. rewrite (wf_cap s Hwf).
  apply (read_loop_spec (m_baseSize s) (length (m_nodes s)) (wf_base _ Hwf)) with
    (i := m_position s / m_baseSize s); auto; try lia.
  rewrite <- Hpos. pose proof (wf_size s Hwf). pose proof (wf_cap s Hwf). lia.
Qed.

Lemma read_throws s n :
  m_size s - m_position s < n -> read n s = (Throw out_of_range, s).
Proof.
  intros H. unfold read. rewrite bind_get. unfold getReadableSize.
  by apply Nat.ltb_lt in H as ->.
Qed.

Lemma read_at_reads s n pos :
  wf s -> m_position s < m_capacity s -> m_position s + n <= m_size s ->
  read_at n pos s = (Ok (take n (drop (m_position s) (contents s))), s).
Proof.
  intros Hwf Hlt Hn. destruct (wf_at_block s Hwf Hlt) as (Hat & Hpos & Hoff).
  destruct (at_block_node _ _ s _ Hat) as (nd & Hnd & Hs & Hl).
  pose proof Hat as (_ & _ & _ & Hc & Hi).
  unfold read_at. rewrite bind_get. unfold getReadableSize.
  destruct (Nat.ltb_spec (m_size s - m_position s) n); [lia|].
  rewrite bind_get, (bind_Ok _ _ _ _ _ (mod_base_Ok s _ (wf_base _ Hwf))), bind_get, Hc.
  rewrite (bind_Ok _ _ _ _ _ (node_deref_Ok s _ nd Hnd)), bind_get, Hs.
  destruct (decide (n = 0)) as [->|]; [done|].
  rewrite <- (contents_read s n Hwf Hn). rewrite Hpos at 4.
  eapply (read_at_loop_spec (m_baseSize s) (length (m_nodes s))); eauto; try lia.
  rewrite <- Hpos. pose proof (wf_size s Hwf). pose proof (wf_cap s Hwf). lia.
Qed.

(** ** Repositioning *)

(** [setPosition] counts blocks from the current one. *)
Lemma seek_loop_spec fuel : forall s base i pos,
  0 < base -> m_baseSize s = base -> Forall (block_ok base) (m_nodes s) ->
  m_curr s = Some i -> i < length (m_nodes s) -> length (m_nodes s) - i <= fuel ->
  seek_loop fuel pos s =
    if i + pos / base <? length (m_nodes s)
    then (Ok tt, set_m_curr (Some (i + pos / base)) s)
    else (UB, set_m_curr None s).
Proof.
  induction fuel as [|fuel IH]; intros s base i pos Hb Hbase Hf Hc Hi Hfuel; [lia|].
  destruct (lookup_lt_is_Some_2 (m_nodes s) i Hi) as [nd Hnd].
  assert (block_ok base nd) as [Hs Hl] by by eapply Forall_lookup_1 in Hnd.
  cbn [seek_loop]. rewrite bind_get, Hc, (bind_Ok _ _ _ _ _ (node_deref_Ok s i nd Hnd)), Hs.
  destruct (Nat.leb_spec base pos) as [Hle|Hlt].
  - rewrite (bind_Ok _ _ _ _ _ (deref_next_Some s i)), bind_modify.
    assert (pos / base = S ((pos - base) / base)) as Hdiv.
    { replace pos with ((pos - base) + 1 * base) at 1 by lia. rewrite Nat.div_add by lia. lia. }
    unfold next_of. destruct (Nat.ltb_spec (S i) (length (m_nodes s))) as [Hn|Hn].
    + rewrite (IH _ base (S i)); simpl; auto; [|lia].
      rewrite Hdiv, Nat.add_succ_r. done.
    + destruct (Nat.ltb_spec (i + pos / base) (length (m_nodes s))); [lia|].
      by destruct fuel.
  - rewrite Nat.div_small, Nat.add_0_r by done.
    destruct (Nat.ltb_spec i (length (m_nodes s))); [|lia].
    unfold ret, set_m_curr. rewrite <- Hc. by destruct s.
Qed.

Lemma setPosition_spec s i pos :
  wf s -> m_curr s = Some i -> pos <= m_size s ->
  setPosition pos s =
    if i + pos / m_baseSize s <? length (m_nodes s)
    then (Ok tt, moved s pos (m_nodes s) (Some (i + pos / m_baseSize s)))
    else (UB, moved s pos (m_nodes s) None).
Proof.
  intros Hwf Hc Hpos. unfold setPosition. rewrite bind_get.
  destruct (Nat.ltb_spec (m_size s) pos); [lia|]. rewrite bind_modify, bind_get.
  assert (i < length (m_nodes s)) as Hi.
  { pose proof Hc as Hc'. rewrite (wf_curr s Hwf) in Hc'. unfold cursor in Hc'.
    destruct (Nat.ltb_spec (m_position s) (m_capacity s)); simplify_eq.
    rewrite (wf_cap s Hwf) in *. by apply Nat.Div0.div_lt_upper_bound. }
  rewrite (seek_loop_spec _ _ (m_baseSize s) i); simpl; auto; try lia; try apply Hwf.
Qed.

(** While the current block is the first, repositioning is exact. *)
Lemma setPosition_root s pos :
  wf s -> m_curr s = Some 0 -> pos <= m_size s -> pos < m_capacity s ->
  exists s', setPosition pos s = (Ok tt, s') /\ wf s' /\
    s' = moved s pos (m_nodes s) (Some (pos / m_baseSize s)) /\ contents s' = contents s.
Proof.
  intros Hwf Hc Hpos Hcap. pose proof (wf_cap s Hwf).
  assert (pos / m_baseSize s < length (m_nodes s)) as Hlt
    by (apply Nat.Div0.div_lt_upper_bound; lia).
  eexists. rewrite (setPosition_spec s 0 pos) by done. simpl.
  apply Nat.ltb_lt in Hlt as ->. split; [done|]. split; [|done].
  destruct Hwf; constructor; unfold moved; simpl; auto.
  unfold cursor. by apply Nat.ltb_lt in Hcap as ->.
Qed.

(** ** Construction and clearing *)

Lemma ByteArray_ctor_wf junk base : 0 < base -> wf (ByteArray_ctor junk base).
Proof.
  intros Hb. constructor; simpl; try lia.
  - repeat constructor. simpl. apply repeat_length.
  - unfold cursor. apply Nat.ltb_lt in Hb as Hb'. rewrite Hb'. by rewrite Nat.Div0.div_0_l.
Qed.

Lemma clear_wf s :
  0 < m_baseSize s -> Forall (block_ok (m_baseSize s)) (m_nodes s) -> 0 < length (m_nodes s) ->
  exists s', clear s = (Ok tt, s') /\ wf s' /\ contents s' = [] /\ m_position s' = 0 /\
             m_baseSize s' = m_baseSize s /\ m_endian s' = m_endian s.
Proof.
  intros Hb Hf Hn. eexists. split; [reflexivity|]. split; [|done].
  destruct (m_nodes s) as [|n ns] eqn:Hns; simpl in *; [lia|].
  constructor; simpl; rewrite ?Hns; simpl; try lia.
  - inversion_clear Hf. repeat constructor; done || by apply H.
  - unfold cursor. apply Nat.ltb_lt in Hb as Hb'. rewrite Hb'. by rewrite Nat.Div0.div_0_l.
Qed.

(** ** Scatter/gather lists *)

(** The segments cover the flat range [[p, p + len)] in order, each inside one
    block. *)
Fixpoint tiles (base p len : nat) (segs : list iovec) : Prop :=
  match segs with
  | [] => len = 0
  | v :: segs =>
      base * iov_node v + iov_off v = p /\ iov_off v + iov_len v <= base /\
      0 < iov_len v <= len /\ tiles base (p + iov_len v) (len - iov_len v) segs
  end.

(** What [sendmsg] transmits for a list of segments. *)
Definition gather (ns : list Node) (segs : list iovec) : list Z :=
  concat (map (fun v => match ns !! iov_node v with
                        | Some n => take (iov_len v) (drop (iov_off v) (ptr n))
                        | None => []
                        end) segs).

Lemma tiles_gather base ns segs : forall p len,
  Forall (block_ok base) ns -> p + len <= base * length ns -> tiles base p len segs ->
  gather ns segs = take len (drop p (flat_nodes ns)).
Proof.
  induction segs as [|v segs IH]; intros p len Hf Hfit Ht; simpl in Ht.
  - subst len. done.
  - destruct Ht as (Hp & Hin & Hl & Ht). unfold gather; simpl. fold (gather ns segs).
    destruct (ns !! iov_node v) as [n|] eqn:Hn.
    + rewrite (flat_nodes_read base ns _ n) by done. rewrite Hp.
      rewrite (IH (p + iov_len v) (len - iov_len v)) by (done || lia).
      rewrite <- (drop_drop _ (iov_len v) p), take_take_drop. f_equal. lia.
    + apply lookup_ge_None in Hn. nia.
Qed.

Section segments.
Context (base n : nat) (Hbase : 0 < base).

Lemma addReadBuffers_loop_spec fuel : forall s i npos len buff,
  m_baseSize s = base -> Forall (block_ok base) (m_nodes s) -> length (m_nodes s) = n ->
  i < n -> npos < base -> base * i + npos + len <= base * n -> 0 < len -> n - i <= fuel ->
  exists segs,
    addReadBuffers_loop fuel (Some i) npos (base - npos) len buff s = (Ok (buff ++ segs), s) /\
    tiles base (base * i + npos) len segs.
Proof using Hbase.
  induction fuel as [|fuel IH]; intros s i npos len buff Hb Hf Hn Hi Hnp Hfit Hlen Hfuel; [lia|].
  destruct (lookup_lt_is_Some_2 (m_nodes s) i ltac:(lia)) as [nd Hnd].
  cbn [addReadBuffers_loop]. destruct (Nat.eqb_spec len 0); [lia|].
  rewrite (bind_Ok _ _ _ _ _ (node_deref_Ok s i nd Hnd)). cbv zeta. change (default 0 (Some i)) with i.
  destruct (Nat.leb_spec len (base - npos)).
  - exists [mkIovec i npos len]. split; [by destruct fuel|]. simpl. lia.
  - rewrite (bind_Ok _ _ _ _ _ (deref_next_Some _ i)). unfold next_of. rewrite Hn.
    assert (S i < n) by nia. destruct (Nat.ltb_spec (S i) n); [|lia].
    destruct (lookup_lt_is_Some_2 (m_nodes s) (S i) ltac:(lia)) as [nd1 Hnd1].
    assert (block_ok base nd1) as [Hs1 _] by by eapply Forall_lookup_1 in Hnd1.
    rewrite (bind_Ok _ _ _ _ _ (node_deref_Ok s _ _ Hnd1)), Hs1.
    destruct (IH s (S i) 0 (len - (base - npos)) (buff ++ [mkIovec i npos (base - npos)]))
      as (segs & He & Ht); auto; try lia.
    rewrite Nat.sub_0_r in He. rewrite He.
    exists (mkIovec i npos (base - npos) :: segs). split; [by rewrite <- app_assoc|].
    simpl. split; [lia|]. split; [lia|]. split; [lia|].
    by replace (base * i + npos + (base - npos)) with (base * S i + 0) by lia.
Qed.

(** [addWriteBuffers] needs room for one byte more than it hands out: at the
    exact end of the last block it steps to the null block. *)
Lemma addWriteBuffers_loop_spec fuel : forall s i npos len buff,
  m_baseSize s = base -> Forall (block_ok base) (m_nodes s) -> length (m_nodes s) = n ->
  i < n -> npos < base -> base * i + npos + len <= base * n -> 0 < len -> n - i <= fuel ->
  if base * i + npos + len <? base * n
  then exists segs,
    addWriteBuffers_loop fuel (Some i) npos (base - npos) len buff s =
      (Ok (buff ++ segs), set_m_size (m_size s + len) s) /\
    tiles base (base * i + npos) len segs
  else fst (addWriteBuffers_loop fuel (Some i) npos (base - npos) len buff s) = UB.
Proof using Hbase.
  induction fuel as [|fuel IH]; intros s i npos len buff Hb Hf Hn Hi Hnp Hfit Hlen Hfuel; [lia|].
  destruct (lookup_lt_is_Some_2 (m_nodes s) i ltac:(lia)) as [nd Hnd].
  cbn [addWriteBuffers_loop]. destruct (Nat.eqb_spec len 0); [lia|].
  rewrite (bind_Ok _ _ _ _ _ (node_deref_Ok s i nd Hnd)). cbv zeta. change (default 0 (Some i)) with i.
  destruct (Nat.ltb_spec len (base - npos)).
  { destruct (Nat.ltb_spec (base * i + npos + len) (base * n)); [|nia].
    exists [mkIovec i npos len]. split; [by destruct fuel|]. simpl. lia. }
  rewrite bind_modify, (bind_Ok _ _ _ _ _ (deref_next_Some _ i)). unfold next_of.
  cbn [m_nodes set_m_size]. rewrite Hn. destruct (Nat.ltb_spec (S i) n).
  2: { destruct (Nat.ltb_spec (base * i + npos + len) (base * n)); [nia|]. done. }
  destruct (lookup_lt_is_Some_2 (m_nodes s) (S i) ltac:(lia)) as [nd1 Hnd1].
  assert (block_ok base nd1) as [Hs1 _] by by eapply Forall_lookup_1 in Hnd1.
  set (s1 := set_m_size _ s).
  rewrite (bind_Ok _ _ _ _ _ (node_deref_Ok s1 _ nd1 Hnd1)), Hs1.
  destruct (decide (len = base - npos)) as [->|].
  - destruct (Nat.ltb_spec (base * i + npos + (base - npos)) (base * n)); [|nia].
    exists [mkIovec i npos (base - npos)]. rewrite Nat.sub_diag.
    split; [by destruct fuel|]. simpl. lia.
  - pose proof (IH s1 (S i) 0 (len - (base - npos)) (buff ++ [mkIovec i npos (base - npos)])) as Hrec.
    replace (base * S i + 0 + (len - (base - npos))) with (base * i + npos + len) in Hrec by lia.
    rewrite Nat.sub_0_r in Hrec.
    destruct (Nat.ltb_spec (base * i + npos + len) (base * n)); [|apply Hrec; auto; lia].
    destruct Hrec as (segs & He & Ht); auto; try lia.
    exists (mkIovec i npos (base - npos) :: segs). split.
    + rewrite He, <- app_assoc. unfold s1, set_m_size; simpl. do 2 f_equal. lia.
    + simpl. split; [lia|]. split; [lia|]. split; [lia|].
      by replace (base * i + npos + (base - npos)) with (base * S i + 0) by lia.
Qed.
End segments.
