(* ===== verification/Codec.v ===== *)
(** * Codec: the typed reads and writes of the byte buffer

    Zigzag and varint arithmetic, and the interface [Codec] that every
    write/read pair of [ByteArray] satisfies: the writer overwrites the flat
    buffer with the encoding of its argument, and the reader recovers the
    argument from any buffer that holds that encoding at its cursor. *)

From stdpp Require Import base list numbers.
From S2P Require Import Prelude Words ByteArray ByteArraySpec.

Open Scope Z_scope.

(** ** Zigzag *)

(** The interleaving zigzag computes: 0, -1, 1, -2, 2, ... *)
Definition zigzag (v : Z) : Z := if v <? 0 then - v * 2 - 1 else v * 2.

Lemma pow_half w : 0 < w -> 2 ^ w = 2 * 2 ^ (w - 1).
Proof. intros. rewrite <- Z.pow_succ_r by lia. f_equal. lia. Qed.

Lemma EncodeZigzag_zigzag w v :
  1 < w -> - 2 ^ (w - 1) < v -> v < 2 ^ (w - 2) -> EncodeZigzag w v = Ok (zigzag v).
Proof.
  intros Hw Hl Hh. unfold EncodeZigzag, zigzag.
  pose proof (pow_half w ltac:(lia)). pose proof (pow_half (w - 1) ltac:(lia)) as Hp.
  replace (w - 1 - 1) with (w - 2) in Hp by lia.
  destruct (Z.ltb_spec v 0).
  - destruct (Z.eqb_spec v (- 2 ^ (w - 1))); [lia|]. unfold wrap.
    rewrite (Z.mod_small (- v)) by lia. rewrite (Z.mod_small (- v * 2)) by lia.
    rewrite Z.mod_small by lia. done.
  - destruct (Z.leb_spec (2 ^ (w - 1)) (v * 2)); [lia|]. unfold wrap.
    rewrite Z.mod_small by lia. done.
Qed.

Lemma testbit_high w x k : 0 <= x < 2 ^ w -> 0 <= w <= k -> Z.testbit x k = false.
Proof.
  intros Hx Hk. rewrite <- (Z.mod_small x (2 ^ w)) by lia. apply Z.mod_pow2_bits_high. lia.
Qed.

Lemma lxor_ones_sub w x : 0 <= w -> 0 <= x < 2 ^ w -> Z.lxor x (Z.ones w) = Z.ones w - x.
Proof.
  intros Hw Hx. rewrite Z.sub_nocarry_ldiff.
  - apply Z.bits_inj'. intros k Hk. rewrite Z.lxor_spec, Z.ldiff_spec.
    destruct (Z.lt_ge_cases k w).
    + rewrite Z.ones_spec_low by lia. by destruct (Z.testbit x k).
    + by rewrite Z.ones_spec_high, (testbit_high w x) by lia.
  - apply Z.bits_inj'. intros k Hk. rewrite Z.ldiff_spec, Z.bits_0.
    destruct (Z.lt_ge_cases k w).
    + rewrite Z.ones_spec_low by lia. apply andb_false_r.
    + by rewrite (testbit_high w x) by lia.
Qed.

(** The bit trick of [DecodeZigzag32]/[64] in arithmetic. *)
Lemma DecodeZigzag_arith w u :
  1 < w -> 0 <= u < 2 ^ w ->
  DecodeZigzag w u = if Z.even u then u / 2 else - (u / 2) - 1.
Proof.
  intros Hw Hu. unfold DecodeZigzag.
  rewrite Z.shiftr_div_pow2 by lia. change (2 ^ 1) with 2.
  assert (Z.land u 1 = u mod 2) as -> by (change 1 with (Z.ones 1); by rewrite Z.land_ones by lia).
  pose proof (pow_half w ltac:(lia)). pose proof (Z.div_mod u 2 ltac:(lia)).
  pose proof (Z.mod_pos_bound u 2 ltac:(lia)).
  assert (u / 2 < 2 ^ (w - 1)) by (apply Z.div_lt_upper_bound; lia).
  assert (0 <= u / 2) by (apply Z.div_pos; lia).
  rewrite Zeven_mod. destruct (Z.eqb_spec (u mod 2) 0) as [->|].
  - unfold wrap. rewrite Z.mod_0_l, Z.lxor_0_r by lia.
    rewrite <- (swrap_wrap w (u / 2)) at 2 by (unfold in_s; lia).
    unfold wrap. rewrite Z.mod_small by lia. done.
  - replace (u mod 2) with 1 by lia. unfold wrap.
    assert (- (1) mod 2 ^ w = Z.ones w) as ->.
    { rewrite Z.ones_equiv, <- (Z_mod_plus_full _ 1), Z.mod_small; lia. }
    rewrite lxor_ones_sub by lia. rewrite Z.ones_equiv.
    rewrite <- (swrap_wrap w (- (u / 2) - 1)) by (unfold in_s; lia).
    f_equal. unfold wrap. rewrite <- (Z_mod_plus_full _ 1), Z.mod_small; lia.
Qed.

Lemma zigzag_range w v : 0 <= w -> - 2 ^ w <= v -> v < 2 ^ w -> 0 <= zigzag v < 2 ^ (w + 1).
Proof.
  intros. unfold zigzag. rewrite Z.pow_add_r by lia.
  destruct (Z.ltb_spec v 0); lia.
Qed.

Lemma DecodeZigzag_zigzag w v :
  1 < w -> - 2 ^ (w - 1) <= v < 2 ^ (w - 1) -> DecodeZigzag w (zigzag v) = v.
Proof.
  intros Hw Hv. pose proof (zigzag_range (w - 1) v ltac:(lia) ltac:(lia) ltac:(lia)) as Hr.
  replace (w - 1 + 1) with w in Hr by lia.
  rewrite DecodeZigzag_arith by lia. unfold zigzag.
  destruct (Z.ltb_spec v 0).
  - replace (- v * 2 - 1) with (1 + (- v - 1) * 2) by lia.
    rewrite Z.even_add, Z.even_mul, Z.div_add by lia. rewrite orb_comm.
    change (Z.even 2) with true. change (Z.even 1) with false. cbn [orb Bool.eqb]. change (1 / 2) with 0. simpl. lia.
  - rewrite Z.mul_comm, Z.even_mul. simpl. rewrite Z.mul_comm, Z.div_mul; lia.
Qed.

(** ** Reading back what was written *)

Local Open Scope nat_scope.

(** The bytes from the cursor on start with [bs]. *)
Definition holds (s : ByteArray) (bs : list Z) : Prop :=
  exists rest, drop (m_position s) (contents s) = bs ++ rest.

(** [s] repositioned at [p]: what [setPosition] is meant to do. *)
Definition seek (s : ByteArray) (p : nat) : ByteArray :=
  moved s p (m_nodes s) (cursor (m_baseSize s) (m_capacity s) p).

Lemma seek_wf s p : wf s -> p <= m_size s -> wf (seek s p) /\ contents (seek s p) = contents s.
Proof. intros [] Hp. split; [|done]. constructor; unfold seek; simpl; auto. Qed.

Lemma advanced_0 s : wf s -> advanced s 0 = s.
Proof.
  intros Hwf. unfold advanced, moved. rewrite Nat.add_0_r, <- (wf_curr s Hwf). by destruct s.
Qed.

Lemma advanced_advanced s a b : advanced (advanced s a) b = advanced s (a + b).
Proof. unfold advanced, moved; simpl. by rewrite Nat.add_assoc. Qed.

Lemma holds_size s bs : wf s -> holds s bs -> m_position s + length bs <= m_size s.
Proof.
  intros Hwf [rest Hr]. apply (f_equal length) in Hr.
  rewrite length_drop, (wf_length_contents s Hwf), length_app in Hr.
  pose proof (wf_pos s Hwf). lia.
Qed.

Lemma read_holds s bs :
  wf s -> holds s bs -> m_position s < m_capacity s ->
  read (length bs) s = (Ok bs, advanced s (length bs)).
Proof.
  intros Hwf Hh Hlt. pose proof (holds_size s bs Hwf Hh).
  rewrite read_reads by done. destruct Hh as [rest ->]. by rewrite take_app_length.
Qed.

Lemma holds_app_l s b1 b2 : holds s (b1 ++ b2) -> holds s b1.
Proof. intros [rest Hr]. exists (b2 ++ rest). by rewrite app_assoc. Qed.

Lemma holds_app_r s b1 b2 : holds s (b1 ++ b2) -> holds (advanced s (length b1)) b2.
Proof.
  intros [rest Hr]. exists rest. unfold advanced; simpl.
  change (contents (moved _ _ _ _)) with (contents s).
  by rewrite <- drop_drop, Hr, <- app_assoc, drop_app_length.
Qed.

Lemma writes_holds s bs s' : wf s -> writes s bs s' -> holds (seek s' (m_position s)) bs.
Proof.
  intros Hwf Hw. unfold holds, seek; simpl.
  change (contents (moved _ _ _ _)) with (contents s').
  rewrite (writes_contents _ _ _ Hw).
  exists (drop (m_position s + length bs) (contents s)). unfold splice.
  rewrite drop_app_length'; [done|]. rewrite length_take, (wf_length_contents s Hwf).
  pose proof (wf_pos s Hwf). lia.
Qed.

Lemma writes_app s a s1 b s2 :
  wf s -> writes s a s1 -> writes s1 b s2 -> writes s (a ++ b) s2.
Proof.
  intros Hwf Ha Hb. pose proof (wf_pos s Hwf).
  pose proof (writes_pos _ _ _ Ha) as Hp. pose proof (writes_pos _ _ _ Hb).
  pose proof (writes_size _ _ _ Ha). pose proof (writes_size _ _ _ Hb).
  pose proof (writes_cap _ _ _ Ha). pose proof (writes_cap _ _ _ Hb).
  constructor; rewrite ?length_app; try lia.
  - apply Hb.
  - by rewrite (writes_base _ _ _ Hb), (writes_base _ _ _ Ha).
  - by rewrite (writes_endian _ _ _ Hb), (writes_endian _ _ _ Ha).
  - intros Hr. pose proof (writes_room _ _ _ Ha ltac:(lia)).
    pose proof (writes_room _ _ _ Hb ltac:(lia)). lia.
  - rewrite (writes_contents _ _ _ Hb), (writes_contents _ _ _ Ha), Hp, splice_app; [done|].
    by rewrite (wf_length_contents s Hwf).
Qed.

Lemma writes_refl s : wf s -> writes s [] s.
Proof. intros Hwf. pose proof (wf_pos s Hwf). constructor; rewrite ?splice_nil; simpl; auto; lia. Qed.

(** ** The interface *)

(** A write/read pair with its wire format: [enc e a] are the bytes of [a]
    under byte order [e], for the values in [dom].  The side condition keeps the cursor inside the
    allocated blocks; at the exact end of the last block the buffer
    misbehaves, see [write_full_overwrites]. *)
Class Codec {A : Type} (dom : A -> Prop) (enc : Z -> A -> list Z)
    (wr : A -> comp ByteArray unit) (rd : comp ByteArray A) : Prop := {
  codec_write s a :
    wf s -> dom a -> m_position s + length (enc (m_endian s) a) < m_capacity s ->
    exists s', wr a s = (Ok tt, s') /\ writes s (enc (m_endian s) a) s';
  codec_read s a :
    wf s -> dom a -> holds s (enc (m_endian s) a) ->
    m_position s + length (enc (m_endian s) a) < m_capacity s ->
    rd s = (Ok a, advanced s (length (enc (m_endian s) a)))
}.

(** A sequence of values. *)
Fixpoint write_all {A} (wr : A -> comp ByteArray unit) (l : list A) : comp ByteArray unit :=
  match l with
  | [] => ret tt
  | a :: l => do! wr a in write_all wr l
  end.

Fixpoint read_all {A} (rd : comp ByteArray A) (n : nat) : comp ByteArray (list A) :=
  match n with
  | O => ret []
  | S n => let! a := rd in let! l := read_all rd n in ret (a :: l)
  end.

Section codec.
Context {A : Type} (dom : A -> Prop) (enc : Z -> A -> list Z).
Context (wr : A -> comp ByteArray unit) (rd : comp ByteArray A).
Context {C : Codec dom enc wr rd}.

Definition enc_all (e : Z) (l : list A) : list Z := concat (map (enc e) l).

Lemma write_all_writes l : forall s,
  wf s -> Forall dom l -> m_position s + length (enc_all (m_endian s) l) < m_capacity s ->
  exists s', write_all wr l s = (Ok tt, s') /\ writes s (enc_all (m_endian s) l) s'.
Proof using C.
  induction l as [|a l IH]; intros s Hwf Hd Hroom; cbn [write_all].
  - exists s. split; [done|]. by apply writes_refl.
  - inversion_clear Hd. unfold enc_all in *; simpl in *. rewrite length_app in Hroom.
    destruct (codec_write s a) as (s1 & Hs1 & Hw); auto; [lia|].
    pose proof (writes_endian _ _ _ Hw) as He. pose proof (writes_pos _ _ _ Hw).
    pose proof (writes_cap _ _ _ Hw).
    destruct (IH s1) as (s2 & Hs2 & Hw2); rewrite ?He; auto; [apply Hw|lia|].
    exists s2. rewrite (bind_Ok _ _ _ _ _ Hs1). split; [done|].
    rewrite He in Hw2. by eapply writes_app.
Qed.

Lemma read_all_reads l : forall s,
  wf s -> Forall dom l -> holds s (enc_all (m_endian s) l) ->
  m_position s + length (enc_all (m_endian s) l) < m_capacity s ->
  read_all rd (length l) s = (Ok l, advanced s (length (enc_all (m_endian s) l))).
Proof using C.
  induction l as [|a l IH]; intros s Hwf Hd Hh Hroom; cbn [read_all length].
  - unfold enc_all; simpl. by rewrite advanced_0.
  - inversion_clear Hd. unfold enc_all in *; simpl in *. rewrite length_app in *.
    rewrite (bind_Ok _ _ _ _ _ (codec_read s a Hwf H (holds_app_l _ _ _ Hh) ltac:(lia))).
    pose proof (holds_size _ _ Hwf Hh) as Hsz. rewrite length_app in Hsz.
    destruct (advanced_wf s (length (enc (m_endian s) a)) Hwf ltac:(lia)) as [Hwf1 _].
    erewrite bind_Ok; [|apply IH; auto; [by apply holds_app_r|simpl; lia]].
    unfold ret. by rewrite advanced_advanced.
Qed.

(** Write a sequence, go back, read it: all inside the first block, where
    [setPosition] is exact. *)
Lemma write_seek_read l s :
  wf s -> Forall dom l ->
  m_position s + length (enc_all (m_endian s) l) < m_baseSize s ->
  exists s1 s2 s3,
    write_all wr l s = (Ok tt, s1) /\
    setPosition (m_position s) s1 = (Ok tt, s2) /\
    read_all rd (length l) s2 = (Ok l, s3) /\
    m_position s3 = m_position s1.
Proof using C.
  intros Hwf Hd Hroom. pose proof (wf_cap s Hwf). pose proof (wf_root s Hwf).
  destruct (write_all_writes l s Hwf Hd) as (s1 & Hs1 & Hw); [nia|].
  pose proof (writes_wf _ _ _ Hw) as Hwf1. pose proof (writes_base _ _ _ Hw) as Hb.
  pose proof (writes_pos _ _ _ Hw) as Hp. pose proof (writes_cap _ _ _ Hw) as Hc.
  pose proof (writes_endian _ _ _ Hw) as He. pose proof (wf_pos s1 Hwf1) as Hps.
  assert (m_position s1 < m_capacity s1) by nia.
  destruct (setPosition_root s1 (m_position s)) as (s2 & Hs2 & Hwf2 & E2 & _); auto; try lia.
  { rewrite (wf_curr s1 Hwf1). unfold cursor. rewrite Hb.
    destruct (Nat.ltb_spec (m_position s1) (m_capacity s1)); [|lia].
    by rewrite Nat.div_small by lia. }
  assert (s2 = seek s1 (m_position s)) as ->.
  { rewrite E2. unfold seek, cursor.
    by destruct (Nat.ltb_spec (m_position s) (m_capacity s1)); [|lia]. }
  exists s1. eexists. eexists. split; [done|]. split; [done|]. split.
  - apply read_all_reads; auto; change (m_endian (seek s1 _)) with (m_endian s1); rewrite He.
    + by eapply writes_holds.
    + unfold seek; simpl. lia.
  - unfold seek, advanced; simpl. rewrite He. lia.
Qed.
End codec.

(** ** Fixed-width integers *)

Definition int_dom (T : int_type) (v : Z) : Prop :=
  match T with
  | uint16_t => in_u 16 v | uint32_t => in_u 32 v | uint64_t => in_u 64 v
  | int16_t => in_s 16 v | int32_t => in_s 32 v | int64_t => in_s 64 v
  end.

(** The value whose object representation is stored under byte order [e]. *)
Definition int_out (T : int_type) (e v : Z) : Z :=
  if (e =? CCZOE_BYTE_ORDER)%Z then v else byteswap T v.

Definition int_enc (T : int_type) (e v : Z) : list Z := le_bytes (sizeof T) (int_out T e v).

Lemma int_out_dom T e v : int_dom T v -> int_dom T (int_out T e v).
Proof.
  unfold int_out. destruct (_ =? _)%Z; [done|].
  destruct T; simpl; auto; intros _; [apply (bswap_in_u 2)|apply (bswap_in_u 4)|apply (bswap_in_u 8)].
Qed.

Lemma int_out_involutive T e v : int_dom T v -> int_out T e (int_out T e v) = v.
Proof.
  unfold int_out. destruct (_ =? _)%Z; [done|].
  destruct T; simpl; auto;
    [apply (bswap_involutive 2)|apply (bswap_involutive 4)|apply (bswap_involutive 8)].
Qed.

Lemma int_value_le_bytes T v : int_dom T v -> int_value T (le_bytes (sizeof T) v) = v.
Proof.
  destruct T; cbn [int_dom int_value sizeof]; intros Hv; rewrite of_le_le_bytes;
    first [by apply swrap_wrap | by apply Z.mod_small].
Qed.

#[export] Instance codec_int junk T : Codec (int_dom T) (int_enc T) (swap_out junk T) (swap_in T).
Proof.
  split.
  - intros s v Hwf Hd Hroom. unfold swap_out. rewrite bind_get.
    apply write_writes; [done|lia].
  - intros s v Hwf Hd Hh Hroom. unfold swap_in.
    rewrite <- (length_le_bytes (sizeof T) (int_out T (m_endian s) v)) at 1.
    erewrite bind_Ok by (apply read_holds; auto; unfold int_enc in *; lia).
    rewrite bind_get, int_value_le_bytes by by apply int_out_dom.
    change (m_endian (advanced _ _)) with (m_endian s).
    pose proof (int_out_involutive T (m_endian s) v Hd) as Hi.
    unfold int_enc. rewrite length_le_bytes. unfold int_out at 1 in Hi.
    destruct (m_endian s =? CCZOE_BYTE_ORDER)%Z; unfold ret; by rewrite Hi.
Qed.

#[export] Instance codec_uint8 junk :
  Codec (in_u 8) (fun _ v => le_bytes 1 v) (writeFuint8 junk) readFuint8.
Proof.
  split.
  - intros s v Hwf Hd Hroom. apply write_writes; [done|lia].
  - intros s v Hwf Hd Hh Hroom. unfold readFuint8.
    erewrite bind_Ok by (apply (read_holds s (le_bytes 1 v)); auto; lia).
    rewrite of_le_le_bytes. unfold ret. do 2 f_equal. by apply Z.mod_small.
Qed.

#[export] Instance codec_int8 junk :
  Codec (in_s 8) (fun _ v => le_bytes 1 v) (writeFint8 junk) readFint8.
Proof.
  split.
  - intros s v Hwf Hd Hroom. apply write_writes; [done|lia].
  - intros s v Hwf Hd Hh Hroom. unfold readFint8.
    erewrite bind_Ok by (apply (read_holds s (le_bytes 1 v)); auto; lia).
    rewrite of_le_le_bytes. unfold ret. do 2 f_equal. by apply swrap_wrap.
Qed.

(** ** Varints *)

Definition uleb (room : nat) (v : Z) : list Z :=
  match varint_bytes room v with Ok bs => bs | _ => [] end.

Lemma varint_bytes_eq room v :
  varint_bytes (S room) v =
    if (0x80 <=? v)%Z
    then match varint_bytes room (v / 128) with
         | Ok bs => Ok ((v mod 128 + 128)%Z :: bs) | o => o end
    else Ok [wrap 8 v].
Proof.
  cbn [varint_bytes]. rewrite Z.shiftr_div_pow2 by lia. change (2 ^ 7)%Z with 128%Z.
  assert (wrap 8 (Z.lor (Z.land v 0x7f) 0x80) = v mod 128 + 128)%Z as ->; [|done].
  change 0x7f%Z with (Z.ones 7). rewrite Z.land_ones by lia. change (2 ^ 7)%Z with 128%Z.
  pose proof (Z.mod_pos_bound v 128 ltac:(lia)).
  rewrite <- Z.lxor_lor, <- Z.add_nocarry_lxor;
    first [by apply wrap_id; unfold in_u; lia | idtac].
  all: apply Z.bits_inj'; intros k Hk; rewrite Z.land_spec, Z.bits_0;
    change 0x80%Z with (2 ^ 7)%Z; rewrite Z.pow2_bits_eqb by lia;
    destruct (Z.eqb_spec 7 k) as [<-|]; [|apply andb_false_r];
    rewrite (testbit_high 7 (v mod 128)) by lia; done.
Qed.

Lemma varint_bytes_Ok room v :
  (0 <= v < 2 ^ (7 * Z.of_nat room))%Z -> 0 < room -> varint_bytes room v = Ok (uleb room v).
Proof.
  unfold uleb. revert v. induction room as [|room IH]; intros v Hv Hr; [lia|].
  rewrite varint_bytes_eq. destruct (Z.leb_spec 0x80 v); [|done].
  destruct room as [|room].
  { simpl in Hv. lia. }
  rewrite IH; [done| |lia].
  replace (7 * Z.of_nat (S (S room)))%Z with (7 + 7 * Z.of_nat (S room))%Z in Hv by lia.
  rewrite Z.pow_add_r in Hv by lia. change (2 ^ 7)%Z with 128%Z in Hv.
  split; [apply Z.div_pos; lia|apply Z.div_lt_upper_bound; lia].
Qed.

Lemma lor_shift_add i a b : (0 <= i -> 0 <= a < 2 ^ i -> Z.lor a (b * 2 ^ i) = a + b * 2 ^ i)%Z.
Proof.
  intros Hi Ha. rewrite <- Z.lxor_lor, <- Z.add_nocarry_lxor; [done|..].
  all: apply Z.bits_inj'; intros k Hk; rewrite Z.land_spec, Z.bits_0;
    destruct (Z.lt_ge_cases k i);
    [by rewrite Z.mul_pow2_bits_low, andb_false_r by lia | by rewrite (testbit_high i a) by lia].
Qed.

Lemma varint_bytes_nonempty room v bs : varint_bytes room v = Ok bs -> 0 < length bs.
Proof.
  destruct room; [done|]. rewrite varint_bytes_eq. intros H.
  repeat case_match; simplify_eq; simpl; lia.
Qed.

(** One round of [read_varint], and the arithmetic it performs. *)
Lemma low_groups v n :
  (0 <= n -> v mod 2 ^ (7 + n) = v mod 128 + 128 * (v / 128 mod 2 ^ n))%Z.
Proof.
  intros Hn. rewrite Z.pow_add_r by lia. change (2 ^ 7)%Z with 128%Z.
  rewrite Z.rem_mul_r by (try apply Z.pow_pos_nonneg; lia). done.
Qed.

(** The loop decodes the first [r] groups, no more: [r] rounds are left when
    the shift is [7 * (5 - r)]. *)
Lemma read_varint_spec r : forall room v bs w result s,
  varint_bytes room v = Ok bs -> (0 <= v)%Z -> wf s -> holds s bs -> r <= 5 ->
  let i := (35 - 7 * Z.of_nat r)%Z in
  (0 <= result < 2 ^ i)%Z -> (0 <= w)%Z ->
  ((v mod 2 ^ (7 * Z.of_nat r)) * 2 ^ i < 2 ^ w)%Z ->
  read_varint r w i result s =
    (Ok (result + (v mod 2 ^ (7 * Z.of_nat r)) * 2 ^ i)%Z, advanced s (length bs `min` r)).
Proof.
  induction r as [|r IH]; intros room v bs w result s Hbs Hv Hwf Hh Hr i Hres Hw Hfit.
  { cbn [read_varint]. subst i. simpl. rewrite Z.mod_1_r, Z.add_0_r, Nat.min_0_r.
    by rewrite advanced_0. }
  pose proof (varint_bytes_nonempty _ _ _ Hbs) as Hne.
  destruct room as [|room]; [done|]. rewrite varint_bytes_eq in Hbs.
  assert (holds s [nth 0 bs 0%Z]) as Hh1.
  { destruct bs as [|b bs]; [simpl in Hne; lia|]. by apply (holds_app_l s [b] bs). }
  pose proof (holds_size _ _ Hwf Hh1) as Hsz. pose proof (wf_size s Hwf).
  cbn [read_varint]. destruct (Z.ltb_spec i 32); [|subst i; lia].
  rewrite (bind_Ok _ _ s (nth 0 bs 0%Z) (advanced s 1)); cycle 1.
  { unfold readFuint8. erewrite bind_Ok; [|apply (read_holds s _ Hwf Hh1); simpl in Hsz; lia].
    unfold ret. simpl. do 2 f_equal. lia. }
  replace (7 * Z.of_nat (S r))%Z with (7 + 7 * Z.of_nat r)%Z in * by lia.
  rewrite low_groups in Hfit |- * by lia.
  pose proof (Z.mod_pos_bound v 128 ltac:(lia)).
  assert (0 < 2 ^ (7 * Z.of_nat r))%Z by (apply Z.pow_pos_nonneg; lia).
  assert (0 < 2 ^ i)%Z by (apply Z.pow_pos_nonneg; lia).
  pose proof (Z.mod_pos_bound (v / 128) (2 ^ (7 * Z.of_nat r)) ltac:(lia)).
  destruct (Z.leb_spec 0x80 v).
  - destruct (varint_bytes room (v / 128)) as [bs'| | | | |] eqn:Hbs'; simplify_eq. cbn [nth length].
    destruct (Z.ltb_spec (v mod 128 + 128) 0x80); [lia|].
    assert (Z.land (v mod 128 + 128) 0x7f = v mod 128)%Z as ->.
    { change 0x7f%Z with (Z.ones 7). rewrite Z.land_ones by lia. change (2 ^ 7)%Z with 128%Z.
      rewrite <- (Z.mul_1_l 128) at 2. rewrite Z_mod_plus_full. by rewrite Zmod_mod. }
    rewrite Z.shiftl_mul_pow2, wrap_id, lor_shift_add by (unfold in_u; subst i; nia).
    assert (i + 7 = 35 - 7 * Z.of_nat r)%Z as Hi by (subst i; lia). rewrite Hi.
    destruct (advanced_wf s 1 Hwf ltac:(simpl in Hsz; lia)) as [Hwf1 _].
    assert (2 ^ (i + 7) = 2 ^ i * 128)%Z as Hp
      by (rewrite Z.pow_add_r by (subst i; lia); done).
    rewrite (IH room (v / 128)%Z bs'); rewrite <- ?Hi, ?Hp; auto.
    + rewrite advanced_advanced. do 2 f_equal. lia.
    + apply Z.div_pos; lia.
    + by apply (holds_app_r s [(v mod 128 + 128)%Z] bs').
    + lia.
    + nia.
    + nia.
  - simplify_eq. cbn [nth length]. rewrite wrap_id by (unfold in_u; lia).
    destruct (Z.ltb_spec v 0x80); [|lia].
    rewrite (Z.mod_small v 128), Z.div_small, Z.mod_0_l in * by lia.
    rewrite Z.shiftl_mul_pow2, wrap_id, lor_shift_add by (unfold in_u; subst i; lia).
    unfold ret. do 2 f_equal. lia.
Qed.

(** Every varint the writers produce is read back modulo the 35 bits that the
    five rounds of the reader cover. *)
Lemma read_uleb w room v s :
  (0 <= v < 2 ^ (7 * Z.of_nat room))%Z -> 0 < room -> wf s -> holds s (uleb room v) ->
  (0 <= w)%Z -> (v mod 2 ^ 35 < 2 ^ w)%Z ->
  read_varint 5 w 0 0 s = (Ok (v mod 2 ^ 35)%Z, advanced s (length (uleb room v) `min` 5)).
Proof.
  intros Hv Hr Hwf Hh Hw Hfit.
  pose proof (read_varint_spec 5 room v (uleb room v) w 0 s) as H.
  change (Z.of_nat 5) with 5%Z in H. change (7 * 5)%Z with 35%Z in H.
  change (35 - 35)%Z with 0%Z in H. cbv zeta in H. rewrite Z.pow_0_r, Z.mul_1_r in H.
  rewrite H; auto; try lia. by apply varint_bytes_Ok.
Qed.

Lemma length_uleb_le room v r :
  (0 <= v < 2 ^ (7 * Z.of_nat r))%Z -> 0 < r -> length (uleb room v) <= r.
Proof.
  unfold uleb. revert v r. induction room as [|room IH]; intros v r Hv Hr; [simpl; lia|].
  rewrite varint_bytes_eq. destruct (Z.leb_spec 0x80 v); [|simpl; lia].
  destruct r as [|[|r]]; [lia|simpl in Hv; lia|].
  replace (7 * Z.of_nat (S (S r)))%Z with (7 + 7 * Z.of_nat (S r))%Z in Hv by lia.
  rewrite Z.pow_add_r in Hv by lia. change (2 ^ 7)%Z with 128%Z in Hv.
  specialize (IH (v / 128)%Z (S r)).
  destruct (varint_bytes room (v / 128)); simpl in *; try lia.
  apply le_n_S, IH; [|lia]. split; [apply Z.div_pos; lia|apply Z.div_lt_upper_bound; lia].
Qed.

Lemma write_uleb junk room v s :
  (0 <= v < 2 ^ (7 * Z.of_nat room))%Z -> 0 < room -> wf s -> m_position s < m_capacity s ->
  exists s', write_varint junk room v s = (Ok tt, s') /\ writes s (uleb room v) s'.
Proof.
  intros Hv Hr Hwf Hlt. unfold write_varint. rewrite varint_bytes_Ok, bind_fail_Ok by done.
  by apply write_writes.
Qed.

#[export] Instance codec_uint32_varint junk :
  Codec (in_u 32) (fun _ v => uleb 5 v) (writeUint32 junk) readUint32.
Proof.
  split; unfold in_u; intros s v Hwf Hd.
  - intros Hroom. apply write_uleb; auto; [|lia..]. simpl; lia.
  - intros Hh Hroom. unfold readUint32.
    rewrite (read_uleb 32 5 v) by (simpl; auto; lia || (rewrite Z.mod_small; lia)).
    rewrite Z.mod_small by lia. do 2 f_equal.
    pose proof (length_uleb_le 5 v 5 ltac:(simpl; lia) ltac:(lia)). lia.
Qed.

(** The 64-bit reader stops after five groups: the domain is 35 bits. *)
#[export] Instance codec_uint64_varint junk :
  Codec (in_u 35) (fun _ v => uleb 10 v) (writeUint64 junk) readUint64.
Proof.
  split; unfold in_u; intros s v Hwf Hd.
  - intros Hroom. apply write_uleb; auto; [|lia..]. simpl; lia.
  - intros Hh Hroom. unfold readUint64.
    rewrite (read_uleb 64 10 v) by (simpl; auto; lia || (rewrite Z.mod_small; lia)).
    rewrite Z.mod_small by lia. do 2 f_equal.
    pose proof (length_uleb_le 10 v 5 ltac:(simpl; lia) ltac:(lia)). lia.
Qed.

#[export] Instance codec_int32_varint junk :
  Codec (fun v => - 2 ^ 31 < v < 2 ^ 30)%Z (fun _ v => uleb 5 (zigzag v)) (writeInt32 junk) readInt32.
Proof.
  split; intros s v Hwf Hd.
  - intros Hroom. unfold writeInt32, EncodeZigzag32.
    rewrite EncodeZigzag_zigzag, bind_fail_Ok by lia.
    apply (codec_write (Codec:=codec_uint32_varint junk)); auto.
    apply (zigzag_range 31); lia.
  - intros Hh Hroom. unfold readInt32.
    erewrite bind_Ok; [|apply (codec_read (Codec:=codec_uint32_varint junk) s (zigzag v)); auto;
                        apply (zigzag_range 31); lia].
    unfold ret, DecodeZigzag32. by rewrite DecodeZigzag_zigzag by lia.
Qed.

#[export] Instance codec_int64_varint junk :
  Codec (in_s 35) (fun _ v => uleb 10 (zigzag v)) (writeInt64 junk) readInt64.
Proof.
  split; unfold in_s; intros s v Hwf Hd.
  - intros Hroom. unfold writeInt64, EncodeZigzag64.
    rewrite EncodeZigzag_zigzag, bind_fail_Ok by lia.
    apply (codec_write (Codec:=codec_uint64_varint junk)); auto.
    apply (zigzag_range 34); lia.
  - intros Hh Hroom. unfold readInt64.
    erewrite bind_Ok; [|apply (codec_read (Codec:=codec_uint64_varint junk) s (zigzag v)); auto;
                        apply (zigzag_range 34); lia].
    unfold ret, DecodeZigzag64. by rewrite DecodeZigzag_zigzag by lia.
Qed.

(** ** Length-prefixed strings *)

Definition str_dom (bits : Z) (v : list Z) : Prop := (Z.of_nat (length v) < 2 ^ bits)%Z.
Definition str_enc (T : int_type) (e : Z) (v : list Z) : list Z :=
  int_enc T e (Z.of_nat (length v)) ++ v.

Section strings.
Context (junk : Z) (T : int_type).

(** The shape shared by the four writers and the four readers. *)
Definition write_str (bits : Z) (v : list Z) : comp ByteArray unit :=
  do! swap_out junk T (wrap bits (Z.of_nat (length v))) in write junk v.
Definition read_str : comp ByteArray (list Z) := let! len := swap_in T in read (Z.to_nat len).

Lemma codec_str (bits : Z) :
  (0 <= bits)%Z -> (forall v, in_u bits v -> int_dom T v) ->
  Codec (str_dom bits) (str_enc T) (write_str bits) read_str.
Proof.
  intros Hb Hdom. unfold str_dom, str_enc, write_str, read_str.
  split; intros s v Hwf Hd; rewrite length_app.
  - intros Hroom.
    assert (int_dom T (Z.of_nat (length v))) by (apply Hdom; unfold in_u; lia).
    rewrite wrap_id by (unfold in_u; lia).
    destruct (codec_write (Codec:=codec_int junk T) s (Z.of_nat (length v)))
      as (s1 & Hs1 & Hw); auto; [lia|].
    rewrite (bind_Ok _ _ _ _ _ Hs1).
    destruct (write_writes junk s1 v) as (s2 & Hs2 & Hw2).
    { apply Hw. }
    { pose proof (writes_pos _ _ _ Hw). pose proof (writes_cap _ _ _ Hw). lia. }
    exists s2. split; [done|]. by eapply writes_app.
  - intros Hh Hroom.
    assert (int_dom T (Z.of_nat (length v))) by (apply Hdom; unfold in_u; lia).
    pose proof (holds_size _ _ Hwf Hh) as Hsz. rewrite length_app in Hsz.
    erewrite bind_Ok; [|apply (codec_read (Codec:=codec_int junk T) s _ Hwf H);
                        [by eapply holds_app_l|lia]].
    rewrite Nat2Z.id.
    destruct (advanced_wf s (length (int_enc T (m_endian s) (Z.of_nat (length v))))) as [Hwf1 _];
      auto; [lia|].
    rewrite (read_holds _ v Hwf1).
    + by rewrite advanced_advanced.
    + by apply holds_app_r.
    + simpl. lia.
Qed.
End strings.

#[export] Instance codec_StringF16 junk :
  Codec (str_dom 16) (str_enc uint16_t) (writeStringF16 junk) readStringF16.
Proof. by apply (codec_str junk uint16_t 16). Qed.
#[export] Instance codec_StringF32 junk :
  Codec (str_dom 32) (str_enc uint32_t) (writeStringF32 junk) readStringF32.
Proof. by apply (codec_str junk uint32_t 32). Qed.
#[export] Instance codec_StringF64 junk :
  Codec (str_dom 64) (str_enc uint64_t) (writeStringF64 junk) readStringF64.
Proof. by apply (codec_str junk uint64_t 64). Qed.
#[export] Instance codec_StringVint junk :
  Codec (str_dom 64) (str_enc uint64_t) (writeStringVint junk) readStringVint.
Proof. by apply (codec_str junk uint64_t 64). Qed.
