(* ===== verification/BufferTheorems.v ===== *)
(** * BufferTheorems: what the byte buffer guarantees, and where it does not

    The theorems about [ByteArray.v], stated on the flat view of
    [ByteArraySpec.v] and the codecs of [Codec.v]. *)

From stdpp Require Import base list numbers.
From S2P Require Import Prelude Words ByteArray ByteArraySpec Codec.

Local Open Scope nat_scope.

(** A small buffer used by the witnesses: blocks of 16 bytes. *)
Definition buf16 : ByteArray := ByteArray_ctor 0 16.

Lemma buf16_wf : wf buf16.
Proof. apply ByteArray_ctor_wf. lia. Defined.

(** C4: [write] refines an overwrite of a flat array.  On every well-formed
    buffer whose cursor is not at the exact end of its last block, writing any
    number of bytes terminates normally, keeps the invariant, moves the cursor
    by the number of bytes, grows the size as needed, and the stored bytes are
    the old ones with the new ones spliced in at the cursor, whatever block
    boundaries the bytes cross. *)
Theorem write_refines_flat junk s buf :
  wf s -> m_position s < m_capacity s ->
  exists s', write junk buf s = (Ok tt, s') /\ wf s' /\
    m_position s' = m_position s + length buf /\
    m_size s' = m_size s `max` (m_position s + length buf) /\
    contents s' = splice (m_position s) buf (contents s).
Proof.
  intros Hwf Hlt. destruct (write_writes junk s buf Hwf Hlt) as (s' & Hs & Hw).
  exists s'. rewrite <- (writes_pos _ _ _ Hw). split; [done|].
  split; [apply Hw|]. split; [done|]. split; apply Hw.
Qed.

Lemma write_refines_flat_witness :
  exists s', write 0 [1; 2; 3]%Z buf16 = (Ok tt, s') /\ wf s' /\
    m_position s' = 3 /\ m_size s' = 3 /\ contents s' = [1; 2; 3]%Z.
Proof. apply (write_refines_flat 0 buf16 [1; 2; 3]%Z); [exact buf16_wf | simpl; lia]. Defined.

(** C12: [read] refines a read of the flat array.  On a well-formed buffer whose
    cursor is not at the exact end of its last block, [read n] returns the next
    [n] stored bytes and moves the cursor past them, and when fewer than [n]
    bytes are readable it throws [out_of_range] and changes nothing. *)
Theorem read_refines_flat s n :
  wf s -> m_position s < m_capacity s ->
  if m_position s + n <=? m_size s
  then exists s', read n s = (Ok (take n (drop (m_position s) (contents s))), s') /\ wf s' /\
         m_position s' = m_position s + n /\ contents s' = contents s
  else read n s = (Throw out_of_range, s).
Proof.
  intros Hwf Hlt. destruct (Nat.leb_spec (m_position s + n) (m_size s)).
  - eexists. rewrite read_reads by done. split; [done|].
    destruct (advanced_wf s n Hwf) as [? Hc]; [done|]. rewrite Hc. done.
  - apply read_throws. pose proof (wf_pos s Hwf). lia.
Qed.

Lemma read_refines_flat_witness : read 5 buf16 = (Throw out_of_range, buf16).
Proof. exact (read_refines_flat buf16 5 buf16_wf ltac:(simpl; lia)). Defined.

(** Writing [l] with [wr] and, back at the old position, reading as many
    values with [rd] gives [l]. *)
Definition roundtrips {A} (wr : A -> comp ByteArray unit) (rd : comp ByteArray A)
    (l : list A) (s : ByteArray) : Prop :=
  exists s1 s2 s3,
    write_all wr l s = (Ok tt, s1) /\ setPosition (m_position s) s1 = (Ok tt, s2) /\
    read_all rd (length l) s2 = (Ok l, s3).

Lemma codec_roundtrips {A} dom enc wr rd (C : @Codec A dom enc wr rd) l s :
  wf s -> Forall dom l -> m_position s + length (enc_all enc (m_endian s) l) < m_baseSize s ->
  roundtrips wr rd l s.
Proof.
  intros Hwf Hd Hroom. destruct (write_seek_read dom enc wr rd l s Hwf Hd Hroom)
    as (s1 & s2 & s3 & H1 & H2 & H3 & _). by exists s1, s2, s3.
Qed.

(** C16: Round trips of every typed writer and reader.  As long as the encoded
    values stay inside the first block, a sequence of values of one type that is
    written, and read after [setPosition] to where the writing started, comes
    back unchanged, in either byte order: fixed-width integers of every type
    (and the bit patterns of [float]/[double], which use them), the varints of
    32 bits, and length-prefixed strings.  The domains are what the code
    supports: zigzag 32-bit values below 2^30, 64-bit varints below 2^35,
    strings whose length fits the prefix. *)
Theorem typed_roundtrip junk s :
  wf s ->
  (forall T l, Forall (int_dom T) l ->
     m_position s + length (enc_all (int_enc T) (m_endian s) l) < m_baseSize s ->
     roundtrips (swap_out junk T) (swap_in T) l s) /\
  (forall l, Forall (in_u 32) l ->
     m_position s + length (enc_all (fun _ => uleb 5) (m_endian s) l) < m_baseSize s ->
     roundtrips (writeUint32 junk) readUint32 l s) /\
  (forall l, Forall (fun v => - 2 ^ 31 < v < 2 ^ 30)%Z l ->
     m_position s + length (enc_all (fun _ v => uleb 5 (zigzag v)) (m_endian s) l) < m_baseSize s ->
     roundtrips (writeInt32 junk) readInt32 l s) /\
  (forall l, Forall (in_u 35) l ->
     m_position s + length (enc_all (fun _ => uleb 10) (m_endian s) l) < m_baseSize s ->
     roundtrips (writeUint64 junk) readUint64 l s) /\
  (forall l, Forall (in_s 35) l ->
     m_position s + length (enc_all (fun _ v => uleb 10 (zigzag v)) (m_endian s) l) < m_baseSize s ->
     roundtrips (writeInt64 junk) readInt64 l s) /\
  (forall l, Forall (str_dom 16) l ->
     m_position s + length (enc_all (str_enc uint16_t) (m_endian s) l) < m_baseSize s ->
     roundtrips (writeStringF16 junk) readStringF16 l s) /\
  (forall l, Forall (str_dom 32) l ->
     m_position s + length (enc_all (str_enc uint32_t) (m_endian s) l) < m_baseSize s ->
     roundtrips (writeStringF32 junk) readStringF32 l s) /\
  (forall l, Forall (str_dom 64) l ->
     m_position s + length (enc_all (str_enc uint64_t) (m_endian s) l) < m_baseSize s ->
     roundtrips (writeStringF64 junk) readStringF64 l s /\
     roundtrips (writeStringVint junk) readStringVint l s).
Proof.
  intros Hwf. repeat split; intros; eapply codec_roundtrips; eauto; apply _.
Qed.

Lemma typed_roundtrip_witness :
  roundtrips (swap_out 0 int16_t) (swap_in int16_t) [-3; 258]%Z buf16 /\
  roundtrips (writeInt32 0) readInt32 [-7; 1000]%Z buf16.
Proof.
  destruct (typed_roundtrip 0 buf16 buf16_wf) as (HT & _ & HI & _). split.
  - apply HT; [|simpl; lia]. repeat constructor; vm_compute; intuition congruence.
  - apply HI; [|vm_compute; lia]. repeat constructor; lia.
Defined.

(** What the 64-bit varint pair really transports.  For every unsigned
    64-bit value the writer succeeds, and a reader positioned at the written
    bytes returns the value modulo 2^35: the loop of [readUint64] stops at shift
    32, so it consumes at most five groups and leaves the rest of a longer
    encoding in the buffer. *)
Theorem readUint64_mod_35 junk s v :
  wf s -> in_u 64 v -> m_position s + 10 < m_capacity s ->
  exists s', writeUint64 junk v s = (Ok tt, s') /\
    fst (readUint64 (seek s' (m_position s))) = Ok (v mod 2 ^ 35)%Z /\
    m_position (snd (readUint64 (seek s' (m_position s)))) =
      m_position s + (length (uleb 10 v) `min` 5).
Proof.
  intros Hwf [Hv0 Hv] Hroom. assert (2 ^ 64 < 2 ^ 70)%Z by lia.
  destruct (write_uleb junk 10 v s) as (s' & Hs & Hw); simpl; auto; try lia.
  exists s'. split; [done|].
  pose proof (writes_pos _ _ _ Hw). pose proof (wf_pos _ (writes_wf _ _ _ Hw)).
  destruct (seek_wf s' (m_position s)) as [Hwf' _]; [apply Hw|lia|].
  pose proof (writes_holds s _ s' Hwf Hw) as Hh.
  unfold readUint64. pose proof (Z.mod_pos_bound v (2 ^ 35) ltac:(lia)).
  by rewrite (read_uleb 64 10 v) by (simpl; auto; lia).
Qed.

Lemma readUint64_mod_35_witness :
  exists s', writeUint64 0 (2 ^ 35 + 1)%Z buf16 = (Ok tt, s') /\
    fst (readUint64 (seek s' 0)) = Ok 1%Z /\ m_position (snd (readUint64 (seek s' 0))) = 5.
Proof.
  apply (readUint64_mod_35 0 buf16 (2 ^ 35 + 1)%Z buf16_wf); vm_compute; intuition congruence || lia.
Defined.

(** The state of a write at the exact end of the last block. *)
Lemma addCapacity_full junk s sz :
  wf s -> m_position s = m_capacity s -> 0 < sz ->
  exists k, addCapacity junk sz s =
      (Ok tt, set_m_curr (Some (length (m_nodes s) - 1)) (grown junk s k)) /\
    0 < k /\ sz <= m_baseSize s * k.
Proof.
  intros Hwf Hfull Hsz. pose proof (wf_base s Hwf) as Hb.
  pose proof (growth_enough (m_baseSize s) sz 0 Hb Hsz) as Hg.
  unfold addCapacity. destruct (Nat.eqb_spec sz 0); [lia|].
  rewrite bind_get. unfold getCapacity. rewrite Hfull, Nat.sub_diag.
  destruct (Nat.leb_spec sz 0); [lia|]. rewrite bind_get.
  destruct (Nat.eqb_spec (m_baseSize s) 0); [lia|]. rewrite bind_get.
  erewrite bind_Ok by apply add_nodes_spec.
  set (k := sz / m_baseSize s + _) in *. exists k.
  assert (0 < k) by nia. destruct (Nat.eqb_spec k 0); [lia|]. done.
Qed.

Lemma write_full_spec junk s buf :
  wf s -> m_position s = m_capacity s -> 0 < length buf ->
  exists s' k, write junk buf s = (Ok tt, s') /\
    m_position s' = m_position s + length buf /\ m_size s' = m_position s' /\
    m_baseSize s' = m_baseSize s /\
    flat s' = splice (m_capacity s - m_baseSize s) buf
                (contents s ++ repeat junk (m_baseSize s * k)) /\
    take (length buf) (drop (m_capacity s - m_baseSize s) (contents s')) = buf.
Proof.
  intros Hwf Hfull Hlen. pose proof (wf_base s Hwf). pose proof (wf_root s Hwf).
  pose proof (wf_cap s Hwf). pose proof (wf_pos s Hwf). pose proof (wf_size s Hwf).
  destruct (addCapacity_full junk s (length buf) Hwf Hfull Hlen) as (k & Hadd & Hk & Hroom).
  unfold write. destruct (Nat.leb_spec (length buf) 0); [lia|].
  rewrite (bind_Ok _ _ _ _ _ Hadd), bind_get. set (s1 := set_m_curr _ _).
  assert (length (m_nodes s1) = length (m_nodes s) + k) as Hn1
    by (unfold s1; simpl; rewrite length_app, repeat_length; lia).
  assert (Forall (block_ok (m_baseSize s)) (m_nodes s1)) as Hf1.
  { unfold s1; simpl. apply Forall_app; split; [apply Hwf|]. apply List.Forall_forall.
    intros x ->%repeat_spec. split; simpl; [done|apply repeat_length]. }
  assert (flat s1 = contents s ++ repeat junk (m_baseSize s * k)) as Hflat.
  { unfold flat, s1, contents; simpl. rewrite flat_nodes_grow. f_equal.
    - rewrite take_ge; [done|]. pose proof (wf_length_flat s Hwf). lia.
    - cbn [Node_ctor ptr]. clear. induction k as [|k IH]; simpl; [by rewrite Nat.mul_0_r|].
      rewrite IH, <- repeat_app. f_equal. lia. }
  rewrite (bind_Ok _ _ _ _ _ (mod_base_Ok s1 _ (wf_base _ Hwf))), !bind_get.
  change (m_baseSize s1) with (m_baseSize s). change (m_position s1) with (m_position s).
  replace (m_position s mod m_baseSize s) with 0
    by (rewrite Hfull, (wf_cap s Hwf), Nat.mul_comm; symmetry; apply Nat.Div0.mod_mul).
  assert (at_block (m_baseSize s) (length (m_nodes s1)) s1 (length (m_nodes s) - 1)) as Hat
    by (unfold at_block; repeat split; auto; lia).
  edestruct (write_loop_spec (m_baseSize s) (length (m_nodes s1)) (wf_base _ Hwf)
              (S (length (m_nodes s1))) s1 (length (m_nodes s) - 1) 0 buf Hat)
    as (ns' & Hloop & Hf & Hn & Hfl); [nia..|].
  rewrite (bind_Ok _ _ _ _ _ Hloop), !bind_get.
  replace (m_baseSize s * (length (m_nodes s) - 1) + 0) with (m_capacity s - m_baseSize s) in * by nia.
  set (s2 := moved _ _ _ _). exists (set_m_size (m_position s + length buf) s2), k.
  assert (flat s2 = splice (m_capacity s - m_baseSize s) buf (flat s1)) as Hs2 by done.
  assert (m_position s2 = m_position s + length buf) as Hp2 by done.
  assert (m_size s2 = m_size s) as Hz2 by done.
  split; [rewrite Hp2, Hz2; destruct (Nat.ltb_spec (m_size s) (m_position s + length buf)); [done|lia]|].
  split; [done|]. split; [done|]. split; [done|]. split; [by rewrite <- Hflat|].
  unfold contents. change (flat (set_m_size _ s2)) with (flat s2). cbn [m_size set_m_size].
  rewrite Hs2, take_drop_commute, take_take, Nat.min_l, <- take_drop_commute by lia.
  apply splice_read.
  rewrite Hflat, length_app, repeat_length, (wf_length_contents s Hwf). lia.
Qed.

(** A write to an exactly full buffer overwrites the last block.  When the
    cursor stands at the end of the last block, [addCapacity] makes the OLD last
    block current ([first = tmp] before [tmp] advances), so the new bytes replace
    the start of that block, while position and size still advance past the old
    end: the bytes reported as the newest are the indeterminate content of the
    fresh blocks. *)
Theorem write_full_overwrites junk s buf :
  wf s -> m_position s = m_capacity s -> 0 < length buf ->
  exists s' k, write junk buf s = (Ok tt, s') /\
    m_position s' = m_position s + length buf /\ m_size s' = m_position s' /\
    m_baseSize s' = m_baseSize s /\
    flat s' = splice (m_capacity s - m_baseSize s) buf
                (contents s ++ repeat junk (m_baseSize s * k)) /\
    take (length buf) (drop (m_capacity s - m_baseSize s) (contents s')) = buf.
Proof. apply write_full_spec. Qed.

(** The 16-byte buffer after sixteen bytes. *)
Definition buf16_full : ByteArray := snd (write 0 (repeat 1%Z 16) buf16).

Lemma write_full_overwrites_witness :
  exists s' k, write 0 [7]%Z buf16_full = (Ok tt, s') /\ m_position s' = 17 /\
    m_size s' = m_position s' /\ m_baseSize s' = 16 /\
    flat s' = splice 0 [7]%Z (repeat 1%Z 16 ++ repeat 0%Z (16 * k)) /\
    take 1 (drop 0 (contents s')) = [7]%Z.
Proof.
  apply (write_full_overwrites 0 buf16_full [7]%Z); [|reflexivity|simpl; lia].
  constructor; try (vm_compute; lia); [|reflexivity]. repeat constructor.
Defined.

(** The zigzag codec.  For 32 and 64 bits, the encoder is defined exactly on
    the values above the minimum and below a quarter of the unsigned range
    ([v * 2] and [-v] are signed), every encoding it produces decodes to the value
    it came from, and the decoder is the inverse of the interleaving
    0, -1, 1, -2, ... on all words. *)
Theorem zigzag_inverse w v :
  w = 32%Z \/ w = 64%Z -> in_s w v ->
  EncodeZigzag w v =
    (if (- 2 ^ (w - 1) <? v)%Z && (v <? 2 ^ (w - 2))%Z then Ok (zigzag v) else UB) /\
  in_u w (zigzag v) /\ DecodeZigzag w (zigzag v) = v /\
  (forall u, in_u w u -> zigzag (DecodeZigzag w u) = u).
Proof.
  intros Hw Hv. assert (1 < w)%Z by lia. pose proof (pow_half (w - 1)) as Hp.
  replace (w - 1 - 1)%Z with (w - 2)%Z in Hp by lia. unfold in_s in Hv.
  split; [|split; [|split; [by apply DecodeZigzag_zigzag|]]].
  - destruct (Z.ltb_spec (- 2 ^ (w - 1)) v), (Z.ltb_spec v (2 ^ (w - 2))); simpl;
      [by apply EncodeZigzag_zigzag| | |]; unfold EncodeZigzag;
      (assert (0 < 2 ^ (w - 2))%Z by lia);
      destruct (Z.ltb_spec v 0), (Z.eqb_spec v (- 2 ^ (w - 1))), (Z.leb_spec (2 ^ (w - 1)) (v * 2));
      first [done | lia].
  - pose proof (zigzag_range (w - 1) v ltac:(lia) ltac:(lia) ltac:(lia)) as Hr.
    by replace (w - 1 + 1)%Z with w in Hr by lia.
  - intros u Hu. rewrite DecodeZigzag_arith by (done || lia). unfold zigzag, in_u in *.
    pose proof (Z.div_mod u 2 ltac:(lia)) as Hd. rewrite Zeven_mod.
    pose proof (Z.mod_pos_bound u 2 ltac:(lia)). pose proof (Z.div_pos u 2 ltac:(lia) ltac:(lia)).
    destruct (Z.eqb_spec (u mod 2) 0).
    + destruct (Z.ltb_spec (u / 2) 0); lia.
    + destruct (Z.ltb_spec (- (u / 2) - 1) 0); lia.
Qed.

Lemma zigzag_inverse_witness :
  EncodeZigzag 32 (2 ^ 30)%Z = UB /\ EncodeZigzag 32 (-3)%Z = Ok 5%Z.
Proof.
  split.
  - apply (zigzag_inverse 32 (2 ^ 30)%Z); [by left | by vm_compute].
  - apply (zigzag_inverse 32 (-3)%Z); [by left | by vm_compute].
Defined.

(** [setPosition] is exact only from the first block.  It rejects positions
    past the size; otherwise it stores the position but walks [pos / base] blocks
    from the CURRENT block, so the result is a well-formed buffer exactly when the
    current block was the first one, and the walk runs off the list when the
    current block is too far in. *)
Theorem setPosition_from_current s i pos :
  wf s -> m_curr s = Some i -> pos < m_capacity s ->
  if m_size s <? pos then setPosition pos s = (Throw out_of_range, s)
  else if i + pos / m_baseSize s <? length (m_nodes s)
  then exists s', setPosition pos s = (Ok tt, s') /\ m_position s' = pos /\
         contents s' = contents s /\ (wf s' <-> i = 0)
  else fst (setPosition pos s) = UB.
Proof.
  intros Hwf Hc Hcap. destruct (Nat.ltb_spec (m_size s) pos) as [Hlt|Hle].
  { unfold setPosition. rewrite bind_get. by apply Nat.ltb_lt in Hlt as ->. }
  pose proof (setPosition_spec s i pos Hwf Hc Hle) as Hs.
  destruct (Nat.ltb_spec (i + pos / m_baseSize s) (length (m_nodes s))); [|by rewrite Hs].
  eexists. split; [exact Hs|]. split; [done|]. split; [done|]. split.
  - intros [_ _ _ _ _ _ Hcur]. unfold moved, cursor in Hcur; simpl in Hcur.
    apply Nat.ltb_lt in Hcap. rewrite Hcap in Hcur. injection Hcur. lia.
  - intros ->. destruct Hwf; constructor; unfold moved; simpl; auto.
    unfold cursor. by apply Nat.ltb_lt in Hcap as ->.
Qed.

(** 20 bytes in blocks of 16: the current block is the second. *)
Definition buf16_20 : ByteArray := snd (write 0 (repeat 1%Z 20) buf16).

Lemma setPosition_from_current_witness : fst (setPosition 16 buf16_20) = UB.
Proof.
  apply (setPosition_from_current buf16_20 1 16); [|reflexivity|vm_compute; lia].
  constructor; try (vm_compute; lia); [|reflexivity]. repeat constructor.
Defined.

Lemma addReadBuffers_spec s len :
  wf s -> m_position s < m_capacity s ->
  exists segs,
    addReadBuffers [] len s = (Ok (len `min` (m_size s - m_position s), segs), s) /\
    gather (m_nodes s) segs = take len (drop (m_position s) (contents s)).
Proof.
  intros Hwf Hlt. destruct (wf_at_block s Hwf Hlt) as (Hat & Hpos & Hoff).
  destruct (at_block_node _ _ s _ Hat) as (nd & Hnd & Hs & _).
  destruct Hat as (_ & _ & _ & Hc & Hi).
  pose proof (wf_pos s Hwf). pose proof (wf_size s Hwf). pose proof (wf_cap s Hwf).
  pose proof (wf_length_contents s Hwf) as Hlc.
  unfold addReadBuffers. rewrite bind_get. unfold getReadableSize.
  set (k := if _ <? _ then _ else _).
  assert (k = len `min` (m_size s - m_position s)) as Hk
    by (unfold k; destruct (Nat.ltb_spec (m_size s - m_position s) len); lia).
  assert (take len (drop (m_position s) (contents s)) = take k (drop (m_position s) (contents s))) as ->.
  { rewrite Hk, <- take_take. f_equal. symmetry. apply take_ge. rewrite length_drop. lia. }
  rewrite <- Hk. clearbody k. cbv zeta. destruct (Nat.eqb_spec k 0) as [->|]; [by exists []|].
  rewrite bind_get, (bind_Ok _ _ _ _ _ (mod_base_Ok s _ (wf_base _ Hwf))), bind_get, Hc.
  rewrite (bind_Ok _ _ _ _ _ (node_deref_Ok s _ nd Hnd)), bind_get, Hs.
  destruct (addReadBuffers_loop_spec (m_baseSize s) (length (m_nodes s)) (wf_base _ Hwf)
    (S (length (m_nodes s))) s (m_position s / m_baseSize s) (m_position s mod m_baseSize s) k [])
    as (segs & He & Ht); auto; try lia; [apply Hwf|].
  rewrite (bind_Ok _ _ _ _ _ He). exists segs. split; [done|].
  rewrite <- Hpos in Ht. rewrite <- (contents_read s k Hwf) by lia.
  apply (tiles_gather (m_baseSize s)); [apply Hwf|lia|done].
Qed.

(** Scatter/gather reading.  [addReadBuffers] hands out exactly the next
    [min len readable] stored bytes: gathering the returned segments yields the
    flat bytes at the cursor, and the buffer is not changed. *)
Theorem addReadBuffers_gathers s len :
  wf s -> m_position s < m_capacity s ->
  exists segs,
    addReadBuffers [] len s = (Ok (len `min` (m_size s - m_position s), segs), s) /\
    gather (m_nodes s) segs = take len (drop (m_position s) (contents s)).
Proof. apply addReadBuffers_spec. Qed.

Lemma addReadBuffers_gathers_witness :
  exists segs, addReadBuffers [] 5 buf16 = (Ok (0, segs), buf16) /\ gather (m_nodes buf16) segs = [].
Proof. exact (addReadBuffers_gathers buf16 5 buf16_wf ltac:(simpl; lia)). Defined.

(** Scatter buffers for [recvmsg].  [addWriteBuffers] first grows the buffer;
    when room is left over, it returns segments that cover exactly the next [len]
    bytes of the flat array and adds [len] to the size; when the request ends
    exactly at the end of the last block it dereferences the null [next] of that
    block.  A fresh array asked for its own block size is such a request. *)
Theorem addWriteBuffers_tiles junk s len :
  wf s -> m_position s < m_capacity s -> 0 < len ->
  exists k, addCapacity junk len s = (Ok tt, grown junk s k) /\
    m_position s + len <= m_capacity (grown junk s k) /\
    if m_position s + len <? m_capacity (grown junk s k)
    then exists segs,
      addWriteBuffers junk [] len s =
        (Ok (len, segs), set_m_size (m_size s + len) (grown junk s k)) /\
      tiles (m_baseSize s) (m_position s) len segs
    else fst (addWriteBuffers junk [] len s) = UB.
Proof.
  intros Hwf Hlt Hlen. destruct (addCapacity_spec junk s len Hwf Hlt) as (k & Hadd & Hroom & _).
  exists k. split; [done|]. split; [done|].
  destruct (grown_wf junk s k Hwf Hlt) as (Hwf1 & _ & Hcap).
  unfold addWriteBuffers. destruct (Nat.leb_spec len 0); [lia|].
  rewrite (bind_Ok _ _ _ _ _ Hadd).
  assert (m_position (grown junk s k) = m_position s /\ m_size (grown junk s k) = m_size s /\
          m_baseSize (grown junk s k) = m_baseSize s) as (Hp1 & Hs1 & Hb1) by done.
  set (s1 := grown junk s k) in *. clearbody s1. rewrite <- Hp1, <- Hs1, <- Hb1 in *.
  clear Hadd Hlt Hp1 Hs1 Hb1 Hwf s.
  destruct (wf_at_block s1 Hwf1 ltac:(lia)) as (Hat & Hpos & Hoff).
  destruct (at_block_node _ _ s1 _ Hat) as (nd & Hnd & Hs & _).
  destruct Hat as (_ & _ & _ & Hc & Hi).
  rewrite bind_get, (bind_Ok _ _ _ _ _ (mod_base_Ok s1 _ (wf_base _ Hwf1))), bind_get, Hc.
  rewrite (bind_Ok _ _ _ _ _ (node_deref_Ok s1 _ nd Hnd)), bind_get, Hs.
  pose proof (addWriteBuffers_loop_spec (m_baseSize s1) (length (m_nodes s1)) (wf_base _ Hwf1)
    (S (length (m_nodes s1))) s1 (m_position s1 / m_baseSize s1) (m_position s1 mod m_baseSize s1)
    len [] eq_refl (wf_nodes _ Hwf1) eq_refl Hi Hoff ltac:(lia) Hlen ltac:(lia)) as He.
  rewrite <- Hpos, <- Hcap in He.
  destruct (m_position s1 + len <? m_capacity s1).
  - destruct He as (segs & He & Ht). rewrite (bind_Ok _ _ _ _ _ He). by exists segs.
  - unfold bind. destruct (addWriteBuffers_loop _ _ _ _ _ _ _) as [[] ?]; simpl in *; done.
Qed.

Lemma addWriteBuffers_tiles_witness : fst (addWriteBuffers 0 [] 16 buf16) = UB.
Proof.
  destruct (addWriteBuffers_tiles 0 buf16 16 buf16_wf ltac:(simpl; lia) ltac:(lia))
    as (k & Hk & _ & H). vm_compute in Hk. destruct k; [exact H|]. discriminate Hk.
Defined.

(** What [write] does to a buffer with room for the bytes. *)
Lemma write_append junk s bs :
  wf s -> m_position s = m_size s -> m_position s < m_capacity s -> 0 < length bs ->
  exists s', write junk bs s = (Ok tt, s') /\ writes s bs s' /\ m_position s' = m_size s'.
Proof.
  intros Hwf Hend Hlt Hl. destruct (write_writes junk s bs Hwf Hlt) as (s' & Hs & Hw).
  exists s'. split; [done|]. split; [done|].
  pose proof (writes_pos _ _ _ Hw). pose proof (writes_size _ _ _ Hw). lia.
Qed.

Lemma splice_end {A} (bs l : list A) : splice (length l) bs l = l ++ bs.
Proof. unfold splice. rewrite take_ge, drop_ge, app_nil_r by lia. done. Qed.

(** The first [write] of [readFromFile] on a fresh array. *)
Lemma first_block junk base bs :
  0 < base -> 0 < length bs <= base ->
  exists s', write junk bs (ByteArray_ctor junk base) = (Ok tt, s') /\ wf s' /\
    m_baseSize s' = base /\ m_size s' = length bs /\ m_position s' = length bs /\
    m_capacity s' = base /\ contents s' = bs.
Proof.
  intros Hb Hl. pose proof (ByteArray_ctor_wf junk base Hb) as Hwf.
  destruct (write_append junk _ bs Hwf eq_refl Hb ltac:(lia)) as (s' & Hs & Hw & Hp).
  exists s'. split; [done|]. split; [apply Hw|].
  pose proof (writes_base _ _ _ Hw). pose proof (writes_pos _ _ _ Hw) as Hpos. simpl in *.
  split; [done|]. split; [lia|]. split; [done|].
  split; [apply (writes_room _ _ _ Hw); simpl; lia|].
  rewrite (writes_contents _ _ _ Hw). apply (splice_end bs []).
Qed.

(** One round of the loop of [readFromFile]. *)
Lemma readFromFile_round junk fuel file s :
  readFromFile_loop junk (S fuel) file false s =
  bind (write junk (take (m_baseSize s) file))
    (fun _ => readFromFile_loop junk fuel (drop (m_baseSize s) file) (length file <? m_baseSize s)) s.
Proof. done. Qed.

(** A round that finds the file used up only sets [eof]. *)
Lemma readFromFile_drain junk fuel s :
  0 < m_baseSize s -> readFromFile_loop junk (S fuel) [] false s = (Ok tt, s).
Proof.
  intros Hb. rewrite readFromFile_round, take_nil. apply Nat.ltb_lt in Hb. simpl. rewrite Hb.
  by destruct fuel.
Qed.

(** [readFromFile] is faithful for files of at most one block.  A file of up
    to [base] bytes read into a fresh array becomes its contents; a file of one to
    two blocks loses its first bytes: the second chunk is written over the first,
    and the reported tail is indeterminate. *)
Theorem readFromFile_one_block junk base file :
  0 < base -> length file <= 2 * base ->
  exists s', readFromFile junk true file (ByteArray_ctor junk base) = (Ok true, s') /\
    m_size s' = length file /\
    if length file <=? base then contents s' = file
    else take (length file - base) (contents s') = drop base file.
Proof.
  intros Hb Hlen. unfold readFromFile. cbn [negb Nat.add].
  destruct (decide (length file = 0)) as [->%nil_length_inv|Hne].
  { exists (ByteArray_ctor junk base). erewrite bind_Ok by by apply readFromFile_drain. done. }
  destruct (first_block junk base (take base file) Hb) as (s1 & Hw1 & Hwf1 & Hb1 & Hs1 & Hp1 & Hc1 & Hcont);
    [rewrite length_take; lia|].
  rewrite length_take in Hs1, Hp1.
  destruct (Nat.leb_spec (length file) base) as [Hle|Hgt].
  - exists s1. rewrite Hcont, take_ge by lia. split; [|split; [lia|done]].
    erewrite bind_Ok; [done|]. rewrite readFromFile_round. change (m_baseSize _) with base.
    rewrite (bind_Ok _ _ _ _ _ Hw1), drop_ge by lia.
    destruct (Nat.ltb_spec (length file) base); [done|]. apply readFromFile_drain. lia.
  - destruct (write_full_spec junk s1 (drop base file) Hwf1) as (s2 & k & Hw2 & Hp2 & Hs2 & Hb2 & _ & Ht2);
      [lia|rewrite length_drop; lia|].
    rewrite length_drop in *. rewrite Hc1, Hb1, Nat.sub_diag, drop_0 in Ht2.
    exists s2. split; [|split; [lia|exact Ht2]].
    erewrite bind_Ok; [done|]. rewrite readFromFile_round. change (m_baseSize _) with base.
    rewrite (bind_Ok _ _ _ _ _ Hw1). destruct (Nat.ltb_spec (length file) base); [lia|].
    rewrite readFromFile_round, Hb1, (take_ge (drop base file)) by (rewrite length_drop; lia).
    rewrite (bind_Ok _ _ _ _ _ Hw2), length_drop, (drop_ge (drop base file)) by (rewrite length_drop; lia).
    destruct (Nat.ltb_spec (length file - base) base); [by destruct (length file)|].
    destruct (length file) as [|m] eqn:Hm; [lia|]. apply readFromFile_drain. lia.
Qed.

Lemma readFromFile_one_block_witness :
  exists s', readFromFile 0 true [1; 2; 3]%Z (ByteArray_ctor 0 2) = (Ok true, s') /\
    m_size s' = 3 /\ take 1 (contents s') = [3]%Z.
Proof. apply (readFromFile_one_block 0 2 [1; 2; 3]%Z); simpl; lia. Defined.

(** The length of the text from byte [i] on. *)
Lemma length_hex_dump bs : forall i,
  String.length (hex_dump i bs) + (i - 1) / 32 = 3 * length bs + (i + length bs - 1) / 32.
Proof.
  induction bs as [|b bs IH]; intros i; cbn [hex_dump length].
  { by rewrite Nat.add_0_r. }
  specialize (IH (S i)).
  replace (S i + length bs - 1) with (i + S (length bs) - 1) in IH by lia.
  replace (S i - 1) with i in IH by lia.
  assert (i / 32 = (i - 1) / 32 + (if (0 <? i) && (i mod 32 =? 0) then 1 else 0)) as Hi.
  { destruct i as [|i]; [done|]. replace (S i - 1) with i by lia. cbn [Nat.ltb Nat.leb andb].
    destruct (Nat.eqb_spec (S i mod 32) 0); pose proof (Nat.div_mod_eq (S i) 32);
      pose proof (Nat.div_mod_eq i 32); pose proof (Nat.mod_upper_bound (S i) 32 ltac:(lia));
      pose proof (Nat.mod_upper_bound i 32 ltac:(lia)); lia. }
  destruct ((0 <? i) && (i mod 32 =? 0)); cbn [String.length]; lia.
Qed.

(** [toString] returns exactly the unread bytes and, being [const], leaves
    the array as it was; [toHexString] prints two digits and a blank for each of
    them and one line break after every 32 bytes that are followed by more. *)
Theorem toString_unread s :
  wf s -> m_position s < m_capacity s ->
  toString s = (Ok (drop (m_position s) (contents s)), s) /\
  exists t, toHexString s = (Ok t, s) /\
    String.length t = 3 * (m_size s - m_position s) + (m_size s - m_position s - 1) / 32.
Proof.
  intros Hwf Hlt. pose proof (wf_length_contents s Hwf) as Hl. pose proof (wf_pos s Hwf).
  assert (toString s = (Ok (drop (m_position s) (contents s)), s)) as Hs.
  { unfold toString. rewrite bind_get. unfold getReadableSize.
    destruct (Nat.ltb_spec 0 (m_size s - m_position s)).
    - rewrite bind_get, read_at_reads by (done || lia). rewrite take_ge; [done|].
      rewrite length_drop. lia.
    - by rewrite drop_ge by lia. }
  split; [done|]. unfold toHexString. rewrite (bind_Ok _ _ _ _ _ Hs).
  eexists. split; [reflexivity|].
  pose proof (length_hex_dump (drop (m_position s) (contents s)) 0) as Hd.
  rewrite length_drop, Hl in Hd. simpl in Hd. rewrite Nat.add_0_r in Hd. exact Hd.
Qed.

Lemma toString_unread_witness :
  toString buf16 = (Ok [], buf16) /\ exists t, toHexString buf16 = (Ok t, buf16) /\ String.length t = 0.
Proof. exact (toString_unread buf16 buf16_wf ltac:(simpl; lia)). Defined.
