(* ===== verification/NodesTheorems.v ===== *)
(** * NodesTheorems: the linked list implements the block list

    A relation between a buffer in memory and a buffer of [ByteArray], in the manner of a
    predicate for linked lists with a frame: which addresses are the nodes, in which
    order, and what the rest of the memory is.  Every operation keeps it, with the same
    outcome and result; the destructor gives back the rest. *)

From stdpp Require Import base list numbers gmap sets.
From S2P Require Import Prelude Words ByteArray Nodes.

Local Open Scope nat_scope.

#[local] Notation array := ByteArray.ByteArray.

(** ** Representation *)

(** The nodes at [l], with the addresses of their characters, are the blocks [bs]. *)
Definition chain (ns : gmap addr Node) (cs : gmap addr (list Z)) (l : list (addr * addr)) (bs : list ByteArray.Node) : Prop :=
  length l = length bs /\
  forall k a c b, l !! k = Some (a, c) -> bs !! k = Some b ->
    ns !! a = Some (mkNode c (ByteArray.size b) (fst <$> l !! S k)) /\ cs !! c = Some (ByteArray.ptr b).

(** The pointer [p] is the index [i]. *)
Definition at_index (l : list (addr * addr)) (p : option addr) (i : option nat) : Prop :=
  match p, i with
  | None, None => True
  | Some a, Some k => fst <$> l !! k = Some a
  | _, _ => False
  end.

(** Distinct addresses, and the memory without them. *)
Record owns {A} (js : list addr) (m rest : gmap addr A) : Prop := mkOwns {
  owns_distinct : NoDup js;
  owns_rest : foldr delete m js = rest
}.

Lemma owns_insert {A} js m rest j (x : A) : j ∈ js -> owns js m rest -> owns js (<[j := x]> m) rest.
Proof. intros Hj [Hd Hr]. split; [done|]. by rewrite foldr_delete_insert_in. Qed.

Lemma owns_new {A} js m rest j (x : A) : m !! j = None -> j ∉ js -> owns js m rest -> owns (js ++ [j]) (<[j := x]> m) rest.
Proof.
  intros Hm Hj [Hd Hr]. split.
  - apply NoDup_app. split_and!; [done| |apply NoDup_singleton]. by intros i Hi ->%list_elem_of_singleton.
  - rewrite foldr_app. simpl. by rewrite delete_insert_id.
Qed.

Lemma owns_delete {A} j js m (rest : gmap addr A) : owns (j :: js) m rest -> owns js (delete j m) rest.
Proof.
  intros [Hd Hr]. apply NoDup_cons in Hd as [Hj Hd]. split; [done|]. rewrite <- Hr. symmetry. apply delete_foldr_delete.
Qed.

(** The addresses are fewer than the objects. *)
Lemma owned_size {A} (js : list addr) (m : gmap addr A) : NoDup js -> (forall j, j ∈ js -> is_Some (m !! j)) ->
  length js <= stdpp.base.size m.
Proof.
  intros Hd Hin. rewrite <- size_dom, <- (size_list_to_set (C := gset addr) js) by done.
  apply subseteq_size. intros j Hj%elem_of_list_to_set. by apply elem_of_dom, Hin.
Qed.

Section represents.
(** The rest of the memory. *)
Context (rest_nodes : gmap addr Node) (rest_chars : gmap addr (list Z)).
Implicit Types l : list (addr * addr).

Record represents l (s : Buffer) (s' : array) : Prop := mkRepresents {
  rep_baseSize : m_baseSize s = ByteArray.m_baseSize s';
  rep_position : m_position s = ByteArray.m_position s';
  rep_capacity : m_capacity s = ByteArray.m_capacity s';
  rep_size : m_size s = ByteArray.m_size s';
  rep_endian : m_endian s = ByteArray.m_endian s';
  rep_root : fst <$> l !! 0 = Some (m_root s);
  rep_curr : at_index l (m_curr s) (ByteArray.m_curr s');
  rep_chain : chain (nodes s) (chars s) l (m_nodes s');
  rep_nodes : owns l.*1 (nodes s) rest_nodes;
  rep_chars : owns l.*2 (chars s) rest_chars
}.

(** Two results that agree: the states, and the values as [Q] says; the list may have grown. *)
Definition agree {A B} l (Q : list (addr * addr) -> A -> B -> Prop) (r : outcome A * Buffer) (r' : outcome B * array) : Prop :=
  exists l', l `prefix_of` l' /\ represents l' (snd r) (snd r') /\
    match fst r, fst r' with
    | Ok x, Ok y => Q l' x y
    | Throw e, Throw e' => e = e'
    | Abort, Abort | UB, UB | Deadlock, Deadlock | Diverge, Diverge => True
    | _, _ => False
    end.

#[local] Notation agrees l := (agree l (fun _ => eq)).

Lemma agree_bind {A B C D} l (m : comp Buffer A) (m' : comp array B) (k : A -> comp Buffer C) (k' : B -> comp array D) Q R s s' :
  agree l Q (m s) (m' s') ->
  (forall l' x x' t t', l `prefix_of` l' -> represents l' t t' -> Q l' x x' -> agree l' R (k x t) (k' x' t')) ->
  agree l R (bind m k s) (bind m' k' s').
Proof.
  intros (l1 & Hl & Hr & Ho) Hk. unfold bind. destruct (m s) as [o t], (m' s') as [o' t']. simpl in *.
  destruct o as [x|e| | | |], o' as [y|e'| | | |]; try done; try (by exists l1).
  destruct (Hk l1 x y t t' Hl Hr Ho) as (l2 & Hl2 & H2). exists l2. split; [by etrans|done].
Qed.

Lemma agree_ok {A B} l Q s s' (x : A) (y : B) : represents l s s' -> Q l x y -> agree l Q (Ok x, s) (Ok y, s').
Proof. intros Hr HQ. by exists l. Qed.

Lemma agree_UB {A B} l (Q : list (addr * addr) -> A -> B -> Prop) s s' : represents l s s' -> agree l Q (UB, s) (UB, s').
Proof. intros Hr. by exists l. Qed.

(** *** Members *)

Lemma rep_set_position l s s' v : represents l s s' -> represents l (set_m_position v s) (ByteArray.set_m_position v s').
Proof. by intros []. Qed.

Lemma rep_set_capacity l s s' v : represents l s s' -> represents l (set_m_capacity v s) (ByteArray.set_m_capacity v s').
Proof. by intros []. Qed.

Lemma rep_set_size l s s' v : represents l s s' -> represents l (set_m_size v s) (ByteArray.set_m_size v s').
Proof. by intros []. Qed.

Lemma rep_set_curr l s s' p i : represents l s s' -> at_index l p i -> represents l (set_m_curr p s) (ByteArray.set_m_curr i s').
Proof. by intros []. Qed.

(** *** Pointers *)

Lemma chain_lookup ns cs l bs k a : chain ns cs l bs -> fst <$> l !! k = Some a -> exists c b, l !! k = Some (a, c) /\
  bs !! k = Some b /\ ns !! a = Some (mkNode c (ByteArray.size b) (fst <$> l !! S k)) /\ cs !! c = Some (ByteArray.ptr b).
Proof.
  intros [Hlen Hc] Hk. apply fmap_Some in Hk as ([a' c] & Hk & ->). simpl.
  destruct (lookup_lt_is_Some_2 bs k) as [b Hb]; [rewrite <- Hlen; by eapply lookup_lt_Some|].
  exists c, b. by destruct (Hc k a' c b Hk Hb).
Qed.

Lemma at_next ns cs l s' k : chain ns cs l (m_nodes s') -> at_index l (fst <$> l !! S k) (next_of s' k).
Proof.
  intros [Hlen _]. unfold next_of. rewrite <- Hlen. destruct (Nat.ltb_spec (S k) (length l)) as [H|H].
  - destruct (lookup_lt_is_Some_2 l (S k) H) as [[a c] Hk]. rewrite Hk. simpl. by rewrite Hk.
  - by rewrite (lookup_ge_None_2 l (S k)).
Qed.

(** What a pointer points to, on both sides. *)
Lemma deref_both l s s' a k : represents l s s' -> at_index l (Some a) (Some k) -> exists c b,
  let n := mkNode c (ByteArray.size b) (fst <$> l !! S k) in
  l !! k = Some (a, c) /\ m_nodes s' !! k = Some b /\ nodes s !! a = Some n /\ chars s !! c = Some (ByteArray.ptr b) /\
  deref (Some a) s = (Ok n, s) /\ ByteArray.deref (Some k) s' = (Ok b, s') /\
  deref_next (Some k) s' = (Ok (next_of s' k), s') /\ at_index l (fst <$> l !! S k) (next_of s' k) /\ k < length l.
Proof.
  intros Hr Hk. destruct (chain_lookup _ _ _ _ _ _ (rep_chain _ _ _ Hr) Hk) as (c & b & Hl & Hb & Hn & Hc).
  exists c, b. cbv zeta. split_and!; try done.
  - unfold deref. simpl. by rewrite Hn.
  - unfold ByteArray.deref. by rewrite Hb.
  - by eapply at_next, rep_chain.
  - by eapply lookup_lt_Some.
Qed.

Lemma memcpy_to_both l s s' p i off bs : represents l s s' -> at_index l p i ->
  (exists t t', memcpy_to p off bs s = (Ok tt, t) /\ ByteArray.memcpy_to i off bs s' = (Ok tt, t') /\
     represents l t t' /\ m_curr t = m_curr s /\ ByteArray.m_curr t' = ByteArray.m_curr s') \/
  (memcpy_to p off bs s = (UB, s) /\ ByteArray.memcpy_to i off bs s' = (UB, s')).
Proof.
  intros Hr Hp. destruct p as [a|], i as [k|]; try done; [|by right].
  destruct (deref_both l s s' a k Hr Hp) as (c & b & Hl & Hb & Hn & Hc & Hd & _ & _ & _ & Hk).
  unfold memcpy_to, ByteArray.memcpy_to. rewrite (bind_Ok _ _ _ _ _ Hd), bind_get. cbn [ptr]. rewrite Hc, Hb.
  destruct (off + length bs <=? length (ByteArray.ptr b)); [left|by right]. eexists _, _. split_and!; try reflexivity.
  destruct Hr as [? ? ? ? ? ? ? [Hlen Hch] Hns Hcs]. split; try done; simpl.
  - split; [by rewrite length_insert|]. intros k' a' c' b' Hk' Hb'. destruct (decide (k = k')) as [<-|Hne].
    + rewrite Hl in Hk'. injection Hk' as <- <-. rewrite list_lookup_insert_eq in Hb' by (by rewrite <- Hlen).
      injection Hb' as <-. simpl. by rewrite lookup_insert_eq.
    + rewrite list_lookup_insert_ne in Hb' by done. destruct (Hch _ _ _ _ Hk' Hb') as [H1 H2]. split; [done|].
      rewrite lookup_insert_ne; [done|]. intros ->. apply Hne.
      eapply NoDup_lookup; [apply (owns_distinct _ _ _ Hcs)|rewrite list_lookup_fmap, Hl; done|].
      by rewrite list_lookup_fmap, Hk'.
  - apply owns_insert; [|done]. apply (list_elem_of_lookup_2 _ k). by rewrite list_lookup_fmap, Hl.
Qed.

Lemma memcpy_from_both l s s' p i off n : represents l s s' -> at_index l p i ->
  (exists bs, memcpy_from p off n s = (Ok bs, s) /\ ByteArray.memcpy_from i off n s' = (Ok bs, s')) \/
  (memcpy_from p off n s = (UB, s) /\ ByteArray.memcpy_from i off n s' = (UB, s')).
Proof.
  intros Hr Hp. destruct p as [a|], i as [k|]; try done; [|by right].
  destruct (deref_both l s s' a k Hr Hp) as (c & b & Hl & Hb & Hn & Hc & Hd & _).
  unfold memcpy_from, ByteArray.memcpy_from. rewrite (bind_Ok _ _ _ _ _ Hd), bind_get. cbn [ptr]. rewrite Hc, Hb.
  destruct (off + n <=? length (ByteArray.ptr b)); [left|by right]. by eexists.
Qed.

(** *** The loops

    Each round but the last moves to the next node, so that both fuels are enough. *)
Definition ahead l (i : option nat) : nat := match i with Some k => length l - k | None => 0 end.

Lemma ahead_next l k s' : length l = length (m_nodes s') -> k < length l -> ahead l (next_of s' k) < ahead l (Some k).
Proof. intros Hl Hk. unfold next_of. destruct (S k <? _); simpl; lia. Qed.

Lemma write_loop_nil f npos ncap s : write_loop f npos ncap [] s = (Ok tt, s).
Proof. by destruct f. Qed.

Lemma write_loop_nil_list f npos ncap s : ByteArray.write_loop f npos ncap [] s = (Ok tt, s).
Proof. by destruct f. Qed.

(** Both sides look at the node under a pointer, at its successor, or at both. *)
Lemma deref_then {C D} l p i (k : Node -> comp Buffer C) (k' : ByteArray.Node -> comp array D) R s s' :
  represents l s s' -> at_index l p i ->
  (forall n n', size n = ByteArray.size n' -> agree l R (k n s) (k' n' s')) ->
  agree l R (bind (deref p) k s) (bind (ByteArray.deref i) k' s').
Proof.
  intros Hr Hp Hk. destruct p as [a|], i as [j|]; try done; [|by apply agree_UB].
  destruct (deref_both l s s' a j Hr Hp) as (c & b & _ & _ & _ & _ & Hd & Hd' & _).
  rewrite (bind_Ok _ _ _ _ _ Hd), (bind_Ok _ _ _ _ _ Hd'). by apply Hk.
Qed.

Lemma next_then {C D} l p i (k : Node -> comp Buffer C) (k' : option nat -> comp array D) R s s' :
  represents l s s' -> at_index l p i ->
  (forall n j, at_index l (next n) j -> ahead l j < ahead l i -> agree l R (k n s) (k' j s')) ->
  agree l R (bind (deref p) k s) (bind (deref_next i) k' s').
Proof.
  intros Hr Hp Hk. destruct p as [a|], i as [j|]; try done; [|by apply agree_UB].
  destruct (deref_both l s s' a j Hr Hp) as (c & b & _ & _ & _ & _ & Hd & _ & Hd' & Hn & Hlt).
  rewrite (bind_Ok _ _ _ _ _ Hd), (bind_Ok _ _ _ _ _ Hd'). apply Hk; [done|].
  by apply ahead_next; [apply (rep_chain _ _ _ Hr)|].
Qed.

Lemma node_then {C D} l p i (k : Node -> comp Buffer C) (k' : ByteArray.Node -> option nat -> comp array D) R s s' :
  represents l s s' -> at_index l p i ->
  (forall n n' j, size n = ByteArray.size n' -> at_index l (next n) j -> ahead l j < ahead l i ->
     agree l R (k n s) (k' n' j s')) ->
  agree l R (bind (deref p) k s) (bind (ByteArray.deref i) (fun n' => bind (deref_next i) (k' n')) s').
Proof.
  intros Hr Hp Hk. destruct p as [a|], i as [j|]; try done; [|by apply agree_UB].
  destruct (deref_both l s s' a j Hr Hp) as (c & b & _ & _ & _ & _ & Hd & Hd' & Hd'' & Hn & Hlt).
  rewrite (bind_Ok _ _ _ _ _ Hd), (bind_Ok _ _ _ _ _ Hd'), (bind_Ok _ _ _ _ _ Hd''). apply Hk; [done..|].
  by apply ahead_next; [apply (rep_chain _ _ _ Hr)|].
Qed.

(** The end of the last round. *)
Lemma advance {C D} l (b : bool) p j n (k : comp Buffer C) (k' : comp array D) R s s' : represents l s s' -> at_index l p j ->
  (forall t t', represents l t t' -> agree l R (k t) (k' t')) ->
  agree l R
    ((do! (if b then modify (set_m_curr p) else ret tt) in do! modify (fun s => set_m_position (m_position s + n) s) in k) s)
    ((do! (if b then modify (ByteArray.set_m_curr j) else ret tt) in
      do! modify (fun s => ByteArray.set_m_position (ByteArray.m_position s + n) s) in k') s').
Proof.
  intros Hr Hp Hk. destruct b; rewrite ?bind_ret_l, !bind_modify; apply Hk.
  - rewrite <- (rep_position _ _ _ (rep_set_curr l s s' p j Hr Hp)). by apply rep_set_position, rep_set_curr.
  - rewrite (rep_position _ _ _ Hr). by apply rep_set_position.
Qed.

Lemma write_loop_both l : forall f f' npos ncap buf s s', represents l s s' ->
  ahead l (ByteArray.m_curr s') < f -> ahead l (ByteArray.m_curr s') < f' ->
  agrees l (write_loop f npos ncap buf s) (ByteArray.write_loop f' npos ncap buf s').
Proof.
  induction f as [|f IH]; intros [|f'] npos ncap buf s s' Hr Hf Hf'; try lia.
  cbn [write_loop ByteArray.write_loop]. destruct (length buf =? 0); [by apply agree_ok|].
  rewrite !bind_get. pose proof (rep_curr _ _ _ Hr) as Hp.
  destruct (length buf <=? ncap).
  all: match goal with |- context [memcpy_to _ _ ?b] =>
         destruct (memcpy_to_both l s s' _ _ npos b Hr Hp)
           as [(t & t' & H1 & H2 & Hr1 & Hc1 & Hc2)|[H1 H2]] end.
  all: try (unfold bind; rewrite H1, H2; by apply agree_UB).
  all: rewrite (bind_Ok _ _ _ _ _ H1), (bind_Ok _ _ _ _ _ H2).
  - apply node_then; [done..|]. intros n n' j -> Hn _.
    apply advance; [done..|]. intros u u' Hu. rewrite write_loop_nil, write_loop_nil_list. by apply agree_ok.
  - rewrite !bind_modify, (rep_position _ _ _ Hr1). apply next_then; [by apply rep_set_position|done|]. intros n j Hn Hj.
    rewrite !bind_modify. pose proof (rep_set_position _ _ _ (ByteArray.m_position t' + ncap) Hr1) as Hr2.
    pose proof (rep_set_curr _ _ _ _ _ Hr2 Hn) as Hr3. apply deref_then; [done..|]. intros m m' ->.
    apply IH; [done|simpl; lia..].
Qed.

Lemma read_loop_0 f npos ncap s : read_loop f npos ncap 0 s = (Ok [], s).
Proof. by destruct f. Qed.

Lemma read_loop_0_list f npos ncap s : ByteArray.read_loop f npos ncap 0 s = (Ok [], s).
Proof. by destruct f. Qed.

Lemma read_loop_both l : forall f f' npos ncap sz s s', represents l s s' ->
  ahead l (ByteArray.m_curr s') < f -> ahead l (ByteArray.m_curr s') < f' ->
  agrees l (read_loop f npos ncap sz s) (ByteArray.read_loop f' npos ncap sz s').
Proof.
  induction f as [|f IH]; intros [|f'] npos ncap sz s s' Hr Hf Hf'; try lia.
  cbn [read_loop ByteArray.read_loop]. destruct (sz =? 0); [by apply agree_ok|].
  rewrite !bind_get. pose proof (rep_curr _ _ _ Hr) as Hp.
  destruct (sz <=? ncap).
  all: match goal with |- context [memcpy_from _ _ ?b] =>
         destruct (memcpy_from_both l s s' _ _ npos b Hr Hp) as [(bs & H1 & H2)|[H1 H2]] end.
  all: try (unfold bind; rewrite H1, H2; by apply agree_UB).
  all: rewrite (bind_Ok _ _ _ _ _ H1), (bind_Ok _ _ _ _ _ H2).
  - apply node_then; [done..|]. intros n n' j -> Hn _.
    apply advance; [done..|]. intros u u' Hu.
    rewrite (bind_Ok _ _ _ _ _ (read_loop_0 _ _ _ _)), (bind_Ok _ _ _ _ _ (read_loop_0_list _ _ _ _)).
    by apply agree_ok.
  - rewrite !bind_modify, (rep_position _ _ _ Hr). apply next_then; [by apply rep_set_position|done|]. intros n j Hn Hj.
    rewrite !bind_modify. pose proof (rep_set_position _ _ _ (ByteArray.m_position s' + ncap) Hr) as Hr2.
    pose proof (rep_set_curr _ _ _ _ _ Hr2 Hn) as Hr3. apply deref_then; [done..|]. intros m m' ->.
    eapply agree_bind; [apply IH; [done|simpl; lia..]|]. intros l' x ? t t' Hl Ht <-. by apply agree_ok.
Qed.

Lemma seek_loop_both l : forall f f' pos s s', represents l s s' ->
  ahead l (ByteArray.m_curr s') < f -> ahead l (ByteArray.m_curr s') < f' ->
  agrees l (seek_loop f pos s) (ByteArray.seek_loop f' pos s').
Proof.
  induction f as [|f IH]; intros [|f'] pos s s' Hr Hf Hf'; try lia.
  cbn [seek_loop ByteArray.seek_loop]. rewrite !bind_get. pose proof (rep_curr _ _ _ Hr) as Hp.
  destruct (m_curr s) as [a|], (ByteArray.m_curr s') as [k|] eqn:Ek; try done; [|by apply agree_UB].
  destruct (deref_both l s s' a k Hr Hp) as (c & b & _ & _ & _ & _ & Hd & Hd' & Hd'' & Hn & Hk).
  rewrite (bind_Ok _ _ _ _ _ Hd), (bind_Ok _ _ _ _ _ Hd'). cbn [size next].
  destruct (ByteArray.size b <=? pos); [|by apply agree_ok].
  rewrite (bind_Ok _ _ _ _ _ Hd''), !bind_modify.
  assert (ahead l (next_of s' k) < ahead l (Some k)) by (by apply ahead_next; [apply (rep_chain _ _ _ Hr)|]).
  apply IH; [by apply rep_set_curr|simpl in *; lia..].
Qed.

(** ** The operations *)

Lemma nodes_there l s s' : represents l s s' -> forall a, a ∈ l.*1 -> is_Some (nodes s !! a).
Proof.
  intros Hr a (k & Hk)%list_elem_of_lookup. rewrite list_lookup_fmap in Hk.
  destruct (chain_lookup _ _ _ _ _ _ (rep_chain _ _ _ Hr) Hk) as (c & b & _ & _ & Hn & _). by rewrite Hn.
Qed.

(** Both fuels. *)
Lemma fuel_nodes l s s' : represents l s s' -> length l <= stdpp.base.size (nodes s).
Proof.
  intros Hr. rewrite <- (length_fmap fst). apply owned_size; [apply (owns_distinct _ _ _ (rep_nodes _ _ _ Hr))|].
  by eapply nodes_there.
Qed.

Lemma fuel_ahead l s s' i : represents l s s' -> ahead l i <= stdpp.base.size (nodes s) /\ ahead l i <= length (m_nodes s').
Proof. intros Hr. pose proof (fuel_nodes _ _ _ Hr). destruct (rep_chain _ _ _ Hr) as [<- _]. destruct i; simpl; lia. Qed.

Lemma rep_readable l s s' : represents l s s' -> getReadableSize s = ByteArray.getReadableSize s'.
Proof. intros Hr. unfold getReadableSize, ByteArray.getReadableSize. by rewrite (rep_size _ _ _ Hr), (rep_position _ _ _ Hr). Qed.

Lemma mod_base_both l v s s' : represents l s s' -> agree l (fun l' x y => x = y /\ l' = l) (mod_base v s) (ByteArray.mod_base v s').
Proof.
  intros Hr. unfold mod_base, ByteArray.mod_base. rewrite bind_get, (rep_baseSize _ _ _ Hr).
  destruct (_ =? 0); [by apply agree_UB|by apply agree_ok].
Qed.

Lemma read_both l n s s' : represents l s s' -> agrees l (read n s) (ByteArray.read n s').
Proof.
  intros Hr. unfold read, ByteArray.read. rewrite !bind_get, (rep_readable _ _ _ Hr).
  destruct (_ <? n); [by exists l|]. rewrite !bind_get, (rep_position _ _ _ Hr).
  eapply agree_bind; [by apply mod_base_both|]. intros l' npos ? t t' _ Ht [<- ->]. rewrite !bind_get.
  apply deref_then; [done|apply (rep_curr _ _ _ Ht)|]. intros m m' ->. rewrite !bind_get.
  destruct (fuel_ahead l t t' (ByteArray.m_curr t') Ht). apply read_loop_both; [done|lia..].
Qed.

Lemma setPosition_both l pos s s' : represents l s s' -> agrees l (setPosition pos s) (ByteArray.setPosition pos s').
Proof.
  intros Hr. unfold setPosition, ByteArray.setPosition. rewrite !bind_get, (rep_size _ _ _ Hr).
  destruct (_ <? pos); [by exists l|]. rewrite !bind_modify, !bind_get.
  apply (rep_set_position _ _ _ pos) in Hr. destruct (fuel_ahead l _ _ (ByteArray.m_curr s') Hr).
  apply seek_loop_both; [done|simpl in *; lia..].
Qed.

Lemma chars_there l s s' : represents l s s' -> forall c, c ∈ l.*2 -> is_Some (chars s !! c).
Proof.
  intros Hr c (k & Hk)%list_elem_of_lookup. rewrite list_lookup_fmap in Hk. apply fmap_Some in Hk as ([a c'] & Hk & ->).
  destruct (chain_lookup _ _ _ _ k a (rep_chain _ _ _ Hr)) as (c & b & Hk' & _ & _ & Hc); [by rewrite Hk|].
  simpl. assert (c = c') as <- by congruence. by rewrite Hc.
Qed.

(** *** Growing *)

Lemma last_loop_spec l s s' : represents l s s' -> forall f k a, fst <$> l !! k = Some a -> length l <= S (f + k) ->
  exists z, last_loop f (Some a) s = (Ok (Some z), s) /\ fst <$> l !! (length l - 1) = Some z.
Proof.
  intros Hr. induction f as [|f IH]; intros k a Hk Hf.
  all: destruct (deref_both l s s' a k Hr Hk) as (c & b & _ & _ & _ & _ & Hd & _ & _ & _ & Hlt).
  all: cbn [last_loop]; rewrite (bind_Ok _ _ _ _ _ Hd); cbn [next].
  - exists a. replace (length l - 1) with k by lia. by rewrite (lookup_ge_None_2 l (S k)) by lia.
  - destruct (l !! S k) as [[a' c']|] eqn:E; simpl.
    + apply (IH (S k)); [by rewrite E|lia].
    + apply lookup_ge_None in E. exists a. by replace (length l - 1) with k by lia.
Qed.

Context (junk : Z) (new_node : gmap addr Node -> addr) (new_chars : gmap addr (list Z) -> addr).
Context (new_node_fresh : forall m, m !! new_node m = None) (new_chars_fresh : forall m, m !! new_chars m = None).

(** A new node behind the last one. *)
Lemma chain_grow ns cs l bs z cz bz a c s : chain ns cs l bs -> NoDup l.*1 ->
  l !! (length l - 1) = Some (z, cz) -> ns !! z = Some (mkNode cz (ByteArray.size bz) None) ->
  ns !! a = None -> cs !! c = None ->
  chain (<[z := mkNode cz (ByteArray.size bz) (Some a)]> (<[a := mkNode c s None]> ns)) (<[c := repeat junk s]> cs)
    (l ++ [(a, c)]) (bs ++ [ByteArray.Node_ctor junk s]).
Proof.
  intros [Hlen Hch] Hdup Hlz Hnz Ha Hc. pose proof (lookup_lt_Some _ _ _ Hlz) as Hlt.
  split; [rewrite !length_app; simpl; lia|]. intros k a' c' b Hk Hbk. apply lookup_app_Some in Hk as [Hk|[Hge Hk]].
  - pose proof (lookup_lt_Some _ _ _ Hk) as Hkl. rewrite lookup_app_l in Hbk by lia.
    destruct (Hch k a' c' b Hk Hbk) as [E1 E2]. split; [|rewrite lookup_insert_ne; [done|intros <-; congruence]].
    destruct (decide (k = length l - 1)) as [->|Hne].
    + assert (a' = z) as -> by (rewrite Hlz in Hk; congruence). rewrite lookup_insert_eq. f_equal.
      rewrite Hnz in E1. injection E1 as E3 E4 _. rewrite E3, E4. f_equal.
      rewrite lookup_app_r by lia. by replace (S (length l - 1) - length l) with 0 by lia.
    + rewrite lookup_insert_ne, lookup_insert_ne, E1, lookup_app_l; [done|lia|intros <-; congruence|].
      intros <-. apply Hne. eapply NoDup_lookup; [exact Hdup|by rewrite list_lookup_fmap, Hk|].
      by rewrite list_lookup_fmap, Hlz.
  - rewrite lookup_app_r in Hbk by lia. rewrite <- Hlen in Hbk. destruct (k - length l) as [|] eqn:E; [|done].
    injection Hk as <- <-. injection Hbk as <-. rewrite lookup_insert_ne by (intros ->; congruence).
    rewrite !lookup_insert_eq. split; [|done]. rewrite lookup_ge_None_2; [done|]. rewrite length_app. simpl. lia.
Qed.

Lemma at_index_app l l' p i : at_index l p i -> at_index (l ++ l') p i.
Proof.
  destruct p as [a|], i as [k|]; try done. simpl. intros Hk. rewrite lookup_app_l; [done|].
  apply fmap_Some in Hk as (x & Hx & _). by eapply lookup_lt_Some.
Qed.

Lemma grow_step l s s' z : represents l s s' -> fst <$> l !! (length l - 1) = Some z ->
  exists a c s1 s2 n, Node_ctor junk new_node new_chars (m_baseSize s) s = (Ok a, s1) /\
    put_next (Some z) (Some a) s1 = (Ok tt, s2) /\ deref (Some z) s2 = (Ok n, s2) /\ next n = Some a /\
    m_capacity s2 = m_capacity s /\ m_baseSize s2 = m_baseSize s /\
    represents (l ++ [(a, c)]) s2 (set_m_nodes (m_nodes s' ++ [ByteArray.Node_ctor junk (ByteArray.m_baseSize s')]) s').
Proof.
  intros Hr Hz. pose proof (nodes_there _ _ _ Hr) as Hns. pose proof (chars_there _ _ _ Hr) as Hcs.
  destruct (deref_both l s s' z (length l - 1) Hr Hz) as (cz & bz & Hlz & _ & Hnz & _ & _ & _ & _ & _ & Hlt).
  rewrite (lookup_ge_None_2 l (S (length l - 1))) in Hnz by lia. simpl in Hnz.
  set (a := new_node (nodes s)). set (c := new_chars (chars s)).
  assert (nodes s !! a = None) as Ha by apply new_node_fresh. assert (chars s !! c = None) as Hc by apply new_chars_fresh.
  assert (a ∉ l.*1) as Hal by (intros H; apply Hns in H; rewrite Ha in H; by destruct H).
  assert (c ∉ l.*2) as Hcl by (intros H; apply Hcs in H; rewrite Hc in H; by destruct H).
  assert (a <> z) as Haz by (intros ->; congruence).
  assert (z ∈ l.*1) as Hzl by (apply (list_elem_of_lookup_2 _ (length l - 1)); by rewrite list_lookup_fmap, Hlz).
  eexists a, c, _, _, _. split; [reflexivity|]. split; [|split; [|split; [|split; [|split]]]].
  - unfold put_next, deref. unfold bind at 1. simpl. rewrite lookup_insert_ne by done. rewrite Hnz. reflexivity.
  - unfold deref. simpl. by rewrite lookup_insert_eq.
  - done.
  - done.
  - done.
  - destruct Hr as [Hb Hp Hcap Hsz He Hroot Hcurr Hch Hn Hcr]. split; try done; simpl.
    + by rewrite lookup_app_l by lia.
    + by apply at_index_app.
    + rewrite Hb. eapply chain_grow; try done. apply (owns_distinct _ _ _ Hn).
    + rewrite fmap_app. apply owns_insert; [set_solver|]. by apply owns_new.
    + rewrite fmap_app. by apply owns_new.
Qed.

Lemma add_nodes_both count : forall l s s' z first first', represents l s s' -> fst <$> l !! (length l - 1) = Some z ->
  at_index l first first' ->
  agree l (fun l' => at_index l') (add_nodes junk new_node new_chars count (Some z) first s)
    (ByteArray.add_nodes junk count (length l - 1) first' s').
Proof.
  induction count as [|count IH]; intros l s s' z first first' Hr Hz Hf; [by apply agree_ok|].
  cbn [add_nodes ByteArray.add_nodes].
  destruct (grow_step l s s' z Hr Hz) as (a & c & s1 & s2 & n & H1 & H2 & H3 & H4 & Hcap & Hbase & Hr2).
  rewrite bind_get, (bind_Ok _ _ _ _ _ H1), (bind_Ok _ _ _ _ _ H2), bind_modify. cbv zeta.
  rewrite (bind_Ok _ _ _ _ _ H3), !bind_modify, H4, Hcap, Hbase, (rep_capacity _ _ _ Hr), (rep_baseSize _ _ _ Hr).
  assert (0 < length l) by (destruct l; [done|simpl; lia]).
  destruct (IH (l ++ [(a, c)]) (set_m_capacity (ByteArray.m_capacity s' + ByteArray.m_baseSize s') s2) _ a
    (match first with None => Some z | Some _ => first end)
    (match first' with None => Some (length l - 1) | Some _ => first' end) (rep_set_capacity _ _ _ _ Hr2))
    as (l' & Hl' & Hr' & Ho).
  - rewrite length_app. simpl. rewrite lookup_app_r by lia. by replace (length l + 1 - 1 - length l) with 0 by lia.
  - destruct first as [p|], first' as [k|]; try done; simpl in *.
    + by apply (at_index_app l _ (Some p) (Some k)).
    + by rewrite lookup_app_l by lia.
  - replace (length (l ++ [(a, c)]) - 1) with (S (length l - 1)) in * by (rewrite length_app; simpl; lia).
    exists l'. split_and!; [|exact Hr'|exact Ho]. etrans; [|exact Hl']. by eexists.
Qed.

Lemma addCapacity_both l sz s s' : represents l s s' ->
  agrees l (addCapacity junk new_node new_chars sz s) (ByteArray.addCapacity junk sz s').
Proof.
  intros Hr. unfold addCapacity, ByteArray.addCapacity. destruct (sz =? 0); [by apply agree_ok|].
  rewrite !bind_get. assert (getCapacity s = ByteArray.getCapacity s') as ->
    by (unfold getCapacity, ByteArray.getCapacity; by rewrite (rep_capacity _ _ _ Hr), (rep_position _ _ _ Hr)).
  destruct (sz <=? _); [by apply agree_ok|]. rewrite !bind_get, (rep_baseSize _ _ _ Hr).
  destruct (_ =? 0); [by apply agree_UB|]. rewrite !bind_get.
  destruct (last_loop_spec l s s' Hr (stdpp.base.size (nodes s)) 0 _ (rep_root _ _ _ Hr)) as (z & Hz & Hlast).
  { pose proof (fuel_nodes _ _ _ Hr). lia. }
  rewrite (bind_Ok _ _ _ _ _ Hz). destruct (rep_chain _ _ _ Hr) as [<- _].
  eapply agree_bind; [by apply add_nodes_both|]. intros l' p i t t' Hl Ht Hp.
  destruct (ByteArray.getCapacity s' =? 0); apply agree_ok; try done. by apply rep_set_curr.
Qed.

Lemma write_both l buf s s' : represents l s s' ->
  agrees l (write junk new_node new_chars buf s) (ByteArray.write junk buf s').
Proof.
  intros Hr. unfold write, ByteArray.write. destruct (length buf <=? 0); [by apply agree_ok|].
  eapply agree_bind; [by apply addCapacity_both|]. intros l1 _ _ t1 t1' _ H1 _. rewrite !bind_get.
  rewrite (rep_position _ _ _ H1). eapply agree_bind; [by apply mod_base_both|]. intros l2 npos ? t2 t2' _ H2 [<- ->].
  rewrite !bind_get, (rep_baseSize _ _ _ H2). destruct (fuel_ahead l1 t2 t2' (ByteArray.m_curr t2') H2).
  eapply agree_bind; [apply write_loop_both; [done|lia..]|]. intros l3 _ _ t3 t3' _ H3 _. rewrite !bind_get.
  rewrite (rep_position _ _ _ H3), (rep_size _ _ _ H3).
  destruct (_ <? _); apply agree_ok; try done. by apply rep_set_size.
Qed.
End represents.

(** *** Freeing *)

Lemma chain_tail ns cs x l b bs : chain ns cs (x :: l) (b :: bs) -> chain ns cs l bs.
Proof. intros [Hlen Hc]. split; [simpl in Hlen; lia|]. intros k. apply (Hc (S k)). Qed.

Lemma chain_without ns cs l bs a c : a ∉ l.*1 -> c ∉ l.*2 -> chain ns cs l bs -> chain (delete a ns) (delete c cs) l bs.
Proof.
  intros Ha Hc [Hlen Hch]. split; [done|]. intros k a' c' b Hk Hb. destruct (Hch k a' c' b Hk Hb) as [E1 E2].
  rewrite !lookup_delete_ne; [done|intros <-; apply Hc|intros <-; apply Ha];
    apply (list_elem_of_lookup_2 _ k); by rewrite list_lookup_fmap, Hk.
Qed.

(** The loop that frees the nodes [l]. *)
Lemma free_loop_spec l : forall bs s fuel rn rc, chain (nodes s) (chars s) l bs ->
  owns l.*1 (nodes s) rn -> owns l.*2 (chars s) rc -> length l <= fuel ->
  exists p, free_loop fuel (fst <$> l !! 0) s = (Ok tt, set_m_curr p (set_nodes rn (set_chars rc s))).
Proof.
  induction l as [|[a c] l IH]; intros bs s fuel rn rc Hch Hn Hc Hfuel.
  - destruct Hn as [_ <-], Hc as [_ <-]. exists (m_curr s). destruct fuel; by destruct s.
  - destruct bs as [|b bs]; [by destruct Hch|]. destruct fuel as [|fuel]; [simpl in Hfuel; lia|].
    destruct (proj2 Hch 0 a c b eq_refl eq_refl) as [Ha Hcc]. cbn [free_loop lookup list_lookup fmap option_fmap option_map fst].
    rewrite bind_modify. set (s1 := set_m_curr (Some a) s).
    assert (deref (Some a) s1 = (Ok (mkNode c (ByteArray.size b) (fst <$> l !! 0)), s1)) as Hd
      by (unfold deref; simpl; by rewrite Ha).
    rewrite (bind_Ok _ _ _ _ _ Hd), bind_get. unfold Node_dtor.
    pose proof (owns_distinct _ _ _ Hn) as Hdn. pose proof (owns_distinct _ _ _ Hc) as Hdc. simpl in Hdn, Hdc.
    apply NoDup_cons in Hdn as [Hal _], Hdc as [Hcl _].
    rewrite bind_assoc, (bind_Ok _ _ _ _ _ Hd), bind_assoc, bind_get. cbn [ptr]. change (chars s1) with (chars s).
    change (m_curr s1) with (Some a). rewrite Hcc, bind_assoc, !bind_modify. cbn [next].
    destruct (IH bs (set_nodes (delete a (nodes s)) (set_chars (delete c (chars s)) s1)) fuel rn rc) as [p Hp];
      [by apply chain_without; [..|eapply chain_tail]|by apply owns_delete|by apply owns_delete|simpl in Hfuel; lia|].
    exists p. exact Hp.
Qed.

Section life.
Context (rest_nodes : gmap addr Node) (rest_chars : gmap addr (list Z)).
#[local] Notation represents := (represents rest_nodes rest_chars).

Lemma dtor_frees l s s' : represents l s s' ->
  exists t, ByteArray_dtor s = (Ok tt, t) /\ nodes t = rest_nodes /\ chars t = rest_chars.
Proof.
  intros Hr. unfold ByteArray_dtor. rewrite !bind_get, <- (rep_root _ _ _ _ _ Hr).
  destruct (free_loop_spec l _ s (stdpp.base.size (nodes s)) _ _ (rep_chain _ _ _ _ _ Hr) (rep_nodes _ _ _ _ _ Hr)
              (rep_chars _ _ _ _ _ Hr)) as [p Hp]; [by eapply fuel_nodes|]. eexists. split; [exact Hp|done].
Qed.

Lemma clear_both l s s' : represents l s s' -> exists t, clear s = (Ok tt, t) /\
  represents (take 1 l) t (snd (ByteArray.clear s')).
Proof.
  intros Hr. pose proof (fuel_nodes _ _ _ _ _ Hr) as Hfuel. destruct l as [|[a c] l]; [by pose proof (rep_root _ _ _ _ _ Hr)|].
  destruct Hr as [Hb Hp Hcap Hsz He Hroot Hcurr Hch Hn Hc]. simpl in Hroot. injection Hroot as ->.
  destruct (m_nodes s') as [|b bs] eqn:Hbs; [by destruct Hch|].
  destruct (proj2 Hch 0 _ c b eq_refl eq_refl) as [Ha Hcc].
  unfold clear. rewrite !bind_modify, bind_get. cbn [m_root set_m_capacity set_m_size set_m_position].
  set (s1 := set_m_capacity _ _).
  assert (deref (Some (m_root s)) s1 = (Ok (mkNode c (ByteArray.size b) (fst <$> l !! 0)), s1)) as Hd
    by (unfold deref; simpl; by rewrite Ha).
  rewrite (bind_Ok _ _ _ _ _ Hd), bind_get. cbn [next].
  pose proof (owns_distinct _ _ _ Hn) as Hdn. pose proof (owns_distinct _ _ _ Hc) as Hdc. simpl in Hdn, Hdc.
  apply NoDup_cons in Hdn as [Hal Hdn], Hdc as [Hcl Hdc].
  destruct (free_loop_spec l bs s1 (stdpp.base.size (nodes s1)) (foldr delete (nodes s) l.*1) (foldr delete (chars s) l.*2))
    as [p Hfree]; [by eapply chain_tail|done|done|simpl in *; lia|].
  rewrite (bind_Ok _ _ _ _ _ Hfree), bind_modify. unfold put_next, deref. unfold bind at 1. simpl.
  rewrite lookup_foldr_delete_not_elem_of, Ha by done. eexists. split; [reflexivity|].
  split; try done; simpl; rewrite ?Hbs.
  - split; [by destruct l|]. intros [|k] a' c' b' Hk Hb'; [|by destruct l, k].
    simpl in Hk, Hb'. injection Hk as <- <-. injection Hb' as <-.
    rewrite lookup_insert_eq, lookup_foldr_delete_not_elem_of by done. by destruct l.
  - split; [apply NoDup_singleton|]. simpl. rewrite delete_insert_eq. apply (owns_rest _ _ _ Hn).
  - split; [apply NoDup_singleton|]. apply (owns_rest _ _ _ Hc).
Qed.
End life.

(** ** The life of a buffer *)

(** What a program does with a buffer: the raw operations.  The typed ones are made of
    these and of the member [m_endian]. *)
Inductive op : Type :=
  | OpWrite (buf : list Z)
  | OpRead (n : nat)
  | OpSeek (pos : nat)
  | OpClear.

Definition list_op (junk : Z) (o : op) : comp array (list Z) :=
  match o with
  | OpWrite buf => do! ByteArray.write junk buf in ret []
  | OpRead n => ByteArray.read n
  | OpSeek pos => do! ByteArray.setPosition pos in ret []
  | OpClear => do! ByteArray.clear in ret []
  end.

Definition node_op (junk : Z) (new_node : gmap addr Node -> addr) (new_chars : gmap addr (list Z) -> addr) (o : op)
    : comp Buffer (list Z) :=
  match o with
  | OpWrite buf => do! write junk new_node new_chars buf in ret []
  | OpRead n => read n
  | OpSeek pos => do! setPosition pos in ret []
  | OpClear => do! clear in ret []
  end.

(** One after the other; an exception is caught by the program. *)
Definition goes_on {A} (r : outcome A) : bool := match r with Ok _ | Throw _ => true | _ => false end.

Fixpoint all_ops {S} (f : op -> comp S (list Z)) (os : list op) (s : S) : list (outcome (list Z)) * S :=
  match os with
  | [] => ([], s)
  | o :: os =>
      let '(r, s) := f o s in
      if goes_on r then let '(rs, s) := all_ops f os s in (r :: rs, s) else ([r], s)
  end.

Section programs.
Context (rest_nodes : gmap addr Node) (rest_chars : gmap addr (list Z)).
Context (junk : Z) (new_node : gmap addr Node -> addr) (new_chars : gmap addr (list Z) -> addr).
#[local] Notation represents := (represents rest_nodes rest_chars).
#[local] Notation agrees l := (agree rest_nodes rest_chars l (fun _ => eq)).

Lemma agrees_eq {A} l (r : outcome A * Buffer) r' : agrees l r r' -> fst r = fst r' /\ exists l', represents l' (snd r) (snd r').
Proof.
  destruct r as [o s], r' as [o' s']. intros (l' & _ & Hr & Ho). split; [|by exists l'].
  simpl in *. destruct o, o'; try done; by rewrite Ho.
Qed.

Lemma agrees_then_nil l (m : comp Buffer unit) (m' : comp array unit) s s' : agrees l (m s) (m' s') ->
  agrees l (bind m (fun _ => ret (@nil Z)) s) (bind m' (fun _ => ret []) s').
Proof. intros Hm. eapply agree_bind; [exact Hm|]. intros. by apply agree_ok. Qed.

Lemma ctor_represents baseSize : rest_nodes !! new_node rest_nodes = None -> rest_chars !! new_chars rest_chars = None ->
  represents [(new_node rest_nodes, new_chars rest_chars)]
    (ByteArray_ctor junk new_node new_chars baseSize rest_nodes rest_chars) (ByteArray.ByteArray_ctor junk baseSize).
Proof.
  intros Hn Hc. split; try done.
  - split; [done|]. intros [|k] a c b Hk Hb; [|by destruct k]. injection Hk as <- <-. injection Hb as <-.
    simpl. by rewrite !lookup_insert_eq.
  - split; [apply NoDup_singleton|]. simpl. by apply delete_insert_id.
  - split; [apply NoDup_singleton|]. simpl. by apply delete_insert_id.
Qed.

Lemma op_both o l s s' : (forall m, m !! new_node m = None) -> (forall m, m !! new_chars m = None) -> represents l s s' ->
  fst (node_op junk new_node new_chars o s) = fst (list_op junk o s') /\
  exists l', represents l' (snd (node_op junk new_node new_chars o s)) (snd (list_op junk o s')).
Proof.
  intros Hn Hc Hr. destruct o as [buf|n|pos|].
  - eapply agrees_eq, agrees_then_nil. by apply write_both.
  - eapply agrees_eq. by apply read_both.
  - eapply agrees_eq, agrees_then_nil. by apply setPosition_both.
  - destruct (clear_both _ _ l s s' Hr) as (t & Ht & Hr'). unfold node_op. rewrite (bind_Ok _ _ _ _ _ Ht).
    split; [done|]. by eexists.
Qed.

(** C17: (refinement) The linked list of nodes implements the list of blocks, and leaks
    nothing.  Whatever a program does with a buffer in a memory that holds other objects
    (writing, reading, seeking, clearing, catching exceptions), every operation has the
    same outcome and result as on the list of blocks, undefined behaviour included, so
    that what is proved of the buffer holds of the nodes; at the end the nodes are the
    blocks, no other object was touched, and the destructor frees the nodes with their
    characters, each once and nothing else: the memory is as it was. *)
Theorem nodes_implement_blocks baseSize os :
  (forall m, m !! new_node m = None) -> (forall m, m !! new_chars m = None) ->
  let r := all_ops (node_op junk new_node new_chars) os
             (ByteArray_ctor junk new_node new_chars baseSize rest_nodes rest_chars) in
  let r' := all_ops (list_op junk) os (ByteArray.ByteArray_ctor junk baseSize) in
  fst r = fst r' /\ (exists l, represents l (snd r) (snd r')) /\
  exists t, ByteArray_dtor (snd r) = (Ok tt, t) /\ nodes t = rest_nodes /\ chars t = rest_chars.
Proof.
  intros Hn Hc. cbv zeta. pose proof (ctor_represents baseSize (Hn _) (Hc _)) as Hr. revert Hr.
  generalize (ByteArray_ctor junk new_node new_chars baseSize rest_nodes rest_chars), (ByteArray.ByteArray_ctor junk baseSize).
  generalize [(new_node rest_nodes, new_chars rest_chars)].
  induction os as [|o os IH]; intros l s s' Hr; cbn [all_ops].
  { split; [done|]. split; [by exists l|]. by eapply dtor_frees. }
  destruct (op_both o l s s' Hn Hc Hr) as (Ho & l1 & Hr1).
  destruct (node_op junk new_node new_chars o s) as [r t], (list_op junk o s') as [r' t']. simpl in Ho, Hr1. subst r'.
  destruct (goes_on r).
  - destruct (IH l1 t t' Hr1) as (E & Hl & Hd). destruct (all_ops _ os t), (all_ops _ os t'). simpl in *. by rewrite E.
  - split; [done|]. split; [by exists l1|]. by eapply dtor_frees.
Qed.
End programs.

(** A program over three blocks of 4 bytes, next to another buffer's node. *)
Lemma nodes_implement_blocks_witness : exists t,
  let new_node (m : gmap addr Node) := fresh (dom m) in
  let new_chars (m : gmap addr (list Z)) := fresh (dom m) in
  let others : gmap addr Node := {[ 0 := mkNode 0 4 None ]} in
  let r := all_ops (node_op 0 new_node new_chars) [OpWrite [1; 2; 3; 4; 5; 6]%Z; OpRead 1; OpClear; OpWrite [7; 8]%Z]
             (ByteArray_ctor 0 new_node new_chars 4 others {[ 0 := [9]%Z ]}) in
  fst r = [Ok []; Throw out_of_range; Ok []; Ok []] /\
  ByteArray_dtor (snd r) = (Ok tt, t) /\ nodes t = others.
Proof.
  destruct (nodes_implement_blocks {[ 0 := mkNode 0 4 None ]} {[ 0 := [9]%Z ]} 0 (fun m => fresh (dom m)) (fun m => fresh (dom m))
    4 [OpWrite [1; 2; 3; 4; 5; 6]%Z; OpRead 1; OpClear; OpWrite [7; 8]%Z]) as (Hr & _ & t & Ht & Hn & _).
  - intros m. apply not_elem_of_dom, is_fresh.
  - intros m. apply not_elem_of_dom, is_fresh.
  - exists t. split; [|split; [exact Ht|exact Hn]]. rewrite Hr. by vm_compute.
Defined.
