(* ===== verification/Address.v ===== *)
(** * Address: socket addresses

    Models [cczoecpp/Net/Address]: [Address] (comparison of the raw bytes),
    [IPv4Address] and [IPv6Address] with their network arithmetic, [UnixAddress],
    [UnknownAddress], the host lookup [IPAddress::DNSLookup] and the interface
    table [IPAddress::GetNICAddresses].

    A [sockaddr] is kept as the fields the code accesses and viewed as bytes
    where the code uses [memcmp].  Multi-byte fields in network order hold the
    value a little-endian host reads from them.  The functions of libc
    ([inet_pton], [inet_ntop], [getaddrinfo], [getifaddrs]) are parameters. *)

From Stdlib Require Import Ascii String.
From stdpp Require Import base list numbers strings pretty.
From S2P Require Import Prelude Words.

Local Open Scope Z_scope.

Definition AF_UNSPEC : Z := 0.
Definition AF_UNIX : Z := 1.
Definition AF_INET : Z := 2.
Definition AF_INET6 : Z := 10.
Definition INADDR_ANY : Z := 0.

(** ** The socket address structures of the C library *)

Record sockaddr_in : Type := mkSockaddrIn {
  sin_family : Z; sin_port : Z; s_addr : Z; sin_zero : list Z
}.

Record sockaddr_in6 : Type := mkSockaddrIn6 {
  sin6_family : Z; sin6_port : Z; sin6_flowinfo : Z; s6_addr : list Z; sin6_scope_id : Z
}.

(** [sun_path] has 108 bytes. *)
Record sockaddr_un : Type := mkSockaddrUn { sun_family : Z; sun_path : list Z }.

Record sockaddr_any : Type := mkSockaddr { sa_family : Z; sa_data : list Z }.

Definition sun_path_len : nat := 108.
Definition sun_path_offset : nat := 2.

Definition bytes_in (a : sockaddr_in) : list Z :=
  le_bytes 2 (sin_family a) ++ le_bytes 2 (sin_port a) ++ le_bytes 4 (s_addr a) ++ sin_zero a.
Definition bytes_in6 (a : sockaddr_in6) : list Z :=
  le_bytes 2 (sin6_family a) ++ le_bytes 2 (sin6_port a) ++ le_bytes 4 (sin6_flowinfo a) ++
  s6_addr a ++ le_bytes 4 (sin6_scope_id a).
Definition bytes_un (a : sockaddr_un) : list Z := le_bytes 2 (sun_family a) ++ sun_path a.
Definition bytes_any (a : sockaddr_any) : list Z := le_bytes 2 (sa_family a) ++ sa_data a.

(** ** The class hierarchy *)

Inductive Address : Type :=
  | IPv4Address (m_addr : sockaddr_in)
  | IPv6Address (m_addr : sockaddr_in6)
  | UnixAddress (m_addr : sockaddr_un) (m_addrLen : nat)
  | UnknownAddress (m_addr : sockaddr_any).

(** [getAddr()]: the bytes the returned pointer refers to. *)
Definition getAddr (a : Address) : list Z :=
  match a with
  | IPv4Address s => bytes_in s
  | IPv6Address s => bytes_in6 s
  | UnixAddress s _ => bytes_un s
  | UnknownAddress s => bytes_any s
  end.

(** [getAddrLen()]: [sizeof(m_addr)], or the stored length. *)
Definition getAddrLen (a : Address) : nat :=
  match a with
  | IPv4Address _ => 16
  | IPv6Address _ => 28
  | UnixAddress _ len => len
  | UnknownAddress _ => 16
  end.

(** [getAddr()->sa_family]: the first two bytes of any [sockaddr]. *)
Definition getFamily (a : Address) : Z := of_le (take 2 (getAddr a)).

(** [memcmp]: the sign of the first difference. *)
Fixpoint memcmp (xs ys : list Z) : comparison :=
  match xs, ys with
  | x :: xs, y :: ys => match x ?= y with Eq => memcmp xs ys | c => c end
  | _, _ => Eq
  end.

(** [memcmp(p, q, n)] reads [n] bytes of both objects. *)
Definition memcmp_n (p q : list Z) (n : nat) : outcome comparison :=
  if (n <=? length p)%nat && (n <=? length q)%nat then Ok (memcmp (take n p) (take n q)) else UB.

Definition operator_lt (a rhs : Address) : outcome bool :=
  let minLen := (getAddrLen a `min` getAddrLen rhs)%nat in
  match memcmp_n (getAddr a) (getAddr rhs) minLen with
  | Ok Lt => Ok true
  | Ok Gt => Ok false
  | Ok Eq => Ok (getAddrLen a <? getAddrLen rhs)%nat
  | _ => UB
  end.

Definition operator_eq (a rhs : Address) : outcome bool :=
  if (getAddrLen a =? getAddrLen rhs)%nat then
    match memcmp_n (getAddr a) (getAddr rhs) (getAddrLen a) with
    | Ok Eq => Ok true
    | Ok _ => Ok false
    | _ => UB
    end
  else Ok false.

Definition operator_ne (a rhs : Address) : outcome bool :=
  match operator_eq a rhs with Ok b => Ok (negb b) | o => o end.

(** ** IPv4 *)

Definition zero_in : sockaddr_in := mkSockaddrIn 0 0 0 (repeat 0 8).

(** [IPv4Address(uint32_t ip, uint16_t port)]. *)
Definition IPv4Address_ip (ip port : Z) : sockaddr_in :=
  mkSockaddrIn AF_INET (htons port) (htonl ip) (repeat 0 8).

Definition set_sin_port (v : Z) (a : sockaddr_in) : sockaddr_in :=
  mkSockaddrIn (sin_family a) v (s_addr a) (sin_zero a).
Definition set_s_addr (v : Z) (a : sockaddr_in) : sockaddr_in :=
  mkSockaddrIn (sin_family a) (sin_port a) v (sin_zero a).

(** [0xffffffff << (32 - prefixLen)] on [unsigned int]; shifting by 32 is
    undefined. *)
Definition mask4 (prefixLen : Z) : outcome Z :=
  if prefixLen =? 0 then UB else Ok (wrap 32 (Z.shiftl 0xffffffff (32 - prefixLen))).

(** The three methods share their shape: [None] is the null pointer. *)
Definition with_mask4 (prefixLen : Z) (f : Z -> sockaddr_in) : outcome (option Address) :=
  if 32 <? prefixLen then Ok None else
  match mask4 prefixLen with
  | Ok m => Ok (Some (IPv4Address (f (htonl m))))
  | _ => UB
  end.

Definition broadcastAddress4 (a : sockaddr_in) (prefixLen : Z) : outcome (option Address) :=
  with_mask4 prefixLen (fun m => set_s_addr (Z.lor (s_addr a) m) a).
Definition networkAddress4 (a : sockaddr_in) (prefixLen : Z) : outcome (option Address) :=
  with_mask4 prefixLen (fun m => set_s_addr (Z.land (s_addr a) m) a).
Definition subnetMask4 (a : sockaddr_in) (prefixLen : Z) : outcome (option Address) :=
  with_mask4 prefixLen (fun m => set_s_addr m a).

(** ** IPv6 *)

(** [IPv6Address()]. *)
Definition IPv6Address_any : sockaddr_in6 := mkSockaddrIn6 AF_INET6 0 0 (repeat 0 16) 0.

Definition set_sin6_port (v : Z) (a : sockaddr_in6) : sockaddr_in6 :=
  mkSockaddrIn6 (sin6_family a) v (sin6_flowinfo a) (s6_addr a) (sin6_scope_id a).
Definition set_s6_addr (v : list Z) (a : sockaddr_in6) : sockaddr_in6 :=
  mkSockaddrIn6 (sin6_family a) (sin6_port a) (sin6_flowinfo a) v (sin6_scope_id a).

(** [for (int i = first; i < 16; i++) s6_addr[i] = 0xff;] *)
Fixpoint fill_ff (count first : nat) (bs : list Z) : list Z :=
  match count with
  | O => bs
  | S count => fill_ff count (S first) (<[first := 0xff]> bs)
  end.

(** [s6_addr[16]] is out of the array. *)
Definition broadcastAddress6 (a : sockaddr_in6) (prefixLen : nat) : outcome (option Address) :=
  if (128 <? prefixLen)%nat then Ok None else
  let i := (prefixLen / 8)%nat in
  match s6_addr a !! i with
  | None => UB
  | Some b =>
      let b := wrap 8 (Z.lor b (Z.shiftr 0xff (Z.of_nat (prefixLen mod 8)))) in
      let bs := fill_ff (16 - (i + 1)) (i + 1) (<[i := b]> (s6_addr a)) in
      Ok (Some (IPv6Address (set_s6_addr bs a)))
  end.

(** The loops of [networkAddress] and [subnetMask] over the address bytes. *)
Fixpoint network_bytes (prefixLen : nat) (bs : list Z) : list Z :=
  match bs with
  | [] => []
  | b :: bs =>
      if (8 <? prefixLen)%nat
      then wrap 8 (Z.land b 0xff) :: network_bytes (prefixLen - 8) bs
      else wrap 8 (Z.land b (Z.shiftl 0xff (8 - Z.of_nat prefixLen))) :: network_bytes 0 bs
  end.

Fixpoint mask_bytes (prefixLen : nat) (bs : list Z) : list Z :=
  match bs with
  | [] => []
  | _ :: bs =>
      if (8 <? prefixLen)%nat
      then 0xff :: mask_bytes (prefixLen - 8) bs
      else wrap 8 (Z.shiftl 0xff (8 - Z.of_nat prefixLen)) :: mask_bytes 0 bs
  end.

Definition networkAddress6 (a : sockaddr_in6) (prefixLen : nat) : outcome (option Address) :=
  if (128 <? prefixLen)%nat then Ok None
  else Ok (Some (IPv6Address (set_s6_addr (network_bytes prefixLen (s6_addr a)) a))).
Definition subnetMask6 (a : sockaddr_in6) (prefixLen : nat) : outcome (option Address) :=
  if (128 <? prefixLen)%nat then Ok None
  else Ok (Some (IPv6Address (set_s6_addr (mask_bytes prefixLen (s6_addr a)) a))).

(** ** The [IPAddress] interface *)

Definition broadcastAddress (a : Address) (prefixLen : nat) : outcome (option Address) :=
  match a with
  | IPv4Address s => broadcastAddress4 s (Z.of_nat prefixLen)
  | IPv6Address s => broadcastAddress6 s prefixLen
  | _ => UB
  end.
Definition networkAddress (a : Address) (prefixLen : nat) : outcome (option Address) :=
  match a with
  | IPv4Address s => networkAddress4 s (Z.of_nat prefixLen)
  | IPv6Address s => networkAddress6 s prefixLen
  | _ => UB
  end.
Definition subnetMask (a : Address) (prefixLen : nat) : outcome (option Address) :=
  match a with
  | IPv4Address s => subnetMask4 s (Z.of_nat prefixLen)
  | IPv6Address s => subnetMask6 s prefixLen
  | _ => UB
  end.

Definition getPort (a : Address) : outcome Z :=
  match a with
  | IPv4Address s => Ok (ntohs (sin_port s))
  | IPv6Address s => Ok (ntohs (sin6_port s))
  | _ => UB
  end.
Definition setPort (a : Address) (port : Z) : outcome Address :=
  match a with
  | IPv4Address s => Ok (IPv4Address (set_sin_port (htons port) s))
  | IPv6Address s => Ok (IPv6Address (set_sin6_port (htons port) s))
  | _ => UB
  end.

(** ** Unix and unknown addresses *)

Definition UNIX_ADDRESS_LEN : nat := sun_path_len - 1.

Definition UnixAddress_default : Address :=
  UnixAddress (mkSockaddrUn AF_UNIX (repeat 0 sun_path_len)) (sun_path_offset + UNIX_ADDRESS_LEN).

(** [UnixAddress(const std::string &path)]: the [memcpy] of [path.size() + 1]
    bytes leaves [sun_path] when the path has 108 bytes; [m_addrLen] is a
    [socklen_t]. *)
Definition UnixAddress_path (path : list Z) : outcome Address :=
  let addrLen := wrap 32 (Z.of_nat (length path) + 1) in
  let addrLen := match path with 0 :: _ => wrap 32 (addrLen - 1) | _ => addrLen end in
  if Z.of_nat sun_path_len <? addrLen then Throw runtime_error else
  if (sun_path_len <? length path + 1)%nat then UB else
  Ok (UnixAddress (mkSockaddrUn AF_UNIX (splice 0 (path ++ [0]) (repeat 0 sun_path_len)))
        (Z.to_nat addrLen + sun_path_offset)).

Definition setAddrLen (a : Address) (len : nat) : outcome Address :=
  match a with UnixAddress s _ => Ok (UnixAddress s len) | _ => UB end.

Definition UnknownAddress_ctor (family : Z) : Address :=
  UnknownAddress (mkSockaddr (wrap 16 family) (repeat 0 14)).

(** [os << m_addr.sun_path] prints up to the first NUL. *)
Fixpoint c_str (bs : list Z) : list Z :=
  match bs with
  | [] => []
  | b :: bs => if b =? 0 then [] else b :: c_str bs
  end.

(** Bytes to text. *)
Definition text (bs : list Z) : string :=
  string_of_list_ascii (map (fun b => ascii_of_N (Z.to_N b)) bs).

Section libc.
(** [inet_pton(family, text)]: the bytes of a valid address; [inet_ntop]: its text. *)
Context (inet_pton : Z -> string -> option (list Z)) (inet_ntop : Z -> list Z -> string).

(** [IPv4Address(const char *ip, uint16_t port)]. *)
Definition IPv4Address_text (ip : string) (port : Z) : outcome sockaddr_in :=
  match inet_pton AF_INET ip with
  | Some bs => Ok (mkSockaddrIn AF_INET (htons port) (of_le bs) (repeat 0 8))
  | None => Throw runtime_error
  end.

Definition IPv6Address_text (ip : string) (port : Z) : outcome sockaddr_in6 :=
  match inet_pton AF_INET6 ip with
  | Some bs => Ok (mkSockaddrIn6 AF_INET6 (htons port) 0 bs 0)
  | None => Throw runtime_error
  end.

(** The [insert] methods, as the text they append. *)
Definition insert4 (s : sockaddr_in) : string :=
  inet_ntop AF_INET (le_bytes 4 (s_addr s)) +:+ ":" +:+ pretty (ntohs (sin_port s)).
Definition insert6 (s : sockaddr_in6) : string :=
  inet_ntop AF_INET6 (s6_addr s) +:+ ":" +:+ pretty (ntohs (sin6_port s)).
Definition insert_unix (s : sockaddr_un) : string := text (c_str (sun_path s)).
Definition insert_unknown (s : sockaddr_any) : string :=
  "UnknownAddress family = " +:+ pretty (sa_family s).

(** [toString()] is [insert] into an empty stream. *)
Definition toString (a : Address) : string :=
  match a with
  | IPv4Address s => insert4 s
  | IPv6Address s => insert6 s
  | UnixAddress s _ => insert_unix s
  | UnknownAddress s => insert_unknown s
  end.
End libc.

(** ** Host lookup *)

(** [host.find_last_of(":")]. *)
Fixpoint find_last_colon (s : string) : option nat :=
  match s with
  | EmptyString => None
  | String c s =>
      match find_last_colon s with
      | Some i => Some (S i)
      | None => if Ascii.eqb c ":"%char then Some O else None
      end
  end.

(** The host name and service handed to [getaddrinfo]. *)
Definition split_host (host : string) : string * string :=
  match find_last_colon host with
  | Some pos => (substring 0 pos host, substring (pos + 1) (String.length host - (pos + 1)) host)
  | None => (host, EmptyString)
  end.

(** A [sockaddr *] of libc: the structure it points to. *)
Inductive sockaddr_ptr : Type := P_in (a : sockaddr_in) | P_in6 (a : sockaddr_in6) | P_other (family : Z).

(** [reinterpret_cast] to one of the two structures. *)
Definition as_in (p : sockaddr_ptr) : outcome sockaddr_in :=
  match p with P_in a => Ok a | _ => UB end.
Definition as_in6 (p : sockaddr_ptr) : outcome sockaddr_in6 :=
  match p with P_in6 a => Ok a | _ => UB end.

Definition ptr_family (p : sockaddr_ptr) : Z :=
  match p with P_in _ => AF_INET | P_in6 _ => AF_INET6 | P_other f => f end.

(** One node of the [addrinfo] list. *)
Record addrinfo : Type := mkAddrinfo { ai_family : Z; ai_addr : sockaddr_ptr }.

(** The addresses pushed for one node of the [addrinfo] list. *)
Definition node_addrs (n : addrinfo) : outcome (list Address) :=
  let v4 := if (ai_family n =? AF_INET) || (ai_family n =? AF_UNSPEC)
            then match as_in (ai_addr n) with Ok a => Ok [IPv4Address a] | _ => UB end else Ok [] in
  let v6 := if (ai_family n =? AF_INET6) || (ai_family n =? AF_UNSPEC)
            then match as_in6 (ai_addr n) with Ok a => Ok [IPv6Address a] | _ => UB end else Ok [] in
  match v4, v6 with Ok a, Ok b => Ok (a ++ b) | _, _ => UB end.

(** The loop over the nodes. *)
Fixpoint collect {A B} (f : A -> outcome (list B)) (l : list A) : outcome (list B) :=
  match l with
  | [] => Ok []
  | x :: l =>
      match f x, collect f l with
      | Ok a, Ok b => Ok (a ++ b)
      | Ok _, o => o
      | o, _ => o
      end
  end.

(** [getaddrinfo(hostname, service or null, family, type, protocol)]. *)
Definition DNSLookup
    (getaddrinfo : string -> option string -> Z -> Z -> Z -> Z + list addrinfo)
    (host : string) (family type protocol : Z) : outcome (option (list Address)) :=
  let '(hostname, service) := split_host host in
  match getaddrinfo hostname (if String.eqb service EmptyString then None else Some service)
          family type protocol with
  | inl _ => Ok None
  | inr res =>
      match collect node_addrs res with
      | Ok [] => Ok None
      | Ok addrs => Ok (Some addrs)
      | _ => UB
      end
  end.

(** ** Network interfaces *)

(** [std::popcount] of a [w]-bit word. *)
Fixpoint popcount (w : nat) (v : Z) : nat :=
  match w with
  | O => 0
  | S w => (if Z.odd v then 1 else 0) + popcount w (Z.div2 v)
  end.

Record ifaddrs : Type := mkIfaddrs {
  ifa_name : string; ifa_addr : option sockaddr_ptr; ifa_netmask : option sockaddr_ptr
}.

Definition NICInfo : Type := Address * nat.

(** The entry a node adds to the map; the [ifa_addr] of an interface without
    address is null and is dereferenced. *)
Definition nic_entry (family : Z) (n : ifaddrs) : outcome (list (string * NICInfo)) :=
  match ifa_addr n with
  | None => UB
  | Some p =>
      if negb (family =? AF_UNSPEC) && negb (family =? ptr_family p) then Ok [] else
      match p, ifa_netmask n with
      | P_in a, Some (P_in m) => Ok [(ifa_name n, (IPv4Address a, popcount 32 (s_addr m)))]
      | P_in6 a, Some (P_in6 m) =>
          Ok [(ifa_name n, (IPv6Address a, foldr (fun b k => popcount 8 b + k)%nat O (s6_addr m)))]
      | P_other _, _ => Ok []
      | _, _ => UB
      end
  end.

(** [std::multimap::emplace]: after the entries with an equal or smaller key. *)
Fixpoint multimap_emplace {V} (k : string) (v : V) (m : list (string * V)) : list (string * V) :=
  match m with
  | [] => [(k, v)]
  | (k', v') :: m' =>
      match String.compare k k' with
      | Lt => (k, v) :: m
      | _ => (k', v') :: multimap_emplace k v m'
      end
  end.

Definition GetNICAddresses_all (getifaddrs : Z + list ifaddrs) (family : Z)
    : outcome (option (list (string * NICInfo))) :=
  match getifaddrs with
  | inl _ => Ok None
  | inr nodes =>
      match collect (nic_entry family) nodes with
      | Ok [] => Ok None
      | Ok es => Ok (Some (fold_left (fun m e => multimap_emplace e.1 e.2 m) es []))
      | _ => UB
      end
  end.

(** [equal_range] of a key, in map order. *)
Definition equal_range {V} (k : string) (m : list (string * V)) : list V :=
  map snd (List.filter (fun e => String.eqb e.1 k) m).

Definition GetNICAddresses (getifaddrs : Z + list ifaddrs) (iface : string) (family : Z)
    : outcome (option (list NICInfo)) :=
  if String.eqb iface EmptyString || String.eqb iface "*" then
    Ok (Some ((if (family =? AF_INET) || (family =? AF_UNSPEC)
               then [(IPv4Address (IPv4Address_ip INADDR_ANY 0), O)] else []) ++
              (if (family =? AF_INET6) || (family =? AF_UNSPEC)
               then [(IPv6Address IPv6Address_any, O)] else [])))
  else
    match GetNICAddresses_all getifaddrs family with
    | Ok (Some m) => Ok (Some (equal_range iface m))
    | Ok None => Ok None
    | _ => UB
    end.
