(* ===== verification/AddressTheorems.v ===== *)
(** * AddressTheorems: comparison, network arithmetic and construction of
    socket addresses

    The theorems about [Address.v].  IPv6 addresses are read as 128-bit numbers
    in network order, IPv4 addresses as the 32-bit number [ntohl(s_addr)]. *)

From Stdlib Require Import Ascii String.
From stdpp Require Import base list numbers strings sets.
From S2P Require Import Prelude Words Address.

Local Open Scope Z_scope.

(** ** Bitwise operators and byte order *)

(** [f] acts on each bit as [g]. *)
Class Bitwise (f : Z -> Z -> Z) (g : bool -> bool -> bool) : Prop := {
  bitwise_spec a b k : 0 <= k -> Z.testbit (f a b) k = g (Z.testbit a k) (Z.testbit b k);
  bitwise_00 : g false false = false
}.
#[global] Instance land_bitwise : Bitwise Z.land andb.
Proof. split; [intros; apply Z.land_spec|done]. Qed.
#[global] Instance lor_bitwise : Bitwise Z.lor orb.
Proof. split; [intros; apply Z.lor_spec|done]. Qed.

Lemma rev_zip_with {A B C} (f : A -> B -> C) l : forall k,
  length l = length k -> rev (zip_with f l k) = zip_with f (rev l) (rev k).
Proof.
  induction l as [|x l IH]; intros [|y k] Hl; simpl in *; try done.
  rewrite IH by lia. rewrite zip_with_app by (rewrite !length_rev; lia). done.
Qed.

Section bitwise.
Context (f : Z -> Z -> Z) (g : bool -> bool -> bool) {F : Bitwise f g}.

Lemma bitwise_mod a b k : 0 <= k -> f a b mod 2 ^ k = f (a mod 2 ^ k) (b mod 2 ^ k).
Proof using F.
  intros Hk. apply Z.bits_inj'. intros i Hi. destruct (Z.lt_ge_cases i k).
  - rewrite Z.mod_pow2_bits_low, !bitwise_spec, !Z.mod_pow2_bits_low by lia. done.
  - rewrite Z.mod_pow2_bits_high, bitwise_spec, !Z.mod_pow2_bits_high by lia.
    symmetry. apply bitwise_00.
Qed.

Lemma bitwise_div a b k : 0 <= k -> f a b / 2 ^ k = f (a / 2 ^ k) (b / 2 ^ k).
Proof using F.
  intros Hk. rewrite <- !Z.shiftr_div_pow2 by done. apply Z.bits_inj'. intros i Hi.
  rewrite Z.shiftr_spec, !bitwise_spec, !Z.shiftr_spec by lia. done.
Qed.

(** The operator works byte by byte. *)
Lemma le_bytes_bitwise n a b :
  le_bytes n (f a b) = zip_with f (le_bytes n a) (le_bytes n b).
Proof using F.
  revert a b. induction n as [|n IH]; intros a b; [done|]. cbn [le_bytes zip_with].
  change 256 with (2 ^ 8). rewrite bitwise_mod, bitwise_div by lia. by rewrite IH.
Qed.

Lemma bitwise_in_u k a b : 0 <= k -> in_u k a -> in_u k b -> in_u k (f a b).
Proof using F.
  intros Hk Ha Hb. rewrite <- (wrap_id k a Ha), <- (wrap_id k b Hb). unfold wrap.
  rewrite <- bitwise_mod by done. by apply wrap_in_u.
Qed.

(** Computing on swapped words and swapping back is computing on the words. *)
Lemma bitwise_bswap n a b :
  in_u (8 * Z.of_nat n) a -> in_u (8 * Z.of_nat n) b ->
  bswap n (f (bswap n a) (bswap n b)) = f a b.
Proof using F.
  intros Ha Hb. rewrite <- (wrap_id _ _ (bswap_in_u n (f _ _))).
  rewrite <- (wrap_id _ _ (bitwise_in_u (8 * Z.of_nat n) a b ltac:(lia) Ha Hb)).
  unfold wrap. rewrite <- !of_le_le_bytes. f_equal.
  rewrite le_bytes_bswap, !le_bytes_bitwise, !le_bytes_bswap.
  rewrite rev_zip_with by (by rewrite !length_rev, !length_le_bytes).
  by rewrite !rev_involutive.
Qed.
End bitwise.

(** ** Masks *)

(** The prefix mask of [w]-bit words with [h] host bits. *)
Definition high_mask (w h : Z) : Z := 2 ^ w - 2 ^ h.

Lemma high_mask_shiftl w h : 0 <= h <= w -> high_mask w h = Z.shiftl (Z.ones (w - h)) h.
Proof.
  intros. unfold high_mask. rewrite Z.shiftl_mul_pow2, Z.ones_equiv by lia.
  replace w with ((w - h) + h) at 1 by lia. rewrite Z.pow_add_r by lia. lia.
Qed.

Lemma high_mask_testbit w h k :
  0 <= h <= w -> 0 <= k -> Z.testbit (high_mask w h) k = (h <=? k) && (k <? w).
Proof.
  intros. rewrite high_mask_shiftl, Z.shiftl_spec by lia.
  destruct (Z.leb_spec h k), (Z.ltb_spec k w); simpl.
  - apply Z.ones_spec_low. lia.
  - apply Z.ones_spec_high. lia.
  - apply Z.testbit_neg_r. lia.
  - apply Z.testbit_neg_r. lia.
Qed.

(** Bits of a number below [2 ^ w]. *)
Lemma in_u_testbit w x k : 0 <= w -> in_u w x -> w <= k -> Z.testbit x k = false.
Proof. intros Hw Hx Hk. rewrite <- (wrap_id w x Hx). by apply Z.mod_pow2_bits_high. Qed.

Lemma land_high_mask w h x :
  0 <= h <= w -> in_u w x -> Z.land x (high_mask w h) = x / 2 ^ h * 2 ^ h.
Proof.
  intros Hh Hx. rewrite <- Z.shiftr_div_pow2, <- Z.shiftl_mul_pow2 by lia.
  apply Z.bits_inj'. intros k Hk.
  rewrite Z.land_spec, high_mask_testbit, Z.shiftl_spec by lia.
  destruct (Z.leb_spec h k).
  - rewrite Z.shiftr_spec by lia. replace (k - h + h) with k by lia.
    destruct (Z.ltb_spec k w); [apply andb_true_r|].
    by rewrite (in_u_testbit w x k) by (done || lia).
  - rewrite andb_false_r. symmetry. apply Z.testbit_neg_r. lia.
Qed.

Lemma lor_high_mask w h x :
  0 <= h <= w -> in_u w x -> Z.lor x (high_mask w h) = high_mask w h + x mod 2 ^ h.
Proof.
  intros Hh Hx.
  assert (Z.land (high_mask w h) (x mod 2 ^ h) = 0) as Hd.
  { apply Z.bits_inj'. intros k Hk. rewrite Z.land_spec, high_mask_testbit, Z.bits_0 by lia.
    destruct (Z.leb_spec h k); [|done]. rewrite Z.mod_pow2_bits_high by lia. apply andb_false_r. }
  rewrite Z.add_nocarry_lxor, Z.lxor_lor by done.
  apply Z.bits_inj'. intros k Hk. rewrite !Z.lor_spec, high_mask_testbit by lia.
  destruct (Z.leb_spec h k), (Z.ltb_spec k w); simpl.
  - apply orb_true_r.
  - rewrite Z.mod_pow2_bits_high by lia. by rewrite (in_u_testbit w x k) by (done || lia).
  - by rewrite Z.mod_pow2_bits_low, orb_false_r by lia.
  - by rewrite Z.mod_pow2_bits_low, orb_false_r by lia.
Qed.

(** Setting the low bits. *)
Lemma lor_ones h x : 0 <= h -> Z.lor x (Z.ones h) = x / 2 ^ h * 2 ^ h + (2 ^ h - 1).
Proof.
  intros Hh. rewrite <- Z.shiftr_div_pow2, <- Z.shiftl_mul_pow2 by lia.
  replace (2 ^ h - 1) with (Z.ones h) by (rewrite Z.ones_equiv; lia).
  assert (forall k, 0 <= k -> Z.testbit (Z.shiftl (Z.shiftr x h) h) k =
                              if h <=? k then Z.testbit x k else false) as Hs.
  { intros k Hk. rewrite Z.shiftl_spec by lia. destruct (Z.leb_spec h k).
    - rewrite Z.shiftr_spec by lia. f_equal. lia.
    - apply Z.testbit_neg_r. lia. }
  rewrite Z.add_nocarry_lxor, Z.lxor_lor.
  2,3: apply Z.bits_inj'; intros k Hk; rewrite Z.land_spec, Hs, Z.bits_0 by lia;
    destruct (Z.leb_spec h k); [rewrite Z.ones_spec_high by lia; apply andb_false_r|done].
  apply Z.bits_inj'. intros k Hk. rewrite !Z.lor_spec, Hs by lia.
  destruct (Z.leb_spec h k); [done|]. by rewrite Z.ones_spec_low, orb_true_r by lia.
Qed.

(** ** IPv4 *)

(** The address as a number. *)
Definition ip4 (a : sockaddr_in) : Z := ntohl (s_addr a).

Lemma mask4_high p : 1 <= p <= 32 -> mask4 p = Ok (high_mask 32 (32 - p)).
Proof.
  intros Hp. unfold mask4. destruct (Z.eqb_spec p 0); [lia|]. f_equal.
  change 0xffffffff with (Z.ones 32). apply Z.bits_inj'. intros k Hk.
  rewrite high_mask_testbit by lia. unfold wrap. destruct (Z.ltb_spec k 32).
  - rewrite Z.mod_pow2_bits_low, Z.shiftl_spec by lia. destruct (Z.leb_spec (32 - p) k); simpl.
    + apply Z.ones_spec_low. lia.
    + apply Z.testbit_neg_r. lia.
  - rewrite Z.mod_pow2_bits_high by lia. by rewrite andb_false_r.
Qed.

Lemma high_mask_in_u w h : 0 <= h <= w -> in_u w (high_mask w h).
Proof.
  intros. unfold in_u, high_mask. pose proof (Z.pow_le_mono_r 2 h w ltac:(lia) ltac:(lia)).
  pose proof (Z.pow_pos_nonneg 2 h ltac:(lia) ltac:(lia)). lia.
Qed.

(** A method on stored addresses is the operator on host-order numbers. *)
Lemma ntohl_bitwise f g `{!Bitwise f g} s m :
  in_u 32 s -> in_u 32 m -> ntohl (f s (htonl m)) = f (ntohl s) m.
Proof.
  intros Hs Hm. rewrite <- (htonl_ntohl s Hs) at 1. unfold ntohl at 1, htonl.
  apply (bitwise_bswap f g 4); [apply (bswap_in_u 4)|done].
Qed.

(** The prefix length of a mask is its number of set bits. *)
Lemma popcount_mask4 p :
  (0 < p <= 32)%nat -> popcount 32 (htonl (high_mask 32 (32 - Z.of_nat p))) = p.
Proof.
  intros Hp. assert (p < 33)%nat as Hlt by lia.
  apply (below_forallb
    (fun p => (p =? 0)%nat || (popcount 32 (htonl (high_mask 32 (32 - Z.of_nat p))) =? p)%nat)) in Hlt;
    [|by vm_compute].
  destruct (Nat.eqb_spec p 0); [lia|]. by apply Nat.eqb_eq in Hlt.
Qed.

(** Network arithmetic on IPv4 addresses.  A prefix above 32 gives a null
    pointer and a zero prefix shifts by the full width (undefined).  Otherwise
    [subnetMask] has exactly the first [p] bits set (and [std::popcount], which
    [GetNICAddresses] applies to a netmask, recovers [p]); [networkAddress] keeps
    the first [p] bits of the address and clears the rest.  [broadcastAddress]
    ORs the SAME mask, so it sets the network bits and keeps the host bits, where
    the broadcast address keeps the network bits and sets the host bits. *)
Theorem ipv4_network_arithmetic a p :
  in_u 32 (s_addr a) ->
  let H := 2 ^ (32 - Z.of_nat p) in
  if (32 <? p)%nat
  then broadcastAddress (IPv4Address a) p = Ok None /\ networkAddress (IPv4Address a) p = Ok None /\
       subnetMask (IPv4Address a) p = Ok None
  else if (p =? 0)%nat
  then broadcastAddress (IPv4Address a) p = UB /\ networkAddress (IPv4Address a) p = UB /\
       subnetMask (IPv4Address a) p = UB
  else exists b n m,
    broadcastAddress (IPv4Address a) p = Ok (Some (IPv4Address b)) /\
    networkAddress (IPv4Address a) p = Ok (Some (IPv4Address n)) /\
    subnetMask (IPv4Address a) p = Ok (Some (IPv4Address m)) /\
    ip4 m = 2 ^ 32 - H /\ popcount 32 (s_addr m) = p /\
    ip4 n = ip4 a / H * H /\
    ip4 b = (2 ^ 32 - H) + ip4 a mod H.
Proof.
  intros Ha H. unfold broadcastAddress, networkAddress, subnetMask, broadcastAddress4,
    networkAddress4, subnetMask4, with_mask4.
  destruct (Nat.ltb_spec 32 p) as [Hp|Hp].
  { destruct (Z.ltb_spec 32 (Z.of_nat p)); [done|lia]. }
  destruct (Z.ltb_spec 32 (Z.of_nat p)); [lia|].
  destruct (Nat.eqb_spec p 0) as [->|Hp0]; [done|].
  rewrite mask4_high by lia. do 3 eexists. do 3 (split; [reflexivity|]).
  assert (in_u 32 (high_mask 32 (32 - Z.of_nat p))) as Hm by (apply high_mask_in_u; lia).
  unfold ip4. cbn [s_addr set_s_addr].
  assert (in_u 32 (ntohl (s_addr a))) as Hip by apply (bswap_in_u 4).
  split; [by apply ntohl_htonl|]. split; [|split].
  - apply popcount_mask4. lia.
  - rewrite (ntohl_bitwise Z.land andb) by (done || apply _). by apply land_high_mask; [lia|].
  - rewrite (ntohl_bitwise Z.lor orb) by (done || apply _). by apply lor_high_mask; [lia|].
Qed.

(** 192.168.1.10 with port 80. *)
Definition host4 : sockaddr_in := IPv4Address_ip 0xC0A8010A 80.

Lemma ipv4_network_arithmetic_witness :
  exists b n m, broadcastAddress (IPv4Address host4) 24 = Ok (Some (IPv4Address b)) /\
    networkAddress (IPv4Address host4) 24 = Ok (Some (IPv4Address n)) /\
    subnetMask (IPv4Address host4) 24 = Ok (Some (IPv4Address m)) /\
    ip4 m = 0xFFFFFF00 /\ popcount 32 (s_addr m) = 24%nat /\
    ip4 n = 0xC0A80100 /\ ip4 b = 0xFFFFFF0A.
Proof. apply (ipv4_network_arithmetic host4 24). vm_compute. split; discriminate || reflexivity. Defined.

(** ** IPv6 *)

(** Bytes in network order as a number. *)
Definition be (bs : list Z) : Z := of_le (rev bs).

Definition ip6 (a : sockaddr_in6) : Z := be (s6_addr a).

Lemma be_cons b bs : be (b :: bs) = b * 2 ^ (8 * Z.of_nat (length bs)) + be bs.
Proof. unfold be. cbn [rev]. rewrite of_le_app, length_rev. cbn [of_le]. lia. Qed.

Lemma be_app bs cs : be (bs ++ cs) = be bs * 2 ^ (8 * Z.of_nat (length cs)) + be cs.
Proof. unfold be. rewrite rev_app_distr, of_le_app, length_rev. lia. Qed.

Lemma be_bound bs : Forall is_byte bs -> in_u (8 * Z.of_nat (length bs)) (be bs).
Proof. intros. unfold be. rewrite <- length_rev. by apply of_le_bound, Forall_rev. Qed.

Lemma be_ff n : be (repeat 0xff n) = 2 ^ (8 * Z.of_nat n) - 1.
Proof.
  induction n as [|n IH]; [done|]. cbn [repeat]. rewrite be_cons, IH, repeat_length.
  replace (8 * Z.of_nat (S n)) with (8 + 8 * Z.of_nat n) by lia. rewrite Z.pow_add_r by lia. lia.
Qed.

Lemma network_bytes_0 bs : network_bytes 0 bs = repeat 0 (length bs).
Proof.
  induction bs as [|b bs IH]; [done|]. cbn [network_bytes Nat.ltb Nat.leb]. rewrite IH. cbn [length repeat].
  f_equal. unfold wrap. change (Z.shiftl 0xff (8 - Z.of_nat 0)) with (0xff * 2 ^ 8).
  change 256 with (2 ^ 8). rewrite (bitwise_mod Z.land andb) by lia. rewrite Z_mod_mult. apply Z.land_0_r.
Qed.

Lemma be_zero n : be (repeat 0 n) = 0.
Proof. induction n as [|n IH]; [done|]. cbn [repeat]. rewrite be_cons, IH. lia. Qed.

Lemma byte_mask b q : is_byte b -> 0 <= q <= 8 ->
  wrap 8 (Z.land b (Z.shiftl 0xff (8 - q))) = b / 2 ^ (8 - q) * 2 ^ (8 - q).
Proof.
  intros Hb Hq. rewrite <- (land_high_mask 8 (8 - q) b) by (done || lia).
  unfold wrap. rewrite (bitwise_mod Z.land andb), Z.mod_small by (apply Hb || lia). f_equal.
  apply Z.bits_inj'. intros k Hk. rewrite high_mask_testbit by lia.
  destruct (Z.ltb_spec k 8).
  - rewrite Z.mod_pow2_bits_low, Z.shiftl_spec by lia. change 0xff with (Z.ones 8).
    destruct (Z.leb_spec (8 - q) k); simpl; [apply Z.ones_spec_low|apply Z.testbit_neg_r]; lia.
  - rewrite Z.mod_pow2_bits_high by lia. by rewrite andb_false_r.
Qed.

(** The byte loop of [networkAddress] clears the host bits of the number. *)
Lemma be_network_bytes bs : forall p,
  Forall is_byte bs -> (p <= 8 * length bs)%nat ->
  let H := 2 ^ (8 * Z.of_nat (length bs) - Z.of_nat p) in
  be (network_bytes p bs) = be bs / H * H.
Proof.
  induction bs as [|b bs IH]; intros p Hbs Hp; cbv zeta.
  { change (be (network_bytes p [])) with 0. change (be []) with 0.
    rewrite Z.div_0_l; [lia|]. apply Z.pow_nonzero; simpl in *; lia. }
  inversion_clear Hbs as [|? ? Hb Hbs']. cbn [length] in *.
  pose proof (be_bound bs Hbs') as Hbd. unfold in_u in Hbd.
  set (m := Z.of_nat (length bs)) in *. assert (0 <= m) by lia. cbn [network_bytes].
  destruct (Nat.ltb_spec 8 p).
  - rewrite be_cons, IH, be_cons by (done || lia). fold m.
    assert (length (network_bytes (p - 8) bs) = length bs) as ->.
    { clear. generalize (p - 8)%nat. induction bs as [|c bs IH]; intros k; [done|].
      cbn [network_bytes]. destruct (8 <? k)%nat; cbn [length]; by rewrite IH. }
    fold m. replace (8 * Z.of_nat (S (length bs)) - Z.of_nat p)
      with (8 * m - Z.of_nat (p - 8)) by lia.
    set (h := 8 * m - Z.of_nat (p - 8)). assert (0 <= h <= 8 * m) by lia.
    change 0xff with (Z.ones 8). rewrite Z.land_ones by lia. unfold wrap.
    rewrite Zmod_mod, (Z.mod_small b) by apply Hb.
    replace (8 * m) with ((8 * m - h) + h) by lia. rewrite Z.pow_add_r by lia.
    rewrite Z.mul_assoc, Z.div_add_l by (apply Z.pow_nonzero; lia). lia.
  - rewrite be_cons, be_cons, network_bytes_0, be_zero, repeat_length. fold m.
    rewrite byte_mask by (done || lia).
    replace (8 * Z.of_nat (S (length bs)) - Z.of_nat p) with ((8 - Z.of_nat p) + 8 * m) by lia.
    rewrite Z.pow_add_r by lia.
    rewrite (Z.mul_comm (2 ^ (8 - Z.of_nat p)) (2 ^ (8 * m))) at 1.
    rewrite <- Z.div_div by first [apply Z.pow_nonzero; lia | apply Z.pow_pos_nonneg; lia | apply Z.pow_nonneg; lia].
    rewrite Z.div_add_l by (apply Z.pow_nonzero; lia). rewrite (Z.div_small (be bs)) by done.
    rewrite !Z.add_0_r. lia.
Qed.

(** The mask is the network address of the all-ones address. *)
Lemma mask_bytes_network bs : forall p, mask_bytes p bs = network_bytes p (repeat 0xff (length bs)).
Proof.
  induction bs as [|b bs IH]; intros p; [done|]. cbn [length repeat mask_bytes network_bytes].
  destruct (Nat.ltb_spec 8 p) as [|Hle]; rewrite IH; [done|]. f_equal.
  assert (p < 9)%nat as Hp by lia. clear Hle.
  apply (below_forallb (fun p => wrap 8 (Z.shiftl 255 (8 - Z.of_nat p)) =?
    wrap 8 (Z.land 255 (Z.shiftl 255 (8 - Z.of_nat p))))) in Hp; [|by vm_compute].
  by apply Z.eqb_eq in Hp.
Qed.

Lemma fill_ff_spec count : forall first bs,
  length bs = (first + count)%nat -> fill_ff count first bs = take first bs ++ repeat 0xff count.
Proof.
  induction count as [|count IH]; intros first bs Hl; cbn [fill_ff repeat].
  - rewrite app_nil_r, take_ge; [done|lia].
  - rewrite IH by (rewrite length_insert; lia).
    rewrite (take_S_r _ _ 0xff) by (apply list_lookup_insert_eq; lia).
    rewrite take_insert_ge by lia. by rewrite <- app_assoc.
Qed.

Lemma be_split i bs b :
  bs !! i = Some b ->
  be bs = (be (take i bs) * 2 ^ 8 + b) * 2 ^ (8 * Z.of_nat (length bs - S i)) + be (drop (S i) bs).
Proof.
  intros Hi. rewrite <- (take_drop_middle bs i b Hi) at 1.
  rewrite be_app, be_cons, length_drop. cbn [length]. rewrite length_drop.
  replace (8 * Z.of_nat (S (length bs - S i))) with (8 + 8 * Z.of_nat (length bs - S i)) by lia.
  rewrite Z.pow_add_r by lia. lia.
Qed.

(** Setting the host bits of the byte that holds the prefix boundary. *)
Lemma byte_ones b q : is_byte b -> (q < 8)%nat ->
  wrap 8 (Z.lor b (Z.shiftr 0xff (Z.of_nat q))) =
    b / 2 ^ (8 - Z.of_nat q) * 2 ^ (8 - Z.of_nat q) + (2 ^ (8 - Z.of_nat q) - 1).
Proof.
  intros Hb Hq. rewrite <- lor_ones by lia.
  assert (Z.shiftr 0xff (Z.of_nat q) = Z.ones (8 - Z.of_nat q)) as ->.
  { apply (below_forallb (fun q => Z.shiftr 255 (Z.of_nat q) =? Z.ones (8 - Z.of_nat q))) in Hq;
      [|by vm_compute]. by apply Z.eqb_eq in Hq. }
  apply wrap_id, (bitwise_in_u Z.lor orb); [lia|done|].
  unfold in_u. rewrite Z.ones_equiv.
  pose proof (Z.pow_le_mono_r 2 (8 - Z.of_nat q) 8 ltac:(lia) ltac:(lia)).
  pose proof (Z.pow_pos_nonneg 2 (8 - Z.of_nat q) ltac:(lia) ltac:(lia)). lia.
Qed.

Lemma be_broadcast a p :
  length (s6_addr a) = 16%nat -> Forall is_byte (s6_addr a) -> (p < 128)%nat ->
  let H := 2 ^ (128 - Z.of_nat p) in
  exists c, broadcastAddress6 a p = Ok (Some (IPv6Address c)) /\
    ip6 c = ip6 a / H * H + (H - 1).
Proof.
  intros Hl Hbs Hp H. unfold broadcastAddress6.
  destruct (Nat.ltb_spec 128 p); [lia|].
  pose proof (Nat.div_mod_eq p 8) as Hdm. pose proof (Nat.mod_upper_bound p 8 ltac:(lia)) as Hq.
  set (i := (p / 8)%nat) in *. set (q := (p mod 8)%nat) in *.
  destruct (lookup_lt_is_Some_2 (s6_addr a) i ltac:(lia)) as [b Hb]. rewrite Hb.
  eexists. split; [reflexivity|]. unfold ip6. cbn [s6_addr set_s6_addr].
  assert (is_byte b) as Hbb by by eapply Forall_lookup_1 in Hb.
  rewrite fill_ff_spec by (rewrite length_insert; lia).
  rewrite Nat.add_1_r, (take_S_r _ i (wrap 8 (Z.lor b (Z.shiftr 0xff (Z.of_nat q)))))
    by (apply list_lookup_insert_eq; lia).
  rewrite take_insert_ge by lia. rewrite byte_ones by done.
  rewrite be_app, be_ff, repeat_length, be_app, (be_split i _ b Hb), Hl.
  change (be [?x]) with (x + 256 * 0). cbn [length]. rewrite Z.mul_0_r, Z.add_0_r.
  replace (8 * Z.of_nat 1) with 8 by lia.
  pose proof (be_bound (drop (S i) (s6_addr a)) ltac:(by apply Forall_drop)) as Hr.
  rewrite length_drop, Hl in Hr. unfold in_u in Hr.
  set (m := 8 * Z.of_nat (16 - S i)) in *. set (t := 8 - Z.of_nat q).
  assert (0 <= m /\ 0 < t <= 8) as [] by lia.
  assert (H = 2 ^ t * 2 ^ m) as ->.
  { unfold H. rewrite <- Z.pow_add_r by lia. f_equal. lia. }
  pose proof (Z.pow_pos_nonneg 2 t ltac:(lia) ltac:(lia)).
  pose proof (Z.pow_pos_nonneg 2 m ltac:(lia) ltac:(lia)).
  rewrite (Z.mul_comm (2 ^ t) (2 ^ m)) at 1. rewrite <- Z.div_div by lia.
  rewrite Z.div_add_l, (Z.div_small (be _)), Z.add_0_r by lia.
  replace (2 ^ 8) with (2 ^ (8 - t) * 2 ^ t) by (rewrite <- Z.pow_add_r by lia; f_equal; lia).
  rewrite Z.mul_assoc, Z.div_add_l by lia. lia.
Qed.

(** Network arithmetic on IPv6 addresses, read as 128-bit numbers.  For a
    prefix of [p] bits the byte loops compute the mask of the first [p] bits
    (whose set bits [GetNICAddresses] counts back to [p]), the address with the
    host bits cleared, and the address with the host bits set; a prefix above
    128 gives a null pointer, and the broadcast address of a full prefix writes
    past the 16 bytes. *)
Theorem ipv6_network_arithmetic a p :
  length (s6_addr a) = 16%nat -> Forall is_byte (s6_addr a) ->
  let H := 2 ^ (128 - Z.of_nat p) in
  if (128 <? p)%nat
  then broadcastAddress (IPv6Address a) p = Ok None /\ networkAddress (IPv6Address a) p = Ok None /\
       subnetMask (IPv6Address a) p = Ok None
  else exists n m,
    networkAddress (IPv6Address a) p = Ok (Some (IPv6Address n)) /\
    subnetMask (IPv6Address a) p = Ok (Some (IPv6Address m)) /\
    ip6 n = ip6 a / H * H /\ ip6 m = 2 ^ 128 - H /\
    foldr (fun b k => popcount 8 b + k)%nat O (s6_addr m) = p /\
    if (p =? 128)%nat then broadcastAddress (IPv6Address a) p = UB
    else exists c, broadcastAddress (IPv6Address a) p = Ok (Some (IPv6Address c)) /\
           ip6 c = ip6 a / H * H + (H - 1).
Proof.
  intros Hl Hbs H. unfold broadcastAddress, networkAddress, subnetMask, networkAddress6, subnetMask6.
  destruct (Nat.ltb_spec 128 p) as [Hp|Hp].
  { unfold broadcastAddress6. apply Nat.ltb_lt in Hp as ->. done. }
  do 2 eexists. do 2 (split; [reflexivity|]). unfold ip6. cbn [s6_addr set_s6_addr].
  rewrite mask_bytes_network, Hl.
  pose proof (be_network_bytes (s6_addr a) p Hbs ltac:(lia)) as Hn.
  pose proof (be_network_bytes (repeat 0xff 16) p) as Hm. rewrite Hl in Hn.
  rewrite repeat_length in Hm. change (8 * Z.of_nat 16) with 128 in *.
  split; [exact Hn|]. split; [|split].
  - rewrite Hm, be_ff by (lia || by apply List.Forall_forall; intros x ->%repeat_spec; split).
    fold H. change (8 * Z.of_nat 16) with 128.
    assert (2 ^ 128 = 2 ^ Z.of_nat p * H) as E by (unfold H; rewrite <- Z.pow_add_r by lia; f_equal; lia).
    assert (0 < H) by (apply Z.pow_pos_nonneg; lia).
    replace (2 ^ 128 - 1) with ((2 ^ Z.of_nat p - 1) * H + (H - 1)) by lia.
    rewrite Z.div_add_l, (Z.div_small (H - 1)) by lia. lia.
  - assert (p < 129)%nat as Hlt by lia.
    apply (below_forallb (fun p =>
      foldr (fun b k => popcount 8 b + k)%nat O (network_bytes p (repeat 0xff%Z 16)) =? p)%nat) in Hlt;
      [|by vm_compute]. by apply Nat.eqb_eq in Hlt.
  - destruct (Nat.eqb_spec p 128) as [->|].
    + unfold broadcastAddress6. simpl. by rewrite lookup_ge_None_2 by lia.
    + by apply be_broadcast; [| |lia].
Qed.

Lemma ipv6_network_arithmetic_witness :
  exists n m, networkAddress (IPv6Address IPv6Address_any) 128 = Ok (Some (IPv6Address n)) /\
    subnetMask (IPv6Address IPv6Address_any) 128 = Ok (Some (IPv6Address m)) /\
    ip6 n = 0 /\ ip6 m = 2 ^ 128 - 1 /\
    foldr (fun b k => popcount 8 b + k)%nat O (s6_addr m) = 128%nat /\
    broadcastAddress (IPv6Address IPv6Address_any) 128 = UB.
Proof.
  apply (ipv6_network_arithmetic IPv6Address_any 128); [reflexivity|].
  repeat constructor; discriminate.
Defined.

(** ** Ordering *)

(** The bytes the comparison looks at. *)
Definition key (a : Address) : list Z := take (getAddrLen a) (getAddr a).

(** The stored length stays inside the object. *)
Definition addr_ok (a : Address) : Prop := (getAddrLen a <= length (getAddr a))%nat.

(** Lexicographic order, a proper prefix first. *)
Fixpoint lex (xs ys : list Z) : comparison :=
  match xs, ys with
  | [], [] => Eq
  | [], _ => Lt
  | _, [] => Gt
  | x :: xs, y :: ys => match x ?= y with Eq => lex xs ys | c => c end
  end.

Lemma lex_eq xs : forall ys, lex xs ys = Eq <-> xs = ys.
Proof.
  induction xs as [|x xs IH]; intros [|y ys]; simpl; try done.
  destruct (Z.compare_spec x y) as [->| |].
  - rewrite IH. split; congruence.
  - split; [done|]. intros [=]. lia.
  - split; [done|]. intros [=]. lia.
Qed.

Lemma lex_flip xs : forall ys, lex ys xs = CompOpp (lex xs ys).
Proof.
  induction xs as [|x xs IH]; intros [|y ys]; simpl; try done.
  rewrite Z.compare_antisym. by destruct (x ?= y); simpl.
Qed.

Lemma lex_compare_trans xs : forall ys zs, lex xs ys = Lt -> lex ys zs = Lt -> lex xs zs = Lt.
Proof.
  induction xs as [|x xs IH]; intros [|y ys] [|z zs]; simpl; try done.
  destruct (x ?= y) eqn:E1, (y ?= z) eqn:E2; intros H1 H2; try done;
    rewrite ?Z.compare_eq_iff, ?Z.compare_lt_iff in *; subst;
    [rewrite Z.compare_refl; eauto | rewrite (proj2 (Z.compare_lt_iff _ _)); [done|lia] ..].
Qed.

(** [memcmp] over the common length, then the lengths, is the order above. *)
Lemma lex_memcmp xs : forall ys,
  lex xs ys =
    match memcmp (take (length xs `min` length ys) xs) (take (length xs `min` length ys) ys) with
    | Eq => (length xs ?= length ys)%nat
    | c => c
    end.
Proof.
  induction xs as [|x xs IH]; intros [|y ys]; simpl; try done.
  rewrite IH. by destruct (x ?= y).
Qed.

Lemma length_key a : addr_ok a -> length (key a) = getAddrLen a.
Proof. unfold addr_ok, key. intros. rewrite length_take. lia. Qed.

Lemma take_key a n : addr_ok a -> (n <= getAddrLen a)%nat -> take n (getAddr a) = take n (key a).
Proof. intros. unfold key. rewrite take_take. f_equal. lia. Qed.

Lemma operator_lt_lex a b :
  addr_ok a -> addr_ok b ->
  operator_lt a b = Ok (match lex (key a) (key b) with Lt => true | _ => false end).
Proof.
  intros Ha Hb. unfold operator_lt, memcmp_n.
  rewrite (take_key a), (take_key b) by (done || lia).
  rewrite lex_memcmp, !length_key by done.
  unfold addr_ok in *. set (n := (getAddrLen a `min` getAddrLen b)%nat) in *.
  destruct (Nat.leb_spec n (length (getAddr a))); [|lia].
  destruct (Nat.leb_spec n (length (getAddr b))); [|lia]. simpl.
  destruct (memcmp _ _); try done.
  destruct (Nat.compare_spec (getAddrLen a) (getAddrLen b)),
    (Nat.ltb_spec (getAddrLen a) (getAddrLen b)); try done; lia.
Qed.

Lemma operator_eq_lex a b :
  addr_ok a -> addr_ok b ->
  operator_eq a b = Ok (match lex (key a) (key b) with Eq => true | _ => false end).
Proof.
  intros Ha Hb. unfold operator_eq, memcmp_n. rewrite lex_memcmp, !length_key by done.
  destruct (Nat.eqb_spec (getAddrLen a) (getAddrLen b)) as [E|E].
  - rewrite (take_key a), (take_key b) by (done || lia). unfold addr_ok in *.
    rewrite <- E, Nat.min_id.
    destruct (Nat.leb_spec (getAddrLen a) (length (getAddr a))); [|lia].
    destruct (Nat.leb_spec (getAddrLen a) (length (getAddr b))); [|lia]. cbn [andb].
    rewrite Nat.compare_refl. by destruct (memcmp _ _).
  - destruct (memcmp _ _); try done. by destruct (Nat.compare_spec (getAddrLen a) (getAddrLen b)).
Qed.

(** [operator<] on addresses is a strict total order compatible with
    [operator==], as [std::map] keys need: neither comparison fails on
    addresses whose length stays inside the object, exactly one of [a < b],
    [a == b], [b < a] holds, [<] is transitive, and equality means equal bytes. *)
Theorem address_order a b c :
  addr_ok a -> addr_ok b -> addr_ok c ->
  (exists x y z, operator_lt a b = Ok x /\ operator_eq a b = Ok y /\ operator_lt b a = Ok z /\
     (x, y, z) ∈ [(true, false, false); (false, true, false); (false, false, true)] /\
     (y = true <-> key a = key b) /\ operator_ne a b = Ok (negb y)) /\
  (operator_lt a b = Ok true -> operator_lt b c = Ok true -> operator_lt a c = Ok true).
Proof.
  intros Ha Hb Hc. unfold operator_ne.
  rewrite !operator_lt_lex, operator_eq_lex by done. split.
  - do 3 eexists. do 3 (split; [reflexivity|]). rewrite (lex_flip (key a) (key b)), <- lex_eq.
    destruct (lex (key a) (key b)); simpl; (split; [set_solver|done]).
  - pose proof (lex_compare_trans (key a) (key b) (key c)) as Ht.
    destruct (lex (key a) (key b)), (lex (key b) (key c)); try done. by rewrite Ht.
Qed.

Lemma address_order_witness :
  exists x y z, operator_lt (IPv4Address host4) UnixAddress_default = Ok x /\
    operator_eq (IPv4Address host4) UnixAddress_default = Ok y /\
    operator_lt UnixAddress_default (IPv4Address host4) = Ok z /\
    (x, y, z) ∈ [(true, false, false); (false, true, false); (false, false, true)] /\
    (y = true <-> key (IPv4Address host4) = key UnixAddress_default) /\
    operator_ne (IPv4Address host4) UnixAddress_default = Ok (negb y).
Proof.
  apply (address_order (IPv4Address host4) UnixAddress_default (IPv4Address host4));
    unfold addr_ok; vm_compute; lia.
Defined.

(** ** Unix domain addresses *)

Lemma c_str_app bs rest : Forall (fun b => b <> 0) bs -> c_str (bs ++ 0 :: rest) = bs.
Proof.
  induction 1 as [|b bs Hb Hbs IH]; [done|]. simpl. destruct (Z.eqb_spec b 0); [done|]. by rewrite IH.
Qed.

(** [UnixAddress(path)].  A path of up to 107 bytes is stored completely
    (a path without NUL is read back unchanged by [insert]), with the length of
    the structure up to and including the terminator, or without it for an
    abstract path (leading NUL).  A longer path is refused, except the abstract
    path of exactly 108 bytes: it passes the length test and the copy of
    [path.size() + 1] bytes writes one byte past [sun_path]. *)
Theorem UnixAddress_construct path :
  Z.of_nat (length path) < 2 ^ 31 ->
  let abstract := match path with 0 :: _ => true | _ => false end in
  match UnixAddress_path path with
  | Ok a => (length path <= 107)%nat /\ addr_ok a /\ getFamily a = AF_UNIX /\
      getAddrLen a = (2 + length path + if abstract then 0 else 1)%nat /\
      take (length path) (drop 2 (getAddr a)) = path /\
      (Forall (fun b => b <> 0) path ->
       forall s len, a = UnixAddress s len -> c_str (sun_path s) = path)
  | Throw e => e = runtime_error /\ (108 < length path + if abstract then 0 else 1)%nat
  | UB => abstract = true /\ length path = 108%nat
  | _ => False
  end.
Proof.
  intros Hlen abstract. unfold UnixAddress_path. set (n0 := wrap 32 _).
  assert (n0 = Z.of_nat (length path) + 1) as -> by (unfold n0; apply wrap_id; unfold in_u; lia).
  assert ((match path with 0 :: _ => wrap 32 (Z.of_nat (length path) + 1 - 1)
           | _ => Z.of_nat (length path) + 1 end)
          = Z.of_nat (length path + if abstract then 0 else 1)) as ->.
  { unfold abstract. destruct path as [|[]]; try (cbn [length]; lia).
    rewrite wrap_id; unfold in_u; lia. }
  unfold sun_path_len. destruct (Z.ltb_spec (Z.of_nat 108) (Z.of_nat (length path + if abstract then 0 else 1))) as [|Hfit].
  { split; [done|]. destruct abstract; lia. }
  destruct (Nat.ltb_spec 108 (length path + 1)).
  { destruct abstract; [|lia]. split; [done|lia]. }
  rewrite Nat2Z.id. split; [lia|]. unfold addr_ok. cbn [getAddrLen getAddr].
  assert (length (splice 0 (path ++ [0]) (repeat 0 108)) = 108%nat) as Hs
    by (rewrite length_splice; rewrite ?repeat_length, ?length_app; simpl; lia).
  unfold bytes_un. cbn [sun_family sun_path]. unfold sun_path_offset.
  split; [rewrite length_app, length_le_bytes, Hs; destruct abstract; lia|].
  split; [done|]. split; [lia|]. split.
  - rewrite drop_app_length' by (by rewrite length_le_bytes).
    unfold splice. rewrite take_0, app_nil_l, <- app_assoc. by rewrite take_app_length.
  - intros Hnz s len [= <- _]. cbn [sun_path]. unfold splice. rewrite take_0, app_nil_l.
    rewrite <- app_assoc. by apply c_str_app.
Qed.

Lemma UnixAddress_construct_witness : UnixAddress_path (0 :: repeat 1 107) = UB.
Proof.
  pose proof (UnixAddress_construct (0 :: repeat 1 107) ltac:(by vm_compute)) as H.
  destruct (UnixAddress_path (0 :: repeat 1 107)) eqn:E; vm_compute in E; try discriminate E.
  exact eq_refl.
Defined.

(** ** Host lookup *)

(** No colon in a text. *)
Fixpoint no_colon (s : string) : bool :=
  match s with
  | EmptyString => true
  | String c s => negb (Ascii.eqb c ":"%char) && no_colon s
  end.

Lemma find_last_colon_none s : no_colon s = true -> find_last_colon s = None.
Proof.
  induction s as [|c s IH]; simpl; [done|]. intros [Hc Hs]%andb_true_iff. rewrite IH by done.
  by destruct (Ascii.eqb c ":"%char).
Qed.

Lemma find_last_colon_app h s :
  no_colon s = true -> find_last_colon (h +:+ String ":"%char s) = Some (String.length h).
Proof.
  intros Hs. induction h as [|c h IH]; simpl.
  - by rewrite find_last_colon_none.
  - by rewrite IH.
Qed.

Lemma substring_prefix h t : substring 0 (String.length h) (h +:+ t) = h.
Proof. induction h as [|c h IH]; simpl; [by destruct t|]. by rewrite IH. Qed.

Lemma substring_all t : substring 0 (String.length t) t = t.
Proof. induction t as [|c t IH]; simpl; [done|]. by rewrite IH. Qed.

Lemma substring_after h c s :
  substring (String.length h + 1) (String.length (h +:+ String c s) - (String.length h + 1))
    (h +:+ String c s) = s.
Proof.
  induction h as [|d h IH]; simpl; [|exact IH]. rewrite Nat.sub_0_r. apply substring_all.
Qed.

(** The address a well-typed node stands for. *)
Definition node_address (n : addrinfo) : option Address :=
  match ai_addr n with
  | P_in a => Some (IPv4Address a)
  | P_in6 a => Some (IPv6Address a)
  | P_other _ => None
  end.

(** The resolver labels each node with the family of its address. *)
Definition node_ok (n : addrinfo) : Prop :=
  ptr_family (ai_addr n) = ai_family n /\ ai_family n <> AF_UNSPEC.

Lemma collect_node_addrs nodes :
  Forall (fun n => node_ok n /\ match ai_addr n with P_other f => f <> AF_INET /\ f <> AF_INET6 | _ => True end) nodes ->
  collect node_addrs nodes = Ok (omap node_address nodes).
Proof.
  induction 1 as [|n nodes [[Hf Hu] Ho] _ IH]; [done|]. cbn [collect omap list_omap]. rewrite IH.
  unfold node_addrs, node_address. rewrite <- Hf in *. unfold ptr_family in *.
  destruct (ai_addr n) as [a|a|f]; cbn [as_in as_in6]; [done..|].
  destruct (Z.eqb_spec f AF_INET), (Z.eqb_spec f AF_UNSPEC), (Z.eqb_spec f AF_INET6); try (done || lia).
Qed.

(** What [DNSLookup] asks the resolver and returns.  A host without a colon is
    looked up without a service; otherwise the text after the LAST colon is the
    service, so "host:port" is split as documented and a bare IPv6 literal loses
    its last group.  A resolver error, or a result with no IPv4 or IPv6 node,
    gives no list; otherwise every IPv4 and IPv6 node is returned, in order. *)
Theorem DNSLookup_query getaddrinfo h s family type protocol :
  no_colon s = true ->
  (forall err, getaddrinfo h (if String.eqb s EmptyString then None else Some s) family type protocol = inl err ->
     DNSLookup getaddrinfo (h +:+ String ":"%char s) family type protocol = Ok None) /\
  (forall nodes, getaddrinfo h (if String.eqb s EmptyString then None else Some s) family type protocol = inr nodes ->
     Forall (fun n => node_ok n /\
       match ai_addr n with P_other f => f <> AF_INET /\ f <> AF_INET6 | _ => True end) nodes ->
     DNSLookup getaddrinfo (h +:+ String ":"%char s) family type protocol =
       Ok (match omap node_address nodes with [] => None | l => Some l end)) /\
  (no_colon h = true ->
     DNSLookup getaddrinfo h family type protocol =
     match getaddrinfo h None family type protocol with
     | inl _ => Ok None
     | inr res => match collect node_addrs res with Ok [] => Ok None | Ok l => Ok (Some l) | _ => UB end
     end).
Proof.
  intros Hs. unfold DNSLookup, split_host. rewrite find_last_colon_app by done.
  rewrite substring_prefix, substring_after. split; [by intros err ->|]. split.
  - intros nodes -> Hf. rewrite collect_node_addrs by done. by destruct (omap _ _).
  - intros Hh. rewrite find_last_colon_none by done. simpl.
    destruct (getaddrinfo h None family type protocol); [done|]. by destruct (collect _ _) as [[]| | | | |].
Qed.

Lemma DNSLookup_query_witness :
  DNSLookup (fun h s _ _ _ => inr [mkAddrinfo AF_INET (P_in host4)]) "localhost:80" AF_INET 0 0 =
    Ok (Some [IPv4Address host4]).
Proof.
  refine (proj1 (proj2 (DNSLookup_query (fun h s _ _ _ => inr [mkAddrinfo AF_INET (P_in host4)])
            "localhost" "80" AF_INET 0 0 eq_refl)) [mkAddrinfo AF_INET (P_in host4)] eq_refl _).
  repeat constructor. discriminate.
Defined.
