(* ===== verification/Mutex.v ===== *)
(** * Mutex: locks and scoped guards

    Models [cczoecpp/Thread/Mutex/mutex.h] and [mutex.cpp]: the wrappers of the
    POSIX locks, which ignore the error codes, and the scoped guards
    [ScopedLock], [ReadScopedLock] and [WriteScopedLock].

    The POSIX lock is a parameter: the class [PosixLock] gives its operations and
    the documented behaviour that the code relies on, seen by one thread while the
    others are outside their critical sections. *)

From stdpp Require Import base list numbers.
From S2P Require Import Prelude.

Local Open Scope Z_scope.

Definition EDEADLK : Z := 35.

(** A lock with a read and a write mode, a mutex being one with write mode only.
    Each operation returns the error code of the call. *)
Class PosixLock (L : Type) := {
  pl_init : L;                       (* unlocked *)
  pl_reader : L;                     (* held for reading by this thread *)
  pl_writer : L;                     (* held for writing by this thread *)
  pl_rdlock : comp L Z;
  pl_wrlock : comp L Z;
  pl_unlock : comp L Z
}.

(** The documented behaviour.  Relocking a lock held for writing either blocks
    for ever or fails with [EDEADLK]; unlocking a lock that is not held is
    undefined. *)
Class PosixLockLaws (L : Type) `{PosixLock L} : Prop := {
  rdlock_init : pl_rdlock pl_init = (Ok 0, pl_reader);
  wrlock_init : pl_wrlock pl_init = (Ok 0, pl_writer);
  unlock_reader : pl_unlock pl_reader = (Ok 0, pl_init);
  unlock_writer : pl_unlock pl_writer = (Ok 0, pl_init);
  unlock_init : fst (pl_unlock pl_init) = UB;
  wrlock_writer : pl_wrlock pl_writer = (Deadlock, pl_writer) \/ pl_wrlock pl_writer = (Ok EDEADLK, pl_writer)
}.

(** ** The wrappers *)

Section wrappers.
Context {L : Type} `{PosixLock L}.

(** [RWMutex] (and [Mutex], [SpinLock], whose [lock] is the write mode): the
    result of the call is dropped. *)
Definition RWMutex_rdlock : comp L unit := let! _ := pl_rdlock in ret tt.
Definition RWMutex_wrlock : comp L unit := let! _ := pl_wrlock in ret tt.
Definition RWMutex_unlock : comp L unit := let! _ := pl_unlock in ret tt.
Definition Mutex_lock : comp L unit := let! _ := pl_wrlock in ret tt.
Definition Mutex_unlock : comp L unit := let! _ := pl_unlock in ret tt.
Definition SpinLock_lock : comp L unit := let! _ := pl_wrlock in ret tt.
Definition SpinLock_unlock : comp L unit := let! _ := pl_unlock in ret tt.
End wrappers.

(** ** The guards *)

(** A guard and the lock it refers to. *)
Record Guard (L : Type) : Type := mkGuard { m_locked : bool; m_mutex : L }.
Arguments mkGuard {L} _ _.
Arguments m_locked {L} _.
Arguments m_mutex {L} _.

Definition set_m_locked {L} (v : bool) (g : Guard L) : Guard L := mkGuard v (m_mutex g).
Definition set_m_mutex {L} (v : L) (g : Guard L) : Guard L := mkGuard (m_locked g) v.

Section guards.
Context {L : Type} `{PosixLock L}.

(** The lock operation of the template instance: [lock], [rdlock] or
    [wrlock]. *)
Inductive guard_kind : Set := Scoped | ReadScoped | WriteScoped.

Definition acquire (k : guard_kind) : comp L unit :=
  match k with
  | Scoped => Mutex_lock
  | ReadScoped => RWMutex_rdlock
  | WriteScoped => RWMutex_wrlock
  end.

(** What the three classes share: the flag keeps a guard from locking or unlocking
    twice. *)
Definition lock_once (lock : comp L unit) : comp (Guard L) unit :=
  let! locked := get m_locked in
  if locked : bool then ret tt else
  do! lift m_mutex set_m_mutex lock in
  modify (set_m_locked true).

Definition unlock_once (unlock : comp L unit) : comp (Guard L) unit :=
  let! locked := get m_locked in
  if locked : bool then
    do! lift m_mutex set_m_mutex unlock in
    modify (set_m_locked false)
  else ret tt.

Definition ScopedLock_lock : comp (Guard L) unit := lock_once Mutex_lock.
Definition ScopedLock_unlock : comp (Guard L) unit := unlock_once Mutex_unlock.
(** The flag is set once more. *)
Definition ScopedLock_ctor : comp (Guard L) unit := do! ScopedLock_lock in modify (set_m_locked true).
Definition ScopedLock_dtor : comp (Guard L) unit := ScopedLock_unlock.

Definition ReadScopedLock_rdlock : comp (Guard L) unit := lock_once RWMutex_rdlock.
Definition ReadScopedLock_unlock : comp (Guard L) unit := unlock_once RWMutex_unlock.
Definition ReadScopedLock_ctor : comp (Guard L) unit := ReadScopedLock_rdlock.
Definition ReadScopedLock_dtor : comp (Guard L) unit := ReadScopedLock_unlock.

Definition WriteScopedLock_wrlock : comp (Guard L) unit := lock_once RWMutex_wrlock.
Definition WriteScopedLock_unlock : comp (Guard L) unit := unlock_once RWMutex_unlock.
Definition WriteScopedLock_ctor : comp (Guard L) unit := WriteScopedLock_wrlock.
Definition WriteScopedLock_dtor : comp (Guard L) unit := WriteScopedLock_unlock.

(** The member functions by the class. *)
Definition guard_lock (k : guard_kind) : comp (Guard L) unit :=
  match k with Scoped => ScopedLock_lock | ReadScoped => ReadScopedLock_rdlock | WriteScoped => WriteScopedLock_wrlock end.
Definition guard_unlock (k : guard_kind) : comp (Guard L) unit :=
  match k with Scoped => ScopedLock_unlock | ReadScoped => ReadScopedLock_unlock | WriteScoped => WriteScopedLock_unlock end.
Definition guard_ctor (k : guard_kind) : comp (Guard L) unit :=
  match k with Scoped => ScopedLock_ctor | ReadScoped => ReadScopedLock_ctor | WriteScoped => WriteScopedLock_ctor end.
Definition guard_dtor (k : guard_kind) : comp (Guard L) unit :=
  match k with Scoped => ScopedLock_dtor | ReadScoped => ReadScopedLock_dtor | WriteScoped => WriteScopedLock_dtor end.

(** The calls a scope makes on its guard. *)
Fixpoint guard_calls (k : guard_kind) (calls : list bool) : comp (Guard L) unit :=
  match calls with
  | [] => ret tt
  | true :: calls => do! guard_lock k in guard_calls k calls
  | false :: calls => do! guard_unlock k in guard_calls k calls
  end.

(** A scope: construct, use, destroy. *)
Definition guard_scope (k : guard_kind) (calls : list bool) : comp L unit := fun m =>
  let '(o, g) := bind (guard_ctor k) (fun _ => bind (guard_calls k calls) (fun _ => guard_dtor k))
                   (mkGuard false m) in
  (o, m_mutex g).
End guards.

(** ** Critical sections of a class with a lock *)

(** [ReadScopedLock<..> lock(m_mutex);] or its write form in front of [body]: the
    guard is destroyed when the body returns and when it throws. *)
Definition with_lock {L S A} `{PosixLock L} (lock_of : S -> L) (set_lock : L -> S -> S)
    (k : guard_kind) (body : comp S A) : comp S A := fun s =>
  match lift lock_of set_lock (acquire k) s with
  | (Ok _, s1) =>
      match body s1 with
      | (Ok a, s2) => bind (lift lock_of set_lock RWMutex_unlock) (fun _ => ret a) s2
      | (Throw e, s2) => bind (lift lock_of set_lock RWMutex_unlock) (fun _ => fail (Throw e)) s2
      | r => r
      end
  | (Throw e, s1) => (Throw e, s1)
  | (Abort, s1) => (Abort, s1)
  | (UB, s1) => (UB, s1)
  | (Deadlock, s1) => (Deadlock, s1)
  | (Diverge, s1) => (Diverge, s1)
  end.

(** ** Two locks that satisfy the laws *)

(** The state of a lock as its holder sees it; the flag says whether relocking
    reports [EDEADLK]. *)
Inductive lock_state : Set := Free | Read | Write.

Definition simple_lock (edeadlk : bool) : PosixLock lock_state := {|
  pl_init := Free; pl_reader := Read; pl_writer := Write;
  pl_rdlock := fun l => match l with Free => (Ok 0, Read) | l => (Deadlock, l) end;
  pl_wrlock := fun l => match l with
                        | Free => (Ok 0, Write)
                        | l => if edeadlk then (Ok EDEADLK, l) else (Deadlock, l)
                        end;
  pl_unlock := fun l => match l with Free => (UB, l) | _ => (Ok 0, Free) end
|}.

Lemma simple_lock_laws edeadlk : @PosixLockLaws lock_state (simple_lock edeadlk).
Proof. split; try done. destruct edeadlk; [by right|by left]. Qed.

(** ** The guards are balanced *)

Section laws.
Context {L : Type} `{PosixLockLaws L}.

(** The state a guard of kind [k] holds the lock in. *)
Definition held (k : guard_kind) : L := match k with ReadScoped => pl_reader | _ => pl_writer end.

Lemma acquire_init k : acquire k pl_init = (Ok tt, held k).
Proof.
  destruct k; unfold acquire, Mutex_lock, RWMutex_rdlock, RWMutex_wrlock, bind;
    by rewrite ?rdlock_init, ?wrlock_init.
Qed.

Lemma unlock_held k : RWMutex_unlock (held k) = (Ok tt, pl_init).
Proof. unfold RWMutex_unlock, bind. destruct k; simpl; by rewrite ?unlock_reader, ?unlock_writer. Qed.

(** A guard's flag tells the state of its lock. *)
Definition guard_ok (k : guard_kind) (g : Guard L) : Prop :=
  m_mutex g = if m_locked g then held k else pl_init.

Lemma guard_lock_ok k g : guard_ok k g -> guard_lock k g = (Ok tt, mkGuard true (held k)).
Proof.
  intros Hg. transitivity (lock_once (acquire k) g); [by destruct k|].
  destruct g as [[] m]; unfold guard_ok in Hg; simpl in Hg; subst m; unfold lock_once; rewrite bind_get; simpl; [done|].
  unfold bind, lift; simpl. by rewrite acquire_init.
Qed.

Lemma guard_unlock_ok k g : guard_ok k g -> guard_unlock k g = (Ok tt, mkGuard false pl_init).
Proof.
  intros Hg. transitivity (unlock_once RWMutex_unlock g); [by destruct k|].
  destruct g as [[] m]; unfold guard_ok in Hg; simpl in Hg; subst m; unfold unlock_once; rewrite bind_get; simpl; [|done].
  unfold bind, lift; simpl. by rewrite unlock_held.
Qed.

Lemma guard_calls_ok k calls : forall g, guard_ok k g ->
  exists g', guard_calls k calls g = (Ok tt, g') /\ guard_ok k g'.
Proof.
  induction calls as [|[] calls IH]; intros g Hg; cbn [guard_calls].
  - by exists g.
  - rewrite (bind_Ok _ _ _ _ _ (guard_lock_ok k g Hg)). by apply IH.
  - rewrite (bind_Ok _ _ _ _ _ (guard_unlock_ok k g Hg)). by apply IH.
Qed.

(** A critical section over a free lock: the body runs with the lock held, and
    a body that returns or throws leaves the lock free. *)
Lemma with_lock_body {S A} (lock_of : S -> L) set_lock k (body : comp S A) s :
  lock_of s = pl_init ->
  with_lock lock_of set_lock k body s =
    match body (set_lock (held k) s) with
    | (Ok a, s2) => bind (lift lock_of set_lock RWMutex_unlock) (fun _ => ret a) s2
    | (Throw e, s2) => bind (lift lock_of set_lock RWMutex_unlock) (fun _ => fail (Throw e)) s2
    | r => r
    end.
Proof. intros Hs. unfold with_lock, lift. by rewrite Hs, acquire_init. Qed.

Lemma lift_unlock {S} (lock_of : S -> L) set_lock k s :
  lock_of s = held k -> lift lock_of set_lock RWMutex_unlock s = (Ok tt, set_lock pl_init s).
Proof. intros Hs. unfold lift. by rewrite Hs, unlock_held. Qed.

Lemma with_lock_Ok {S A} (lock_of : S -> L) set_lock k (body : comp S A) s a s2 :
  lock_of s = pl_init -> body (set_lock (held k) s) = (Ok a, s2) -> lock_of s2 = held k ->
  with_lock lock_of set_lock k body s = (Ok a, set_lock pl_init s2).
Proof.
  intros Hs Hb H2. rewrite with_lock_body by done. rewrite Hb.
  by rewrite (bind_Ok _ _ _ _ _ (lift_unlock lock_of set_lock k s2 H2)).
Qed.

(** Scoped guards are balanced.  A scope that constructs a guard on a free
    lock and calls its [lock] and [unlock] in any order and any number of times
    never unlocks a lock it does not hold, never waits for itself, and leaves the
    lock free when the guard is destroyed. *)
Theorem guard_balanced k calls :
  guard_scope k calls pl_init = (Ok tt, pl_init).
Proof.
  unfold guard_scope.
  assert (exists g, guard_ctor k (mkGuard false pl_init) = (Ok tt, g) /\ guard_ok k g) as (g & Hc & Hg).
  { exists (mkGuard true (held k)). split; [|done].
    pose proof (guard_lock_ok k (mkGuard false pl_init) eq_refl) as Hl.
    destruct k; [|exact Hl|exact Hl]. cbn [guard_ctor]. unfold ScopedLock_ctor. by rewrite (bind_Ok _ _ _ _ _ Hl). }
  rewrite (bind_Ok _ _ _ _ _ Hc).
  destruct (guard_calls_ok k calls g Hg) as (g' & Hgc & Hg').
  rewrite (bind_Ok _ _ _ _ _ Hgc). pose proof (guard_unlock_ok k g' Hg') as Hu.
  assert (guard_dtor k g' = guard_unlock k g') as -> by (by destruct k). by rewrite Hu.
Qed.
End laws.

(** Both kinds of implementation. *)
Lemma guard_balanced_witness :
  @guard_scope lock_state (simple_lock true) ReadScoped [false; true; true; false; false] Free = (Ok tt, Free).
Proof.
  exact (@guard_balanced lock_state (simple_lock true) (simple_lock_laws true) ReadScoped
           [false; true; true; false; false]).
Defined.
