(* ===== verification/Thread.v ===== *)
(** * Thread: threads and semaphores

    Models [cczoecpp/Thread/Thread.h], [Thread.cpp], [Semaphore/sem.h] and
    [sem.cpp].  POSIX threads and semaphores are parameters, the classes [Pthread]
    and [PosixSem]; a new thread runs [Thread_run] at some later step.  The log
    lines are left out. *)

From stdpp Require Import base list numbers gmap strings.
From S2P Require Import Prelude.

Local Open Scope Z_scope.

(** ** Semaphores *)

(** The calls return 0 or -1; a wait returns when the count allows it. *)
Class PosixSem (M : Type) := {
  sem_init : Z -> comp M Z;
  sem_wait : comp M Z;
  sem_post : comp M Z
}.

Section Semaphore.
Context {M : Type} `{PosixSem M}.

Definition throw_unless_0 (rt : Z) : comp M unit := if rt =? 0 then ret tt else fail (Throw logic_error).

Definition Semaphore_ctor (count : Z) : comp M unit := let! rt := sem_init count in throw_unless_0 rt.
Definition Semaphore_wait : comp M unit := let! rt := sem_wait in throw_unless_0 rt.
Definition Semaphore_notify : comp M unit := let! rt := sem_post in throw_unless_0 rt.
End Semaphore.

(** ** Threads *)

(** [K] is the system with the rest of the program, [C] what a thread is given to
    call.  [pthread_create] gives its result and the handle, which is not 0. *)
Class Pthread (K C : Type) := {
  pthread_create : comp K (Z * Z);
  pthread_join : Z -> comp K Z;
  pthread_detach : Z -> comp K Z;
  pthread_setname_np : Z -> string -> comp K unit;
  getThreadId : Z -> comp K Z;
  call_callback : C -> comp K unit
}.

Section Thread.
Context {K C : Type} `{Pthread K C}.

(** [m_callback] is empty once it has been swapped out. *)
Record Thread : Type := mkThread {
  m_id : Z;
  m_thread : Z;
  m_name : string;
  m_callback : option C
}.

Definition set_m_id (v : Z) (t : Thread) : Thread := mkThread v (m_thread t) (m_name t) (m_callback t).
Definition set_m_thread (v : Z) (t : Thread) : Thread := mkThread (m_id t) v (m_name t) (m_callback t).
Definition set_m_name (v : string) (t : Thread) : Thread := mkThread (m_id t) (m_thread t) v (m_callback t).
Definition set_m_callback (v : option C) (t : Thread) : Thread := mkThread (m_id t) (m_thread t) (m_name t) v.

(** The objects, [None] once destroyed, the thread-local variables of every thread
    by its handle ([t_thread] and [t_thread_name]), and the system. *)
Record Process : Type := mkProcess {
  objects : list (option Thread);
  locals : gmap Z (option nat * string);
  system : K
}.

Definition set_objects (v : list (option Thread)) (p : Process) : Process := mkProcess v (locals p) (system p).
Definition set_locals (v : gmap Z (option nat * string)) (p : Process) : Process := mkProcess (objects p) v (system p).
Definition set_system (v : K) (p : Process) : Process := mkProcess (objects p) (locals p) v.

Definition sys {A} (m : comp K A) : comp Process A := lift system set_system m.

(** A use of the object behind a pointer, undefined once it is destroyed. *)
Definition object (ptr : nat) : comp Process Thread := fun p =>
  match objects p !! ptr with
  | Some (Some t) => (Ok t, p)
  | _ => (UB, p)
  end.

Definition update (ptr : nat) (f : Thread -> Thread) : comp Process unit :=
  let! t := object ptr in
  modify (fun p => set_objects (<[ptr := Some (f t)]> (objects p)) p).

Definition default_name : string := "default name".

(** The thread-local variables of a thread. *)
Definition local_of (self : Z) (p : Process) : option nat * string := default (None, default_name) (locals p !! self).
Definition set_local (self : Z) (v : option nat * string) : comp Process unit :=
  modify (fun p => set_locals (<[self := v]> (locals p)) p).

(** The constructor: the object is gone again when it throws. *)
Definition Thread_ctor (name : string) (f : C) : comp Process nat :=
  let! ptr := get (fun p => length (objects p)) in
  let m_name := if String.eqb name EmptyString then default_name else name in
  do! modify (fun p => set_objects (objects p ++ [Some (mkThread (-1) 0 m_name (Some f))]) p) in
  let! r := sys pthread_create in
  do! update ptr (set_m_thread (snd r)) in
  if negb (fst r =? 0) then
    do! modify (fun p => set_objects (<[ptr := None]> (objects p)) p) in
    fail (Throw logic_error)
  else ret ptr.

Definition Thread_dtor (ptr : nat) : comp Process unit :=
  let! t := object ptr in
  do! (if negb (m_thread t =? 0) then let! _ := sys (pthread_detach (m_thread t)) in ret tt else ret tt) in
  modify (fun p => set_objects (<[ptr := None]> (objects p)) p).

Definition join (ptr : nat) : comp Process unit :=
  let! t := object ptr in
  if negb (m_thread t =? 0) then
    let! rt := sys (pthread_join (m_thread t)) in
    if negb (rt =? 0) then fail (Throw logic_error) else update ptr (set_m_thread 0)
  else ret tt.

(** The empty [std::function] that is swapped in, and called if a thread ran
    twice, would throw. *)
Definition Thread_run (self : Z) (ptr : nat) : comp Process unit :=
  let! t := object ptr in
  do! set_local self (Some ptr, m_name t) in
  let! id := sys (getThreadId self) in
  do! update ptr (set_m_id id) in
  let! t := object ptr in
  do! sys (pthread_setname_np self (String.substring 0 15 (m_name t))) in
  let! t := object ptr in
  do! update ptr (set_m_callback None) in
  match m_callback t with
  | Some f => sys (call_callback f)
  | None => fail (Throw runtime_error)
  end.

Definition GetThis (self : Z) : comp Process (option nat) := get (fun p => fst (local_of self p)).
Definition GetName (self : Z) : comp Process string := get (fun p => snd (local_of self p)).

Definition SetName (self : Z) (name : string) : comp Process unit :=
  let! l := get (local_of self) in
  do! (match fst l with Some ptr => update ptr (set_m_name name) | None => ret tt end) in
  set_local self (fst l, name).

Definition getId (ptr : nat) : comp Process Z := let! t := object ptr in ret (m_id t).
Definition getName (ptr : nat) : comp Process string := let! t := object ptr in ret (m_name t).
Definition setName (ptr : nat) (name : string) : comp Process unit := update ptr (set_m_name name).
End Thread.
