(* ===== verification/ThreadTheorems.v ===== *)
(** * ThreadTheorems: what a thread object guarantees *)

From stdpp Require Import base list numbers gmap strings.
From S2P Require Import Prelude Thread.

Local Open Scope Z_scope.

Section Thread.
Context {K C : Type} `{Pthread K C}.

#[local] Notation Process := (Process (K := K) (C := C)).
#[local] Notation Thread := (Thread (C := C)).

(** The object behind a pointer. *)
Definition points_to (p : Process) (ptr : nat) (t : Thread) : Prop := objects p !! ptr = Some (Some t).

Lemma object_Ok (p : Process) ptr t : points_to p ptr t -> object ptr p = (Ok t, p).
Proof. intros Ht. unfold object. by rewrite Ht. Qed.

Lemma thread_update_Ok (p : Process) ptr t f : points_to p ptr t ->
  update ptr f p = (Ok tt, set_objects (<[ptr := Some (f t)]> (objects p)) p).
Proof. intros Ht. unfold update. by rewrite (bind_Ok _ _ _ _ _ (object_Ok _ _ _ Ht)). Qed.

Lemma points_to_update (p : Process) ptr t t' : points_to p ptr t ->
  points_to (set_objects (<[ptr := Some t']> (objects p)) p) ptr t'.
Proof. intros Ht. apply list_lookup_insert_eq. by eapply lookup_lt_Some. Qed.

Lemma sys_Ok {A} (m : comp K A) (p : Process) a k : m (system p) = (Ok a, k) -> sys m p = (Ok a, set_system k p).
Proof. apply lift_Ok. Qed.

(** (functional) a started thread publishes itself and its name in its
    thread-local variables, stores its identifier in the object, gives the system
    the first fifteen characters of its name and calls its callback, which the
    object then no longer holds: a second run would throw.  It does all this
    through a pointer to the object: once the object is destroyed, which
    [~Thread] does without waiting, the start of the thread is undefined. *)
Theorem run_calls_callback (p : Process) self ptr t f id k1 k2 k3 :
  points_to p ptr t -> m_callback t = Some f ->
  getThreadId self (system p) = (Ok id, k1) ->
  pthread_setname_np self (String.substring 0 15 (m_name t)) k1 = (Ok tt, k2) ->
  call_callback f k2 = (Ok tt, k3) ->
  exists p', Thread_run self ptr p = (Ok tt, p') /\ system p' = k3 /\
    points_to p' ptr (set_m_callback None (set_m_id id t)) /\
    GetThis self p' = (Ok (Some ptr), p') /\ GetName self p' = (Ok (m_name t), p') /\
    forall q p2, Thread_dtor ptr p = (Ok tt, p2) -> objects q = objects p2 -> fst (Thread_run self ptr q) = UB.
Proof.
  intros Ht Hf Hid Hname Hcall. unfold Thread_run.
  rewrite (bind_Ok _ _ _ _ _ (object_Ok _ _ _ Ht)). unfold set_local. rewrite bind_modify.
  set (p1 := set_locals _ p). assert (points_to p1 ptr t) as H1 by done.
  rewrite (bind_Ok _ _ _ _ _ (sys_Ok _ p1 _ _ Hid)). set (p2 := set_system k1 p1). assert (points_to p2 ptr t) as H2 by done.
  rewrite (bind_Ok _ _ _ _ _ (thread_update_Ok p2 _ _ _ H2)). set (p3 := set_objects _ p2).
  assert (points_to p3 ptr (set_m_id id t)) as H3 by (by apply points_to_update with t).
  rewrite (bind_Ok _ _ _ _ _ (object_Ok _ _ _ H3)), (bind_Ok _ _ _ _ _ (sys_Ok _ p3 _ _ Hname)).
  set (p4 := set_system k2 p3). assert (points_to p4 ptr (set_m_id id t)) as H4 by done.
  rewrite (bind_Ok _ _ _ _ _ (object_Ok _ _ _ H4)), (bind_Ok _ _ _ _ _ (thread_update_Ok p4 _ _ _ H4)).
  cbn [m_callback set_m_id]. rewrite Hf. set (p5 := set_objects _ p4).
  exists (set_system k3 p5). split; [by apply sys_Ok|]. split_and!; [done|by apply (points_to_update p4 ptr (set_m_id id t))| | |].
  1,2: unfold GetThis, GetName, get, local_of; cbn; by rewrite lookup_insert_eq.
  intros q p6 Hd Hq. unfold Thread_run, Prelude.bind at 1, object. rewrite Hq.
  unfold Thread_dtor in Hd. rewrite (bind_Ok _ _ _ _ _ (object_Ok _ _ _ Ht)) in Hd.
  apply bind_Ok_inv in Hd as ([] & p7 & Hd & [= <-]).
  replace (objects p7) with (objects p) in * by (clear Hq; destruct (negb _); [apply bind_Ok_inv in Hd as (v & p8 & Hd & [= <-]);
    unfold sys, lift in Hd; destruct (pthread_detach _ _) as [[]]; by injection Hd as _ <-|by injection Hd as <-]).
  cbn [objects set_objects]. by rewrite list_lookup_insert_eq by (by eapply lookup_lt_Some).
Qed.

(** C31: (error) [join] waits for a thread once: when it succeeds, the object
    forgets the handle, so that neither a second [join] nor the destructor asks the
    system about it again; when it fails it throws and keeps the handle; and the
    constructor throws when no thread can be made. *)
Theorem join_once (p : Process) ptr t k rt : points_to p ptr t -> m_thread t <> 0 ->
  pthread_join (m_thread t) (system p) = (Ok rt, k) ->
  (rt = 0 -> exists p', join ptr p = (Ok tt, p') /\ system p' = k /\ join ptr p' = (Ok tt, p') /\
     exists p'', Thread_dtor ptr p' = (Ok tt, p'') /\ system p'' = k) /\
  (rt <> 0 -> join ptr p = (Throw logic_error, set_system k p)) /\
  (forall name f e h k', pthread_create (system p) = (Ok (e, h), k') -> e <> 0 ->
     exists p', Thread_ctor name f p = (Throw logic_error, p') /\ objects p' = objects p ++ [None]).
Proof.
  intros Ht Hh Hj. split_and!.
  - intros ->. unfold join at 1. rewrite (bind_Ok _ _ _ _ _ (object_Ok _ _ _ Ht)).
    rewrite (proj2 (Z.eqb_neq _ _) Hh). cbn [negb]. rewrite (bind_Ok _ _ _ _ _ (sys_Ok _ p _ _ Hj)). cbn [Z.eqb negb].
    set (p1 := set_system k p). assert (points_to p1 ptr t) as H1 by done.
    rewrite (thread_update_Ok p1 _ _ _ H1). set (p2 := set_objects _ p1).
    assert (points_to p2 ptr (set_m_thread 0 t)) as H2 by (by apply points_to_update with t).
    exists p2. split_and!; [done|done| |].
    + unfold join. by rewrite (bind_Ok _ _ _ _ _ (object_Ok _ _ _ H2)).
    + unfold Thread_dtor. rewrite (bind_Ok _ _ _ _ _ (object_Ok _ _ _ H2)). cbn [m_thread set_m_thread Z.eqb negb].
      rewrite bind_ret_l. by eexists.
  - intros Hrt. unfold join. rewrite (bind_Ok _ _ _ _ _ (object_Ok _ _ _ Ht)), (proj2 (Z.eqb_neq _ _) Hh). cbn [negb].
    rewrite (bind_Ok _ _ _ _ _ (sys_Ok _ p _ _ Hj)). by rewrite (proj2 (Z.eqb_neq _ _) Hrt).
  - intros name f e h k' Hc He. unfold Thread_ctor. rewrite bind_get, bind_modify. set (n := if String.eqb _ _ then _ else _).
    set (p1 := set_objects _ p).
    rewrite (bind_Ok _ _ _ _ _ (sys_Ok _ p1 _ _ Hc)). set (p2 := set_system k' p1).
    assert (points_to p2 (length (objects p)) (mkThread (-1) 0 n (Some f))) as H2
      by (unfold points_to; cbn; by rewrite lookup_app_r, Nat.sub_diag).
    rewrite (bind_Ok _ _ _ _ _ (thread_update_Ok p2 _ _ _ H2)). cbn [fst snd]. rewrite (proj2 (Z.eqb_neq _ _) He). cbn [negb].
    rewrite bind_modify. eexists. split; [done|]. cbn. rewrite list_insert_insert_eq, insert_app_r_alt, Nat.sub_diag by done. done.
Qed.
End Thread.

(** ** Witnesses *)

(** A system that counts the calls. *)
#[local] Instance counting : Pthread nat unit := {|
  pthread_create := fun k => (Ok (0, 7), S k);
  pthread_join h := fun k => (Ok 0, S k);
  pthread_detach h := fun k => (Ok 0, S k);
  pthread_setname_np h s := fun k => (Ok tt, S k);
  getThreadId h := fun k => (Ok 42, S k);
  call_callback f := fun k => (Ok tt, S k)
|}.

Definition started : Process (K := nat) (C := unit) := mkProcess [Some (mkThread (-1) 7 "worker" (Some tt))] ∅ 0%nat.

Lemma run_calls_callback_witness : exists p', Thread_run 7 0 started = (Ok tt, p') /\ system p' = 3%nat.
Proof.
  destruct (run_calls_callback started 7 0 (mkThread (-1) 7 "worker" (Some tt)) tt 42 1%nat 2%nat 3%nat)
    as (p' & Hrun & Hk & _); [reflexivity..|]. exists p'. split; [exact Hrun|exact Hk].
Defined.

Lemma join_once_witness : exists p', join 0 started = (Ok tt, p') /\ join 0 p' = (Ok tt, p').
Proof.
  destruct (join_once started 0 (mkThread (-1) 7 "worker" (Some tt)) 1%nat 0) as (Hok & _); [reflexivity|discriminate|reflexivity|].
  destruct (Hok eq_refl) as (p' & Hj & _ & Hj' & _). exists p'. split; [exact Hj|exact Hj'].
Defined.
