(* ===== verification/Fiber.v ===== *)
(** * Fiber: stackful coroutines

    Models [cczoecpp/Fiber/Fiber.cpp] and [Fiber.h].  A thread has its
    thread-local [t_fiber] and [t_threadFiber] and shares the fiber objects with
    the other threads.  What a fiber executes is a list of calls into the library
    ([cmd]); a context saved by [swapcontext] is the rest of that list.

    Fibers are owned by [std::shared_ptr]s.  A fiber object records whether a
    reference from outside its own stack is left ([m_held]: those of the program, of
    the queue of the scheduler and of its workers, of the registered events, all
    together) and whether one lies on its own stack ([m_self]: the local [curr] of
    [mainFunc], alive from the entry of the body to its end; the [curr] of a
    [YieldToReady] lies inside that span).  The object dies when neither is left.

    [getcontext] and [swapcontext] are taken to succeed, and [malloc] to return
    memory. *)

From stdpp Require Import base list numbers gmap.
From S2P Require Import Prelude Words.

Local Open Scope Z_scope.

(** [Fiber::State]. *)
Inductive State : Set := INIT | RUNNING | TERM | READY.

#[global] Instance State_eq_dec : EqDecision State.
Proof. solve_decision. Defined.

(** A fiber object is named by its address. *)
Definition ptr : Type := nat.

(** The calls a fiber body makes.  [Work n] is any computation that does not
    touch fibers or the scheduler; [ScheduleFiber], [ScheduleSelf] and
    [ScheduleCb] are [Scheduler::schedule] on a fiber, on the running fiber and on
    a function; [IdleLoop] is the loop of the scheduler's [idle], whose condition
    the scheduler evaluates. *)
Inductive cmd : Type :=
  | Work (n : nat)
  | New (cb : list cmd)
  | Resume (f : ptr)
  | Reset (f : ptr) (cb : list cmd)
  | Release (f : ptr)
  | YieldToReady_
  | ScheduleFiber (f : ptr)
  | ScheduleSelf
  | ScheduleCb (cb : list cmd)
  | IdleLoop.

(** What a saved context resumes into: the entry of [mainFunc], the body of a
    fiber with the calls that are left, the return of the last [yield] of
    [mainFunc], or the code of the thread's main fiber. *)
Inductive ucontext_t : Type :=
  | AtMainFunc
  | InBody (curr : ptr) (rest : list cmd)
  | AfterLastYield
  | InMain
  | ThreadExit.

Record Fiber : Type := mkFiber {
  m_id : Z;
  m_stacksize : Z;
  m_state : State;
  m_ucp : ucontext_t;
  m_stack : bool;               (* m_stack != nullptr *)
  m_cb : option (list cmd);
  m_held : bool;                (* a shared_ptr outside its stack refers to it *)
  m_self : bool                 (* the curr of mainFunc on its stack refers to it *)
}.

Definition set_m_state (v : State) (x : Fiber) : Fiber :=
  mkFiber (m_id x) (m_stacksize x) v (m_ucp x) (m_stack x) (m_cb x) (m_held x) (m_self x).
Definition set_m_ucp (v : ucontext_t) (x : Fiber) : Fiber :=
  mkFiber (m_id x) (m_stacksize x) (m_state x) v (m_stack x) (m_cb x) (m_held x) (m_self x).
Definition set_m_cb (v : option (list cmd)) (x : Fiber) : Fiber :=
  mkFiber (m_id x) (m_stacksize x) (m_state x) (m_ucp x) (m_stack x) v (m_held x) (m_self x).
Definition set_m_held (v : bool) (x : Fiber) : Fiber :=
  mkFiber (m_id x) (m_stacksize x) (m_state x) (m_ucp x) (m_stack x) (m_cb x) v (m_self x).
Definition set_m_self (v : bool) (x : Fiber) : Fiber :=
  mkFiber (m_id x) (m_stacksize x) (m_state x) (m_ucp x) (m_stack x) (m_cb x) (m_held x) v.

(** The process-wide part: the two atomic counters and the fiber objects. *)
Record Heap : Type := mkHeap {
  s_fiber_id : Z;
  s_fiber_count : Z;
  fibers : gmap ptr Fiber;
  next_ptr : ptr                 (* the next address the allocator hands out *)
}.

(** One thread: the shared part, its thread-locals, and what it executes. *)
Record Thread : Type := mkThread {
  heap : Heap;
  t_fiber : option ptr;
  t_threadFiber : option ptr;
  control : ucontext_t
}.

Definition set_heap (v : Heap) (s : Thread) : Thread :=
  mkThread v (t_fiber s) (t_threadFiber s) (control s).
Definition set_t_fiber (v : option ptr) (s : Thread) : Thread :=
  mkThread (heap s) v (t_threadFiber s) (control s).
Definition set_t_threadFiber (v : option ptr) (s : Thread) : Thread :=
  mkThread (heap s) (t_fiber s) v (control s).
Definition set_control (v : ucontext_t) (s : Thread) : Thread :=
  mkThread (heap s) (t_fiber s) (t_threadFiber s) v.

Definition set_fibers (v : gmap ptr Fiber) (h : Heap) : Heap :=
  mkHeap (s_fiber_id h) (s_fiber_count h) v (next_ptr h).

(** Fields of the object [f] points to; a dangling pointer is undefined. *)
Definition deref (f : ptr) : comp Thread Fiber := fun s =>
  match fibers (heap s) !! f with Some x => (Ok x, s) | None => (UB, s) end.
Definition update (f : ptr) (g : Fiber -> Fiber) : comp Thread unit := fun s =>
  match fibers (heap s) !! f with
  | Some x => (Ok tt, set_heap (set_fibers (<[f := g x]> (fibers (heap s))) (heap s)) s)
  | None => (UB, s)
  end.

Definition setThis (f : option ptr) : comp Thread unit := modify (set_t_fiber f).

(** A fresh object; [s_fiber_id++] and [s_fiber_count++] wrap at 64 bits. *)
Definition alloc (mk : Z -> Fiber) : comp Thread ptr := fun s =>
  let h := heap s in
  (Ok (next_ptr h),
   set_heap (mkHeap (wrap 64 (s_fiber_id h + 1)) (wrap 64 (s_fiber_count h + 1))
               (<[next_ptr h := mk (s_fiber_id h)]> (fibers h)) (S (next_ptr h))) s).

(** [Fiber::Fiber()]: the main fiber of a thread; its context is filled in when
    it first switches away. *)
Definition Fiber_main : comp Thread ptr :=
  let! f := alloc (fun id => mkFiber id 0 RUNNING InMain false None true false) in
  do! setThis (Some f) in
  ret f.

(** [Fiber::Fiber(cb, stacksize)]: [m_stacksize] is a [uint32_t]. *)
Definition Fiber_ctor (cfg_stack_size : Z) (cb : list cmd) (stacksize : Z) : comp Thread ptr :=
  alloc (fun id => mkFiber id (wrap 32 (if 0 <? stacksize then stacksize else cfg_stack_size))
                     INIT AtMainFunc true (Some cb) true false).

(** [GetThis]: the running fiber, creating the main fiber of the thread on its
    first use. *)
Definition GetThis : comp Thread ptr :=
  let! t := get t_fiber in
  match t with
  | Some f => ret f
  | None =>
      let! main_fiber := Fiber_main in
      let! t := get t_fiber in
      do! CCZOE_ASSERT (bool_decide (t = Some main_fiber)) in
      do! modify (set_t_threadFiber (Some main_fiber)) in
      ret main_fiber
  end.

Definition initMainFiber : comp Thread unit :=
  let! t := get t_fiber in
  match t with
  | Some _ => ret tt
  | None =>
      let! main_fiber := Fiber_main in
      let! t := get t_fiber in
      do! CCZOE_ASSERT (bool_decide (t = Some main_fiber)) in
      modify (set_t_threadFiber (Some main_fiber))
  end.

Definition totalFibers (s : Thread) : Z := s_fiber_count (heap s).

(** [getId] returns a [uint32_t]. *)
Definition getId (x : Fiber) : Z := wrap 32 (m_id x).
Definition getState (x : Fiber) : State := m_state x.

(** [~Fiber()] and the deallocation. *)
Definition Fiber_dtor (f : ptr) : comp Thread unit :=
  do! modify (fun s => set_heap (mkHeap (s_fiber_id (heap s)) (wrap 64 (s_fiber_count (heap s) - 1))
                                   (fibers (heap s)) (next_ptr (heap s))) s) in
  let! x := deref f in
  let! t := get t_fiber in
  do! (if m_stack x
       then CCZOE_ASSERT (bool_decide (m_state x = INIT \/ m_state x = TERM))
       else if bool_decide (t = Some f) then setThis None else ret tt) in
  modify (fun s => set_heap (set_fibers (delete f (fibers (heap s))) (heap s)) s).

(** The last outside reference to [f] goes (dropping one that is not there is
    undefined); the result says whether [f] is without any reference then. *)
Definition drop_held (f : ptr) : comp Thread bool :=
  let! x := deref f in
  if m_held x then do! update f (set_m_held false) in ret (negb (m_self x)) else fail UB.

(** A fiber without references is destroyed.  A suspended or running one is not: the
    [curr] on its own stack refers to it.  A main fiber stays alive too: the
    [t_threadFiber] of its thread refers to it. *)
Definition release (f : ptr) : comp Thread unit :=
  let! x := deref f in
  if m_stack x then
    let! last := drop_held f in
    if last then Fiber_dtor f else ret tt
  else ret tt.

Definition reset (f : ptr) (callback : list cmd) : comp Thread unit :=
  let! x := deref f in
  do! CCZOE_ASSERT (bool_decide (m_state x = INIT \/ m_state x = TERM)) in
  do! CCZOE_ASSERT (m_stack x) in
  do! update f (set_m_cb (Some callback)) in
  do! update f (set_m_state INIT) in
  update f (set_m_ucp AtMainFunc).

(** The first part of [mainFunc], entered when a fresh context is switched to: the
    [GetThis] that makes [curr] and the call of [m_cb], which throws when it is
    empty. *)
Definition mainFunc_enter : comp Thread unit :=
  let! curr := GetThis in
  do! update curr (set_m_self true) in
  let! x := deref curr in
  match m_cb x with
  | Some cb => modify (set_control (InBody curr cb))
  | None => fail Abort
  end.

(** [swapcontext(&from->m_ucp, &to->m_ucp)]. *)
Definition swapcontext (from to : ptr) : comp Thread unit :=
  let! here := get control in
  do! update from (set_m_ucp here) in
  let! y := deref to in
  match m_ucp y with
  | AtMainFunc => mainFunc_enter
  | c => modify (set_control c)
  end.

(** Dereference of [t_threadFiber]. *)
Definition main_ptr : comp Thread ptr :=
  let! m := get t_threadFiber in
  match m with Some m => ret m | None => fail UB end.

Definition yield (this : ptr) : comp Thread unit :=
  let! t := get t_fiber in
  let! m := get t_threadFiber in
  if bool_decide (t = m) then ret tt else
  let! x := deref this in
  do! CCZOE_ASSERT (bool_decide (m_state x = RUNNING \/ m_state x = TERM)) in
  do! (if bool_decide (m_state x = RUNNING) then update this (set_m_state READY) else ret tt) in
  do! setThis m in
  let! m := main_ptr in
  swapcontext this m.

Definition resume (this : ptr) : comp Thread unit :=
  let! t := get t_fiber in
  let! m := get t_threadFiber in
  if bool_decide (t = m) then
    let! x := deref this in
    do! CCZOE_ASSERT (bool_decide (m_state x <> TERM /\ m_state x <> RUNNING)) in
    do! setThis (Some this) in
    do! update this (set_m_state RUNNING) in
    let! m := main_ptr in
    swapcontext m this
  else ret tt.

Definition YieldToReady : comp Thread unit :=
  let! curr := GetThis in yield curr.

Definition setIdle (f : ptr) : comp Thread unit := update f (set_m_state INIT).

(** [curr.reset()] of [mainFunc]; the result says whether the fiber is without any
    reference then. *)
Definition drop_self (curr : ptr) : comp Thread bool :=
  let! x := deref curr in
  do! update curr (set_m_self false) in
  ret (negb (m_held x)).

(** The end of [mainFunc]: drop the callback, terminate, drop [curr] (which destroys
    the fiber, on its own stack, when nothing else refers to it), and
    [rawCurr->yield()] for the last time. *)
Definition mainFunc_end (curr : ptr) : comp Thread bool :=
  do! update curr (set_m_cb None) in
  do! update curr (set_m_state TERM) in
  drop_self curr.
Definition mainFunc_yield (rawCurr : ptr) : comp Thread unit :=
  do! modify (set_control AfterLastYield) in
  yield rawCurr.
Definition mainFunc_leave (curr : ptr) : comp Thread unit :=
  let! last := mainFunc_end curr in
  do! (if last then Fiber_dtor curr else ret tt) in
  mainFunc_yield curr.

(** ** Executing fiber bodies *)

(** What a call does beyond the fibers: visible work, and requests to the
    scheduler. *)
Inductive event : Type :=
  | Worked (n : nat)
  | Scheduled (f : ptr)
  | ScheduledCb (cb : list cmd).

Section exec.
Context (cfg_stack_size : Z).

(** One call of the body of [curr].  Scheduling itself hands a new reference out. *)
Definition exec (curr : ptr) (c : cmd) : comp Thread (list event) :=
  match c with
  | Work n => ret [Worked n]
  | New cb => let! _ := Fiber_ctor cfg_stack_size cb 0 in ret []
  | Resume f => do! resume f in ret []
  | Reset f cb => do! reset f cb in ret []
  | Release f => do! release f in ret []
  | YieldToReady_ => do! YieldToReady in ret []
  | ScheduleFiber f => ret [Scheduled f]
  | ScheduleSelf => do! update curr (set_m_held true) in ret [Scheduled curr]
  | ScheduleCb cb => ret [ScheduledCb cb]
  | IdleLoop => ret []
  end.

(** One step of a thread that executes a fiber.  After the last yield of
    [mainFunc] returns, the function ends and, [uc_link] being null, so does the
    thread. *)
Definition fiber_step : comp Thread (list event) := fun s =>
  match control s with
  | InBody curr (c :: rest) => exec curr c (set_control (InBody curr rest) s)
  | InBody curr [] => bind (mainFunc_leave curr) (fun _ => ret []) s
  | AfterLastYield => (Ok [], set_control ThreadExit s)
  | _ => (Ok [], s)
  end.

(** The steps up to the return to the main fiber. *)
Fixpoint drive (fuel : nat) : comp Thread (list event) := fun s =>
  match control s with
  | InMain | ThreadExit => (Ok [], s)
  | _ =>
      match fuel with
      | O => (Diverge, s)
      | S fuel =>
          bind fiber_step (fun es => bind (drive fuel) (fun es' => ret (es ++ es'))) s
      end
  end.
End exec.
