(* ===== verification/FiberTheorems.v ===== *)
(** * FiberTheorems: the life cycle of fibers and the coroutine law

    The invariant of a thread that runs fibers, its preservation by every call,
    and what a [resume] executes.  [others] are the fibers that other threads are
    running, so that the lemmas apply to a thread of the scheduler. *)

From stdpp Require Import base list numbers gmap sets.
From S2P Require Import Prelude Words Fiber.

Local Open Scope Z_scope.

(** ** Invariant *)

(** What the fields of a sub-fiber say in each state. *)
Definition fiber_ok (f : ptr) (running : bool) (x : Fiber) : Prop :=
  m_stack x = true /\
  match m_state x with
  | INIT => m_ucp x = AtMainFunc /\ is_Some (m_cb x) /\ m_self x = false
  | RUNNING => running = true /\ m_self x = true
  | READY => (exists rest, m_ucp x = InBody f rest) /\ m_self x = true
  | TERM => m_ucp x = AfterLastYield /\ m_cb x = None /\ m_self x = false
  end.

Record heap_ok (others : gset ptr) (cur : option ptr) (m : ptr) (h : Heap) : Prop := mkHeapOk {
  heap_main : m ∉ others /\ exists x, fibers h !! m = Some x /\ m_stack x = false /\
                m_state x = RUNNING /\ m_ucp x = InMain;
  heap_subs : forall f x, fibers h !! f = Some x -> f ∉ others -> f <> m ->
                fiber_ok f (bool_decide (cur = Some f)) x;
  heap_others : forall f, f ∈ others -> exists x, fibers h !! f = Some x /\ m_state x = RUNNING;
  heap_next : forall f x, fibers h !! f = Some x -> (f < next_ptr h)%nat;
  heap_count : s_fiber_count h = wrap 64 (Z.of_nat (base.size (fibers h)))
}.

(** A thread between two steps: in its main fiber, or in the body of [c]. *)
Definition thread_ok (others : gset ptr) (s : Thread) : Prop :=
  exists m, t_threadFiber s = Some m /\
  match control s with
  | InMain => t_fiber s = Some m /\ heap_ok others None m (heap s)
  | InBody c _ => t_fiber s = Some c /\ c <> m /\ c ∉ others /\ heap_ok others (Some c) m (heap s) /\
      exists x, fibers (heap s) !! c = Some x /\ m_state x = RUNNING
  | _ => False
  end.

(** Replace the object at [f]. *)
Definition put (f : ptr) (x : Fiber) (h : Heap) : Heap := set_fibers (<[f := x]> (fibers h)) h.

Lemma fiber_update_Ok f g s x :
  fibers (heap s) !! f = Some x -> update f g s = (Ok tt, set_heap (put f (g x) (heap s)) s).
Proof. intros Hf. unfold update. by rewrite Hf. Qed.

Lemma fiber_deref_Ok f s x : fibers (heap s) !! f = Some x -> deref f s = (Ok x, s).
Proof. intros Hf. unfold deref. by rewrite Hf. Qed.

Lemma lookup_put f x h g : fibers (put f x h) !! g = if decide (f = g) then Some x else fibers h !! g.
Proof.
  unfold put; simpl. case_decide; [subst; apply lookup_insert_eq|by apply lookup_insert_ne].
Qed.

Lemma put_put f x y h : put f y (put f x h) = put f y h.
Proof. unfold put, set_fibers; simpl. by rewrite insert_insert_eq. Qed.

(** Replacing a sub-fiber of this thread keeps the heap well-formed. *)
Lemma heap_ok_put others cur cur' m h f x :
  heap_ok others cur m h -> is_Some (fibers h !! f) -> f ∉ others -> f <> m ->
  fiber_ok f (bool_decide (cur' = Some f)) x ->
  (forall g, g <> f -> bool_decide (cur = Some g) = true -> bool_decide (cur' = Some g) = true) ->
  heap_ok others cur' m (put f x h).
Proof.
  intros [Hm Hs Ho Hn Hc] Hf Hnf Hfm Hx Hcur. split.
  - destruct Hm as [? (y & Hy & ?)]. split; [done|]. exists y. rewrite lookup_put.
    by destruct (decide (f = m)).
  - intros g y Hg Hg' Hgm. rewrite lookup_put in Hg. destruct (decide (f = g)) as [->|Hne]; simplify_eq; [done|].
    destruct (Hs g y Hg Hg' Hgm) as [Hst Hy]. split; [done|].
    destruct (m_state y); [auto|destruct Hy; auto|auto..].
  - intros g Hg. destruct (Ho g Hg) as (y & Hy & ?). exists y. rewrite lookup_put.
    destruct (decide (f = g)); [set_solver|done].
  - intros g y. rewrite lookup_put. destruct (decide (f = g)) as [->|]; [|apply Hn].
    intros _. destruct Hf as [z Hz]. by apply (Hn g z).
  - unfold put; simpl. rewrite Hc. f_equal. f_equal. symmetry. by apply map_size_insert_Some.
Qed.

Lemma wrap_add_idemp w a b : wrap w (wrap w a + b) = wrap w (a + b).
Proof. unfold wrap. apply Zplus_mod_idemp_l. Qed.

(** A fresh sub-fiber. *)
Lemma heap_ok_alloc others cur m h x :
  heap_ok others cur m h -> fiber_ok (next_ptr h) false x ->
  heap_ok others cur m
    (mkHeap (wrap 64 (s_fiber_id h + 1)) (wrap 64 (s_fiber_count h + 1))
       (<[next_ptr h := x]> (fibers h)) (S (next_ptr h))).
Proof.
  intros [[Hmo (y & Hy & Hm)] Hs Ho Hn Hc] Hx.
  assert (fibers h !! next_ptr h = None) as Hfresh.
  { destruct (fibers h !! next_ptr h) eqn:E; [|done]. apply Hn in E. lia. }
  split; simpl.
  - split; [done|]. exists y. rewrite lookup_insert_ne by congruence. done.
  - intros f z. destruct (decide (next_ptr h = f)) as [<-|].
    + rewrite lookup_insert_eq. intros [= <-] _ _. destruct Hx as [? Hx]. split; [done|].
      destruct (m_state x); [done|by destruct Hx|done..].
    + rewrite lookup_insert_ne by done. apply Hs.
  - intros f Hf. destruct (Ho f Hf) as (z & Hz & ?). exists z.
    rewrite lookup_insert_ne by congruence. done.
  - intros f z. destruct (decide (next_ptr h = f)) as [<-|]; [lia|].
    rewrite lookup_insert_ne by done. intros ?%Hn. lia.
  - rewrite Hc, wrap_add_idemp, map_size_insert_None by done. f_equal. lia.
Qed.

(** Destroying a fiber that is not running. *)
Lemma heap_ok_delete others cur m h f x :
  heap_ok others cur m h -> fibers h !! f = Some x -> m_stack x = true -> m_state x <> RUNNING ->
  heap_ok others cur m
    (mkHeap (s_fiber_id h) (wrap 64 (s_fiber_count h - 1)) (delete f (fibers h)) (next_ptr h)).
Proof.
  intros [[Hmo (y & Hy & Hm)] Hs Ho Hn Hc] Hf Hst Hrun.
  assert (f <> m) by (intros ->; rewrite Hf in Hy; simplify_eq; by destruct Hm; congruence).
  split; simpl.
  - split; [done|]. exists y. by rewrite lookup_delete_ne.
  - intros g z. rewrite lookup_delete_Some. intros [_ Hg]. by apply Hs.
  - intros g Hg. destruct (Ho g Hg) as (z & Hz & ?). exists z.
    rewrite lookup_delete_ne by congruence. done.
  - intros g z. rewrite lookup_delete_Some. intros [_ Hg]. by apply Hn in Hg.
  - rewrite Hc. unfold Z.sub. rewrite wrap_add_idemp. f_equal.
    rewrite map_size_delete, Hf.
    assert (base.size (fibers h) <> 0%nat) by (intros E%map_size_empty_inv; by rewrite E in Hf).
    lia.
Qed.

(** ** The switching calls *)

(** [yield] of the running fiber [c]. *)
Lemma yield_switches s c m x y :
  t_fiber s = Some c -> t_threadFiber s = Some m -> c <> m ->
  fibers (heap s) !! c = Some x -> m_state x = RUNNING \/ m_state x = TERM ->
  fibers (heap s) !! m = Some y -> m_ucp y = InMain ->
  yield c s =
    (Ok tt, mkThread (put c (set_m_ucp (control s)
                              (set_m_state (if decide (m_state x = RUNNING) then READY else TERM) x))
                       (heap s)) (Some m) (Some m) InMain).
Proof.
  intros Ht Hm Hcm Hx Hst Hy Hu. unfold yield. rewrite !bind_get, Ht, Hm.
  rewrite bool_decide_false by congruence.
  rewrite (bind_Ok _ _ _ _ _ (fiber_deref_Ok _ _ _ Hx)).
  rewrite (bind_Ok _ _ s tt s) by (by apply CCZOE_ASSERT_true, bool_decide_true).
  set (x1 := set_m_state (if decide (m_state x = RUNNING) then READY else TERM) x).
  assert (exists s1, (if bool_decide (m_state x = RUNNING) then update c (set_m_state READY) else ret tt) s
     = (Ok tt, s1) /\ fibers (heap s1) !! c = Some x1 /\ fibers (heap s1) !! m = Some y /\
     control s1 = control s /\ t_threadFiber s1 = Some m /\
     forall z, put c z (heap s1) = put c z (heap s)) as (s1 & He & H1 & H2 & H3 & H4 & H5).
  { destruct (decide (m_state x = RUNNING)) as [Hr|Hr].
    - rewrite bool_decide_true by done. rewrite (fiber_update_Ok _ _ _ _ Hx). eexists. split; [reflexivity|].
      simpl. rewrite lookup_insert_eq, lookup_insert_ne by done. repeat split; auto.
      intros z. apply put_put.
    - rewrite bool_decide_false by done. exists s. destruct Hst as [|Hst]; [done|].
      repeat split; auto. unfold x1. rewrite <- Hst. by destruct x. }
  rewrite (bind_Ok _ _ _ _ _ He). unfold setThis. rewrite bind_modify.
  unfold main_ptr. rewrite bind_assoc, bind_get. cbn [t_threadFiber set_t_fiber]. rewrite H4, bind_ret_l.
  unfold swapcontext. rewrite bind_get. cbn [control set_t_fiber]. rewrite H3.
  set (s2 := set_t_fiber _ s1).
  rewrite (bind_Ok _ _ _ _ _ (fiber_update_Ok c _ s2 x1 H1)).
  set (s3 := set_heap _ s2).
  assert (fibers (heap s3) !! m = Some y) as Hy3.
  { unfold s3, s2; simpl. by rewrite lookup_insert_ne. }
  rewrite (bind_Ok _ _ _ _ _ (fiber_deref_Ok _ _ _ Hy3)), Hu.
  unfold modify, s3, s2, set_control, set_heap, set_t_fiber; simpl. rewrite H4. f_equal. f_equal.
  apply H5.
Qed.

(** The object of a fiber that is entered or resumed. *)
Definition entered (x : Fiber) : Fiber :=
  match m_ucp x with
  | AtMainFunc => set_m_self true (set_m_state RUNNING x)
  | _ => set_m_state RUNNING x
  end.

(** [resume] from the main fiber. *)
Lemma resume_switches s f m x y :
  t_fiber s = Some m -> t_threadFiber s = Some m -> control s = InMain -> f <> m ->
  fibers (heap s) !! f = Some x -> m_state x = INIT \/ m_state x = READY ->
  fibers (heap s) !! m = Some y -> m_ucp y = InMain ->
  resume f s =
    (match m_ucp x with
     | AtMainFunc => match m_cb x with Some _ => Ok tt | None => Abort end
     | _ => Ok tt
     end,
     mkThread (put f (entered x) (heap s)) (Some f) (Some m)
       (match m_ucp x with
        | AtMainFunc => match m_cb x with Some cb => InBody f cb | None => InMain end
        | c => c
        end)).
Proof.
  intros Ht Hm Hctl Hfm Hx Hst Hy Hu. unfold resume. rewrite !bind_get, Ht, Hm.
  rewrite bool_decide_true by done.
  rewrite (bind_Ok _ _ _ _ _ (fiber_deref_Ok _ _ _ Hx)).
  rewrite (bind_Ok _ _ s tt s)
    by (apply CCZOE_ASSERT_true, bool_decide_true; destruct Hst; split; congruence).
  unfold setThis. rewrite bind_modify. set (s1 := set_t_fiber _ s).
  rewrite (bind_Ok _ _ _ _ _ (fiber_update_Ok f _ s1 x Hx)). set (s2 := set_heap _ s1).
  unfold main_ptr. rewrite bind_assoc, bind_get.
  replace (t_threadFiber s2) with (Some m) by done. rewrite bind_ret_l.
  unfold swapcontext. rewrite bind_get.
  assert (fibers (heap s2) !! m = Some y) as Hy2 by (unfold s2; simpl; by rewrite lookup_insert_ne).
  rewrite (bind_Ok _ _ _ _ _ (fiber_update_Ok m _ s2 y Hy2)).
  replace (set_m_ucp (control s2) y) with y
    by (unfold s2, s1, set_m_ucp; simpl; rewrite Hctl, <- Hu; by destruct y).
  assert (put m y (heap s2) = heap s2) as ->.
  { unfold put, set_fibers. rewrite insert_id by done. by destruct (heap s2). }
  replace (set_heap (heap s2) s2) with s2 by (by destruct s2).
  assert (fibers (heap s2) !! f = Some (set_m_state RUNNING x)) as Hx2
    by (unfold s2; simpl; by rewrite lookup_insert_eq).
  rewrite (bind_Ok _ _ _ _ _ (fiber_deref_Ok _ _ _ Hx2)). cbn [m_ucp set_m_state].
  replace s2 with (mkThread (put f (set_m_state RUNNING x) (heap s)) (Some f) (Some m) InMain)
    by (unfold s2, s1, set_heap, set_t_fiber; simpl; by rewrite Hctl, Hm).
  unfold entered. destruct (m_ucp x) eqn:Hux; try done.
  unfold mainFunc_enter, GetThis. rewrite bind_assoc, bind_get. cbn [t_fiber]. rewrite bind_ret_l.
  assert (fibers (put f (set_m_state RUNNING x) (heap s)) !! f = Some (set_m_state RUNNING x)) as Hx3
    by (rewrite lookup_put; by rewrite decide_True).
  rewrite (bind_Ok _ _ _ _ _ (fiber_update_Ok f _ (mkThread _ _ _ _) _ Hx3)).
  unfold set_heap at 1. cbn [heap t_fiber t_threadFiber control]. rewrite put_put.
  rewrite (bind_Ok _ _ _ _ _ (fiber_deref_Ok f (mkThread _ _ _ _) (set_m_self true (set_m_state RUNNING x))
    ltac:(cbn [heap]; rewrite lookup_put; by rewrite decide_True))).
  cbn [m_cb set_m_state set_m_self]. by destruct (m_cb x).
Qed.

(** ** Pending code *)

(** A reference from outside its own stack refers to [f]. *)
Definition referred (h : Heap) (f : ptr) : Prop := exists x, fibers h !! f = Some x /\ m_held x = true.

(** The calls a suspended or fresh fiber has left. *)
Definition left_code (h : Heap) (f : ptr) : option (list cmd) :=
  match fibers h !! f with
  | Some x =>
      if m_stack x then
        match m_state x, m_ucp x with
        | INIT, AtMainFunc => m_cb x
        | READY, InBody _ rest => Some rest
        | _, _ => None
        end
      else None
  | None => None
  end.

(** What a suspended or fresh fiber that something refers to will execute when it is
    resumed. *)
Definition pending (h : Heap) (f : ptr) : option (list cmd) :=
  match fibers h !! f with
  | Some x => if m_held x then left_code h f else None
  | None => None
  end.

Lemma pending_held h f cs : pending h f = Some cs -> left_code h f = Some cs /\ referred h f.
Proof.
  unfold pending. destruct (fibers h !! f) as [x|] eqn:Hx; [|done].
  destruct (m_held x) eqn:Hh; [|done]. intros ->. split; [done|]. by exists x.
Qed.

Lemma left_held h f cs : left_code h f = Some cs -> referred h f -> pending h f = Some cs.
Proof. intros Hl (x & Hx & Hh). unfold pending. by rewrite Hx, Hh. Qed.

Lemma held_same h h' f : fibers h' !! f = fibers h !! f -> referred h f -> referred h' f.
Proof. intros E (x & Hx & ?). exists x. by rewrite E. Qed.

Lemma thread_ok_main others s m :
  thread_ok others s -> t_threadFiber s = Some m ->
  exists y, fibers (heap s) !! m = Some y /\ m_ucp y = InMain /\ m_stack y = false /\ m_state y = RUNNING.
Proof.
  intros (m' & Hm' & H) Hm. assert (m' = m) as -> by congruence.
  assert (exists cur, heap_ok others cur m (heap s)) as (cur & [[_ (y & ? & ? & ? & ?)] _ _ _ _])
    by (destruct (control s); try done; [destruct H as (? & ? & ? & ? & ?) | destruct H]; eauto).
  by exists y.
Qed.

Lemma resume_enters others s f cs :
  thread_ok others s -> control s = InMain -> f ∉ others -> left_code (heap s) f = Some cs ->
  exists s', resume f s = (Ok tt, s') /\ thread_ok others s' /\ control s' = InBody f cs /\
    (referred (heap s) f -> referred (heap s') f) /\
    (forall g, g <> f -> fibers (heap s') !! g = fibers (heap s) !! g).
Proof.
  intros Hok Hc Hf Hp. destruct Hok as (m & Hm & H). rewrite Hc in H. destruct H as [Ht Hh].
  destruct (heap_main _ _ _ _ Hh) as [Hmo (y & Hy & Hys & Hyr & Hyu)].
  unfold left_code in Hp. destruct (fibers (heap s) !! f) as [x|] eqn:Hx; [|done].
  destruct (m_stack x) eqn:Hst; [|done].
  assert (f <> m) as Hfm by (intros ->; congruence).
  destruct (heap_subs _ _ _ _ Hh f x Hx Hf Hfm) as [_ Hfx].
  assert (m_state x = INIT \/ m_state x = READY) as Hir by (destruct (m_state x); auto; done).
  rewrite (resume_switches s f m x y) by done.
  set (s' := mkThread _ _ _ _).
  assert (control s' = InBody f cs /\ m_self (entered x) = true) as [Hc' Hself].
  { unfold s', entered; simpl. destruct Hir as [Hi|Hr]; [rewrite Hi in *|rewrite Hr in *].
    - destruct Hfx as (Hu & [cb Hcb] & _). rewrite Hu, Hcb in *. by simplify_eq.
    - destruct Hfx as [[rest Hu] Hself]. rewrite Hu in *. by simplify_eq. }
  assert (m_stack (entered x) = true /\ m_state (entered x) = RUNNING /\ m_held (entered x) = m_held x) as (Hs' & Hr' & Hh')
    by (unfold entered; by destruct (m_ucp x)).
  exists s'. split; [|split; [|split; [done|split]]].
  - f_equal. destruct Hir as [Hi|Hr]; [rewrite Hi in *|rewrite Hr in *].
    + destruct Hfx as (Hu & [cb Hcb] & _). by rewrite Hu, Hcb.
    + destruct Hfx as [[rest Hu] _]. by rewrite Hu.
  - exists m. split; [done|]. rewrite Hc'. unfold s'; simpl. do 3 (split; [done|]). split.
    + eapply heap_ok_put; eauto; [split; [done|]; rewrite Hr', bool_decide_true by done; done|].
      intros g _ Hb. by apply bool_decide_eq_true in Hb.
    + exists (entered x). by rewrite lookup_insert_eq.
  - intros (x' & Hx' & Hhx). exists (entered x). unfold s'; cbn [heap].
    rewrite lookup_put, decide_True, Hh' by done. by simplify_eq.
  - intros g Hg. unfold s'; cbn [heap]. rewrite lookup_put. by rewrite decide_False by congruence.
Qed.

(** The running fiber gives the thread back to its main fiber. *)
Lemma yield_returns others s c rest :
  thread_ok others s -> control s = InBody c rest ->
  exists s', yield c s = (Ok tt, s') /\ thread_ok others s' /\ control s' = InMain /\
    t_threadFiber s' = t_threadFiber s /\ left_code (heap s') c = Some rest /\
    (referred (heap s) c -> referred (heap s') c) /\
    (forall g, g <> c -> fibers (heap s') !! g = fibers (heap s) !! g).
Proof.
  intros Hok Hc. destruct (Hok) as (m & Hm & H). rewrite Hc in H.
  destruct H as (Ht & Hcm & Hco & Hh & x & Hx & Hr).
  destruct (thread_ok_main _ _ _ Hok Hm) as (y & Hy & Hyu & _).
  rewrite (yield_switches s c m x y) by auto. rewrite decide_True by done. eexists. split; [done|].
  destruct (heap_subs _ _ _ _ Hh c x Hx Hco Hcm) as [Hst Hcx]. rewrite Hr in Hcx.
  split; [|split; [done|split; [done|split; [|split]]]].
  - exists m. split; [done|]. cbn [control heap t_fiber]. split; [done|].
    eapply heap_ok_put; eauto.
    + split; [done|]. simpl. rewrite Hc. split; [by exists rest|apply Hcx].
    + intros g Hg Hb. apply bool_decide_eq_true in Hb. congruence.
  - unfold left_code; cbn [heap]. rewrite lookup_put, decide_True by done. simpl. by rewrite Hst, Hc.
  - intros (x' & Hx' & Hhx). eexists. cbn [heap]. rewrite lookup_put, decide_True by done.
    split; [done|]. simpl. congruence.
  - intros g Hg. cbn [heap]. rewrite lookup_put. by rewrite decide_False by congruence.
Qed.

(** A fiber that another thread was running has yielded: to this thread it is suspended. *)
Lemma heap_ok_yielded others cur m h c x :
  heap_ok ({[c]} ∪ others) cur m h -> c ∉ others -> fiber_ok c false x -> heap_ok others cur m (put c x h).
Proof.
  intros [[Hm (y & Hy & Hmy)] Hs Ho Hn Hc] Hco [Hst Hx].
  destruct (Ho c ltac:(set_solver)) as (z & Hz & _). assert (c <> m) as Hcm by set_solver.
  split.
  - split; [set_solver|]. exists y. rewrite lookup_put. by rewrite decide_False.
  - intros f w. rewrite lookup_put. case_decide as Hf.
    + subst. intros [= <-] _ _. split; [done|]. destruct (m_state x); [done|by destruct Hx|done..].
    + intros Hw Hfo Hfm. apply Hs; [done| |done]. set_solver.
  - intros f Hf. destruct (Ho f ltac:(set_solver)) as (w & Hw & ?). exists w. rewrite lookup_put.
    rewrite decide_False; [done|]. by intros ->.
  - intros f w. rewrite lookup_put. case_decide as Hf; [subst; intros _; by eapply Hn|apply Hn].
  - unfold put; simpl. rewrite Hc. do 2 f_equal. symmetry. by apply map_size_insert_Some.
Qed.

(** What a [yield] writes. *)
Lemma yield_writes others s c rest :
  thread_ok others s -> control s = InBody c rest ->
  exists x m, YieldToReady s = (Ok tt, mkThread (put c x (heap s)) (Some m) (Some m) InMain) /\ fiber_ok c false x.
Proof.
  intros Hok Hc. destruct (Hok) as (m & Hm & H). rewrite Hc in H.
  destruct H as (Ht & Hcm & Hco & Hh & x & Hx & Hr).
  destruct (thread_ok_main _ _ _ Hok Hm) as (y & Hy & Hyu & _).
  destruct (heap_subs _ _ _ _ Hh c x Hx Hco Hcm) as [Hst Hcx]. rewrite Hr in Hcx.
  eexists _, m. split.
  - unfold YieldToReady, GetThis. rewrite bind_assoc, bind_get, Ht, bind_ret_l.
    apply (yield_switches s c m x y); auto.
  - rewrite decide_True by done. split; [done|]. simpl. rewrite Hc. split; [by exists rest|apply Hcx].
Qed.

(** [YieldToReady] is [yield] of the running fiber. *)
Lemma yield_to_ready others s c rest :
  thread_ok others s -> control s = InBody c rest ->
  exists s', YieldToReady s = (Ok tt, s') /\ thread_ok others s' /\ control s' = InMain /\
    t_threadFiber s' = t_threadFiber s /\ left_code (heap s') c = Some rest /\
    (referred (heap s) c -> referred (heap s') c) /\
    (forall g, g <> c -> fibers (heap s') !! g = fibers (heap s) !! g).
Proof.
  intros Hok Hc. destruct (yield_returns others s c rest Hok Hc) as (s' & He & H).
  exists s'. split; [|done]. destruct Hok as (m & Hm & Hx). rewrite Hc in Hx. destruct Hx as (Ht & _).
  unfold YieldToReady, GetThis. rewrite bind_assoc, bind_get, Ht. exact He.
Qed.

(** The state in which [curr] is gone. *)
Lemma end_state s c x : fibers (heap s) !! c = Some x ->
  mainFunc_end c s =
    (Ok (negb (m_held x)), set_heap (put c (set_m_self false (set_m_state TERM (set_m_cb None x))) (heap s)) s).
Proof.
  intros Hx. unfold mainFunc_end, drop_self.
  rewrite (bind_Ok _ _ _ _ _ (fiber_update_Ok _ _ s _ Hx)). set (s1 := set_heap _ s).
  assert (fibers (heap s1) !! c = Some (set_m_cb None x)) as Hx1 by (simpl; by rewrite lookup_insert_eq).
  rewrite (bind_Ok _ _ _ _ _ (fiber_update_Ok _ _ s1 _ Hx1)). set (s2 := set_heap _ s1).
  assert (fibers (heap s2) !! c = Some (set_m_state TERM (set_m_cb None x))) as Hx2
    by (simpl; by rewrite lookup_insert_eq).
  rewrite (bind_Ok _ _ _ _ _ (fiber_deref_Ok _ s2 _ Hx2)), (bind_Ok _ _ _ _ _ (fiber_update_Ok _ _ s2 _ Hx2)).
  unfold ret, s2, s1. cbn [heap set_heap m_held set_m_state set_m_cb]. by rewrite !put_put.
Qed.

(** The end of a body whose fiber is referred to: it terminates and never comes back. *)
Lemma leave_terminates others s c :
  thread_ok others s -> control s = InBody c [] -> referred (heap s) c ->
  exists s' x, mainFunc_leave c s = (Ok tt, s') /\ thread_ok others s' /\ control s' = InMain /\
    t_threadFiber s' = t_threadFiber s /\ fibers (heap s') !! c = Some x /\ m_state x = TERM /\
    (forall g, g <> c -> fibers (heap s') !! g = fibers (heap s) !! g).
Proof.
  intros Hok Hc (x' & Hx' & Hhx). destruct (Hok) as (m & Hm & H). rewrite Hc in H.
  destruct H as (Ht & Hcm & Hco & Hh & x & Hx & Hr). assert (x' = x) as -> by congruence.
  destruct (thread_ok_main _ _ _ Hok Hm) as (y & Hy & Hyu & _).
  destruct (heap_subs _ _ _ _ Hh c x Hx Hco Hcm) as [Hst _].
  unfold mainFunc_leave, mainFunc_yield. rewrite (bind_Ok _ _ _ _ _ (end_state s c x Hx)), Hhx. cbn [negb].
  rewrite bind_ret_l, bind_modify. set (s2 := set_control _ _).
  set (x2 := set_m_self false (set_m_state TERM (set_m_cb None x))).
  assert (heap s2 = put c x2 (heap s)) as Hh2 by done.
  assert (fibers (heap s2) !! c = Some x2) as Hx2 by (rewrite Hh2, lookup_put; by rewrite decide_True).
  rewrite (yield_switches s2 c m x2 y); auto.
  2: { rewrite Hh2, lookup_put. by rewrite decide_False. }
  rewrite decide_False by done. rewrite Hh2, put_put.
  eexists _, _. split; [reflexivity|]. split; [|split; [done|split; [done|split; [|split]]]].
  - exists m. split; [done|]. cbn [control heap t_fiber]. split; [done|].
    eapply heap_ok_put; eauto; [by split|].
    intros g Hg Hb. apply bool_decide_eq_true in Hb. congruence.
  - cbn [heap]. rewrite lookup_put. by rewrite decide_True.
  - done.
  - intros g Hg. cbn [heap]. rewrite lookup_put. by rewrite decide_False by congruence.
Qed.

(** The destructor of a fiber that is not running. *)
Lemma dtor_spec t f x : fibers (heap t) !! f = Some x -> m_stack x = true ->
  Fiber_dtor f t =
    if bool_decide (m_state x = INIT \/ m_state x = TERM)
    then (Ok tt, set_heap (mkHeap (s_fiber_id (heap t)) (wrap 64 (s_fiber_count (heap t) - 1))
                             (delete f (fibers (heap t))) (next_ptr (heap t))) t)
    else (Abort, set_heap (mkHeap (s_fiber_id (heap t)) (wrap 64 (s_fiber_count (heap t) - 1))
                             (fibers (heap t)) (next_ptr (heap t))) t).
Proof.
  intros Hx Hst. unfold Fiber_dtor. rewrite bind_modify. set (t1 := set_heap _ t).
  rewrite (bind_Ok _ _ _ _ _ (fiber_deref_Ok f t1 x Hx)), bind_get, Hst, bind_CCZOE_ASSERT.
  by case_bool_decide.
Qed.

(** The end of a body whose fiber nothing refers to: [curr.reset()] destroys it, and
    [rawCurr->yield()] uses it. *)
Lemma leave_destroys others s c x :
  thread_ok others s -> control s = InBody c [] -> fibers (heap s) !! c = Some x -> m_held x = false ->
  fst (mainFunc_leave c s) = UB.
Proof.
  intros Hok Hc Hx Hhx. destruct Hok as (m & Hm & H). rewrite Hc in H.
  destruct H as (Ht & Hcm & Hco & Hh & _).
  destruct (heap_subs _ _ _ _ Hh c x Hx Hco Hcm) as [Hst _].
  unfold mainFunc_leave. rewrite (bind_Ok _ _ _ _ _ (end_state s c x Hx)), Hhx. cbn [negb].
  set (x1 := set_m_self false (set_m_state TERM (set_m_cb None x))). set (t1 := set_heap _ s).
  assert (fibers (heap t1) !! c = Some x1) as Hx1 by (simpl; by rewrite lookup_insert_eq).
  pose proof (dtor_spec t1 c x1 Hx1 Hst) as Hd. rewrite bool_decide_true in Hd by (by right).
  rewrite (bind_Ok _ _ _ _ _ Hd).
  unfold mainFunc_yield. rewrite bind_modify. unfold yield. rewrite !bind_get. unfold t1. cbn [t_fiber t_threadFiber set_control set_heap].
  rewrite Ht, Hm, bool_decide_false by congruence. unfold bind, deref. simpl. by rewrite lookup_delete_eq.
Qed.

(** ** One step *)

(** The object a command dereferences. *)
Definition names (c : cmd) : option ptr :=
  match c with Reset f _ | Release f => Some f | _ => None end.

(** Calls that leave control in the running body. *)
Lemma body_ok others s c rest h :
  thread_ok others s -> control s = InBody c rest ->
  (forall m, t_threadFiber s = Some m -> heap_ok others (Some c) m (heap s) ->
     heap_ok others (Some c) m h /\ exists x, fibers h !! c = Some x /\ m_state x = RUNNING) ->
  thread_ok others (set_heap h s).
Proof.
  intros (m & Hm & H) Hc Hh. exists m. split; [done|]. cbn [control set_heap t_fiber heap].
  rewrite Hc in *. destruct H as (Ht & Hcm & Hco & Hok & _). destruct (Hh m Hm Hok). done.
Qed.

Lemma set_body_ok others s c k rest :
  thread_ok others s -> control s = InBody c (k :: rest) ->
  thread_ok others (set_control (InBody c rest) s).
Proof.
  intros (m & Hm & H) Hc. rewrite Hc in H. by exists m.
Qed.

(** A fiber of this thread that is fresh or has terminated does not refer to itself. *)
Lemma idle_self others cur m h f x :
  heap_ok others cur m h -> fibers h !! f = Some x -> m_stack x = true -> m_state x = INIT \/ m_state x = TERM ->
  m_self x = false.
Proof.
  intros Hh Hx Hst Hit. destruct (heap_main _ _ _ _ Hh) as [_ (z & Hz & Hzs & _)].
  assert (f ∉ others) as Hf.
  { intros Hf. destruct (heap_others _ _ _ _ Hh f Hf) as (w & Hw & ?). destruct Hit; congruence. }
  destruct (heap_subs _ _ _ _ Hh f x Hx Hf ltac:(congruence)) as [_ Hok].
  destruct Hit as [E|E]; rewrite E in Hok; apply Hok.
Qed.

(** A fiber that is fresh or has terminated. *)
Definition idle (h : Heap) (f : ptr) : Prop :=
  exists x, fibers h !! f = Some x /\ (m_state x = INIT \/ m_state x = TERM).

Lemma reset_ok others s c rest f cb :
  thread_ok others s -> control s = InBody c rest ->
  match reset f cb s with
  | (Ok _, s') => thread_ok others s' /\ control s' = InBody c rest /\ idle (heap s) f /\
      (forall g, g <> f -> fibers (heap s') !! g = fibers (heap s) !! g)
  | (o, _) => o = Abort \/ o = UB /\ fibers (heap s) !! f = None
  end.
Proof.
  intros Hok Hc. unfold reset. destruct (fibers (heap s) !! f) as [x|] eqn:Hx.
  2: { unfold bind, deref. rewrite Hx. by right. }
  rewrite (bind_Ok _ _ _ _ _ (fiber_deref_Ok _ _ _ Hx)).
  rewrite bind_CCZOE_ASSERT. case_bool_decide as Hst; [|by left].
  rewrite bind_CCZOE_ASSERT. destruct (m_stack x) eqn:Hsk; [|by left].
  rewrite (bind_Ok _ _ _ _ _ (fiber_update_Ok _ _ s _ Hx)). set (s1 := set_heap _ s).
  assert (fibers (heap s1) !! f = Some (set_m_cb (Some cb) x)) as Hx1 by (simpl; by rewrite lookup_insert_eq).
  rewrite (bind_Ok _ _ _ _ _ (fiber_update_Ok _ _ s1 _ Hx1)). set (s2 := set_heap _ s1).
  assert (fibers (heap s2) !! f = Some (set_m_state INIT (set_m_cb (Some cb) x))) as Hx2
    by (simpl; by rewrite lookup_insert_eq).
  rewrite (fiber_update_Ok _ _ s2 _ Hx2). unfold s2, s1. cbn [heap set_heap]. rewrite !put_put.
  split; [|split; [done|split; [by exists x|]]].
  2: { intros g Hg. cbn [heap]. rewrite lookup_put. by rewrite decide_False by congruence. }
  eapply (body_ok others s c rest); [done..|].
  intros m Hm Hh. destruct Hok as (m' & Hm' & H). assert (m' = m) as -> by congruence.
  rewrite Hc in H. destruct H as (_ & _ & Hco & _ & y & Hy & Hry).
  assert (f <> c) by (intros ->; destruct Hst; congruence).
  destruct (heap_main _ _ _ _ Hh) as [_ (z & Hz & Hzs & _)].
  split.
  - eapply heap_ok_put; eauto.
    + intros Hf. destruct (heap_others _ _ _ _ Hh f Hf) as (w & Hw & ?). destruct Hst; congruence.
    + intros ->. congruence.
    + split; [done|]. simpl. split_and!; [done|by eexists|]. by eapply idle_self.
  - exists y. rewrite lookup_put. by rewrite decide_False.
Qed.

(** Dropping the last outside reference: an idle fiber is destroyed, a suspended or
    running one stays with its own reference. *)
Lemma release_spec others cur m t f x :
  heap_ok others cur m (heap t) -> fibers (heap t) !! f = Some x -> m_stack x = true -> m_held x = true -> f ∉ others ->
  exists h', release f t = (Ok tt, set_heap h' t) /\ heap_ok others cur m h' /\
    (forall g, g <> f -> fibers h' !! g = fibers (heap t) !! g) /\
    fibers h' !! f = if decide (m_state x = INIT \/ m_state x = TERM) then None else Some (set_m_held false x).
Proof.
  intros Hh Hx Hst Hhx Hf. destruct (heap_main _ _ _ _ Hh) as [_ (z & Hz & Hzs & _)].
  assert (f <> m) as Hfm by congruence.
  destruct (heap_subs _ _ _ _ Hh f x Hx Hf Hfm) as [_ Hok].
  unfold release, drop_held. rewrite (bind_Ok _ _ _ _ _ (fiber_deref_Ok f t x Hx)), Hst.
  rewrite bind_assoc, (bind_Ok _ _ _ _ _ (fiber_deref_Ok f t x Hx)), Hhx.
  rewrite bind_assoc, (bind_Ok _ _ _ _ _ (fiber_update_Ok f _ t x Hx)), bind_ret_l.
  set (x1 := set_m_held false x). set (t1 := set_heap _ t).
  assert (heap_ok others cur m (put f x1 (heap t))) as Hh1.
  { eapply heap_ok_put; [done|by eexists|done|done| |done]. split; [done|]. exact Hok. }
  assert (fibers (heap t1) !! f = Some x1) as Hx1 by (simpl; by rewrite lookup_insert_eq).
  destruct (decide (m_state x = INIT \/ m_state x = TERM)) as [Hit|Hrr].
  - rewrite (idle_self others cur m (heap t) f x Hh Hx Hst Hit). cbn [negb].
    rewrite (dtor_spec t1 f x1 Hx1 Hst), bool_decide_true by exact Hit.
    eexists. split; [reflexivity|]. split; [|split].
    + eapply (heap_ok_delete others cur m (heap t1)); eauto. destruct Hit; simpl; congruence.
    + intros g Hg. simpl. by rewrite lookup_delete_ne, lookup_insert_ne by done.
    + apply lookup_delete_eq.
  - assert (m_self x = true) as -> by (destruct (m_state x); [by destruct Hrr; left|apply Hok|by destruct Hrr; right|apply Hok]).
    exists (put f x1 (heap t)). split; [done|]. split; [done|]. split.
    + intros g Hg. rewrite lookup_put. by rewrite decide_False by congruence.
    + rewrite lookup_put. by rewrite decide_True.
Qed.

(** No outside reference to [f] is left, or [f] is destroyed. *)
Definition unreferred (h : Heap) (f : ptr) : Prop :=
  match fibers h !! f with Some x => m_held x = false | None => True end.

Lemma release_ok s c rest f :
  thread_ok ∅ s -> control s = InBody c rest ->
  match release f s with
  | (Ok _, s') => thread_ok ∅ s' /\ control s' = InBody c rest /\
      (forall g, g <> f -> fibers (heap s') !! g = fibers (heap s) !! g)
  | (o, _) => o = UB /\ unreferred (heap s) f
  end.
Proof.
  intros Hok Hc. unfold unreferred. destruct (fibers (heap s) !! f) as [x|] eqn:Hx.
  2: { unfold release, bind, deref. by rewrite Hx. }
  destruct (m_stack x) eqn:Hst.
  2: { unfold release. by rewrite (bind_Ok _ _ _ _ _ (fiber_deref_Ok _ _ _ Hx)), Hst. }
  destruct (m_held x) eqn:Hhx.
  2: { unfold release, drop_held. rewrite (bind_Ok _ _ _ _ _ (fiber_deref_Ok _ _ _ Hx)), Hst, bind_assoc.
       by rewrite (bind_Ok _ _ _ _ _ (fiber_deref_Ok _ _ _ Hx)), Hhx. }
  pose proof Hok as (m & Hm & H). rewrite Hc in H. destruct H as (_ & _ & _ & Hh & y & Hy & Hry).
  destruct (release_spec ∅ (Some c) m s f x) as (h' & -> & Hh' & Hg & Hf); [done..|set_solver|].
  split; [|by split]. eapply (body_ok ∅ s c rest); [done..|]. intros m' Hm' _. assert (m' = m) as -> by congruence.
  split; [done|]. destruct (decide (f = c)) as [->|Hne]; [|exists y; by rewrite Hg by congruence].
  simplify_eq. rewrite decide_False in Hf by (intros []; congruence). exists (set_m_held false x). by split.
Qed.

(** Inside a sub-fiber, [resume] does nothing. *)
Lemma resume_in_body others s c rest f :
  thread_ok others s -> control s = InBody c rest -> resume f s = (Ok tt, s).
Proof.
  intros (m & Hm & H) Hc. rewrite Hc in H. destruct H as (Ht & Hcm & _).
  unfold resume. rewrite !bind_get, Hm, Ht. by rewrite bool_decide_false by congruence.
Qed.

Lemma new_ok others cfg s c rest cb :
  thread_ok others s -> control s = InBody c rest ->
  exists s', Fiber_ctor cfg cb 0 s = (Ok (next_ptr (heap s)), s') /\
    thread_ok others s' /\ control s' = InBody c rest /\ t_threadFiber s' = t_threadFiber s /\
    (forall g, is_Some (fibers (heap s) !! g) -> fibers (heap s') !! g = fibers (heap s) !! g) /\
    next_ptr (heap s) <> c /\ pending (heap s') (next_ptr (heap s)) = Some cb.
Proof.
  intros Hok Hc. eexists. split; [reflexivity|]. split; [|split; [done|split; [done|split; [|split]]]].
  - eapply (body_ok others s c rest); [done..|]. intros m Hm Hh. split.
    + apply heap_ok_alloc; [done|]. split; [done|]. simpl. by split; [|eexists].
    + destruct Hok as (m' & Hm' & H). rewrite Hc in H. destruct H as (_ & _ & _ & _ & y & Hy & Hry).
      exists y. simpl. rewrite lookup_insert_ne; [done|]. intros E. rewrite <- E in Hy.
      apply (heap_next _ _ _ _ Hh) in Hy. lia.
  - intros g [z Hz]. simpl. rewrite lookup_insert_ne; [done|]. intros <-.
    destruct Hok as (m & Hm & H). rewrite Hc in H. destruct H as (_ & _ & _ & Hh & _).
    apply (heap_next _ _ _ _ Hh) in Hz. lia.
  - intros E. destruct Hok as (m & Hm & H). rewrite Hc in H. destruct H as (_ & _ & _ & Hh & y & Hy & _).
    apply (heap_next _ _ _ _ Hh) in Hy. lia.
  - unfold pending, left_code. simpl. by rewrite !lookup_insert_eq.
Qed.

(** What a step that is undefined has done: a call on a fiber to which the program
    holds no reference, or the end of a body whose fiber nothing refers to. *)
Definition misused (h : Heap) (c : ptr) (cs : list cmd) : Prop :=
  match cs with
  | [] => unreferred h c
  | k :: _ => exists f, names k = Some f /\ unreferred h f
  end.

Lemma unreferred_held h f : unreferred h f <-> ~ referred h f.
Proof.
  unfold unreferred, referred. split.
  - intros Hu (x & Hx & Hh). rewrite Hx in Hu. congruence.
  - intros Hn. destruct (fibers h !! f) as [x|] eqn:Hx; [|done].
    destruct (m_held x) eqn:Hh; [|done]. destruct Hn. by exists x.
Qed.

(** The running fiber takes a reference to itself. *)
Lemma hold_self_ok others s c rest x :
  thread_ok others s -> control s = InBody c rest -> fibers (heap s) !! c = Some x ->
  thread_ok others (set_heap (put c (set_m_held true x) (heap s)) s).
Proof.
  intros Hok Hc Hx. eapply (body_ok others s c rest); [done..|]. intros m Hm Hh.
  destruct Hok as (m' & Hm' & H). assert (m' = m) as -> by congruence.
  rewrite Hc in H. destruct H as (_ & Hcm & Hco & _ & y & Hy & Hry). assert (y = x) as -> by congruence. split.
  - eapply heap_ok_put; [done|by eexists|done|done| |done].
    destruct (heap_subs _ _ _ _ Hh c x Hx Hco Hcm) as [Hst Hok]. by split.
  - exists (set_m_held true x). rewrite lookup_put. by rewrite decide_True.
Qed.

(** One step of a well-formed thread. *)
Lemma fiber_step_ok cfg s c cs :
  thread_ok ∅ s -> control s = InBody c cs ->
  match fiber_step cfg s with
  | (Ok _, s') => thread_ok ∅ s' /\ (cs = [] -> referred (heap s) c)
  | (Abort, _) => exists f cb rest, cs = Reset f cb :: rest
  | (o, _) => o = UB /\ misused (heap s) c cs
  end.
Proof.
  intros Hok Hc. unfold fiber_step. rewrite Hc.
  assert (exists x, fibers (heap s) !! c = Some x) as [x Hx].
  { destruct Hok as (m & _ & H). rewrite Hc in H. destruct H as (_ & _ & _ & _ & x & Hx & _). by exists x. }
  destruct cs as [|k rest].
  { destruct (m_held x) eqn:Hh.
    - assert (referred (heap s) c) as Hhc by (by exists x).
      destruct (leave_terminates ∅ s c Hok Hc Hhc) as (s' & x' & He & Hok' & _ & Hm & _).
      by rewrite (bind_Ok _ _ _ _ _ He).
    - pose proof (leave_destroys ∅ s c x Hok Hc Hx Hh) as Hu. unfold bind.
      destruct (mainFunc_leave c s) as [[] s']; try done. split; [done|]. simpl. unfold unreferred. by rewrite Hx. }
  pose proof (set_body_ok _ _ _ _ _ Hok Hc) as Hok1. set (s1 := set_control _ s) in *.
  assert (control s1 = InBody c rest) as Hc1 by done.
  destruct k as [n|cb|f|f cb|f| |f| |cb|]; cbn [exec misused names]; try done.
  - destruct (new_ok ∅ cfg s1 c rest cb Hok1 Hc1) as (s' & He & ? & _).
    by rewrite (bind_Ok _ _ _ _ _ He).
  - by rewrite (bind_Ok _ _ _ _ _ (resume_in_body ∅ s1 c rest f Hok1 Hc1)).
  - pose proof (reset_ok ∅ s1 c rest f cb Hok1 Hc1) as Hr.
    unfold bind. destruct (reset f cb s1) as [[u| | | | |] s']; try (by destruct Hr as [|[? _]]); try (by eauto).
    + split; [apply Hr|done].
    + destruct Hr as [|[_ Hr]]; [done|]. split; [done|]. exists f. split; [done|].
      change (fibers (heap s) !! f = None) in Hr. unfold unreferred. by rewrite Hr.
  - pose proof (release_ok s1 c rest f Hok1 Hc1) as Hr.
    unfold bind. destruct (release f s1) as [[] s']; try (by destruct Hr).
    destruct Hr as [_ Hr]. split; [done|]. by exists f.
  - destruct (yield_to_ready ∅ s1 c rest Hok1 Hc1) as (s' & He & Hok' & _).
    by rewrite (bind_Ok _ _ _ _ _ He).
  - rewrite (bind_Ok _ _ _ _ _ (fiber_update_Ok c _ s1 x Hx)). split; [|done].
    by apply (hold_self_ok ∅ s1 c rest x).
Qed.

(** ** Reachable threads *)

(** One call of a thread: its main fiber creates, resumes or releases a fiber, or the
    running fiber makes its next call. *)
Inductive tstep (cfg : Z) : Thread -> Thread -> Prop :=
  | main_new s cb p s' :
      control s = InMain -> Fiber_ctor cfg cb 0 s = (Ok p, s') -> tstep cfg s s'
  | main_resume s f s' :
      control s = InMain -> resume f s = (Ok tt, s') -> tstep cfg s s'
  | main_release s f s' :
      control s = InMain -> release f s = (Ok tt, s') -> tstep cfg s s'
  | body_call s es s' :
      control s <> InMain -> fiber_step cfg s = (Ok es, s') -> tstep cfg s s'.

(** A thread that has called [Fiber::GetThis]. *)
Definition thread0 : Thread := snd (GetThis (mkThread (mkHeap 0 0 ∅ 0%nat) None None InMain)).

Lemma thread0_ok : thread_ok ∅ thread0.
Proof.
  exists 0%nat. split; [done|]. split; [done|]. split.
  - split; [set_solver|]. by eexists.
  - intros f x. change (fibers (heap thread0)) with ({[(0%nat : ptr) := mkFiber 0 0 RUNNING InMain false None true false]} : gmap ptr Fiber).
    rewrite lookup_singleton_Some. by intros [<- <-].
  - set_solver.
  - intros f x. change (fibers (heap thread0)) with ({[(0%nat : ptr) := mkFiber 0 0 RUNNING InMain false None true false]} : gmap ptr Fiber).
    rewrite lookup_singleton_Some. intros [<- _]. simpl. lia.
  - reflexivity.
Qed.

(** [resume] of any existing fiber from the main fiber: it either enters the
    pending code, or fails the assertion. *)
Lemma resume_cases others s f x :
  thread_ok others s -> control s = InMain -> fibers (heap s) !! f = Some x ->
  (m_state x = INIT \/ m_state x = READY) /\ f ∉ others /\ (exists cs, left_code (heap s) f = Some cs) \/
  (m_state x = RUNNING \/ m_state x = TERM) /\ resume f s = (Abort, s).
Proof.
  intros (m & Hm & H) Hc Hx. rewrite Hc in H. destruct H as [Ht Hh].
  destruct (decide (m_state x = INIT \/ m_state x = READY)) as [Hir|Hir].
  - left. split; [done|]. assert (f ∉ others) as Hf.
    { intros Hf. destruct (heap_others _ _ _ _ Hh f Hf) as (y & Hy & ?). destruct Hir; congruence. }
    split; [done|]. destruct (heap_main _ _ _ _ Hh) as [_ (y & Hy & _ & Hr & _)].
    assert (f <> m) as Hfm by (intros ->; destruct Hir; congruence).
    destruct (heap_subs _ _ _ _ Hh f x Hx Hf Hfm) as [Hst Hok].
    unfold left_code. rewrite Hx, Hst. destruct Hir as [E|E]; rewrite E in *.
    + destruct Hok as (-> & [cb ->] & _). by exists cb.
    + destruct Hok as [[rest ->] _]. by exists rest.
  - right. assert (m_state x = RUNNING \/ m_state x = TERM) as Hrt
      by (destruct (m_state x); auto; exfalso; apply Hir; auto).
    split; [done|]. unfold resume. rewrite !bind_get, Ht, Hm, bool_decide_true by done.
    rewrite (bind_Ok _ _ _ _ _ (fiber_deref_Ok _ _ _ Hx)), bind_CCZOE_ASSERT.
    rewrite bool_decide_false; [done|]. destruct Hrt; intros []; congruence.
Qed.

(** A step of the main fiber that leaves a well-formed heap. *)
Lemma main_step_ok others s h :
  thread_ok others s -> control s = InMain ->
  (forall m, heap_ok others None m (heap s) -> heap_ok others None m h) -> thread_ok others (set_heap h s).
Proof.
  intros (m & Hm & H) Hc Hh. exists m. split; [done|]. cbn [control set_heap t_fiber heap].
  rewrite Hc in *. destruct H as [Ht Hok]. auto.
Qed.

Lemma ctor_keeps_ok others cfg cb s :
  thread_ok others s -> control s = InMain -> thread_ok others (snd (Fiber_ctor cfg cb 0 s)).
Proof.
  intros Hok Hc. unfold Fiber_ctor, alloc, snd. apply main_step_ok; [done..|].
  intros m Hh. apply heap_ok_alloc; [done|]. by split; [|split_and!; [|eexists|]].
Qed.

Lemma tstep_ok cfg s s' : thread_ok ∅ s -> tstep cfg s s' -> thread_ok ∅ s'.
Proof.
  intros Hok Hs. revert Hok. destruct Hs as [s0 cb p s1 Hc Hn|s0 f s1 Hc Hr|s0 f s1 Hc Hr|s0 es s1 Hc Hf]; intros Hok.
  - pose proof (ctor_keeps_ok ∅ cfg cb s0 Hok Hc) as H. by rewrite Hn in H.
  - destruct (fibers (heap s0) !! f) as [x|] eqn:Hx.
    + destruct (resume_cases ∅ s0 f x Hok Hc Hx) as [(_ & Hf & cs & Hp)|[_ Ha]]; [|congruence].
      destruct (resume_enters ∅ s0 f cs Hok Hc Hf Hp) as (s2 & He & ? & _). congruence.
    + destruct Hok as (m & Hm & H). rewrite Hc in H. destruct H as [Ht _]. unfold resume in Hr.
      rewrite !bind_get, Ht, Hm, bool_decide_true in Hr by done.
      unfold deref, bind in Hr. by rewrite Hx in Hr.
  - unfold release in Hr. apply bind_Ok_inv in Hr as (x & t & Hd & Hk). unfold deref in Hd.
    destruct (fibers (heap s0) !! f) as [y|] eqn:Hy; [|done]. injection Hd as -> <-.
    destruct (m_stack x) eqn:Hst; [|by injection Hk as <-].
    destruct (m_held x) eqn:Hh.
    2: { unfold drop_held in Hk. rewrite bind_assoc, (bind_Ok _ _ _ _ _ (fiber_deref_Ok _ _ _ Hy)), Hh in Hk. done. }
    pose proof (main_step_ok ∅ s0) as Hm. destruct (Hok) as (m & Hm' & H). rewrite Hc in H. destruct H as [Ht Hhe].
    destruct (release_spec ∅ None m s0 f x Hhe Hy Hst Hh ltac:(set_solver)) as (h' & He & Hh' & _).
    unfold release in He. rewrite (bind_Ok _ _ _ _ _ (fiber_deref_Ok _ _ _ Hy)), Hst in He. rewrite Hk in He.
    injection He as ->. exists m. split; [done|]. cbn [control set_heap t_fiber heap]. by rewrite Hc.
  - destruct (control s0) as [|c cs| | |] eqn:Hcs; try (by destruct Hok as (m & _ & H); rewrite Hcs in H).
    pose proof (fiber_step_ok cfg s0 c cs Hok Hcs) as H. rewrite Hf in H. apply H.
Qed.

(** Evaluated calls: enough to know that they succeed. *)
Lemma resume_keeps_ok f s :
  thread_ok ∅ s -> control s = InMain -> fst (resume f s) = Ok tt -> thread_ok ∅ (snd (resume f s)).
Proof.
  intros Hok Hc Hr. eapply (tstep_ok 0); [done|]. eapply (main_resume _ _ f); [done|].
  destruct (resume f s); simpl in *. by subst.
Qed.

Lemma drive_keeps_ok cfg n : forall s es,
  thread_ok ∅ s -> fst (drive cfg n s) = Ok es -> thread_ok ∅ (snd (drive cfg n s)).
Proof.
  induction n as [|n IH]; intros s es Hok Hd; cbn [drive] in *; [by destruct (control s)|].
  assert (Hstep : forall es s', control s <> InMain -> fiber_step cfg s = (Ok es, s') -> thread_ok ∅ s').
  { intros es' s' Hc Hs. eapply (tstep_ok cfg); [done|]. by eapply body_call. }
  destruct (control s) as [|c cs| | |] eqn:Hc; try done;
    try (by destruct Hok as (m & _ & H); rewrite Hc in H).
  unfold bind in *. destruct (fiber_step cfg s) as [[] s1] eqn:Hs; try done.
  specialize (Hstep _ s1 ltac:(done) eq_refl). specialize (IH s1).
  destruct (drive cfg n s1) as [[] s2]; try done. by eapply IH.
Qed.

(** A two-call life: create a fiber whose body yields once, resume it. *)
Definition thread2 : Thread :=
  snd (bind (Fiber_ctor 4096 [Work 1; YieldToReady_; Work 2] 0) resume thread0).

(** Releasing a fiber. *)
Lemma release_outcome s f x :
  thread_ok ∅ s -> fibers (heap s) !! f = Some x -> m_stack x = true -> m_held x = true ->
  exists s', release f s = (Ok tt, s') /\
    fibers (heap s') !! f = if decide (m_state x = INIT \/ m_state x = TERM) then None else Some (set_m_held false x).
Proof.
  intros (m & _ & H) Hx Hst Hh. assert (exists cur, heap_ok ∅ cur m (heap s)) as [cur Hok].
  { destruct (control s); try done; [destruct H as (_ & _ & _ & H & _)|destruct H as [_ H]]; by eexists. }
  destruct (release_spec ∅ cur m s f x Hok Hx Hst Hh ltac:(set_solver)) as (h' & -> & _ & _ & Hf). by eexists.
Qed.

(** A suspended fiber that nothing outside its stack refers to. *)
Definition leaked (h : Heap) (f : ptr) : Prop :=
  exists x, fibers h !! f = Some x /\ m_stack x = true /\ m_state x = READY /\ m_held x = false.

Lemma leaked_same h h' f : fibers h' !! f = fibers h !! f -> leaked h f -> leaked h' f.
Proof. intros E (x & Hx & ?). exists x. by rewrite E. Qed.

(** It stays where it is. *)
Lemma body_keeps_leaked cfg s c cs es s' f :
  thread_ok ∅ s -> control s = InBody c cs -> leaked (heap s) f -> fiber_step cfg s = (Ok es, s') -> leaked (heap s') f.
Proof.
  intros Hok Hc (x & Hx & Hst & Hr & Hh) Hs. unfold fiber_step in Hs. rewrite Hc in Hs.
  assert (leaked (heap s) f) as Hl by (by exists x).
  assert (f <> c) as Hfc.
  { destruct Hok as (m & _ & H). rewrite Hc in H. destruct H as (_ & _ & _ & _ & y & Hy & ?). congruence. }
  destruct cs as [|k rest].
  { destruct (fibers (heap s) !! c) as [y|] eqn:Hy.
    2: { destruct Hok as (m & _ & H). rewrite Hc in H. destruct H as (_ & _ & _ & _ & ? & ? & _). congruence. }
    destruct (m_held y) eqn:Hhy.
    - destruct (leave_terminates ∅ s c Hok Hc) as (s1 & z & He & _ & _ & _ & _ & _ & Hg); [by exists y|].
      rewrite (bind_Ok _ _ _ _ _ He) in Hs. injection Hs as _ <-. eapply leaked_same; [by apply Hg|done].
    - pose proof (leave_destroys ∅ s c y Hok Hc Hy Hhy) as Hu. unfold bind in Hs.
      by destruct (mainFunc_leave c s) as [[] ?]. }
  pose proof (set_body_ok _ _ _ _ _ Hok Hc) as Hok1. set (s1 := set_control _ s) in *.
  assert (control s1 = InBody c rest) as Hc1 by done.
  destruct k as [n|cb|g|g cb|g| |g| |cb|]; cbn [exec] in Hs; try (by injection Hs as _ <-).
  - destruct (new_ok ∅ cfg s1 c rest cb Hok1 Hc1) as (s2 & He & _ & _ & _ & Hg & _).
    rewrite (bind_Ok _ _ _ _ _ He) in Hs. injection Hs as _ <-. eapply leaked_same; [apply Hg; by exists x|done].
  - rewrite (bind_Ok _ _ _ _ _ (resume_in_body ∅ s1 c rest g Hok1 Hc1)) in Hs. by injection Hs as _ <-.
  - pose proof (reset_ok ∅ s1 c rest g cb Hok1 Hc1) as H. apply bind_Ok_inv in Hs as (u & s2 & He & [= _ <-]).
    rewrite He in H. destruct H as (_ & _ & (y & Hy & Hit) & Hg). eapply leaked_same; [apply Hg|exact Hl].
    intros <-. change (fibers (heap s) !! f = Some y) in Hy. destruct Hit; congruence.
  - pose proof (release_ok s1 c rest g Hok1 Hc1) as H. apply bind_Ok_inv in Hs as (u & s2 & He & [= _ <-]).
    rewrite He in H. destruct H as (_ & _ & Hg). eapply leaked_same; [apply Hg|exact Hl].
    intros <-. unfold release, drop_held in He. rewrite (bind_Ok _ _ _ _ _ (fiber_deref_Ok f s1 _ Hx)), Hst in He.
    by rewrite bind_assoc, (bind_Ok _ _ _ _ _ (fiber_deref_Ok f s1 _ Hx)), Hh in He.
  - destruct (yield_to_ready ∅ s1 c rest Hok1 Hc1) as (s2 & He & _ & _ & _ & _ & _ & Hg).
    rewrite (bind_Ok _ _ _ _ _ He) in Hs. injection Hs as _ <-. eapply leaked_same; [by apply Hg|done].
  - apply bind_Ok_inv in Hs as (u & s2 & He & [= _ <-]). unfold update in He.
    destruct (fibers (heap s1) !! c) as [y|]; [|done]. injection He as _ <-.
    eapply leaked_same; [|exact Hl]. simpl. by rewrite lookup_insert_ne.
Qed.

Lemma step_keeps_leaked cfg s s' f :
  thread_ok ∅ s -> leaked (heap s) f -> tstep cfg s s' ->
  leaked (heap s') f \/ control s = InMain /\ resume f s = (Ok tt, s').
Proof.
  intros Hok Hl Hs. destruct Hs as [s cb p s' Hc Hn|s g s' Hc Hr|s g s' Hc Hr|s es s' Hc Hf].
  - left. injection Hn as _ <-. eapply leaked_same; [|exact Hl]. simpl. rewrite lookup_insert_ne; [done|].
    intros E. destruct Hok as (m & _ & H). rewrite Hc in H. destruct H as [_ Hh].
    destruct Hl as (x & Hx & _). apply (heap_next _ _ _ _ Hh) in Hx. lia.
  - destruct (decide (g = f)) as [->|Hne]; [by right|]. left.
    destruct (fibers (heap s) !! g) as [x|] eqn:Hx.
    + destruct (resume_cases ∅ s g x Hok Hc Hx) as [(_ & Hg & cs & Hp)|[_ Ha]]; [|congruence].
      destruct (resume_enters ∅ s g cs Hok Hc Hg Hp) as (s2 & He & _ & _ & _ & Hsame).
      assert (s2 = s') as -> by congruence. eapply leaked_same; [by apply Hsame|done].
    + destruct Hok as (m & Hm & H). rewrite Hc in H. destruct H as [Ht _]. unfold resume in Hr.
      rewrite !bind_get, Ht, Hm, bool_decide_true in Hr by done.
      unfold deref, bind in Hr. by rewrite Hx in Hr.
  - left. destruct (fibers (heap s) !! g) as [x|] eqn:Hx.
    2: { unfold release, bind, deref in Hr. by rewrite Hx in Hr. }
    unfold release, drop_held in Hr. rewrite (bind_Ok _ _ _ _ _ (fiber_deref_Ok _ _ _ Hx)) in Hr.
    destruct (m_stack x) eqn:Hst; [|by injection Hr as <-].
    destruct (m_held x) eqn:Hh.
    2: { by rewrite bind_assoc, (bind_Ok _ _ _ _ _ (fiber_deref_Ok _ _ _ Hx)), Hh in Hr. }
    destruct Hok as (m & _ & H). rewrite Hc in H. destruct H as [_ Hok].
    destruct (release_spec ∅ None m s g x Hok Hx Hst Hh ltac:(set_solver)) as (h' & He & _ & Hsame & _).
    unfold release, drop_held in He. rewrite (bind_Ok _ _ _ _ _ (fiber_deref_Ok _ _ _ Hx)), Hst, Hr in He.
    injection He as ->. eapply leaked_same; [apply Hsame|exact Hl].
    intros <-. destruct Hl as (y & Hy & _ & _ & Hhy). congruence.
  - left. destruct (control s) as [|c cs| | |] eqn:Hcs; try (by destruct Hok as (m & _ & H); rewrite Hcs in H).
    by eapply body_keeps_leaked.
Qed.

(** C13: The life cycle of fibers on one thread.  Whatever fibers the main fiber
    creates, resumes and releases and whatever calls their bodies make (creating,
    resuming, resetting, releasing, yielding, scheduling): the thread keeps the
    invariant [thread_ok], at most one sub-fiber is RUNNING and it is the one [t_fiber]
    names, [totalFibers] counts the objects alive, and back in the main fiber a
    [resume] enters exactly the code the fiber has left, or fails the assertion when
    the fiber is RUNNING or TERM.  Dropping the last outside reference destroys an INIT
    or TERM fiber, so the assertion of the destructor holds; a READY or RUNNING one
    survives through the reference on its own stack, and a READY one then stays
    (leaks) unless a raw pointer resumes it.  A step of a body never has another outcome
    than normal, except that a [Reset] may fail its assertion and that it is undefined
    in two cases: a call on a fiber which no reference keeps, and the end of a body
    whose fiber nothing outside refers to, where [curr.reset()] of [mainFunc] destroys
    the fiber and [rawCurr->yield()] uses it. *)
Theorem fiber_life_cycle cfg s :
  rtc (tstep cfg) thread0 s ->
  thread_ok ∅ s /\
  (forall f x, fibers (heap s) !! f = Some x -> m_stack x = true -> m_state x = RUNNING ->
     t_fiber s = Some f) /\
  totalFibers s = wrap 64 (Z.of_nat (base.size (fibers (heap s)))) /\
  (control s = InMain -> forall f x, fibers (heap s) !! f = Some x ->
     if decide (m_state x = INIT \/ m_state x = READY)
     then exists cs s', left_code (heap s) f = Some cs /\ resume f s = (Ok tt, s') /\ control s' = InBody f cs
     else resume f s = (Abort, s)) /\
  (forall f x, fibers (heap s) !! f = Some x -> m_stack x = true -> m_held x = true ->
     exists s', release f s = (Ok tt, s') /\
       fibers (heap s') !! f = if decide (m_state x = INIT \/ m_state x = TERM) then None else Some (set_m_held false x)) /\
  (forall f, leaked (heap s) f -> forall s', tstep cfg s s' ->
     leaked (heap s') f \/ control s = InMain /\ resume f s = (Ok tt, s')) /\
  (forall c cs, control s = InBody c cs ->
     match fiber_step cfg s with
     | (Ok _, _) => cs = [] -> referred (heap s) c
     | (Abort, _) => exists f cb rest, cs = Reset f cb :: rest
     | (o, _) => o = UB /\ misused (heap s) c cs
     end).
Proof.
  intros Hr. assert (thread_ok ∅ s) as Hok.
  { eapply rtc_invariant; [apply tstep_ok|apply thread0_ok|exact Hr]. }
  split; [done|]. destruct (Hok) as (m & Hm & H).
  assert (exists cur, heap_ok ∅ cur m (heap s) /\ (is_Some cur -> t_fiber s = cur)) as (cur & Hh & Hcur).
  { destruct (control s); try done.
    - destruct H as (Ht & _ & _ & Hh & _). exists (Some curr). by split.
    - destruct H as [Ht Hh]. exists None. split; [done|]. by intros []. }
  split_and!.
  - intros f x Hx Hst Hr'. destruct (heap_main _ _ _ _ Hh) as [_ (y & Hy & Hys & _)].
    assert (f <> m) as Hfm by (intros ->; congruence).
    destruct (heap_subs _ _ _ _ Hh f x Hx ltac:(set_solver) Hfm) as [_ Hf]. rewrite Hr' in Hf.
    destruct Hf as [Hf _]. apply bool_decide_eq_true in Hf. rewrite Hf in Hcur. by apply Hcur.
  - apply Hh.
  - intros Hc f x Hx. destruct (resume_cases ∅ s f x Hok Hc Hx) as [(Hir & Hf & cs & Hp)|[Hrt Ha]].
    + rewrite decide_True by done.
      destruct (resume_enters ∅ s f cs Hok Hc Hf Hp) as (s' & He & _ & Hc' & _). by exists cs, s'.
    + rewrite decide_False; [done|]. intros []; destruct Hrt; congruence.
  - intros f x. by apply release_outcome.
  - intros f Hl s' Hs. by eapply step_keeps_leaked.
  - intros c cs Hc. pose proof (fiber_step_ok cfg s c cs Hok Hc) as Hs.
    destruct (fiber_step cfg s) as [[] ?]; try done. apply Hs.
Qed.

Lemma thread2_reachable : rtc (tstep 4096) thread0 thread2.
Proof.
  eapply rtc_l; [by eapply (main_new _ _ [Work 1; YieldToReady_; Work 2])|].
  apply rtc_once. eapply (main_resume _ _ 1%nat); [done|].
  unfold thread2. destruct (bind _ _ thread0) as [o s] eqn:E.
  assert (o = Ok tt) as -> by (change o with (fst (o, s)); rewrite <- E; by vm_compute). exact E.
Qed.

Lemma fiber_life_cycle_witness : thread_ok ∅ thread2 /\ totalFibers thread2 = 2.
Proof.
  split; [apply (fiber_life_cycle 4096 thread2 thread2_reachable)|].
  rewrite (proj1 (proj2 (proj2 (fiber_life_cycle 4096 thread2 thread2_reachable)))). by vm_compute.
Defined.

(** ** The coroutine law *)

(** Calls that neither switch nor destroy. *)
Definition quiet (c : cmd) : bool :=
  match c with Reset _ _ | Release _ | YieldToReady_ | IdleLoop => false | _ => true end.

(** The events of one call of the body of [curr]. *)
Definition emits (curr : ptr) (c : cmd) : list event :=
  match c with
  | Work n => [Worked n]
  | ScheduleFiber f => [Scheduled f]
  | ScheduleSelf => [Scheduled curr]
  | ScheduleCb cb => [ScheduledCb cb]
  | _ => []
  end.

Lemma quiet_step others cfg s c k rest :
  thread_ok others s -> control s = InBody c (k :: rest) -> quiet k = true -> referred (heap s) c ->
  exists s', fiber_step cfg s = (Ok (emits c k), s') /\ thread_ok others s' /\ control s' = InBody c rest /\
    (forall g, is_Some (fibers (heap s) !! g) -> fibers (heap s') !! g = fibers (heap s) !! g).
Proof.
  intros Hok Hc Hq (x & Hx & Hhx). unfold fiber_step. rewrite Hc.
  pose proof (set_body_ok _ _ _ _ _ Hok Hc) as Hok1. set (s1 := set_control _ s) in *.
  assert (control s1 = InBody c rest) as Hc1 by done.
  destruct k as [n|cb|f|f cb|f| |f| |cb|]; cbn [exec emits]; try done; try (by exists s1).
  - destruct (new_ok others cfg s1 c rest cb Hok1 Hc1) as (s' & He & ? & ? & _ & ? & _).
    rewrite (bind_Ok _ _ _ _ _ He). by exists s'.
  - rewrite (bind_Ok _ _ _ _ _ (resume_in_body others s1 c rest f Hok1 Hc1)). by exists s1.
  - rewrite (bind_Ok _ _ _ _ _ (fiber_update_Ok c _ s1 x Hx)).
    replace (set_heap _ s1) with s1; [by exists s1|].
    replace (set_m_held true x) with x by (destruct x; simpl in *; by subst).
    unfold put, set_fibers. cbn [heap s1 set_control]. rewrite insert_id by done. unfold s1, set_heap, set_control.
    cbn [heap t_fiber t_threadFiber control]. f_equal. by destruct (heap s).
Qed.

Lemma drive_body cfg n s c cs :
  control s = InBody c cs ->
  drive cfg (S n) s = bind (fiber_step cfg) (fun es => bind (drive cfg n) (fun es' => ret (es ++ es'))) s.
Proof. intros Hc. cbn [drive]. by rewrite Hc. Qed.

Lemma drive_main cfg n s : control s = InMain -> drive cfg n s = (Ok [], s).
Proof. intros Hc. destruct n; cbn [drive]; by rewrite Hc. Qed.

(** Running quiet calls, then whatever follows. *)
Lemma drive_quiet others cfg tail pre : forall s c,
  thread_ok others s -> control s = InBody c (pre ++ tail) -> forallb quiet pre = true -> referred (heap s) c ->
  exists s1, thread_ok others s1 /\ control s1 = InBody c tail /\ referred (heap s1) c /\
    forall n es s', drive cfg n s1 = (Ok es, s') ->
      drive cfg (length pre + n) s = (Ok (flat_map (emits c) pre ++ es), s').
Proof.
  induction pre as [|k pre IH]; intros s c Hok Hc Hq Hh; [by exists s|].
  cbn [forallb] in Hq. apply andb_true_iff in Hq as [Hk Hq].
  destruct (quiet_step others cfg s c k (pre ++ tail) Hok Hc Hk Hh) as (s0 & He & Hok0 & Hc0 & Hsame).
  assert (referred (heap s0) c) as Hh0.
  { eapply held_same; [|exact Hh]. apply Hsame. destruct Hh as (x & Hx & _). by exists x. }
  destruct (IH s0 c Hok0 Hc0 Hq Hh0) as (s1 & Hok1 & Hc1 & Hh1 & Hd).
  exists s1. do 3 (split; [done|]). intros n es s' Hn.
  change (length (k :: pre) + n)%nat with (S (length pre + n)).
  rewrite (drive_body _ _ _ _ _ Hc), (bind_Ok _ _ _ _ _ He), (bind_Ok _ _ _ _ _ (Hd n es s' Hn)).
  cbn [flat_map]. by rewrite <- app_assoc.
Qed.

(** The step that leaves the body. *)
Lemma drive_last cfg s c cs s' :
  control s = InBody c cs -> fiber_step cfg s = (Ok [], s') -> control s' = InMain ->
  drive cfg 1 s = (Ok [], s').
Proof.
  intros Hc Hs Hm. rewrite (drive_body _ _ _ _ _ Hc), (bind_Ok _ _ _ _ _ Hs).
  by rewrite (bind_Ok _ _ _ _ _ (drive_main _ _ _ Hm)).
Qed.

(** C21: The coroutine law.  A [resume] of a fresh or suspended fiber executes
    its pending calls, in order and each once, up to its first [YieldToReady] or
    the end of the body, and then control is back in the main fiber right after
    the [resume]; the fiber is left with exactly the rest of its calls, or
    terminated.  The number of steps is the number of calls executed plus one, so
    a [resume] of such a body always returns.  ([pre] may create, resume and
    schedule other fibers; a [resume] inside a sub-fiber is a no-op.) *)
Theorem resume_runs_to_yield others cfg s f pre rest finished :
  thread_ok others s -> control s = InMain -> f ∉ others -> forallb quiet pre = true ->
  pending (heap s) f = Some (if finished : bool then pre else pre ++ YieldToReady_ :: rest) ->
  exists s1 s2,
    resume f s = (Ok tt, s1) /\
    drive cfg (S (length pre)) s1 = (Ok (flat_map (emits f) pre), s2) /\
    thread_ok others s2 /\ control s2 = InMain /\
    if finished then exists x, fibers (heap s2) !! f = Some x /\ m_state x = TERM
    else pending (heap s2) f = Some rest.
Proof.
  intros Hok Hc Hf Hq Hp. apply pending_held in Hp as [Hp Hh].
  destruct (resume_enters others s f _ Hok Hc Hf Hp) as (s1 & He & Hok1 & Hc1 & Hh1 & _).
  destruct (drive_quiet others cfg (if finished then [] else YieldToReady_ :: rest) pre s1 f)
    as (s2 & Hok2 & Hc2 & Hh2 & Hd); [done| |done|auto|].
  { rewrite Hc1. destruct finished; [by rewrite app_nil_r|done]. }
  replace (S (length pre)) with (length pre + 1)%nat by lia.
  destruct finished.
  - destruct (leave_terminates others s2 f Hok2 Hc2 Hh2) as (s3 & x & Hl & Hok3 & Hc3 & _ & Hx & Hst & _).
    exists s1, s3. split; [done|]. rewrite <- (app_nil_r (flat_map (emits f) pre)).
    split; [|by eauto]. apply Hd, (drive_last cfg s2 f []); [done| |done].
    unfold fiber_step. by rewrite Hc2, (bind_Ok _ _ _ _ _ Hl).
  - pose proof (set_body_ok _ _ _ _ _ Hok2 Hc2) as Hok2'.
    destruct (yield_to_ready others _ f rest Hok2' eq_refl) as (s3 & Hy & Hok3 & Hc3 & _ & Hleft & Hh3 & _).
    exists s1, s3. split; [done|]. rewrite <- (app_nil_r (flat_map (emits f) pre)).
    split; [|by do 2 (split; [done|]); apply left_held; [|apply Hh3]].
    apply Hd, (drive_last cfg s2 f (YieldToReady_ :: rest)); [done| |done].
    unfold fiber_step. rewrite Hc2. cbn [exec]. by rewrite (bind_Ok _ _ _ _ _ Hy).
Qed.

(** One fresh fiber with a body that yields. *)
Definition thread1 : Thread := snd (Fiber_ctor 4096 [Work 1; YieldToReady_; Work 2] 0 thread0).

Lemma thread1_ok : thread_ok ∅ thread1.
Proof. by apply ctor_keeps_ok; [exact thread0_ok|]. Qed.

Lemma resume_runs_to_yield_witness :
  exists s1 s2, resume 1%nat thread1 = (Ok tt, s1) /\
    drive 4096 2 s1 = (Ok [Worked 1], s2) /\
    thread_ok ∅ s2 /\ control s2 = InMain /\ pending (heap s2) 1%nat = Some [Work 2].
Proof.
  apply (resume_runs_to_yield ∅ 4096 thread1 1%nat [Work 1] [Work 2] false);
    [exact thread1_ok | reflexivity | set_solver | reflexivity | reflexivity].
Defined.

(** [setIdle] makes a terminated fiber resumable, into the end of [mainFunc]. *)
Lemma setIdle_resume_dead others s f x :
  thread_ok others s -> control s = InMain -> f ∉ others ->
  fibers (heap s) !! f = Some x -> m_state x = TERM ->
  exists s1 s2, setIdle f s = (Ok tt, s1) /\ resume f s1 = (Ok tt, s2) /\ control s2 = AfterLastYield.
Proof.
  intros Hok Hc Hf Hx Ht. destruct (Hok) as (m & Hm & H). rewrite Hc in H. destruct H as [Htf Hh].
  destruct (heap_main _ _ _ _ Hh) as [_ (y & Hy & _ & Hr & Hu)].
  assert (f <> m) as Hfm by (intros ->; congruence).
  destruct (heap_subs _ _ _ _ Hh f x Hx Hf Hfm) as [_ Hfx]. rewrite Ht in Hfx. destruct Hfx as [Hux _].
  eexists. eexists. split; [by apply fiber_update_Ok|].
  rewrite (resume_switches _ f m (set_m_state INIT x) y); simpl; auto.
  - rewrite Hux. done.
  - by rewrite lookup_insert_eq.
  - by rewrite lookup_insert_ne.
Qed.

(** [setIdle] on a terminated fiber ends the thread.  A TERM fiber cannot be
    resumed; after [setIdle] the assertion passes, but the saved context is the
    last [yield] of [mainFunc]: the fiber executes nothing, [mainFunc] returns and,
    [uc_link] being null, the thread exits.  [Scheduler::run] does this to the
    idle fiber of a stopped scheduler. *)
Theorem setIdle_exits_thread others cfg s f x :
  thread_ok others s -> control s = InMain -> f ∉ others ->
  fibers (heap s) !! f = Some x -> m_state x = TERM ->
  resume f s = (Abort, s) /\
  exists s1 s2, setIdle f s = (Ok tt, s1) /\ resume f s1 = (Ok tt, s2) /\
    control s2 = AfterLastYield /\ fst (drive cfg 1 s2) = Ok [] /\
    control (snd (drive cfg 1 s2)) = ThreadExit.
Proof.
  intros Hok Hc Hf Hx Ht. split.
  { destruct (resume_cases others s f x Hok Hc Hx) as [([] & _)|[_ ?]]; congruence || done. }
  destruct (setIdle_resume_dead others s f x Hok Hc Hf Hx Ht) as (s1 & s2 & H1 & H2 & H3).
  exists s1, s2. do 3 (split; [done|]). cbn [drive]. by rewrite H3; unfold bind, fiber_step; rewrite H3.
Qed.

(** The fiber of [thread1] run to its end. *)
Definition thread3 : Thread :=
  let s := snd (drive 4096 9 (snd (resume 1%nat thread1))) in
  snd (drive 4096 9 (snd (resume 1%nat s))).

Lemma thread3_ok : thread_ok ∅ thread3.
Proof.
  apply (drive_keeps_ok 4096 9 _ [Worked 2]); [|by vm_compute].
  apply resume_keeps_ok; [|by vm_compute..].
  apply (drive_keeps_ok 4096 9 _ [Worked 1]); [|by vm_compute].
  apply resume_keeps_ok; [exact thread1_ok|by vm_compute..].
Qed.

Lemma setIdle_exits_thread_witness : resume 1%nat thread3 = (Abort, thread3).
Proof.
  refine (proj1 (setIdle_exits_thread ∅ 4096 thread3 1%nat
    (mkFiber 1 4096 TERM AfterLastYield true None true false) thread3_ok _ _ _ _));
    [by vm_compute | set_solver | by vm_compute | reflexivity].
Defined.
