(* ===== verification/Stacks.v ===== *)
(** * Stacks: the memory of fiber stacks

    Models [cczoecpp/Fiber/Allocator/allocator.h] and its use in
    [cczoecpp/Fiber/Fiber.cpp]: the constructor of a fiber takes a stack from the
    allocator, the destructor gives it back.  [Fiber] knows only whether a fiber has a
    stack; here the same thread runs next to the allocator, and every stack has an
    address.  [malloc] and [free] are a parameter with their documented behaviour:
    [malloc] may fail, and freeing what is not allocated is undefined. *)

From stdpp Require Import base list numbers gmap sets.
From S2P Require Import Prelude Words Fiber FiberTheorems.

Local Open Scope Z_scope.

(** An address that [malloc] returns. *)
Definition addr : Type := nat.

(** [free] gives [None] when it is undefined; [blocks] are the sizes of what is
    allocated. *)
Class Malloc (A : Type) := {
  malloc : A -> Z -> option addr * A;
  free : A -> addr -> option A;
  blocks : A -> gmap addr Z
}.

Class MallocLaws (A : Type) `{Malloc A} : Prop := {
  malloc_ok a n p a' : malloc a n = (Some p, a') -> blocks a !! p = None /\ blocks a' = <[p := n]> (blocks a);
  malloc_null a n a' : malloc a n = (None, a') -> blocks a' = blocks a;
  free_ok a p : is_Some (blocks a !! p) -> exists a', free a p = Some a' /\ blocks a' = delete p (blocks a)
}.

Section Stacks.
Context {A : Type} `{MallocLaws A}.
Context (cfg_stack_size : Z).

(** ** [MallocStackAllocator] *)

Definition Alloc (size : Z) : comp A (option addr) := fun a =>
  let '(p, a') := malloc a size in (Ok p, a').

Definition Free (vp : option addr) : comp A unit := fun a =>
  match vp with
  | None => (Ok tt, a)
  | Some p => match free a p with Some a' => (Ok tt, a') | None => (UB, a) end
  end.

(** ** Fibers with their stacks *)

(** A thread, the allocator, and the non-null [m_stack] of each fiber. *)
Record Process : Type := mkProcess {
  thread : Thread;
  memory : A;
  stacks : gmap ptr addr
}.

Definition set_thread (v : Thread) (s : Process) : Process := mkProcess v (memory s) (stacks s).
Definition set_memory (v : A) (s : Process) : Process := mkProcess (thread s) v (stacks s).
Definition set_stacks (v : gmap ptr addr) (s : Process) : Process := mkProcess (thread s) (memory s) v.

Definition on_thread {B} (m : comp Thread B) : comp Process B := lift thread set_thread m.
Definition on_memory {B} (m : comp A B) : comp Process B := lift memory set_memory m.

Definition set_m_stack (v : bool) (x : Fiber) : Fiber :=
  mkFiber (m_id x) (m_stacksize x) (m_state x) (m_ucp x) v (m_cb x) (m_held x) (m_self x).

(** [Fiber::Fiber(cb, stacksize)]: what [Alloc] returns is not tested. *)
Definition new_fiber (cb : list cmd) (stacksize : Z) : comp Process ptr :=
  let! f := on_thread (Fiber_ctor cfg_stack_size cb stacksize) in
  let! x := on_thread (deref f) in
  let! p := on_memory (Alloc (m_stacksize x)) in
  match p with
  | Some p => do! modify (fun s => set_stacks (<[f := p]> (stacks s)) s) in ret f
  | None => do! on_thread (update f (set_m_stack false)) in ret f
  end.

(** [~Fiber()]: a fiber with a stack gives it back to the allocator. *)
Definition destroy_fiber (f : ptr) : comp Process unit :=
  let! x := on_thread (deref f) in
  let! m := get stacks in
  do! on_thread (Fiber_dtor f) in
  if m_stack x then
    do! on_memory (Free (m !! f)) in
    modify (set_stacks (delete f m))
  else ret tt.

(** The last outside reference to a fiber goes; the fiber is destroyed unless its own
    stack refers to it.  A main fiber has the context of its thread and stays alive: the
    thread keeps a reference. *)
Definition release_fiber (f : ptr) : comp Process unit :=
  let! x := on_thread (deref f) in
  match m_stack x, m_ucp x with
  | false, InMain => ret tt
  | _, _ =>
      let! last := on_thread (drop_held f) in
      if last then destroy_fiber f else ret tt
  end.

(** The end of [mainFunc]: [curr.reset()] may destroy the fiber whose stack it runs on. *)
Definition leave_fiber (curr : ptr) : comp Process unit :=
  let! last := on_thread (mainFunc_end curr) in
  do! (if last then destroy_fiber curr else ret tt) in
  on_thread (mainFunc_yield curr).

(** [resume]: entering a fiber whose stack is null is undefined. *)
Definition resume_fiber (f : ptr) : comp Process unit :=
  let! x := on_thread (deref f) in
  match m_ucp x, m_stack x with
  | AtMainFunc, false => fail UB
  | _, _ => on_thread (resume f)
  end.

(** One call of the body that runs. *)
Definition body_step : comp Process (list event) := fun s =>
  match control (thread s) with
  | InBody curr (New cb :: rest) =>
      bind (on_thread (modify (set_control (InBody curr rest))))
        (fun _ => bind (new_fiber cb 0) (fun _ => ret [])) s
  | InBody curr (Release f :: rest) =>
      bind (on_thread (modify (set_control (InBody curr rest))))
        (fun _ => bind (release_fiber f) (fun _ => ret [])) s
  | InBody curr (Resume f :: rest) =>
      bind (on_thread (modify (set_control (InBody curr rest))))
        (fun _ => bind (resume_fiber f) (fun _ => ret [])) s
  | InBody curr [] => bind (leave_fiber curr) (fun _ => ret []) s
  | _ => on_thread (fiber_step cfg_stack_size) s
  end.

(** What the main fiber and the bodies do. *)
Inductive pstep : Process -> Process -> Prop :=
  | pstep_new s cb size f s' : new_fiber cb size s = (Ok f, s') -> pstep s s'
  | pstep_release s f s' : release_fiber f s = (Ok tt, s') -> pstep s s'
  | pstep_resume s f s' : resume_fiber f s = (Ok tt, s') -> pstep s s'
  | pstep_reset s f cb s' : on_thread (reset f cb) s = (Ok tt, s') -> pstep s s'
  | pstep_body s es s' : body_step s = (Ok es, s') -> pstep s s'.

(** ** The sizes of the stacks of the fibers alive *)

Definition stack_size (x : Fiber) : option Z := if m_stack x then Some (m_stacksize x) else None.

Definition sizes (h : Heap) : gmap ptr Z := omap stack_size (fibers h).

Definition below (h : Heap) : Prop := forall f x, fibers h !! f = Some x -> (f < next_ptr h)%nat.

(** A computation that touches no stack. *)
Definition stackless (t t' : Thread) : Prop :=
  below (heap t) -> below (heap t') /\ sizes (heap t') = sizes (heap t).

#[local] Instance stackless_preorder : PreOrder stackless.
Proof.
  split; [by intros t Hb|]. intros t1 t2 t3 H12 H23 Hb. destruct (H12 Hb) as [Hb2 E2].
  destruct (H23 Hb2) as [Hb3 E3]. split; [done|congruence].
Qed.

#[local] Notation calm := (along stackless).

Lemma sizes_lookup h f : sizes h !! f = fibers h !! f ≫= stack_size.
Proof. unfold sizes. apply lookup_omap. Qed.

Lemma below_fresh h : below h -> fibers h !! next_ptr h = None.
Proof. intros Hb. destruct (fibers h !! next_ptr h) as [x|] eqn:E; [|done]. apply Hb in E. lia. Qed.

(** An object is replaced by one with the same stack. *)
Lemma put_stackless t f x x' : fibers (heap t) !! f = Some x -> stack_size x' = stack_size x ->
  stackless t (set_heap (put f x' (heap t)) t).
Proof.
  intros Hx Hs Hb. split.
  - intros g y Hg. cbn [heap set_heap] in Hg. rewrite lookup_put in Hg. simpl.
    destruct (decide (f = g)) as [->|]; by eapply Hb.
  - apply map_eq. intros g. rewrite !sizes_lookup. cbn [heap set_heap]. rewrite lookup_put.
    destruct (decide (f = g)) as [->|]; [|done]. by rewrite Hx.
Qed.

Lemma calm_deref f : calm (deref f).
Proof. intros t. unfold deref. destruct (fibers (heap t) !! f); simpl; reflexivity. Qed.

Lemma calm_update f g : (forall x, stack_size (g x) = stack_size x) -> calm (update f g).
Proof.
  intros Hg t. unfold update. destruct (fibers (heap t) !! f) as [x|] eqn:Hx; [|simpl; reflexivity].
  by apply (put_stackless t f x).
Qed.

Lemma calm_modify (f : Thread -> Thread) : (forall t, heap (f t) = heap t) -> calm (modify f).
Proof. intros Hf. apply along_modify. intros t Hb. by rewrite Hf. Qed.

(** A fresh object without a stack. *)
Lemma calm_alloc mk : (forall id, m_stack (mk id) = false) -> calm (alloc mk).
Proof.
  intros Hm t Hb. split.
  - intros g y. simpl. destruct (decide (next_ptr (heap t) = g)) as [<-|Hne]; [lia|].
    rewrite lookup_insert_ne by done. intros Hg%Hb. lia.
  - apply map_eq. intros g. rewrite !sizes_lookup. simpl.
    destruct (decide (next_ptr (heap t) = g)) as [<-|Hne]; [|by rewrite lookup_insert_ne].
    rewrite lookup_insert_eq, (below_fresh _ Hb). unfold stack_size. simpl. by rewrite Hm.
Qed.

#[local] Hint Resolve stackless_preorder along_bind along_ret along_fail along_get along_assert
  calm_deref calm_update calm_modify calm_alloc : core.
#[local] Hint Extern 4 (calm (if ?b then _ else _)) => destruct b : core.
#[local] Hint Extern 4 (calm (match ?x with _ => _ end)) => destruct x : core.

Lemma calm_GetThis : calm GetThis.
Proof. unfold GetThis, Fiber_main, setThis. auto 20. Qed.

Lemma calm_swapcontext from to : calm (swapcontext from to).
Proof.
  unfold swapcontext. apply along_bind; auto. intros here. apply along_bind; auto. intros _.
  apply along_bind; auto. intros y. unfold mainFunc_enter. destruct (m_ucp y); auto 20 using calm_GetThis.
Qed.
#[local] Hint Resolve calm_GetThis calm_swapcontext : core.

Lemma calm_main_ptr : calm main_ptr.
Proof. unfold main_ptr. auto. Qed.
#[local] Hint Resolve calm_main_ptr : core.

Lemma calm_yield f : calm (yield f).
Proof. unfold yield, setThis. auto 20. Qed.

Lemma calm_resume f : calm (resume f).
Proof. unfold resume, setThis. auto 20. Qed.
#[local] Hint Resolve calm_yield calm_resume : core.

Lemma calm_reset f cb : calm (reset f cb).
Proof. unfold reset. auto 20. Qed.

Lemma calm_drop_held f : calm (drop_held f).
Proof. unfold drop_held. auto 20. Qed.

Lemma calm_mainFunc_end f : calm (mainFunc_end f).
Proof. unfold mainFunc_end, drop_self. auto 20. Qed.

Lemma calm_mainFunc_yield f : calm (mainFunc_yield f).
Proof. unfold mainFunc_yield. auto 20. Qed.
#[local] Hint Resolve calm_reset calm_drop_held calm_mainFunc_end calm_mainFunc_yield : core.

Definition takes_stack (c : cmd) : bool := match c with New _ | Release _ => true | _ => false end.

Lemma calm_exec curr c : takes_stack c = false -> calm (exec cfg_stack_size curr c).
Proof. destruct c; try done; intros _; cbn [exec]; unfold YieldToReady; auto 20. Qed.

Lemma calm_fiber_step t :
  match control t with InBody _ (c :: _) => takes_stack c = false | InBody _ [] => False | _ => True end ->
  stackless t (snd (fiber_step cfg_stack_size t)).
Proof.
  intros Hc. unfold fiber_step. destruct (control t) as [|curr [|c rest]| | |]; try (simpl; reflexivity).
  - done.
  - etrans; [|by apply calm_exec]. by intros Hb.
  - by intros Hb.
Qed.
(** ** The invariant *)

(** Every fiber with a stack has a block of its size, no two share one, and no block is
    lost. *)
Record mem_ok (s : Process) : Prop := mkMemOk {
  mem_below : below (heap (thread s));
  mem_sizes : forall f, sizes (heap (thread s)) !! f = stacks s !! f ≫= fun p => blocks (memory s) !! p;
  mem_live : forall f p, stacks s !! f = Some p -> is_Some (blocks (memory s) !! p);
  mem_inj : forall f g p, stacks s !! f = Some p -> stacks s !! g = Some p -> f = g;
  mem_all : forall p, is_Some (blocks (memory s) !! p) -> exists f, stacks s !! f = Some p
}.

Lemma stackless_keeps s t' : mem_ok s -> stackless (thread s) t' -> mem_ok (set_thread t' s).
Proof.
  intros [Hb Hs Hl Hi Ha] Ht. destruct (Ht Hb) as [Hb' Hs']. split; try done.
  intros f. simpl. by rewrite Hs'.
Qed.

Lemma calm_keeps {B} (m : comp Thread B) s : mem_ok s -> stackless (thread s) (snd (m (thread s))) -> mem_ok (snd (on_thread m s)).
Proof.
  intros Hok Hm. unfold on_thread, lift. destruct (m (thread s)) as [o t]. by apply stackless_keeps.
Qed.

(** A fiber with a stack is there, and the block is in the memory. *)
Lemma mem_block s f x : mem_ok s -> fibers (heap (thread s)) !! f = Some x -> m_stack x = true ->
  exists p, stacks s !! f = Some p /\ blocks (memory s) !! p = Some (m_stacksize x).
Proof.
  intros Hok Hx Hst. pose proof (mem_sizes s Hok f) as Hs. rewrite sizes_lookup, Hx in Hs. simpl in Hs.
  unfold stack_size in Hs. rewrite Hst in Hs. destruct (stacks s !! f) as [p|]; [|done]. by exists p.
Qed.

Lemma mem_stack s f p : mem_ok s -> stacks s !! f = Some p ->
  exists x, fibers (heap (thread s)) !! f = Some x /\ m_stack x = true /\ blocks (memory s) !! p = Some (m_stacksize x).
Proof.
  intros Hok Hp. destruct (mem_live s Hok f p Hp) as [n Hn]. pose proof (mem_sizes s Hok f) as Hs.
  rewrite Hp in Hs. simpl in Hs. rewrite Hn, sizes_lookup in Hs.
  destruct (fibers (heap (thread s)) !! f) as [x|]; [|done]. simpl in Hs. unfold stack_size in Hs.
  exists x. destruct (m_stack x); [|done]. by injection Hs as ->.
Qed.

(** A block comes with a fiber, and goes with it. *)
Lemma mem_ok_add s t' a' f p z :
  mem_ok s -> below (heap t') -> sizes (heap t') = <[f := z]> (sizes (heap (thread s))) -> stacks s !! f = None ->
  blocks (memory s) !! p = None -> blocks a' = <[p := z]> (blocks (memory s)) ->
  mem_ok (mkProcess t' a' (<[f := p]> (stacks s))).
Proof.
  intros Hok Hb Hsz Hf Hp Ha. assert (forall g, stacks s !! g <> Some p) as Hnew
    by (intros g Hg; destruct (mem_live s Hok g p Hg); congruence).
  split; cbn [thread memory stacks]; [done|..]; rewrite ?Hsz, ?Ha.
  - intros g. destruct (decide (f = g)) as [<-|Hne].
    { rewrite !lookup_insert_eq. simpl. by rewrite lookup_insert_eq. }
    rewrite !lookup_insert_ne, (mem_sizes s Hok) by done.
    destruct (stacks s !! g) as [q|] eqn:Hq; [|done]. simpl. rewrite lookup_insert_ne; [done|].
    intros <-. by destruct (Hnew g).
  - intros g q [[<- <-]|[Hne Hq]]%lookup_insert_Some; [by rewrite lookup_insert_eq|].
    rewrite lookup_insert_is_Some. destruct (decide (p = q)); [by left|right; split; [done|by eapply mem_live]].
  - intros g g' q [[<- <-]|[Hne Hq]]%lookup_insert_Some [[<- Hq']|[Hne' Hq']]%lookup_insert_Some; try done;
      [by destruct (Hnew g')|by subst; destruct (Hnew g)|by eapply mem_inj].
  - intros q. rewrite lookup_insert_is_Some. intros [<-|[Hne Hq]]; [exists f; apply lookup_insert_eq|].
    destruct (mem_all s Hok q Hq) as [g Hg]. exists g. rewrite lookup_insert_ne; [done|]. congruence.
Qed.

Lemma mem_ok_delete s t' a' f p :
  mem_ok s -> below (heap t') -> sizes (heap t') = delete f (sizes (heap (thread s))) -> stacks s !! f = Some p ->
  blocks a' = delete p (blocks (memory s)) -> mem_ok (mkProcess t' a' (delete f (stacks s))).
Proof.
  intros Hok Hb Hsz Hf Ha. split; cbn [thread memory stacks]; [done|..]; rewrite ?Hsz, ?Ha.
  - intros g. destruct (decide (f = g)) as [<-|Hne]; [by rewrite !lookup_delete_eq|].
    rewrite !lookup_delete_ne, (mem_sizes s Hok) by done.
    destruct (stacks s !! g) as [q|] eqn:Hq; [|done]. simpl. rewrite lookup_delete_ne; [done|].
    intros <-. by apply Hne, (mem_inj s Hok f g p).
  - intros g q [Hne Hq]%lookup_delete_Some. rewrite lookup_delete_ne; [by eapply mem_live|].
    intros <-. by apply Hne, (mem_inj s Hok f g p).
  - intros g g' q [_ Hq]%lookup_delete_Some [_ Hq']%lookup_delete_Some. by eapply mem_inj.
  - intros q [z [Hne Hz]%lookup_delete_Some]. destruct (mem_all s Hok q) as [g Hg]; [by eexists|].
    exists g. rewrite lookup_delete_ne; [done|]. congruence.
Qed.

(** The object of a new fiber. *)
Lemma ctor_sizes t cb size : below (heap t) ->
  let f := next_ptr (heap t) in
  exists x t', Fiber_ctor cfg_stack_size cb size t = (Ok f, t') /\ below (heap t') /\ fibers (heap t') !! f = Some x /\
    m_stack x = true /\ m_cb x = Some cb /\ sizes (heap t') = <[f := m_stacksize x]> (sizes (heap t)) /\
    sizes (heap (set_heap (put f (set_m_stack false x) (heap t')) t')) = sizes (heap t) /\
    below (put f (set_m_stack false x) (heap t')).
Proof.
  intros Hb f. assert (fibers (heap t) !! f = None) as Hfr by apply (below_fresh _ Hb).
  eexists _, _. split; [reflexivity|]. cbn [heap set_heap fibers next_ptr]. rewrite lookup_insert_eq.
  assert (forall y, below (mkHeap (wrap 64 (s_fiber_id (heap t) + 1)) (wrap 64 (s_fiber_count (heap t) + 1))
    (<[f := y]> (fibers (heap t))) (S f))) as Hbel.
  { intros y g w. simpl. destruct (decide (f = g)) as [<-|Hne]; [lia|]. rewrite lookup_insert_ne by done.
    intros Hg%Hb. unfold f. lia. }
  split_and!; [apply Hbel|done|done|done| | |].
  - apply map_eq. intros g. rewrite sizes_lookup. cbn [fibers]. destruct (decide (f = g)) as [<-|Hne].
    + by rewrite !lookup_insert_eq.
    + by rewrite !lookup_insert_ne, sizes_lookup.
  - apply map_eq. intros g. rewrite !sizes_lookup. cbn [put set_fibers fibers]. rewrite insert_insert_eq.
    destruct (decide (f = g)) as [<-|Hne]; [|by rewrite lookup_insert_ne].
    by rewrite lookup_insert_eq, Hfr.
  - unfold put, set_fibers. cbn [fibers s_fiber_id s_fiber_count next_ptr]. rewrite insert_insert_eq. apply Hbel.
Qed.

(** The constructor always returns; without memory it leaves a fiber without a stack. *)
Lemma new_fiber_spec cb size s : mem_ok s ->
  exists s' x p, let f := next_ptr (heap (thread s)) in
    new_fiber cb size s = (Ok f, s') /\ mem_ok s' /\ fibers (heap (thread s')) !! f = Some x /\
    m_cb x = Some cb /\ fst (malloc (memory s) (m_stacksize x)) = p /\ stacks s' !! f = p /\
    (m_stack x = true <-> is_Some p).
Proof.
  intros Hok. pose proof (mem_below s Hok) as Hb.
  destruct (ctor_sizes (thread s) cb size Hb) as (x & t1 & Hc & Hb1 & Hx & Hst & Hcb & Hsz & Hsz0 & Hb0).
  set (f := next_ptr (heap (thread s))) in *.
  assert (stacks s !! f = None) as Hm.
  { destruct (stacks s !! f) as [p|] eqn:E; [|done]. destruct (mem_stack _ f p Hok E) as (y & Hy & _).
    unfold f in Hy. by rewrite (below_fresh _ Hb) in Hy. }
  unfold new_fiber, on_thread, on_memory.
  rewrite (bind_Ok _ _ _ _ _ (lift_Ok thread set_thread _ s _ _ Hc)).
  rewrite (bind_Ok _ _ _ _ _ (lift_Ok thread set_thread _ (set_thread t1 s) _ _ (fiber_deref_Ok f t1 x Hx))).
  destruct (malloc (memory s) (m_stacksize x)) as [p a'] eqn:Hmal.
  assert (Alloc (m_stacksize x) (memory s) = (Ok p, a')) as Hal by (unfold Alloc; by rewrite Hmal).
  rewrite (bind_Ok _ _ _ _ _ (lift_Ok memory set_memory _ (set_thread t1 (set_thread t1 s)) _ _ Hal)).
  destruct p as [p|].
  - destruct (malloc_ok _ _ _ _ Hmal) as [Hp Ha']. eexists _, x, (Some p). split; [reflexivity|].
    split_and!; try done; [by apply (mem_ok_add s t1 a' f p (m_stacksize x))|by rewrite Hmal|simpl; by rewrite lookup_insert_eq].
  - cbv beta iota.
    rewrite (bind_Ok _ _ _ _ _ (lift_Ok thread set_thread (update f (set_m_stack false))
      (set_memory a' (set_thread t1 (set_thread t1 s))) _ _ (fiber_update_Ok f _ t1 x Hx))).
    eexists _, (set_m_stack false x), None. split; [reflexivity|].
    split_and!; try done; [|simpl; by rewrite lookup_insert_eq|simpl; by rewrite Hmal].
    destruct Hok as [_ Hs Hl Hi Hall]. rewrite <- (malloc_null _ _ _ Hmal) in *.
    split; cbn [thread memory stacks set_thread set_memory]; [done|..|done|done|done].
    intros g. by rewrite Hsz0.
Qed.
(** The destructor. *)
Lemma dtor_sizes t f x : below (heap t) -> fibers (heap t) !! f = Some x ->
  match Fiber_dtor f t with
  | (Ok _, t') => below (heap t') /\ sizes (heap t') = delete f (sizes (heap t)) /\ fibers (heap t') !! f = None
  | (o, _) => o = Abort /\ ~ (m_state x = INIT \/ m_state x = TERM)
  end.
Proof.
  intros Hb Hx. unfold Fiber_dtor. rewrite bind_modify. set (t1 := set_heap _ t).
  assert (forall t2, fibers (heap t2) = fibers (heap t) -> next_ptr (heap t2) = next_ptr (heap t) ->
    let h := set_fibers (delete f (fibers (heap t2))) (heap t2) in
    below h /\ sizes h = delete f (sizes (heap t)) /\ fibers h !! f = None) as Hdel.
  { intros t2 Hf Hn h. unfold h. simpl. split_and!.
    - intros g y. simpl. rewrite Hf, Hn, lookup_delete_Some. intros [_ Hg]. by eapply Hb.
    - unfold sizes. simpl. by rewrite Hf, omap_delete.
    - apply lookup_delete_eq. }
  rewrite (bind_Ok _ _ _ _ _ (fiber_deref_Ok f t1 x Hx)), bind_get. destruct (m_stack x).
  - rewrite bind_CCZOE_ASSERT. case_bool_decide; [by apply Hdel|done].
  - destruct (bool_decide _); unfold setThis; [rewrite bind_modify|rewrite bind_ret_l]; by apply Hdel.
Qed.

(** Destroying a fiber that exists frees its block and no other, or fails the assertion
    of the destructor. *)
Lemma destroy_fiber_spec f x s : mem_ok s -> fibers (heap (thread s)) !! f = Some x ->
  match destroy_fiber f s with
  | (Ok _, s') => mem_ok s' /\
      blocks (memory s') = match stacks s !! f with Some p => delete p (blocks (memory s)) | None => blocks (memory s) end
  | (o, _) => o = Abort /\ ~ (m_state x = INIT \/ m_state x = TERM)
  end.
Proof.
  intros Hok Hx. pose proof (dtor_sizes (thread s) f x (mem_below s Hok) Hx) as Hd.
  assert (m_stack x = false -> stacks s !! f = None) as Hnull.
  { intros Hst. destruct (stacks s !! f) as [p|] eqn:E; [|done].
    destruct (mem_stack s f p Hok E) as (y & Hy & Hyst & _). congruence. }
  assert (m_stack x = false -> delete f (sizes (heap (thread s))) = sizes (heap (thread s))) as Hnosz.
  { intros Hst. apply delete_id. rewrite sizes_lookup, Hx. simpl. unfold stack_size. by rewrite Hst. }
  unfold destroy_fiber, on_thread, on_memory.
  rewrite (bind_Ok _ _ _ _ _ (lift_Ok thread set_thread _ s _ _ (fiber_deref_Ok f _ x Hx))).
  replace (set_thread (thread s) s) with s by (by destruct s). rewrite bind_get.
  destruct (Fiber_dtor f (thread s)) as [o t1] eqn:Hdt.
  destruct o as [[]| | | | |]; try (by destruct Hd); [|by unfold bind, lift; rewrite Hdt..].
  rewrite (bind_Ok _ _ _ _ _ (lift_Ok thread set_thread _ s _ _ Hdt)).
  destruct Hd as (Hb1 & Hsz1 & _). destruct (m_stack x) eqn:Hst.
  - destruct (mem_block s f x Hok Hx Hst) as (p & Hp & Hn). rewrite Hp.
    destruct (free_ok (memory s) p) as (a' & Hfree & Ha'); [by eexists|].
    assert (Free (Some p) (memory s) = (Ok tt, a')) as Hf by (unfold Free; by rewrite Hfree).
    rewrite (bind_Ok _ _ _ _ _ (lift_Ok memory set_memory _ (set_thread t1 s) _ _ Hf)).
    split; [|done]. by apply (mem_ok_delete s t1 a' f p).
  - rewrite Hnull by done. split; [|done]. destruct Hok as [_ Hs Hl Hi Ha].
    split; cbn [thread memory stacks set_thread]; [done| |done|done|done]. intros g. by rewrite Hsz1, Hnosz.
Qed.

(** Releasing it destroys it unless its own stack refers to it; the main fiber of a
    thread stays. *)
Lemma release_fiber_spec f x s : mem_ok s -> fibers (heap (thread s)) !! f = Some x ->
  match release_fiber f s with
  | (Ok _, s') => mem_ok s' /\
      blocks (memory s') = if m_self x then blocks (memory s) else
        match stacks s !! f with Some p => delete p (blocks (memory s)) | None => blocks (memory s) end
  | (Abort, _) => m_self x = false /\ ~ (m_state x = INIT \/ m_state x = TERM)
  | (o, _) => o = UB /\ m_held x = false
  end.
Proof.
  intros Hok Hx. unfold release_fiber, on_thread.
  rewrite (bind_Ok _ _ _ _ _ (lift_Ok thread set_thread _ s _ _ (fiber_deref_Ok f _ x Hx))).
  replace (set_thread (thread s) s) with s by (by destruct s).
  assert (m_stack x = false /\ m_ucp x = InMain \/ ~ (m_stack x = false /\ m_ucp x = InMain)) as [[Hst Hu]|Hmain]
    by (destruct (m_stack x), (m_ucp x); naive_solver).
  { rewrite Hst, Hu. split; [done|]. destruct (stacks s !! f) as [p|] eqn:E; [|by destruct (m_self x)].
    destruct (mem_stack s f p Hok E) as (y & Hy & Hyst & _). congruence. }
  set (k := bind (lift thread set_thread (drop_held f)) (fun last => if last then destroy_fiber f else ret tt)).
  replace (match m_stack x with true => k | false => match m_ucp x with InMain => ret tt | _ => k end end) with k
    by (destruct (m_stack x), (m_ucp x); try done; by destruct Hmain). unfold k.
  pose proof (calm_keeps (drop_held f) s Hok (calm_drop_held f (thread s))) as Hok1.
  unfold on_thread, lift, drop_held in Hok1. unfold bind at 1, lift, drop_held.
  rewrite (bind_Ok _ _ _ _ _ (fiber_deref_Ok f _ x Hx)) in Hok1 |- *.
  destruct (m_held x); [|done].
  rewrite (bind_Ok _ _ _ _ _ (fiber_update_Ok f _ (thread s) x Hx)) in Hok1 |- *. cbn [ret snd] in Hok1 |- *.
  set (s1 := set_thread _ s) in *. destruct (m_self x); cbn [negb]; [by split|].
  pose proof (destroy_fiber_spec f (set_m_held false x) s1 Hok1 ltac:(simpl; by rewrite lookup_insert_eq)) as Hd.
  destruct (destroy_fiber f s1) as [[[]| | | | |] s2]; try exact Hd; try (by destruct Hd as [Hd _]). by destruct Hd.
Qed.

(** ** Every step keeps it *)

Lemma new_fiber_keeps s cb size f s' : mem_ok s -> new_fiber cb size s = (Ok f, s') -> mem_ok s'.
Proof. intros Hok Hn. destruct (new_fiber_spec cb size s Hok) as (s1 & x & p & He & Hok1 & _). congruence. Qed.

(** An access to a fiber that is not there is undefined. *)
Lemma deref_on_thread {B} (k : Fiber -> comp Process B) s f a s' :
  bind (on_thread (deref f)) k s = (Ok a, s') ->
  exists x, fibers (heap (thread s)) !! f = Some x /\ k x s = (Ok a, s').
Proof.
  intros Hb. apply bind_Ok_inv in Hb as (x & s1 & Hd & Hk). unfold on_thread, lift, deref in Hd.
  destruct (fibers (heap (thread s)) !! f) as [y|] eqn:Hy; [|done]. injection Hd as <- <-.
  exists y. split; [done|]. by destruct s.
Qed.

Lemma release_fiber_keeps s f s' : mem_ok s -> release_fiber f s = (Ok tt, s') -> mem_ok s'.
Proof.
  intros Hok Hr. pose proof Hr as Hr'. unfold release_fiber in Hr'. apply deref_on_thread in Hr' as (x & Hx & _).
  pose proof (release_fiber_spec f x s Hok Hx) as H'. rewrite Hr in H'. apply H'.
Qed.

Lemma destroy_fiber_keeps s f s' : mem_ok s -> destroy_fiber f s = (Ok tt, s') -> mem_ok s'.
Proof.
  intros Hok Hr. pose proof Hr as Hr'. unfold destroy_fiber in Hr'. apply deref_on_thread in Hr' as (x & Hx & _).
  pose proof (destroy_fiber_spec f x s Hok Hx) as H'. rewrite Hr in H'. apply H'.
Qed.

Lemma on_thread_keeps {B} (m : comp Thread B) s b s' : mem_ok s -> calm m -> on_thread m s = (Ok b, s') -> mem_ok s'.
Proof. intros Hok Hm Hs. pose proof (calm_keeps m s Hok (Hm (thread s))) as H'. by rewrite Hs in H'. Qed.

Lemma leave_fiber_keeps s f s' : mem_ok s -> leave_fiber f s = (Ok tt, s') -> mem_ok s'.
Proof.
  intros Hok Hr. unfold leave_fiber in Hr. apply bind_Ok_inv in Hr as (last & s1 & E1 & Hr).
  assert (mem_ok s1) as Hok1 by (eapply on_thread_keeps; [exact Hok|apply calm_mainFunc_end|exact E1]).
  apply bind_Ok_inv in Hr as ([] & s2 & E2 & Hr).
  eapply on_thread_keeps; [|apply calm_mainFunc_yield|exact Hr].
  destruct last; [by eapply destroy_fiber_keeps|by injection E2 as <-].
Qed.

Lemma resume_fiber_keeps s f s' : mem_ok s -> resume_fiber f s = (Ok tt, s') -> mem_ok s'.
Proof.
  intros Hok Hr. unfold resume_fiber in Hr. apply deref_on_thread in Hr as (x & Hx & Hr).
  destruct (m_ucp x), (m_stack x); try done;
    (eapply on_thread_keeps; [exact Hok|apply calm_resume|exact Hr]).
Qed.

(** A call of a body after the control has moved on. *)
Lemma body_call_keeps {B} s curr rest (m : comp Process B) es s' :
  mem_ok s -> (forall s1 b s2, mem_ok s1 -> m s1 = (Ok b, s2) -> mem_ok s2) ->
  bind (on_thread (modify (set_control (InBody curr rest)))) (fun _ => bind m (fun _ => ret ([] : list event))) s =
    (Ok es, s') -> mem_ok s'.
Proof.
  intros Hok Hm Hb. apply bind_Ok_inv in Hb as ([] & s1 & E1 & Hb).
  apply bind_Ok_inv in Hb as (b & s2 & E2 & [= _ <-]).
  eapply Hm; [|exact E2]. by eapply on_thread_keeps; [exact Hok|apply calm_modify|exact E1].
Qed.

Lemma pstep_keeps s s' : mem_ok s -> pstep s s' -> mem_ok s'.
Proof.
  intros Hok Hs. destruct Hs as [s cb size f s' Hn|s f s' Hr|s f s' Hr|s f cb s' Hr|s es s' Hb].
  - by eapply new_fiber_keeps.
  - by eapply release_fiber_keeps.
  - by eapply resume_fiber_keeps.
  - eapply on_thread_keeps; [exact Hok|apply calm_reset|exact Hr].
  - unfold body_step in Hb. assert (match control (thread s) with InBody _ (c :: _) => takes_stack c = false | InBody _ [] => False | _ => True end ->
      on_thread (fiber_step cfg_stack_size) s = (Ok es, s') -> mem_ok s') as Hplain.
    { intros Hc Hs. pose proof (calm_keeps _ s Hok (calm_fiber_step (thread s) Hc)) as H'. by rewrite Hs in H'. }
    destruct (control (thread s)) as [|curr [|[] rest]| | |]; try (by apply Hplain).
    { apply bind_Ok_inv in Hb as ([] & s2 & E2 & [= _ <-]). by eapply leave_fiber_keeps. }
    all: (eapply body_call_keeps; [exact Hok| |exact Hb]); intros s1 [] s2; eauto using new_fiber_keeps, release_fiber_keeps, resume_fiber_keeps.
Qed.

(** A thread that has called [Fiber::GetThis], and an allocator that has given out
    nothing. *)
Definition process0 (a : A) : Process := mkProcess thread0 a ∅.

Lemma process0_ok a : blocks a = ∅ -> mem_ok (process0 a).
Proof.
  intros Ha. destruct thread0_ok as (m & _ & Hx). change (control thread0) with InMain in Hx. destruct Hx as [_ Hh].
  split; cbn [thread memory stacks process0]; rewrite ?Ha.
  - intros f x. apply (heap_next _ _ _ _ Hh).
  - intros f. rewrite lookup_empty, sizes_lookup.
    change (fibers (heap thread0)) with ({[(0%nat : ptr) := mkFiber 0 0 RUNNING InMain false None true false]} : gmap ptr Fiber).
    destruct (decide (f = 0%nat)) as [->|Hne]; [by rewrite lookup_singleton_eq|by rewrite lookup_singleton_ne].
  - intros f p. by rewrite lookup_empty.
  - intros f g p. by rewrite lookup_empty.
  - intros p. rewrite lookup_empty. by intros [].
Qed.

(** C36: (safety) The stacks of the fibers are memory-safe.  Whatever the main fiber and
    the bodies do (creating, releasing, resuming, resetting fibers, and any other call),
    from an allocator that has given out nothing: at every point the allocator's blocks
    are exactly the stacks of the fibers alive, one each and of the size asked for;
    dropping the last outside reference to a fiber frees its block and no other, except
    that a fiber to which its own stack refers keeps its block (a suspended fiber that is
    released leaks it); it never frees what is not allocated, and its only other outcomes
    are the assertion of the destructor, for a running or suspended fiber without its own
    reference, and the misuse of a reference that is not there; when no fiber with a stack
    is left, neither is memory.  Creating a fiber always returns, also when [malloc] has
    failed: nothing tests its result, and the new fiber then has no stack. *)
Theorem stacks_safe a s : blocks a = ∅ -> rtc pstep (process0 a) s ->
  (forall p n, blocks (memory s) !! p = Some n <->
     exists f x, stacks s !! f = Some p /\ fibers (heap (thread s)) !! f = Some x /\ m_stack x = true /\ m_stacksize x = n) /\
  (forall f g p, stacks s !! f = Some p -> stacks s !! g = Some p -> f = g) /\
  (forall f x, fibers (heap (thread s)) !! f = Some x ->
     match release_fiber f s with
     | (Ok _, s') => blocks (memory s') = if m_self x then blocks (memory s) else
         match stacks s !! f with Some p => delete p (blocks (memory s)) | None => blocks (memory s) end
     | (Abort, _) => m_self x = false /\ ~ (m_state x = INIT \/ m_state x = TERM)
     | (o, _) => o = UB /\ m_held x = false
     end) /\
  ((forall f x, fibers (heap (thread s)) !! f = Some x -> m_stack x = false) -> blocks (memory s) = ∅) /\
  (forall cb size, exists s' x, let f := next_ptr (heap (thread s)) in
     new_fiber cb size s = (Ok f, s') /\ fibers (heap (thread s')) !! f = Some x /\ m_cb x = Some cb /\
     (m_stack x = true <-> is_Some (fst (malloc (memory s) (m_stacksize x))))).
Proof.
  intros Ha Hr. assert (mem_ok s) as Hok.
  { eapply rtc_invariant; [exact pstep_keeps|by apply process0_ok|exact Hr]. }
  assert (forall p n, blocks (memory s) !! p = Some n ->
    exists f x, stacks s !! f = Some p /\ fibers (heap (thread s)) !! f = Some x /\ m_stack x = true /\ m_stacksize x = n) as Hown.
  { intros p n Hp. destruct (mem_all s Hok p) as [f Hf]; [by eexists|].
    destruct (mem_stack s f p Hok Hf) as (x & Hx & Hst & Hn). exists f, x. split_and!; congruence. }
  split_and!; [|by apply mem_inj| | |].
  - intros p n. split; [apply Hown|]. intros (f & x & Hf & Hx & Hst & <-).
    destruct (mem_block s f x Hok Hx Hst) as (q & Hq & Hn). congruence.
  - intros f x Hx. pose proof (release_fiber_spec f x s Hok Hx) as H'. destruct (release_fiber f s) as [[] ?]; tauto.
  - intros Hnone. apply map_empty. intros p. destruct (blocks (memory s) !! p) as [n|] eqn:Hp; [|done].
    destruct (Hown p n Hp) as (f & x & _ & Hx & Hst & _). by rewrite (Hnone f x Hx) in Hst.
  - intros cb size. destruct (new_fiber_spec cb size s Hok) as (s' & x & p & He & _ & Hx & Hcb & Hp & _ & Hst).
    exists s', x. cbv zeta in *. rewrite Hp. done.
Qed.
End Stacks.

(** ** Witness *)

(** An allocator with an arena of [limit] blocks that are not used again. *)
Definition arena_malloc (limit : nat) : Malloc (list (option Z)) := {|
  malloc a n := if (length a <? limit)%nat then (Some (length a), a ++ [Some n]) else (None, a);
  free a p := match a !! p with Some (Some _) => Some (<[p := None]> a) | _ => None end;
  blocks a := omap id (map_seq 0 a : gmap nat (option Z))
|}.

Lemma arena_lookup limit (a : list (option Z)) p : @blocks _ (arena_malloc limit) a !! p = a !! p ≫= id.
Proof. simpl. by rewrite lookup_omap, lookup_map_seq_0. Qed.

Lemma arena_malloc_laws limit : @MallocLaws _ (arena_malloc limit).
Proof.
  split.
  - intros a n p a' Hm. simpl in Hm. destruct (length a <? limit)%nat; [|done]. injection Hm as <- <-. split.
    + rewrite arena_lookup. by rewrite lookup_ge_None_2.
    + apply map_eq. intros q. rewrite arena_lookup. destruct (decide (length a = q)) as [<-|Hne].
      * rewrite lookup_insert_eq, lookup_app_r, Nat.sub_diag by done. done.
      * rewrite lookup_insert_ne, arena_lookup by done. destruct (decide (q < length a)%nat).
        { by rewrite lookup_app_l. }
        rewrite !lookup_ge_None_2; [done|lia|rewrite length_app; simpl; lia].
  - intros a n a' Hm. simpl in Hm. destruct (length a <? limit)%nat; [done|by injection Hm as <-].
  - intros a p. rewrite arena_lookup. simpl. destruct (a !! p) as [[z|]|] eqn:Hp; [|by intros []..].
    intros _. eexists. split; [done|]. apply map_eq. intros q.
    change (@blocks _ (arena_malloc limit) (<[p := None]> a) !! q = delete p (@blocks _ (arena_malloc limit) a) !! q).
    rewrite arena_lookup. destruct (decide (p = q)) as [<-|Hne].
    + rewrite lookup_delete_eq, list_lookup_insert_eq; [done|by eapply lookup_lt_Some].
    + by rewrite lookup_delete_ne, arena_lookup, list_lookup_insert_ne.
Qed.

Section witness.
#[local] Instance arena : Malloc (list (option Z)) := arena_malloc 1.
#[local] Instance arena_laws : MallocLaws (list (option Z)) := arena_malloc_laws 1.

(** Two fibers, the second of which gets no memory; the first is released. *)
Definition two_fibers : Process (A := list (option Z)) :=
  snd (bind (new_fiber 4096 [Work 1] 0) (fun _ => new_fiber 4096 [Work 2] 0) (process0 [])).

Lemma two_fibers_reachable : rtc (pstep 4096) (process0 []) two_fibers.
Proof.
  eapply rtc_l; [by eapply (pstep_new 4096 _ [Work 1] 0 1%nat)|].
  apply rtc_once. eapply (pstep_new 4096 _ [Work 2] 0 2%nat). by vm_compute.
Qed.

Lemma stacks_safe_witness :
  (forall p n, blocks (memory two_fibers) !! p = Some n <->
     exists f x, stacks two_fibers !! f = Some p /\ fibers (heap (thread two_fibers)) !! f = Some x /\
       m_stack x = true /\ m_stacksize x = n) /\
  blocks (memory two_fibers) = {[ 0%nat := 4096 ]} /\
  exists s', release_fiber 1%nat two_fibers = (Ok tt, s') /\ blocks (memory s') = delete 0%nat (blocks (memory two_fibers)).
Proof.
  destruct (stacks_safe 4096 [] two_fibers ltac:(by vm_compute) two_fibers_reachable) as (Hown & _ & Hrel & _).
  split; [exact Hown|]. split; [by vm_compute|].
  pose proof (Hrel 1%nat (mkFiber 1 4096 INIT AtMainFunc true (Some [Work 1]) true false) ltac:(by vm_compute)) as Hr.
  destruct (release_fiber 1%nat two_fibers) as [o s'] eqn:E.
  assert (o = Ok tt) as -> by (change o with (fst (o, s')); rewrite <- E; by vm_compute).
  exists s'. split; [done|]. rewrite Hr. by vm_compute.
Defined.
End witness.
