(* ===== verification/Utils.v ===== *)
(** * Utils: clock, identifiers, backtraces, singletons

    Models [cczoecpp/utils/]: [getInfo.cpp], the two [backtrace] functions of
    [debug.cpp] and the templates of [singleton.h].  The wall clock, the frames of
    the stack and their names are arguments. *)

From stdpp Require Import base list numbers strings.
From S2P Require Import Prelude Words Fiber.

Local Open Scope Z_scope.

(** ** [getInfo.cpp] *)

Record timeval : Type := mkTimeval { tv_sec : Z; tv_usec : Z }.

(** [tv.tv_sec * 1000ul + tv.tv_usec / 1000]: unsigned in 64 bits, but for the
    division. *)
Definition getCurrentMs (tv : timeval) : Z :=
  wrap 64 (wrap 64 (wrap 64 (tv_sec tv) * 1000) + wrap 64 (Z.quot (tv_usec tv) 1000)).
Definition getCurrentUs (tv : timeval) : Z :=
  wrap 64 (wrap 64 (wrap 64 (wrap 64 (tv_sec tv) * 1000) * 1000) + wrap 64 (tv_usec tv)).

Definition getThreadId (tid : Z) : Z := tid.

(** [Fiber::GetThis()->getId()], which makes the main fiber of the thread. *)
Definition getFiberId : comp Thread Z :=
  let! f := GetThis in
  let! x := deref f in
  ret (getId x).

(** ** [debug.cpp] *)

(** The heap blocks that are live, and what has been appended to [bt]. *)
Record Backtrace : Type := mkBacktrace { live : list string; bt : list string }.

Definition malloc (what : string) : comp Backtrace unit :=
  modify (fun s => mkBacktrace (what :: live s) (bt s)).
Definition free (what : string) : comp Backtrace unit :=
  modify (fun s => mkBacktrace (filter (fun x => x <> what) (live s)) (bt s)).

(** The loop [for (size_t i = skip; i < s; i++)]: [skip] is an [int], a negative one
    becomes a huge index. *)
Definition frames_from (skip : Z) (strings : list string) : list string :=
  if wrap 64 skip <? Z.of_nat (length strings) then drop (Z.to_nat (wrap 64 skip)) strings else [].

(** [names] are the frames of the stack, or [None] when [backtrace_symbols] fails. *)
Definition backtrace (names : option (list string)) (size : nat) (skip : Z) : comp Backtrace unit :=
  do! malloc "array" in
  match names with
  | None => ret tt
  | Some names =>
      do! malloc "strings" in
      do! modify (fun s => mkBacktrace (live s) (bt s ++ frames_from skip (take size names))) in
      do! free "strings" in
      free "array"
  end.

(** [ss << "\t" << bt[i] << std::endl;] *)
Fixpoint indent (l : list string) : string :=
  match l with
  | [] => EmptyString
  | x :: l => String (Ascii.ascii_of_nat 9) (x +:+ String (Ascii.ascii_of_nat 10) (indent l))
  end.

Definition backtraceToString (names : option (list string)) (size : nat) (skip : Z) : outcome string * Backtrace :=
  (let! _ := backtrace names size skip in get (fun s => indent (bt s))) (mkBacktrace [] []).

(** ** [singleton.h] *)

Section Singleton.
Context {T : Type} (make : T).

(** A [static] local: made by the first call; the address never changes. *)
Definition GetInstance : comp (option T) T := fun s =>
  match s with
  | Some t => (Ok t, s)
  | None => (Ok make, Some make)
  end.

(** The object a call hands out is the one all later calls hand out, changes made to
    it included. *)
Lemma GetInstance_same (s : option T) t s' (f : T -> T) :
  GetInstance s = (Ok t, s') -> GetInstance (f <$> s') = (Ok (f t), f <$> s').
Proof. destruct s; simpl; intros [= <- <-]; done. Qed.
End Singleton.

(** ** Theorems *)

(** Up to the year 2554 the two clocks agree: milliseconds are the microseconds
    divided by 1000, neither wraps. *)
Lemma clocks_agree sec usec :
  0 <= sec < 2 ^ 44 -> 0 <= usec < 1000000 ->
  getCurrentUs (mkTimeval sec usec) = sec * 1000000 + usec /\
  getCurrentMs (mkTimeval sec usec) = getCurrentUs (mkTimeval sec usec) / 1000.
Proof.
  intros Hs Hu. unfold getCurrentUs, getCurrentMs, wrap. cbn [tv_sec tv_usec].
  rewrite Z.quot_div_nonneg by lia. split.
  - rewrite !(Z.mod_small sec), !(Z.mod_small usec) by lia. rewrite (Z.mod_small (sec * 1000)) by lia.
    rewrite (Z.mod_small (sec * 1000 * 1000)) by lia. rewrite Z.mod_small; lia.
  - assert (0 <= usec / 1000 < 1000) by (Z.to_euclidean_division_equations; lia).
    rewrite !(Z.mod_small sec), !(Z.mod_small usec), !(Z.mod_small (usec / 1000)) by lia.
    rewrite !(Z.mod_small (sec * 1000)), (Z.mod_small (sec * 1000 * 1000)) by lia.
    rewrite !Z.mod_small by lia.
    replace (sec * 1000 * 1000 + usec) with (usec + (sec * 1000) * 1000) by lia.
    rewrite Z.div_add by lia. lia.
Qed.

(** A backtrace frees what it allocates and gives the frames after the first [skip];
    when the names cannot be had, the array is lost. *)
Lemma backtrace_frees names size skip :
  0 <= skip < 2 ^ 31 -> Z.of_nat size < 2 ^ 31 ->
  backtrace (Some names) size skip (mkBacktrace [] []) =
    (Ok tt, mkBacktrace [] (drop (Z.to_nat skip) (take size names))).
Proof.
  intros Hk Hs. unfold backtrace, malloc, free. rewrite !bind_modify. cbn. f_equal. f_equal.
  unfold frames_from, wrap. rewrite !Z.mod_small by lia.
  destruct (Z.ltb_spec skip (Z.of_nat (length (take size names)))); [done|].
  by rewrite drop_ge by lia.
Qed.

Lemma backtrace_leaks size skip :
  backtrace None size skip (mkBacktrace [] []) = (Ok tt, mkBacktrace ["array"] []).
Proof. done. Qed.
