(* ===== verification/Scheduler.v ===== *)
(** * Scheduler: worker threads over a shared queue of fibers

    Models [cczoecpp/Scheduler/scheduler.cpp] and [scheduler.h].  Each worker
    thread runs [Scheduler::run] in its main fiber: take the first task under the
    mutex and resume it, or resume the idle fiber.  A step of the system is a step
    of one worker; the sections under [m_mutex] are single steps. *)

From stdpp Require Import base list numbers gmap.
From S2P Require Import Prelude Words Fiber.

Local Open Scope Z_scope.

(** [ScheduleTask]: null fiber and null function are both possible. *)
Record ScheduleTask : Type := mkScheduleTask {
  task_fiber : option ptr; task_cb : option (list cmd); task_threadId : Z
}.

Definition ScheduleTask_default : ScheduleTask := mkScheduleTask None None (-1).
Definition ScheduleTask_fiber (f : option ptr) (thr : Z) : ScheduleTask := mkScheduleTask f None thr.
Definition ScheduleTask_cb (f : option (list cmd)) (thr : Z) : ScheduleTask := mkScheduleTask None f thr.
Definition ScheduleTask_reset : ScheduleTask := mkScheduleTask None None (-1).

(** Where a worker is in [run]: before the loop, at the test of the queue, with a
    task in hand, after the return of the idle fiber. *)
Inductive run_pc : Type := AtStart | AtLoop | HasTask (task : ptr) | AfterIdle.

(** A worker: the thread-locals of [Fiber.cpp], its control, and the locals of
    [run]. *)
Record Worker : Type := mkWorker {
  w_t_fiber : option ptr;
  w_t_threadFiber : option ptr;
  w_control : ucontext_t;
  w_pc : run_pc;
  w_idleFiber : option ptr
}.

Record Scheduler : Type := mkScheduler {
  m_tasks : list ptr;
  m_stopCommand : bool;
  m_idleThreadCount : Z;
  m_threadCount : nat;
  m_threads : list Worker;
  process : Heap;              (* the fibers of the process *)
  output : list nat            (* the visible work, in order *)
}.

Definition set_m_tasks (v : list ptr) (s : Scheduler) : Scheduler :=
  mkScheduler v (m_stopCommand s) (m_idleThreadCount s) (m_threadCount s) (m_threads s) (process s) (output s).
Definition set_m_stopCommand (v : bool) (s : Scheduler) : Scheduler :=
  mkScheduler (m_tasks s) v (m_idleThreadCount s) (m_threadCount s) (m_threads s) (process s) (output s).
Definition set_m_idleThreadCount (v : Z) (s : Scheduler) : Scheduler :=
  mkScheduler (m_tasks s) (m_stopCommand s) v (m_threadCount s) (m_threads s) (process s) (output s).
Definition set_m_threads (v : list Worker) (s : Scheduler) : Scheduler :=
  mkScheduler (m_tasks s) (m_stopCommand s) (m_idleThreadCount s) (m_threadCount s) v (process s) (output s).
Definition set_process (v : Heap) (s : Scheduler) : Scheduler :=
  mkScheduler (m_tasks s) (m_stopCommand s) (m_idleThreadCount s) (m_threadCount s) (m_threads s) v (output s).
Definition set_output (v : list nat) (s : Scheduler) : Scheduler :=
  mkScheduler (m_tasks s) (m_stopCommand s) (m_idleThreadCount s) (m_threadCount s) (m_threads s) (process s) v.

(** The thread a worker is, and the worker a thread becomes. *)
Definition thread_of (w : Worker) (h : Heap) : Thread :=
  mkThread h (w_t_fiber w) (w_t_threadFiber w) (w_control w).
Definition worker_of (w : Worker) (t : Thread) : Worker :=
  mkWorker (t_fiber t) (t_threadFiber t) (control t) (w_pc w) (w_idleFiber w).

(** A fiber operation executed by worker [i]. *)
Definition in_thread {A} (i : nat) (m : comp Thread A) : comp Scheduler A := fun s =>
  match m_threads s !! i with
  | None => (UB, s)
  | Some w =>
      let '(o, t) := m (thread_of w (process s)) in
      (o, set_process (heap t) (set_m_threads (<[i := worker_of w t]> (m_threads s)) s))
  end.

Definition set_pc (i : nat) (pc : run_pc) : comp Scheduler unit := modify (fun s =>
  set_m_threads (alter (fun w => mkWorker (w_t_fiber w) (w_t_threadFiber w) (w_control w) pc (w_idleFiber w))
                   i (m_threads s)) s).
Definition set_idleFiber (i : nat) (f : ptr) : comp Scheduler unit := modify (fun s =>
  set_m_threads (alter (fun w => mkWorker (w_t_fiber w) (w_t_threadFiber w) (w_control w) (w_pc w) (Some f))
                   i (m_threads s)) s).

Section Scheduler.
Context (cfg_stack_size : Z).

(** [Scheduler::Scheduler(name, threadCount)]. *)
Definition Scheduler_ctor (threadCount : nat) (h : Heap) : Scheduler :=
  mkScheduler [] false 0 threadCount [] h [].

(** [start]: one thread per worker, each about to run [run]. *)
Definition start : comp Scheduler unit := modify (fun s =>
  set_m_threads (repeat (mkWorker None None InMain AtStart None) (m_threadCount s)) s).

(** [schedule] by worker [i]: a null task is dropped, a function becomes a new
    fiber. *)
Definition schedule (i : nat) (task : ScheduleTask) : comp Scheduler unit :=
  match task_fiber task with
  | Some f =>
      let! _ := in_thread i (deref f) in
      modify (fun s => set_m_tasks (m_tasks s ++ [f]) s)
  | None =>
      match task_cb task with
      | Some cb =>
          let! f := in_thread i (Fiber_ctor cfg_stack_size cb 0) in
          modify (fun s => set_m_tasks (m_tasks s ++ [f]) s)
      | None => ret tt
      end
  end.

(** The effects of a call of a fiber body. *)
Definition handle (i : nat) (e : event) : comp Scheduler unit :=
  match e with
  | Worked n => modify (fun s => set_output (output s ++ [n]) s)
  | Scheduled f => schedule i (ScheduleTask_fiber (Some f) (-1))
  | ScheduledCb cb => schedule i (ScheduleTask_cb (Some cb) (-1))
  end.

Fixpoint handle_all (i : nat) (es : list event) : comp Scheduler unit :=
  match es with
  | [] => ret tt
  | e :: es => do! handle i e in handle_all i es
  end.

(** [idle]: test [m_stopCommand]; unless it is set, yield and test again. *)
Definition idle (i : nat) (curr : ptr) (rest : list cmd) : comp Scheduler unit :=
  let! stop := get m_stopCommand in
  in_thread i (modify (set_control (InBody curr
    (if stop : bool then rest else YieldToReady_ :: IdleLoop :: rest)))).

(** The next step of [run] in the main fiber of worker [i].  The [task.reset()] at the
    head of the loop drops the worker's reference to the fiber it has resumed; the
    references from outside of a fiber are one flag here ([m_held]), and it stays set: a
    fiber that nobody refers to any more is destroyed by [Fiber.drop_held] ([Stacks]),
    which is not a step of this system. *)
Definition run_step (i : nat) (w : Worker) : comp Scheduler unit :=
  match w_pc w with
  | AtStart =>
      let! _ := in_thread i GetThis in
      let! f := in_thread i (Fiber_ctor cfg_stack_size [IdleLoop] 0) in
      do! set_idleFiber i f in
      set_pc i AtLoop
  | AtLoop =>
      let! tasks := get m_tasks in
      match tasks with
      | task :: rest =>
          do! modify (set_m_tasks rest) in
          set_pc i (HasTask task)
      | [] =>
          do! modify (fun s => set_m_idleThreadCount (wrap 64 (m_idleThreadCount s + 1)) s) in
          match w_idleFiber w with
          | None => fail UB
          | Some f =>
              do! in_thread i (setIdle f) in
              do! set_pc i AfterIdle in
              in_thread i (resume f)
          end
      end
  | HasTask task =>
      do! set_pc i AtLoop in
      in_thread i (resume task)
  | AfterIdle =>
      do! modify (fun s => set_m_idleThreadCount (wrap 64 (m_idleThreadCount s - 1)) s) in
      set_pc i AtLoop
  end.

(** One step of worker [i]. *)
Definition worker_step (i : nat) : comp Scheduler unit := fun s =>
  match m_threads s !! i with
  | None => (UB, s)
  | Some w =>
      match w_control w with
      | InMain => run_step i w s
      | InBody curr (IdleLoop :: rest) => idle i curr rest s
      | ThreadExit => (Ok tt, s)
      | _ => bind (in_thread i (fiber_step cfg_stack_size)) (handle_all i) s
      end
  end.

(** [n] steps of worker [i]. *)
Fixpoint worker_steps (i n : nat) : comp Scheduler unit :=
  match n with
  | O => ret tt
  | S n => do! worker_step i in worker_steps i n
  end.

(** Worker steps in the order given by the operating system. *)
Fixpoint interleave (order : list nat) : comp Scheduler unit :=
  match order with
  | [] => ret tt
  | i :: order => do! worker_step i in interleave order
  end.

(** [stop]: the command, then the wait for an empty queue ([stop_ready] is the
    test of its loop), then [join] of every thread ([joined]). *)
Definition stop_command : comp Scheduler unit := modify (set_m_stopCommand true).
Definition stop_ready (s : Scheduler) : bool :=
  match m_tasks s with [] => true | _ => false end.
Definition joined (s : Scheduler) : bool :=
  forallb (fun w => match w_control w with ThreadExit => true | _ => false end) (m_threads s).
End Scheduler.

(** An execution: any worker steps, or another thread gives the stop command. *)
Inductive sstep (cfg : Z) : Scheduler -> Scheduler -> Prop :=
  | step_worker s i s' : worker_step cfg i s = (Ok tt, s') -> sstep cfg s s'
  | step_stop s s' : stop_command s = (Ok tt, s') -> sstep cfg s s'.
