(* ===== verification/SchedulerTheorems.v ===== *)
(** * SchedulerTheorems: first come, first served; races; shutdown

    What one worker does in a round of [Scheduler::run], what two workers can do
    to each other, and how the worker threads end. *)

From stdpp Require Import base list numbers gmap sets.
From S2P Require Import Prelude Words Fiber FiberTheorems Scheduler.

Local Open Scope Z_scope.

(** Worker [i] is the thread [t] at [pc]. *)
Definition runs (i : nat) (s : Scheduler) (t : Thread) (pc : run_pc) : Prop :=
  exists w, m_threads s !! i = Some w /\ thread_of w (process s) = t /\ w_pc w = pc.

(** The parts of the scheduler a fiber operation leaves alone. *)
Record same_env (i : nat) (s s' : Scheduler) : Prop := mkSameEnv {
  same_tasks : m_tasks s' = m_tasks s;
  same_stop : m_stopCommand s' = m_stopCommand s;
  same_idle : m_idleThreadCount s' = m_idleThreadCount s;
  same_output : output s' = output s;
  same_threads : forall j, j <> i -> m_threads s' !! j = m_threads s !! j
}.

Lemma thread_of_worker_of w t : thread_of (worker_of w t) (heap t) = t.
Proof. by destruct t. Qed.

Lemma in_thread_runs {A} i (m : comp Thread A) s t t' pc a :
  runs i s t pc -> m t = (Ok a, t') ->
  exists s', in_thread i m s = (Ok a, s') /\ runs i s' t' pc /\ same_env i s s' /\ process s' = heap t'.
Proof.
  intros (w & Hw & Ht & Hpc) Hm. unfold in_thread. rewrite Hw, Ht, Hm.
  eexists. split; [done|]. split; [|split; [|done]].
  - exists (worker_of w t'). simpl. split; [|split; [apply thread_of_worker_of|done]].
    apply list_lookup_insert_eq. by eapply lookup_lt_Some.
  - split; try done. intros j Hj. simpl. by apply list_lookup_insert_ne.
Qed.

Lemma runs_control i s t pc :
  runs i s t pc -> exists w, m_threads s !! i = Some w /\ w_control w = control t /\ w_pc w = pc /\
    thread_of w (process s) = t.
Proof. intros (w & ? & <- & ?). by exists w. Qed.

Lemma same_env_refl i s : same_env i s s.
Proof. by split. Qed.

(** ** Scheduling requests *)

(** The requests a body makes with [schedule], in order. *)
Definition requests (f : ptr) (pre : list cmd) : list (ptr + list cmd) :=
  flat_map (fun c => match c with
                     | ScheduleFiber g => [inl g]
                     | ScheduleSelf => [inl f]
                     | ScheduleCb cb => [inr cb]
                     | _ => []
                     end) pre.

(** The visible work of a body. *)
Definition works (pre : list cmd) : list nat :=
  flat_map (fun c => match c with Work n => [n] | _ => [] end) pre.

(** The task queued for a request of [f]: the fiber itself, or a fresh fiber with
    the function as its body. *)
Definition queued (f : ptr) (h : Heap) (r : ptr + list cmd) (p : ptr) : Prop :=
  match r with inl g => p = g | inr cb => p <> f /\ is_Some (fibers h !! p) /\ pending h p = Some cb end.

(** Fibers named by [ScheduleFiber] exist. *)
Definition targets_exist (h : Heap) (pre : list cmd) : Prop :=
  Forall (fun c => match c with ScheduleFiber g => is_Some (fibers h !! g) | _ => True end) pre.

(** [h'] extends [h] away from [f]. *)
Definition extends (f : ptr) (h h' : Heap) : Prop :=
  forall g, g <> f -> is_Some (fibers h !! g) -> fibers h' !! g = fibers h !! g.

Lemma pending_extends f h h' g cs : extends f h h' -> g <> f -> pending h g = Some cs -> pending h' g = Some cs.
Proof.
  unfold pending, left_code. intros He Hg. destruct (fibers h !! g) as [x|] eqn:Hx; [|done].
  rewrite (He g Hg) by (rewrite Hx; by eexists). by rewrite Hx.
Qed.

Lemma queued_extends f h h' r p : extends f h h' -> queued f h r p -> queued f h' r p.
Proof.
  intros He. destruct r as [g|cb]; [done|]. intros (Hp & Hs & Hq). split; [done|].
  rewrite (He p Hp Hs). split; [done|]. by eapply pending_extends.
Qed.

Lemma extends_trans f h1 h2 h3 : extends f h1 h2 -> extends f h2 h3 -> extends f h1 h3.
Proof. intros H1 H2 g Hg Hs. rewrite (H2 g Hg); [by apply H1|]. by rewrite (H1 g Hg Hs). Qed.

(** A worker in the middle of a task: [f], to which its reference to the task (or
    another one) refers, has [cs] left to do. *)
Definition in_body (i : nat) (others : gset ptr) (s : Scheduler) (f : ptr) (cs : list cmd) : Prop :=
  exists t, runs i s t AtLoop /\ thread_ok others t /\ referred (heap t) f /\ control t = InBody f cs.

(** What a stretch of the body of [f] does to the scheduler. *)
Record advances (i : nat) (f : ptr) (pre : list cmd) (s s' : Scheduler) : Prop := mkAdvances {
  adv_tasks : exists fs, m_tasks s' = m_tasks s ++ fs /\ Forall2 (queued f (process s')) (requests f pre) fs;
  adv_output : output s' = output s ++ works pre;
  adv_heap : extends f (process s) (process s');
  adv_stop : m_stopCommand s' = m_stopCommand s;
  adv_idle : m_idleThreadCount s' = m_idleThreadCount s;
  adv_threads : forall j, j <> i -> m_threads s' !! j = m_threads s !! j
}.

Lemma advances_nil i f s : advances i f [] s s.
Proof. split; try done; [exists []|by rewrite app_nil_r]. by rewrite app_nil_r. Qed.

Lemma advances_app i f a b s1 s2 s3 :
  advances i f a s1 s2 -> advances i f b s2 s3 -> advances i f (a ++ b) s1 s3.
Proof.
  intros [(fa & Ha & Hfa) Hoa Hha Hsa Hia Hta] [(fb & Hb & Hfb) Hob Hhb Hsb Hib Htb]. split.
  - exists (fa ++ fb). split; [by rewrite Hb, Ha, app_assoc|].
    unfold requests in *. rewrite flat_map_app. apply Forall2_app; [|done].
    eapply Forall2_impl; [done|]. intros r p. by apply queued_extends.
  - rewrite Hob, Hoa. unfold works. by rewrite flat_map_app, app_assoc.
  - by eapply extends_trans.
  - congruence.
  - congruence.
  - intros j Hj. by rewrite (Htb j Hj), (Hta j Hj).
Qed.

Lemma same_env_trans i s1 s2 s3 : same_env i s1 s2 -> same_env i s2 s3 -> same_env i s1 s3.
Proof. intros [] []. split; try congruence. intros j Hj. rewrite <- same_threads0; auto. Qed.

(** A fiber operation that creates at most new fibers, then new tasks and work. *)
Lemma advances_env i f k s s1 fs es :
  same_env i s s1 -> extends f (process s) (process s1) ->
  Forall2 (queued f (process s1)) (requests f [k]) fs -> works [k] = es ->
  advances i f [k] s (set_output (output s1 ++ es) (set_m_tasks (m_tasks s1 ++ fs) s1)).
Proof.
  intros [] He Hf Hw. split; try done.
  - exists fs. simpl. by rewrite same_tasks0.
  - cbn [output set_output set_m_tasks]. by rewrite same_output0, Hw.
Qed.

(** [schedule] of an existing fiber, and of a function. *)
Lemma schedule_fiber_runs cfg i s t pc g :
  runs i s t pc -> is_Some (fibers (heap t) !! g) ->
  exists s', schedule cfg i (ScheduleTask_fiber (Some g) (-1)) s =
      (Ok tt, set_m_tasks (m_tasks s' ++ [g]) s') /\
    runs i s' t pc /\ same_env i s s' /\ process s' = heap t.
Proof.
  intros Hr [x Hx]. destruct (in_thread_runs i (deref g) s t t pc x Hr (fiber_deref_Ok _ _ _ Hx))
    as (s' & Hin & Hr' & He & Hp).
  exists s'. unfold schedule. cbn [task_fiber ScheduleTask_fiber]. by rewrite (bind_Ok _ _ _ _ _ Hin).
Qed.

Lemma schedule_cb_runs cfg i others s t pc f rest cb :
  runs i s t pc -> thread_ok others t -> control t = InBody f rest ->
  exists s' t' p, schedule cfg i (ScheduleTask_cb (Some cb) (-1)) s =
      (Ok tt, set_m_tasks (m_tasks s' ++ [p]) s') /\
    runs i s' t' pc /\ thread_ok others t' /\ control t' = InBody f rest /\ same_env i s s' /\
    queued f (process s') (inr cb) p /\ extends f (heap t) (process s') /\ (referred (heap t) f -> referred (heap t') f).
Proof.
  intros Hr Hok Hc.
  destruct (new_ok others cfg t f rest cb Hok Hc) as (t' & Hn & Hok' & Hc' & _ & Hfr & Hne & Hp).
  destruct (in_thread_runs i _ s t t' pc _ Hr Hn) as (s' & Hin & Hr' & He & Hps).
  exists s', t', (next_ptr (heap t)). unfold schedule. cbn [task_fiber ScheduleTask_cb task_cb].
  rewrite (bind_Ok _ _ _ _ _ Hin). do 4 (split; [done|]). split; [done|]. rewrite Hps. split; [|split].
  - split; [done|]. split; [|done]. unfold pending in Hp.
    destruct (fibers (heap t') !! next_ptr (heap t)); [by eexists|done].
  - intros g _. apply Hfr.
  - intros Hh. eapply held_same; [|exact Hh]. apply Hfr. destruct Hh as (x & Hx & _). by exists x.
Qed.

Lemma runs_set i s t pc v : runs i s t pc -> runs i (set_m_tasks v s) t pc.
Proof. intros (w & ? & ? & ?). by exists w. Qed.

Section round.
Context (cfg : Z) (i : nat) (others : gset ptr).

Lemma worker_step_body s t f k rest :
  runs i s t AtLoop -> control t = InBody f (k :: rest) -> k <> IdleLoop ->
  worker_step cfg i s = bind (in_thread i (fiber_step cfg)) (handle_all cfg i) s.
Proof.
  intros Hr Hc Hk. destruct (runs_control _ _ _ _ Hr) as (w & Hw & Hwc & _).
  unfold worker_step. rewrite Hw, Hwc, Hc. by destruct k.
Qed.

(** What the scheduler has done with the calls that a step of a body emits. *)
Lemma emitted_advances s s' t f k rest fs es :
  same_env i s s' -> runs i s' t AtLoop -> thread_ok others t -> referred (heap t) f -> control t = InBody f rest ->
  extends f (process s) (process s') -> Forall2 (queued f (process s')) (requests f [k]) fs -> works [k] = es ->
  let s2 := set_output (output s' ++ es) (set_m_tasks (m_tasks s' ++ fs) s') in
  in_body i others s2 f rest /\ advances i f [k] s s2.
Proof.
  intros He Hr Hok Hh Hc Hext Hfs Hes. split; [exists t|by apply advances_env].
  split; [|done]. destruct Hr as (w & ? & ? & ?). by exists w.
Qed.

Lemma queued_advances s s' t f k rest fs :
  same_env i s s' -> runs i s' t AtLoop -> thread_ok others t -> referred (heap t) f -> control t = InBody f rest ->
  extends f (process s) (process s') -> Forall2 (queued f (process s')) (requests f [k]) fs -> works [k] = [] ->
  in_body i others (set_m_tasks (m_tasks s' ++ fs) s') f rest /\ advances i f [k] s (set_m_tasks (m_tasks s' ++ fs) s').
Proof.
  intros He Hr Hok Hh Hc Hext Hfs Hes. destruct (emitted_advances s s' t f k rest fs [] He Hr Hok Hh Hc Hext Hfs Hes) as [Hb Ha].
  rewrite app_nil_r in *. by destruct s'.
Qed.

Lemma silent_advances s s' t f k rest :
  same_env i s s' -> runs i s' t AtLoop -> thread_ok others t -> referred (heap t) f -> control t = InBody f rest ->
  extends f (process s) (process s') -> requests f [k] = [] -> works [k] = [] ->
  in_body i others s' f rest /\ advances i f [k] s s'.
Proof.
  intros He Hr Hok Hh Hc Hext Hq Hes. destruct (queued_advances s s' t f k rest [] He Hr Hok Hh Hc Hext) as [Hb Ha];
    [by rewrite Hq|done|]. rewrite app_nil_r in *. by destruct s'.
Qed.

(** One quiet call of a body under the scheduler. *)
Lemma sched_quiet_step s f k rest :
  in_body i others s f (k :: rest) -> quiet k = true -> targets_exist (process s) [k] ->
  exists s', worker_step cfg i s = (Ok tt, s') /\ in_body i others s' f rest /\ advances i f [k] s s'.
Proof.
  intros (t & Hr & Hok & Hh & Hc) Hq Htg.
  assert (process s = heap t) as Hps by (destruct Hr as (w & _ & <- & _); done).
  destruct (quiet_step others cfg t f k rest Hok Hc Hq Hh) as (t1 & Hstep & Hok1 & Hc1 & Hfr).
  assert (referred (heap t1) f) as Hh1.
  { eapply held_same; [|exact Hh]. apply Hfr. destruct Hh as (x & Hx & _). by exists x. }
  destruct (in_thread_runs i (fiber_step cfg) s t t1 AtLoop _ Hr Hstep) as (s1 & Hin & Hr1 & He1 & Hp1).
  rewrite (worker_step_body s t f k rest Hr Hc) by (by intros ->).
  rewrite (bind_Ok _ _ _ _ _ Hin).
  assert (extends f (process s) (process s1)) as Hext by (intros g _; rewrite Hps, Hp1; apply Hfr).
  destruct k as [n|cb|g|g cb|g| |g| |cb|]; try done; cbn [emits handle_all handle].
  - eexists. split; [reflexivity|]. destruct (emitted_advances s s1 t1 f (Work n) rest [] [n]) as [Hb Ha]; try done.
    simpl in *. rewrite app_nil_r in *. destruct s1; done.
  - exists s1. split; [done|]. by eapply silent_advances.
  - exists s1. split; [done|]. by eapply silent_advances.
  - destruct (schedule_fiber_runs cfg i s1 t1 AtLoop g Hr1) as (s2 & Hs & Hr2 & He2 & Hp2).
    { unfold targets_exist in Htg. apply (proj1 (Forall_singleton _ _)) in Htg. destruct Htg as [x Hx]. rewrite Hps in Hx. rewrite Hfr by (rewrite Hx; by eexists).
      by exists x. }
    eexists. rewrite (bind_Ok _ _ _ _ _ Hs). split; [reflexivity|].
    apply (queued_advances s s2 t1); try done; [by eapply same_env_trans|by rewrite Hp2, <- Hp1|by repeat constructor].
  - destruct (schedule_fiber_runs cfg i s1 t1 AtLoop f Hr1) as (s2 & Hs & Hr2 & He2 & Hp2).
    { destruct Hok1 as (m & _ & H). rewrite Hc1 in H. destruct H as (_ & _ & _ & _ & x & Hx & _). by exists x. }
    eexists. rewrite (bind_Ok _ _ _ _ _ Hs). split; [reflexivity|].
    apply (queued_advances s s2 t1); try done; [by eapply same_env_trans|by rewrite Hp2, <- Hp1|by repeat constructor].
  - destruct (schedule_cb_runs cfg i others s1 t1 AtLoop f rest cb Hr1 Hok1 Hc1)
      as (s2 & t2 & p & Hs & Hr2 & Hok2 & Hc2 & He2 & Hq2 & Hx2 & Hh2).
    eexists. rewrite (bind_Ok _ _ _ _ _ Hs). split; [reflexivity|].
    split; [exists t2; split; [by apply runs_set|auto]|].
    pose proof (advances_env i f (ScheduleCb cb) s s2 [p] []
      (same_env_trans _ _ _ _ He1 He2)) as Ha. rewrite app_nil_r in Ha.
    destruct s2; apply Ha; [|by constructor; [exact Hq2|constructor]|done].
    eapply extends_trans; [exact Hext|]. by rewrite Hp1.
Qed.

(** A stretch of quiet calls. *)
Lemma sched_quiet_steps f rest pre : forall s,
  in_body i others s f (pre ++ rest) -> forallb quiet pre = true -> targets_exist (process s) pre ->
  exists s', worker_steps cfg i (length pre) s = (Ok tt, s') /\ in_body i others s' f rest /\
    advances i f pre s s'.
Proof.
  induction pre as [|k pre IH]; intros s Hb Hq Ht.
  { exists s. split; [done|]. split; [done|]. apply advances_nil. }
  cbn [forallb] in Hq. apply andb_true_iff in Hq as [Hk Hq].
  apply Forall_cons in Ht as [Hkt Ht].
  destruct (sched_quiet_step s f k (pre ++ rest) Hb Hk) as (s1 & He & Hb1 & Ha1);
    [by apply Forall_singleton|].
  destruct (IH s1 Hb1 Hq) as (s2 & He2 & Hb2 & Ha2).
  { eapply Forall_impl; [exact Ht|]. intros c Hc. destruct c; try done.
    destruct (decide (f0 = f)) as [->|Hne].
    - destruct Hb1 as (t & (w & _ & <- & _) & (m & _ & H) & _ & Hct). rewrite Hct in H.
      destruct H as (_ & _ & _ & _ & x & Hx & _). by exists x.
    - by rewrite (adv_heap _ _ _ _ _ Ha1 _ Hne Hc). }
  exists s2. cbn [length worker_steps]. rewrite (bind_Ok _ _ _ _ _ He). split; [done|]. split; [done|].
  by apply (advances_app i f [k] pre s s1 s2).
Qed.

(** A worker between two tasks. *)
Definition at_loop (s : Scheduler) : Prop :=
  exists t, runs i s t AtLoop /\ thread_ok others t /\ control t = InMain.

(** The step that ends a task: the fiber yields, or its body is over. *)
Lemma sched_last_step s f (finished : bool) rest :
  in_body i others s f (if finished then [] else YieldToReady_ :: rest) ->
  exists s', worker_step cfg i s = (Ok tt, s') /\ at_loop s' /\ same_env i s s' /\
    extends f (process s) (process s') /\
    if finished then exists x, fibers (process s') !! f = Some x /\ m_state x = TERM
    else pending (process s') f = Some rest.
Proof.
  intros (t & Hr & Hok & Hh & Hc).
  assert (process s = heap t) as Hps by (destruct Hr as (w & _ & <- & _); done).
  assert (worker_step cfg i s = bind (in_thread i (fiber_step cfg)) (handle_all cfg i) s) as Hw.
  { destruct (runs_control _ _ _ _ Hr) as (w & Hw & Hwc & _). unfold worker_step.
    rewrite Hw, Hwc, Hc. by destruct finished. }
  assert (exists t1, fiber_step cfg t = (Ok [], t1) /\ thread_ok others t1 /\ control t1 = InMain /\
    (forall g, g <> f -> fibers (heap t1) !! g = fibers (heap t) !! g) /\
    if finished then exists x, fibers (heap t1) !! f = Some x /\ m_state x = TERM
    else pending (heap t1) f = Some rest) as (t1 & Hs & Hok1 & Hc1 & Hfr & Hend).
  { unfold fiber_step. rewrite Hc. destruct finished.
    - destruct (leave_terminates others t f Hok Hc Hh) as (t1 & x & He & ? & ? & _ & ? & ? & ?).
      exists t1. rewrite (bind_Ok _ _ _ _ _ He). eauto 10.
    - pose proof (set_body_ok _ _ _ _ _ Hok Hc) as Hok'.
      destruct (yield_to_ready others _ f rest Hok' eq_refl) as (t1 & He & ? & ? & _ & ? & ? & ?).
      exists t1. cbn [exec]. rewrite (bind_Ok _ _ _ _ _ He). do 4 (split; [done|]). apply left_held; auto. }
  destruct (in_thread_runs i _ s t t1 AtLoop _ Hr Hs) as (s1 & Hin & Hr1 & He1 & Hp1).
  exists s1. rewrite Hw, (bind_Ok _ _ _ _ _ Hin). split; [done|]. split; [by exists t1|].
  split; [done|]. rewrite Hp1. split; [|done]. intros g Hg _. by rewrite Hps, Hfr.
Qed.

(** The two steps that take the first task and resume it. *)
Lemma sched_first_steps s f q cs :
  at_loop s -> m_tasks s = f :: q -> f ∉ others -> pending (process s) f = Some cs ->
  exists s', worker_steps cfg i 2 s = (Ok tt, s') /\ in_body i others s' f cs /\ m_tasks s' = q /\
    output s' = output s /\ m_stopCommand s' = m_stopCommand s /\
    m_idleThreadCount s' = m_idleThreadCount s /\
    (forall j, j <> i -> m_threads s' !! j = m_threads s !! j) /\
    (forall g, is_Some (fibers (process s) !! g) -> is_Some (fibers (process s') !! g)).
Proof.
  intros (t & Hr & Hok & Hc) Hq Hf Hp.
  destruct (runs_control _ _ _ _ Hr) as (w & Hw & Hwc & Hwp & Ht).
  assert (process s = heap t) as Hps by by rewrite <- Ht.
  rewrite Hps in Hp. apply pending_held in Hp as [Hp Hh].
  destruct (resume_enters others t f cs Hok Hc Hf Hp) as (t1 & He & Hok1 & Hc1 & Hh1 & Hfr).
  cbn [worker_steps]. unfold worker_step at 1. unfold bind at 1. rewrite Hw, Hwc, Hc.
  unfold run_step at 1. rewrite Hwp, bind_get, Hq, bind_modify. unfold set_pc at 1, modify at 1.
  set (s1 := set_m_threads _ _).
  pose proof (lookup_lt_Some _ _ _ Hw) as Hlen.
  assert (m_threads s1 !! i = Some (mkWorker (w_t_fiber w) (w_t_threadFiber w) (w_control w) (HasTask f)
            (w_idleFiber w))) as Hw1 by (unfold s1; simpl; by rewrite list_lookup_alter_eq, Hw).
  unfold bind at 1, worker_step. rewrite Hw1. cbn [w_control]. rewrite Hwc, Hc.
  unfold run_step. cbn [w_pc]. unfold set_pc. rewrite bind_modify.
  set (s2 := set_m_threads _ _).
  assert (runs i s2 t AtLoop) as Hr2.
  { eexists. split; [unfold s2; simpl; by rewrite !list_lookup_alter_eq, Hw|].
    split; [|done]. by rewrite <- Ht. }
  destruct (in_thread_runs i (resume f) s2 t t1 AtLoop _ Hr2 He) as (s3 & Hin & Hr3 & He3 & Hp3).
  rewrite Hin. exists s3. split; [done|]. split; [by exists t1; auto|].
  split; [by rewrite (same_tasks _ _ _ He3)|]. split; [by rewrite (same_output _ _ _ He3)|].
  split; [by rewrite (same_stop _ _ _ He3)|]. split; [by rewrite (same_idle _ _ _ He3)|]. split.
  - intros j Hj. rewrite (same_threads _ _ _ He3 j Hj). unfold s2, s1; simpl.
    by rewrite !list_lookup_alter_ne by done.
  - intros g Hg. rewrite Hp3. destruct (decide (g = f)) as [->|Hne].
    + destruct Hok1 as (m & _ & H). rewrite Hc1 in H.
      destruct H as (_ & _ & _ & _ & x & Hx & _). by exists x.
    + by rewrite Hfr, <- Hps.
Qed.
End round.

Lemma worker_steps_app cfg i n m s s1 :
  worker_steps cfg i n s = (Ok tt, s1) -> worker_steps cfg i (n + m) s = worker_steps cfg i m s1.
Proof.
  revert s. induction n as [|n IH]; intros s Hn; simpl in *; [by injection Hn as ->|].
  apply bind_Ok_inv in Hn as ([] & s2 & H1 & H2). rewrite (bind_Ok _ _ _ _ _ H1). by apply IH.
Qed.

(** C11: First come, first served.  A worker at the top of [Scheduler::run] with a
    non-empty queue takes the FIRST task, executes its pending calls up to the
    first yield or the end, and is back at the top of the loop after exactly
    [length pre + 3] steps, with the rest of the queue followed by the tasks the
    body scheduled, in order (a scheduled function as a fresh fiber with that
    body), its visible work appended to the output, and the fiber left with
    exactly its remaining calls, or terminated.  A fiber that yields without
    having been scheduled again is not in the queue: it is not resumed by the
    scheduler.  No other worker is touched. *)
Theorem worker_round cfg i others s f q pre rest (finished : bool) :
  at_loop i others s -> m_tasks s = f :: q -> f ∉ others ->
  pending (process s) f = Some (if finished then pre else pre ++ YieldToReady_ :: rest) ->
  forallb quiet pre = true -> targets_exist (process s) pre ->
  exists s', worker_steps cfg i (length pre + 3) s = (Ok tt, s') /\ at_loop i others s' /\
    (exists fs, m_tasks s' = q ++ fs /\ Forall2 (queued f (process s')) (requests f pre) fs) /\
    output s' = output s ++ works pre /\
    m_stopCommand s' = m_stopCommand s /\ m_idleThreadCount s' = m_idleThreadCount s /\
    (forall j, j <> i -> m_threads s' !! j = m_threads s !! j) /\
    if finished then exists x, fibers (process s') !! f = Some x /\ m_state x = TERM
    else pending (process s') f = Some rest.
Proof.
  intros Hat Hq Hf Hp Hqt Htg.
  destruct (sched_first_steps cfg i others s f q _ Hat Hq Hf Hp)
    as (s1 & Hs1 & Hb1 & Hq1 & Ho1 & Hst1 & Hi1 & Ht1 & Hx1).
  destruct (sched_quiet_steps cfg i others f (if finished then [] else YieldToReady_ :: rest) pre s1)
    as (s2 & Hs2 & Hb2 & [(fs & Hfs & Hfq) Ho2 Hh2 Hst2 Hi2 Ht2]); [|done| |].
  { destruct finished; [by rewrite app_nil_r|done]. }
  { eapply Forall_impl; [exact Htg|]. intros c Hc. destruct c; auto. }
  destruct (sched_last_step cfg i others s2 f finished rest Hb2) as (s3 & Hs3 & Hat3 & He3 & Hx3 & Hend).
  exists s3. replace (length pre + 3)%nat with (2 + (length pre + 1))%nat by lia.
  rewrite (worker_steps_app _ _ _ _ _ _ Hs1), (worker_steps_app _ _ _ _ _ _ Hs2).
  cbn [worker_steps]. rewrite (bind_Ok _ _ _ _ _ Hs3). split; [done|]. split; [done|].
  destruct He3. split; [|split; [congruence|split; [congruence|split; [congruence|split; [|done]]]]].
  - exists fs. split; [congruence|]. eapply Forall2_impl; [done|]. intros r p. by apply queued_extends.
  - intros j Hj. by rewrite same_threads0, Ht2, Ht1.
Qed.

(** A scheduler with one worker that has passed the start of [run], and one task
    that schedules itself and a function and yields. *)
Definition sched1 : Scheduler :=
  let s := snd (worker_step 4096 0 (snd (start (Scheduler_ctor 1 (mkHeap 0 0 ∅ 0%nat))))) in
  snd (schedule 4096 0 (ScheduleTask_cb (Some [Work 1; ScheduleSelf; ScheduleCb [Work 3]; YieldToReady_; Work 2]) (-1)) s).

(** The thread of its worker. *)
Definition sched1_thread : Thread :=
  snd (Fiber_ctor 4096 [Work 1; ScheduleSelf; ScheduleCb [Work 3]; YieldToReady_; Work 2] 0
         (snd (Fiber_ctor 4096 [IdleLoop] 0 thread0))).

Lemma sched1_at_loop : at_loop 0 ∅ sched1.
Proof.
  exists sched1_thread. split; [|split; [|done]].
  - exists (mkWorker (Some 0%nat) (Some 0%nat) InMain AtLoop (Some 1%nat)).
    split; [by vm_compute|]. split; [by vm_compute|done].
  - do 2 (apply ctor_keeps_ok; [|done]). exact thread0_ok.
Qed.

Lemma worker_round_witness :
  exists s', worker_steps 4096 0 6 sched1 = (Ok tt, s') /\ at_loop 0 ∅ s' /\
    (exists fs, m_tasks s' = [] ++ fs /\
       Forall2 (queued 2%nat (process s')) (requests 2%nat [Work 1; ScheduleSelf; ScheduleCb [Work 3]]) fs) /\
    output s' = [1%nat] /\ m_stopCommand s' = false /\ m_idleThreadCount s' = 0 /\
    (forall j, j <> 0%nat -> m_threads s' !! j = m_threads sched1 !! j) /\
    pending (process s') 2%nat = Some [Work 2].
Proof.
  apply (worker_round 4096 0 ∅ sched1 2%nat [] [Work 1; ScheduleSelf; ScheduleCb [Work 3]] [Work 2] false);
    [exact sched1_at_loop | reflexivity | set_solver | reflexivity | reflexivity | by repeat constructor].
Defined.

(** ** Two workers *)

(** Two workers past the start of [run], and one task that schedules itself
    before it yields, as a hooked system call does when it registers its fiber
    with the event loop. *)
Definition sched2 : Scheduler :=
  let s := snd (interleave 4096 [0; 1]%nat (snd (start (Scheduler_ctor 2 (mkHeap 0 0 ∅ 0%nat))))) in
  snd (schedule 4096 0 (ScheduleTask_cb (Some [ScheduleSelf; YieldToReady_; Work 1]) (-1)) s).

(** Scheduling a fiber before it yields is a race.  With one worker the task
    that schedules itself and yields is taken up again and completes.  With two
    workers there is an interleaving in which the second one takes the fiber out
    of the queue while the first is still running it: the assertion of
    [Fiber::resume] fails and the process aborts ([schedule] only logs that the
    fiber is running, and queues it). *)
Theorem schedule_before_yield_race :
  (exists s', interleave 4096 [0; 0; 0; 0; 0; 0; 0; 0]%nat sched2 = (Ok tt, s') /\
     output s' = [1%nat] /\ m_tasks s' = []) /\
  (exists s', interleave 4096 [0; 0; 0; 1; 1]%nat sched2 = (Abort, s') /\ output s' = []).
Proof.
  split; eexists; (split; [vm_compute; reflexivity|]); vm_compute; auto.
Qed.

(** ** Shutdown *)

(** Worker [i] is the thread [t] at [pc] and its idle fiber is [f]. *)
Definition runs_idle (i : nat) (s : Scheduler) (t : Thread) (pc : run_pc) (f : ptr) : Prop :=
  exists w, m_threads s !! i = Some w /\ thread_of w (process s) = t /\ w_pc w = pc /\ w_idleFiber w = Some f.

Lemma in_thread_runs_idle {A} i (m : comp Thread A) s t t' pc f a :
  runs_idle i s t pc f -> m t = (Ok a, t') ->
  exists s', in_thread i m s = (Ok a, s') /\ runs_idle i s' t' pc f /\ same_env i s s'.
Proof.
  intros (w & Hw & Ht & Hpc & Hf) Hm. unfold in_thread. rewrite Hw, Ht, Hm.
  eexists. split; [done|]. split.
  - exists (worker_of w t'). simpl. split; [|split; [apply thread_of_worker_of|done]].
    apply list_lookup_insert_eq. by eapply lookup_lt_Some.
  - split; try done. intros j Hj. simpl. by apply list_lookup_insert_ne.
Qed.

Lemma set_pc_runs_idle i s t pc pc' f :
  runs_idle i s t pc f ->
  exists s', set_pc i pc' s = (Ok tt, s') /\ runs_idle i s' t pc' f /\ same_env i s s'.
Proof.
  intros (w & Hw & Ht & Hpc & Hf). eexists. split; [reflexivity|]. split.
  - eexists. simpl. split; [by rewrite list_lookup_alter_eq, Hw|]. by split; [rewrite <- Ht|].
  - split; try done. intros j Hj. simpl. by apply list_lookup_alter_ne.
Qed.

Lemma runs_idle_count i s t pc f v : runs_idle i s t pc f -> runs_idle i (set_m_idleThreadCount v s) t pc f.
Proof. intros (w & ? & ? & ?). by exists w. Qed.

Lemma worker_step_main cfg i s t pc f :
  runs_idle i s t pc f -> control t = InMain ->
  exists w, worker_step cfg i s = run_step cfg i w s /\ w_pc w = pc /\ w_idleFiber w = Some f.
Proof.
  intros (w & Hw & Ht & Hpc & Hf) Hc. exists w. unfold worker_step. rewrite Hw.
  assert (w_control w = InMain) as -> by (by rewrite <- Ht in Hc). done.
Qed.

(** The step that sends an idle worker into its idle fiber. *)
Lemma idle_step cfg i s t f t1 t2 :
  runs_idle i s t AtLoop f -> control t = InMain -> m_tasks s = [] ->
  setIdle f t = (Ok tt, t1) -> resume f t1 = (Ok tt, t2) ->
  exists s', worker_step cfg i s = (Ok tt, s') /\ runs_idle i s' t2 AfterIdle f /\ m_tasks s' = [] /\
    m_stopCommand s' = m_stopCommand s /\ m_idleThreadCount s' = wrap 64 (m_idleThreadCount s + 1) /\
    output s' = output s /\ (forall j, j <> i -> m_threads s' !! j = m_threads s !! j).
Proof.
  intros Hr Hc Hq H1 H2. destruct (worker_step_main cfg i s t AtLoop f Hr Hc) as (w & -> & Hpc & Hwf).
  unfold run_step. rewrite Hpc, bind_get, Hq, bind_modify, Hwf.
  set (s0 := set_m_idleThreadCount _ s).
  destruct (in_thread_runs_idle i _ s0 t t1 _ f tt (runs_idle_count _ _ _ _ _ _ Hr) H1) as (s1 & He1 & Hr1 & Hs1).
  rewrite (bind_Ok _ _ _ _ _ He1).
  destruct (set_pc_runs_idle i s1 t1 _ AfterIdle f Hr1) as (s2 & He2 & Hr2 & Hs2).
  rewrite (bind_Ok _ _ _ _ _ He2).
  destruct (in_thread_runs_idle i _ s2 t1 t2 _ f tt Hr2 H2) as (s3 & He3 & Hr3 & Hs3).
  exists s3. destruct Hs1, Hs2, Hs3. unfold s0 in *. simpl in *. split_and!; try done; try congruence.
  intros j Hj. by rewrite same_threads2, same_threads1, same_threads0.
Qed.

(** [setIdle] and [resume] of a fiber with pending code. *)
Lemma setIdle_resume others s f cs :
  thread_ok others s -> control s = InMain -> f ∉ others -> pending (heap s) f = Some cs ->
  exists s1 s2, setIdle f s = (Ok tt, s1) /\ resume f s1 = (Ok tt, s2) /\
    thread_ok others s2 /\ control s2 = InBody f cs /\ referred (heap s2) f /\
    (forall g, g <> f -> fibers (heap s2) !! g = fibers (heap s) !! g).
Proof.
  intros Hok Hc Hf Hp. apply pending_held in Hp as [Hp Hhe].
  destruct (resume_enters others s f cs Hok Hc Hf Hp) as (s2 & He & Hok2 & Hc2 & Hh2 & Hfr).
  destruct (Hok) as (m & Hm & H). rewrite Hc in H. destruct H as [Ht Hh].
  destruct (heap_main _ _ _ _ Hh) as [_ (y & Hy & Hys & Hyr & Hyu)].
  unfold left_code in Hp. destruct (fibers (heap s) !! f) as [x|] eqn:Hx; [|done].
  destruct (m_stack x) eqn:Hst; [|done].
  assert (f <> m) as Hfm by (intros ->; congruence).
  assert (m_state x = INIT \/ m_state x = READY) as Hir by (destruct (m_state x); auto; done).
  rewrite (resume_switches s f m x y) in He by done.
  eexists. exists s2. split; [by apply fiber_update_Ok|]. split; [|by auto].
  rewrite (resume_switches _ f m (set_m_state INIT x) y); simpl; auto.
  - rewrite <- He. f_equal. f_equal. unfold put, entered, set_fibers; cbn [m_ucp set_m_state fibers s_fiber_id s_fiber_count next_ptr].
    rewrite insert_insert_eq. by destruct (m_ucp x).
  - by rewrite lookup_insert_eq.
  - by rewrite lookup_insert_ne.
Qed.

(** The remaining steps of the idle fiber of a stopped scheduler. *)
Lemma idle_stop_steps cfg i others s t f :
  runs_idle i s t AfterIdle f -> thread_ok others t -> control t = InBody f [IdleLoop] -> referred (heap t) f ->
  m_stopCommand s = true ->
  exists s' t' x, worker_steps cfg i 3 s = (Ok tt, s') /\ runs_idle i s' t' AtLoop f /\ thread_ok others t' /\
    control t' = InMain /\ fibers (heap t') !! f = Some x /\ m_state x = TERM /\
    m_tasks s' = m_tasks s /\ m_stopCommand s' = true /\
    m_idleThreadCount s' = wrap 64 (m_idleThreadCount s - 1).
Proof.
  intros Hr Hok Hc Hhe Hst. destruct (Hr) as (w & Hw & Ht & _).
  assert (w_control w = InBody f [IdleLoop]) as Hwc by (by rewrite <- Ht in Hc).
  cbn [worker_steps]. unfold worker_step at 1. unfold bind at 1. rewrite Hw, Hwc.
  unfold idle. rewrite bind_get, Hst.
  pose proof (set_body_ok _ _ _ _ _ Hok Hc) as Hok0. set (t0 := set_control (InBody f []) t) in *.
  destruct (in_thread_runs_idle i (modify (set_control (InBody f []))) s t t0 _ f tt Hr eq_refl)
    as (s0 & -> & Hr0 & He0).
  destruct (leave_terminates others t0 f Hok0 eq_refl Hhe) as (t1 & x & Hl & Hok1 & Hc1 & _ & Hx & Hxs & _).
  assert (fiber_step cfg t0 = (Ok [], t1)) as Hs1
    by (unfold fiber_step; simpl; by rewrite (bind_Ok _ _ _ _ _ Hl)).
  destruct (in_thread_runs_idle i _ s0 t0 t1 _ f _ Hr0 Hs1) as (s1 & Hin1 & Hr1 & He1).
  assert (worker_step cfg i s0 = (Ok tt, s1)) as Hw1.
  { destruct Hr0 as (w0 & Hw0 & Ht0 & _). unfold worker_step. rewrite Hw0.
    assert (w_control w0 = InBody f []) as ->.
    { change (control (thread_of w0 (process s0)) = InBody f []). by rewrite Ht0. }
    by rewrite (bind_Ok _ _ _ _ _ Hin1). }
  rewrite (bind_Ok _ _ _ _ _ Hw1).
  destruct (worker_step_main cfg i s1 t1 _ f Hr1 Hc1) as (w1 & Hw2 & Hpc & _).
  unfold bind at 1. rewrite Hw2. unfold run_step. rewrite Hpc, bind_modify.
  set (s2 := set_m_idleThreadCount _ s1).
  destruct (set_pc_runs_idle i s2 t1 _ AtLoop f (runs_idle_count _ _ _ _ _ _ Hr1)) as (s3 & -> & Hr3 & He3).
  exists s3, t1, x. split; [done|]. split; [done|]. do 4 (split; [done|]).
  destruct He0, He1, He3. unfold s2 in *. simpl in *. repeat split; congruence.
Qed.


(** A fresh single-worker scheduler after the stop command. *)
Definition sched_stopped : Scheduler :=
  snd (stop_command (snd (worker_step 4096 0 (snd (start (Scheduler_ctor 1 (mkHeap 0 0 ∅ 0%nat))))))).

