(* ===== verification/SchedulerSpec.v ===== *)
(** * SchedulerSpec: the abstract queue that the workers implement

    What [Scheduler::schedule] and the loop of [Scheduler::run] promise together: a
    first-in first-out queue, and for each worker a hand that holds at most one task
    between its removal from the queue and its resumption.  The steps of any number of
    workers in any order ([Scheduler]) refine this specification, from which it follows
    that no task is lost, none is run twice for one request, and the order is kept. *)

From stdpp Require Import base list numbers gmap.
From S2P Require Import Prelude Words Fiber FiberTheorems Scheduler SchedulerTheorems.

Local Open Scope Z_scope.

(** ** The specification *)

Record Dispatch : Type := mkDispatch {
  queue : list ptr;
  hand : list (option ptr)       (* of each worker *)
}.

(** A task is scheduled; worker [i] takes it from the queue; worker [i] resumes it. *)
Inductive action : Type := Put (f : ptr) | Take (i : nat) (f : ptr) | Run (i : nat) (f : ptr).

Inductive dispatch : Dispatch -> action -> Dispatch -> Prop :=
  | dispatch_put q hs f : dispatch (mkDispatch q hs) (Put f) (mkDispatch (q ++ [f]) hs)
  | dispatch_take q hs i f : hs !! i = Some None ->
      dispatch (mkDispatch (f :: q) hs) (Take i f) (mkDispatch q (<[i := Some f]> hs))
  | dispatch_run q hs i f : hs !! i = Some (Some f) ->
      dispatch (mkDispatch q hs) (Run i f) (mkDispatch q (<[i := None]> hs)).

Inductive dispatches : Dispatch -> list action -> Dispatch -> Prop :=
  | dispatches_nil d : dispatches d [] d
  | dispatches_cons d a d' l d'' : dispatch d a d' -> dispatches d' l d'' -> dispatches d (a :: l) d''.

Definition puts (l : list action) : list ptr := omap (fun a => match a with Put f => Some f | _ => None end) l.
Definition takes (l : list action) : list ptr := omap (fun a => match a with Take _ f => Some f | _ => None end) l.
Definition runs_all (l : list action) : list ptr := omap (fun a => match a with Run _ f => Some f | _ => None end) l.
Definition takes_of (i : nat) (l : list action) : list ptr :=
  omap (fun a => match a with Take j f => if decide (i = j) then Some f else None | _ => None end) l.
Definition runs_of (i : nat) (l : list action) : list ptr :=
  omap (fun a => match a with Run j f => if decide (i = j) then Some f else None | _ => None end) l.

(** The task in the hand of worker [i], and all of them. *)
Definition held (d : Dispatch) (i : nat) : list ptr := option_list (mjoin (hand d !! i)).
Definition all_held (d : Dispatch) : list ptr := omap id (hand d).

Lemma dispatches_app d l d' l' d'' :
  dispatches d l d' -> dispatches d' l' d'' -> dispatches d (l ++ l') d''.
Proof. induction 1; [done|]. intros H2. econstructor; eauto. Qed.

Lemma dispatches_one d a d' : dispatch d a d' -> dispatches d [a] d'.
Proof. intros H. econstructor; [done|constructor]. Qed.

Lemma dispatches_puts fs : forall q hs,
  dispatches (mkDispatch q hs) (map Put fs) (mkDispatch (q ++ fs) hs).
Proof.
  induction fs as [|f fs IH]; intros q hs; simpl; [rewrite app_nil_r; constructor|].
  econstructor; [constructor|]. rewrite (cons_middle f q fs), app_assoc. apply IH.
Qed.

(** *** What holds of every execution of the specification *)

(** The queue is first in, first out. *)
Lemma dispatches_fifo d l d' : dispatches d l d' -> queue d ++ puts l = takes l ++ queue d'.
Proof.
  induction 1 as [d|d a d' l d'' Ha _ IH]; [apply app_nil_r|].
  destruct Ha; simpl in *; [by rewrite <- IH, <- app_assoc|by f_equal|done].
Qed.

(** A worker runs what it takes, in order, one at a time. *)
Lemma dispatches_hand d l d' i : dispatches d l d' -> held d i ++ takes_of i l = runs_of i l ++ held d' i.
Proof.
  induction 1 as [d|d a d' l d'' Ha _ IH]; [apply app_nil_r|].
  destruct Ha as [q hs f|q hs j f Hj|q hs j f Hj]; unfold held in *; simpl in *; [done| |];
    (destruct (decide (i = j)) as [->|Hne];
     [rewrite list_lookup_insert_eq in IH by (by eapply lookup_lt_Some); rewrite Hj
     |rewrite list_lookup_insert_ne in IH by done]); simpl in *; congruence.
Qed.

Lemma omap_insert_perm (hs : list (option ptr)) i o o' :
  hs !! i = Some o ->
  option_list o' ++ omap id hs ≡ₚ option_list o ++ omap id (<[i := o']> hs).
Proof.
  intros Hi. rewrite <- (take_drop_middle _ _ _ Hi) at 1.
  rewrite insert_take_drop by (by eapply lookup_lt_Some).
  rewrite !omap_app. simpl. destruct o, o'; simpl; solve_Permutation.
Qed.

(** Nothing is lost and nothing is duplicated. *)
Lemma dispatches_once d l d' : dispatches d l d' ->
  queue d ++ all_held d ++ puts l ≡ₚ runs_all l ++ queue d' ++ all_held d'.
Proof.
  induction 1 as [d|d a d' l d'' Ha _ IH]; [by rewrite app_nil_r|].
  destruct Ha as [q hs f|q hs j f Hj|q hs j f Hj]; unfold all_held in *; simpl in *; rewrite <- IH.
  - solve_Permutation.
  - rewrite (Permutation_app_comm q), <- (omap_insert_perm hs j None (Some f) Hj). simpl. solve_Permutation.
  - pose proof (omap_insert_perm hs j (Some f) None Hj) as Hp. simpl in Hp. rewrite Hp. simpl. solve_Permutation.
Qed.

(** ** The scheduler as an implementation *)

(** A worker has a task in hand between the two critical points of [run]. *)
Definition hand_of (w : Worker) : option ptr :=
  match w_pc w with HasTask f => Some f | _ => None end.

Definition abs (s : Scheduler) : Dispatch := mkDispatch (m_tasks s) (hand_of <$> m_threads s).

(** The tasks appended between two states. *)
Definition appended (s s' : Scheduler) : list action := map Put (drop (length (m_tasks s)) (m_tasks s')).

(** What a step of worker [i] is to the specification: in its main fiber it resumes
    the task in hand, or takes the first task; anything else schedules. *)
Definition actions (i : nat) (s s' : Scheduler) : list action :=
  match m_threads s !! i with
  | Some (mkWorker _ _ InMain (HasTask f) _) => [Run i f]
  | Some (mkWorker _ _ InMain AtLoop _) =>
      match m_tasks s with f :: _ => [Take i f] | [] => [] end
  | _ => appended s s'
  end.

(** Executions with what they are to the specification: a worker steps, any thread
    schedules a task, or gives the stop command. *)
Inductive execution (cfg : Z) : Scheduler -> list action -> Scheduler -> Prop :=
  | execution_nil s : execution cfg s [] s
  | execution_worker s i s' l s'' : worker_step cfg i s = (Ok tt, s') ->
      execution cfg s' l s'' -> execution cfg s (actions i s s' ++ l) s''
  | execution_schedule s i task s' l s'' : schedule cfg i task s = (Ok tt, s') ->
      execution cfg s' l s'' -> execution cfg s (appended s s' ++ l) s''
  | execution_stop s s' l s'' : stop_command s = (Ok tt, s') ->
      execution cfg s' l s'' -> execution cfg s l s''.

(** *** Computations that at most append to the queue *)

(** From [s] to [s'] tasks were appended and no hand has changed. *)
Definition appends (s s' : Scheduler) : Prop :=
  (exists fs, m_tasks s' = m_tasks s ++ fs) /\ hand_of <$> m_threads s' = hand_of <$> m_threads s.

#[export] Instance appends_preorder : PreOrder appends.
Proof.
  split; [intros s; split; [exists []; by rewrite app_nil_r|done]|].
  intros a b c [[fs Hf] Ha] [[gs Hg] Hb]. split; [|congruence].
  exists (fs ++ gs). by rewrite Hg, Hf, app_assoc.
Qed.

Lemma appends_dispatches s s' : appends s s' -> dispatches (abs s) (appended s s') (abs s').
Proof.
  intros [[fs Hf] Hh]. unfold appended, abs. rewrite Hf, drop_app_length, Hh. apply dispatches_puts.
Qed.

#[local] Notation adds := (along appends).

(** A fiber operation is nothing to the specification. *)
Lemma in_thread_abs {A} i (m : comp Thread A) s : abs (snd (in_thread i m s)) = abs s.
Proof.
  unfold in_thread, abs. destruct (m_threads s !! i) as [w|] eqn:Hw; [|done].
  destruct (m _) as [o t]. simpl. f_equal.
  rewrite list_fmap_insert. apply list_insert_id. by rewrite list_lookup_fmap, Hw.
Qed.

Lemma appends_abs s s' : abs s' = abs s -> appends s s'.
Proof. intros [= Hq Hh]. split; [exists []; by rewrite app_nil_r|done]. Qed.

Lemma adds_in_thread {A} i (m : comp Thread A) : adds (in_thread i m).
Proof. intros s. apply appends_abs, in_thread_abs. Qed.

Lemma appends_task s f : appends s (set_m_tasks (m_tasks s ++ [f]) s).
Proof. split; [by eexists|done]. Qed.

#[local] Hint Resolve appends_preorder along_bind along_ret along_get along_modify adds_in_thread appends_task : core.

Lemma adds_schedule cfg i task : adds (schedule cfg i task).
Proof. unfold schedule. destruct (task_fiber task); [|destruct (task_cb task)]; auto. Qed.
#[local] Hint Resolve adds_schedule : core.

Lemma adds_handle_all cfg i es : adds (handle_all cfg i es).
Proof.
  induction es as [|e es IH]; simpl; [auto|]. apply along_bind; auto. destruct e; simpl; auto.
  apply along_modify. intros s. split; [by exists []; rewrite app_nil_r|done].
Qed.
#[local] Hint Resolve adds_handle_all : core.

Lemma adds_idle i curr rest : adds (idle i curr rest).
Proof. intros s. unfold idle. rewrite bind_get. apply adds_in_thread. Qed.

(** What the control point of a worker is to the specification. *)
Definition hand_at (pc : run_pc) : option ptr := match pc with HasTask f => Some f | _ => None end.

Lemma alter_fmap_insert {A B} (f : A -> A) (g : A -> B) i (l : list A) x :
  l !! i = Some x -> g <$> alter f i l = <[i := g (f x)]> (g <$> l).
Proof.
  intros Hx. apply list_eq. intros j. destruct (decide (i = j)) as [->|Hne].
  - rewrite list_lookup_fmap, list_lookup_alter_eq, Hx. simpl. symmetry. apply list_lookup_insert_eq.
    rewrite length_fmap. by eapply lookup_lt_Some.
  - by rewrite list_lookup_insert_ne, !list_lookup_fmap, list_lookup_alter_ne.
Qed.

Lemma set_pc_abs i pc s w :
  m_threads s !! i = Some w ->
  exists s', set_pc i pc s = (Ok tt, s') /\
    abs s' = mkDispatch (queue (abs s)) (<[i := hand_at pc]> (hand (abs s))).
Proof. intros Hw. eexists. split; [done|]. unfold abs. simpl. by erewrite alter_fmap_insert. Qed.

(** Changing the hand of [i] to what it is. *)
Lemma set_pc_same i pc s w :
  m_threads s !! i = Some w -> hand_of w = hand_at pc -> exists s', set_pc i pc s = (Ok tt, s') /\ abs s' = abs s.
Proof.
  intros Hw Hh. destruct (set_pc_abs i pc s w Hw) as (s' & He & H). exists s'. split; [done|].
  rewrite H. unfold abs. simpl. f_equal. apply list_insert_id. by rewrite list_lookup_fmap, Hw, <- Hh.
Qed.

(** The hand of [i] is what the specification says it is. *)
Lemma abs_lookup s i w : m_threads s !! i = Some w -> hand (abs s) !! i = Some (hand_of w).
Proof. intros Hw. simpl. by rewrite list_lookup_fmap, Hw. Qed.

Lemma lookup_abs s i o : hand (abs s) !! i = Some o -> exists w, m_threads s !! i = Some w /\ hand_of w = o.
Proof. simpl. rewrite list_lookup_fmap. destruct (m_threads s !! i) as [w|]; [|done]. intros [= <-]. by exists w. Qed.

Lemma in_thread_Ok_abs {A} i (m : comp Thread A) s o s' : in_thread i m s = (o, s') -> abs s' = abs s.
Proof. intros H. by rewrite <- (in_thread_abs i m s), H. Qed.

Lemma actions_same s s' :
  abs s' = abs s -> dispatches (abs s) (appended s s') (abs s').
Proof. intros H. by apply appends_dispatches, appends_abs. Qed.

(** The steps of the main fiber. *)
Lemma run_step_start cfg i w s s' :
  m_threads s !! i = Some w -> w_pc w = AtStart -> run_step cfg i w s = (Ok tt, s') -> abs s' = abs s.
Proof.
  intros Hw Hpc. unfold run_step. rewrite Hpc. intros He.
  apply bind_Ok_inv in He as (a & s1 & H1 & He). apply bind_Ok_inv in He as (f & s2 & H2 & He).
  apply in_thread_Ok_abs in H1, H2. unfold set_idleFiber in He. rewrite bind_modify in He.
  set (s3 := set_m_threads _ s2) in He.
  assert (hand (abs s2) !! i = Some None) as Hh
    by (rewrite H2, H1, (abs_lookup s i w Hw); unfold hand_of; by rewrite Hpc).
  destruct (lookup_abs _ _ _ Hh) as (w2 & Hw2 & Hh2).
  assert (abs s3 = abs s2) as H3.
  { unfold abs, s3. simpl. f_equal. erewrite alter_fmap_insert by done. apply list_insert_id.
    by rewrite list_lookup_fmap, Hw2. }
  rewrite <- H3 in Hh. destruct (lookup_abs _ _ _ Hh) as (w3 & Hw3 & Hh3).
  destruct (set_pc_same i AtLoop s3 w3 Hw3 Hh3) as (s4 & He' & H4). congruence.
Qed.

Lemma run_step_idle cfg i w s s' :
  m_threads s !! i = Some w -> w_pc w = AtLoop -> m_tasks s = [] -> run_step cfg i w s = (Ok tt, s') ->
  abs s' = abs s.
Proof.
  intros Hw Hpc Hq. unfold run_step. rewrite Hpc, bind_get, Hq, bind_modify. set (s0 := set_m_idleThreadCount _ s).
  destruct (w_idleFiber w) as [f|]; [|done]. intros He.
  apply bind_Ok_inv in He as (a & s1 & H1 & He). apply in_thread_Ok_abs in H1.
  change (abs s0) with (abs s) in H1.
  assert (hand (abs s1) !! i = Some None) as Hh
    by (rewrite H1, (abs_lookup s i w Hw); unfold hand_of; by rewrite Hpc).
  destruct (lookup_abs _ _ _ Hh) as (w1 & Hw1 & Hh1).
  destruct (set_pc_same i AfterIdle s1 w1 Hw1 Hh1) as (s2 & He2 & H2).
  rewrite (bind_Ok _ _ _ _ _ He2) in He. apply in_thread_Ok_abs in He. congruence.
Qed.

Lemma run_step_dispatches cfg i w s s' :
  m_threads s !! i = Some w -> w_control w = InMain -> run_step cfg i w s = (Ok tt, s') ->
  dispatches (abs s) (actions i s s') (abs s').
Proof.
  intros Hw Hc He. unfold actions. rewrite Hw. pose proof (abs_lookup s i w Hw) as Hl.
  destruct w as [a b c pc f]. simpl in Hc. subst c. unfold hand_of in Hl. simpl in Hl.
  destruct pc as [| |task|].
  - by eapply actions_same, run_step_start.
  - destruct (m_tasks s) as [|task q] eqn:Hq.
    + rewrite (run_step_idle cfg i _ s s' Hw eq_refl Hq He). constructor.
    + unfold run_step in He. cbn [w_pc] in He. rewrite bind_get, Hq, bind_modify in He.
      destruct (set_pc_abs i (HasTask task) (set_m_tasks q s) _ Hw) as (s1 & He1 & H1).
      replace s' with s1 by congruence. rewrite H1. apply dispatches_one. unfold abs at 1. rewrite Hq.
      by apply dispatch_take.
  - unfold run_step in He. cbn [w_pc] in He.
    destruct (set_pc_abs i AtLoop s _ Hw) as (s1 & He1 & H1). rewrite (bind_Ok _ _ _ _ _ He1) in He.
    apply in_thread_Ok_abs in He. rewrite He, H1. apply dispatches_one. by apply dispatch_run.
  - unfold run_step in He. cbn [w_pc] in He. rewrite bind_modify in He. apply actions_same.
    set (s0 := set_m_idleThreadCount _ s) in He.
    destruct (set_pc_same i AtLoop s0 _ Hw eq_refl) as (s1 & He1 & H1).
    assert (s1 = s') as <- by congruence. exact H1.
Qed.

(** Any step of a worker. *)
Lemma worker_step_dispatches cfg i s s' :
  worker_step cfg i s = (Ok tt, s') -> dispatches (abs s) (actions i s s') (abs s').
Proof.
  intros He. unfold worker_step in He. destruct (m_threads s !! i) as [w|] eqn:Hw; [|done].
  assert (forall c : comp Scheduler unit, adds c -> c s = (Ok tt, s') -> w_control w <> InMain ->
    dispatches (abs s) (actions i s s') (abs s')) as Hadd.
  { intros c Hc Hcs Hm. unfold actions. rewrite Hw. pose proof (Hc s) as H. rewrite Hcs in H.
    destruct w as [a b [] pc f]; try done; by apply appends_dispatches. }
  destruct (w_control w) as [|curr rest| | |] eqn:Hc; [|destruct rest as [|[] rest]| | |];
    try (eapply Hadd; [|exact He|congruence]; auto using adds_idle; fail).
  - by eapply run_step_dispatches.
  - by apply (Hadd (ret tt)); [auto|..].
Qed.

Lemma execution_dispatches cfg s l s' : execution cfg s l s' -> dispatches (abs s) l (abs s').
Proof.
  induction 1 as [s|s i s1 l s' He _ IH|s i task s1 l s' He _ IH|s s1 l s' He _ IH]; [constructor| | |].
  - eapply dispatches_app; [by eapply worker_step_dispatches|done].
  - eapply dispatches_app; [|done]. apply appends_dispatches.
    pose proof (adds_schedule cfg i task s) as H. by rewrite He in H.
  - by injection He as <-.
Qed.

(** (refinement) The queue of the workers is first in, first out, and exact, for
    any number of workers and any interleaving of their steps with requests of other
    threads and the stop command.  Every such execution is an execution of the
    abstract queue: the tasks that were queued or are scheduled leave the queue in
    that order; each worker resumes exactly the tasks it took, in the order in which
    it took them; and, as multisets, what was queued, in hand or scheduled is what has
    been resumed, is queued or in hand: no request is lost, and none is served
    twice. *)
Theorem workers_refine_queue cfg s l s' :
  execution cfg s l s' ->
  dispatches (abs s) l (abs s') /\
  m_tasks s ++ puts l = takes l ++ m_tasks s' /\
  (forall i, held (abs s) i ++ takes_of i l = runs_of i l ++ held (abs s') i) /\
  m_tasks s ++ all_held (abs s) ++ puts l ≡ₚ runs_all l ++ m_tasks s' ++ all_held (abs s').
Proof.
  intros H. apply execution_dispatches in H. split; [done|]. split; [by apply (dispatches_fifo (abs s) l (abs s'))|].
  split; [intros i; by apply dispatches_hand|]. by apply (dispatches_once (abs s) l (abs s')).
Qed.

(** The steps of an execution in the order [order], with its actions. *)
Fixpoint trace (cfg : Z) (order : list nat) (s : Scheduler) : list action * Scheduler :=
  match order with
  | [] => ([], s)
  | i :: order =>
      let s' := snd (worker_step cfg i s) in
      let '(l, s'') := trace cfg order s' in (actions i s s' ++ l, s'')
  end.

Lemma trace_execution cfg order : forall s s', interleave cfg order s = (Ok tt, s') ->
  execution cfg s (fst (trace cfg order s)) s'.
Proof.
  induction order as [|i order IH]; intros s s' He; simpl in *; [injection He as <-; constructor|].
  apply bind_Ok_inv in He as ([] & s1 & H1 & He). rewrite H1. simpl. specialize (IH s1 s' He).
  destruct (trace cfg order s1) as [l s2]. by eapply execution_worker.
Qed.

(** Two workers share the tasks that the first of three tasks schedules. *)
Definition sched_shared : Scheduler :=
  let s := snd (interleave 4096 [0; 1]%nat (snd (start (Scheduler_ctor 2 (mkHeap 0 0 ∅ 0%nat))))) in
  let s := snd (schedule 4096 0 (ScheduleTask_cb (Some [ScheduleCb [Work 3]; YieldToReady_]) (-1)) s) in
  snd (schedule 4096 1 (ScheduleTask_cb (Some [Work 2]) (-1)) s).
Definition order_shared : list nat := [0; 1; 0; 1; 0; 1; 1; 0; 1; 1; 1]%nat.

Lemma workers_refine_queue_witness :
  exists s', interleave 4096 order_shared sched_shared = (Ok tt, s') /\
    [4; 5]%nat ++ [6]%nat = [4; 5; 6]%nat ++ m_tasks s' /\ output s' = [2; 3]%nat.
Proof.
  eexists. split; [vm_compute; reflexivity|]. split; [|vm_compute; reflexivity].
  eapply (workers_refine_queue 4096 sched_shared (fst (trace 4096 order_shared sched_shared))).
  apply trace_execution. vm_compute. reflexivity.
Defined.
