(* ===== verification/Timer.v ===== *)
(** * Timer: the timer queue of the event loop

    Models [cczoecpp/Timer/timer.cpp], [timer.h], [timerManager.cpp] and
    [timerManager.h].  The [std::set] of timers is the list of their addresses in
    the order of [Timer::Comparator]; the timer objects live in a heap.  Times are
    64-bit numbers of milliseconds, [now] is what [getCurrentMs] returns, and the
    address of a new object is an argument. *)

From stdpp Require Import base list numbers gmap.
From S2P Require Import Prelude Words Mutex.

Local Open Scope Z_scope.

Definition ptr : Type := nat.

(** A [std::function<void()>]: a client's callback, or the closure that
    [addTimer] builds for a condition, which holds references to the parameters of
    that call. *)
Inductive callback : Type :=
  | Client (n : nat)
  | CondClosure (n : nat).

(** Calling it after the call that built it has returned: the references of the
    closure dangle. *)
Definition call (cb : option callback) : outcome nat :=
  match cb with
  | Some (Client n) => Ok n
  | Some (CondClosure n) => UB
  | None => Abort
  end.

Record Timer : Type := mkTimer {
  m_recurring : bool;
  m_ms : Z;
  m_next : Z;
  m_cb : option callback
}.

Definition set_m_ms (v : Z) (t : Timer) : Timer := mkTimer (m_recurring t) v (m_next t) (m_cb t).
Definition set_m_next (v : Z) (t : Timer) : Timer := mkTimer (m_recurring t) (m_ms t) v (m_cb t).
Definition set_m_cb (v : option callback) (t : Timer) : Timer := mkTimer (m_recurring t) (m_ms t) (m_next t) v.

Section Timer.
Context {L : Type} `{PosixLock L}.

Record TimerManager : Type := mkTimerManager {
  m_mutex : L;
  m_timers : list ptr;              (* the set, in the order of the comparator *)
  timers : gmap ptr Timer;          (* the timer objects *)
  front_insertions : nat            (* calls of onTimerInsertedAtFront *)
}.

Definition set_m_mutex (v : L) (s : TimerManager) : TimerManager :=
  mkTimerManager v (m_timers s) (timers s) (front_insertions s).
Definition set_m_timers (v : list ptr) (s : TimerManager) : TimerManager :=
  mkTimerManager (m_mutex s) v (timers s) (front_insertions s).
Definition set_timers (v : gmap ptr Timer) (s : TimerManager) : TimerManager :=
  mkTimerManager (m_mutex s) (m_timers s) v (front_insertions s).
Definition set_front (v : nat) (s : TimerManager) : TimerManager :=
  mkTimerManager (m_mutex s) (m_timers s) (timers s) v.

Definition deref (t : ptr) : comp TimerManager Timer := fun s =>
  match timers s !! t with Some x => (Ok x, s) | None => (UB, s) end.
Definition update (t : ptr) (f : Timer -> Timer) : comp TimerManager unit := fun s =>
  match timers s !! t with
  | Some x => (Ok tt, set_timers (<[t := f x]> (timers s)) s)
  | None => (UB, s)
  end.

(** [Timer::Timer(ms, cb, recurring, manager)] and [Timer::Timer(now)]. *)
Definition Timer_ctor (now ms : Z) (cb : option callback) (recurring : bool) : Timer :=
  mkTimer recurring ms (wrap 64 (now + ms)) cb.
Definition Timer_now (now : Z) : Timer := mkTimer false 0 now None.

(** [Timer::Comparator] on two objects and their addresses. *)
Definition timer_lt (x : Timer) (p : ptr) (y : Timer) (q : ptr) : bool :=
  if m_next x <? m_next y then true
  else if m_next y <? m_next x then false
  else (p <? q)%nat.

(** [operator()] on pointers that may be null. *)
Definition Comparator (h : gmap ptr Timer) (lhs rhs : option ptr) : outcome bool :=
  match lhs, rhs with
  | None, None => Ok false
  | None, Some _ => Ok true
  | Some _, None => Ok false
  | Some p, Some q =>
      match h !! p, h !! q with
      | Some x, Some y => Ok (timer_lt x p y q)
      | _, _ => UB
      end
  end.

(** The comparator on the objects of the heap. *)
Definition less (h : gmap ptr Timer) (p q : ptr) : bool :=
  match Comparator h (Some p) (Some q) with Ok b => b | _ => false end.

(** ** [std::set] with this comparator *)

(** [insert]: the new list, and whether the element was inserted. *)
Fixpoint set_insert (h : gmap ptr Timer) (t : ptr) (l : list ptr) : list ptr * bool :=
  match l with
  | [] => ([t], true)
  | u :: l' =>
      if less h t u then (t :: l, true)
      else if less h u t then let '(l'', b) := set_insert h t l' in (u :: l'', b)
      else (l, false)
  end.

(** [find]: is there an element equivalent to [t]? *)
Fixpoint set_find (h : gmap ptr Timer) (t : ptr) (l : list ptr) : option ptr :=
  match l with
  | [] => None
  | u :: l' => if negb (less h u t) && negb (less h t u) then Some u else set_find h t l'
  end.

(** [erase] of an element of the set. *)
Definition set_erase (t : ptr) (l : list ptr) : list ptr := filter (fun u => u <> t) l.

(** [lower_bound]: the elements before the first that is not less than [t]. *)
Fixpoint set_before (h : gmap ptr Timer) (t : ptr) (l : list ptr) : list ptr :=
  match l with
  | [] => []
  | u :: l' => if less h u t then u :: set_before h t l' else []
  end.

(** ** The timer manager *)

(** [addTimer(timer, mutex)]. *)
Definition addTimer_ptr (timer : ptr) : comp TimerManager unit :=
  do! lift m_mutex set_m_mutex RWMutex_wrlock in
  let! h := get timers in
  let! l := get m_timers in
  let '(l', inserted) := set_insert h timer l in
  do! modify (set_m_timers l') in
  do! lift m_mutex set_m_mutex RWMutex_unlock in
  let! l := get m_timers in
  if inserted && bool_decide (head l = Some timer)
  then modify (fun s => set_front (S (front_insertions s)) s)
  else ret tt.

(** [addTimer(ms, cb, recurring)]; the new object is at address [p]. *)
Definition addTimer (now : Z) (p : ptr) (ms : Z) (cb : option callback) (recurring : bool)
    : comp TimerManager ptr :=
  do! modify (fun s => set_timers (<[p := Timer_ctor now ms cb recurring]> (timers s)) s) in
  do! addTimer_ptr p in
  ret p.

(** [addTimer(ms, cb, cond, recurring)]. *)
Definition addTimer_cond (now : Z) (p : ptr) (ms : Z) (cb : nat) (recurring : bool)
    : comp TimerManager ptr :=
  addTimer now p ms (Some (CondClosure cb)) recurring.

Definition getNextTimer (now : Z) : comp TimerManager Z :=
  with_lock m_mutex set_m_mutex ReadScoped (
    let! l := get m_timers in
    match l with
    | [] => ret UINT64_MAX
    | t :: _ =>
        let! next := deref t in
        ret (if m_next next <=? now then 0 else m_next next - now)
    end).

Definition empty : comp TimerManager bool :=
  with_lock m_mutex set_m_mutex ReadScoped (
    let! l := get m_timers in ret (bool_decide (l = []))).

(** The [while] that also takes the timers that are due exactly [now]. *)
Fixpoint due_now (h : gmap ptr Timer) (now : Z) (l : list ptr) : list ptr :=
  match l with
  | [] => []
  | t :: l' =>
      match h !! t with
      | Some x => if m_next x =? now then t :: due_now h now l' else []
      | None => []
      end
  end.

(** The [for] over the expired timers. *)
Fixpoint expire (now : Z) (expired : list ptr) : comp TimerManager (list (option callback)) :=
  match expired with
  | [] => ret []
  | t :: expired =>
      let! x := deref t in
      do! (if m_recurring x then
             do! update t (set_m_next (wrap 64 (now + m_ms x))) in
             let! h := get timers in
             modify (fun s => set_m_timers (fst (set_insert h t (m_timers s))) s)
           else update t (set_m_cb None)) in
      let! res := expire now expired in
      ret (m_cb x :: res)
  end.

(** [getExpiredCb]; the timer that stands for [now] is allocated at [p]. *)
Definition getExpiredCb (now : Z) (p : ptr) : comp TimerManager (list (option callback)) :=
  let! none := with_lock m_mutex set_m_mutex ReadScoped (
    let! l := get m_timers in ret (bool_decide (l = []))) in
  if none : bool then ret [] else
  with_lock m_mutex set_m_mutex WriteScoped (
    let! h := get timers in
    let! l := get m_timers in
    let before := set_before (<[p := Timer_now now]> h) p l in
    let expired := before ++ due_now h now (drop (length before) l) in
    do! modify (set_m_timers (drop (length expired) l)) in
    expire now expired).

(** ** The operations of a timer *)

Definition cancel (t : ptr) : comp TimerManager bool :=
  with_lock m_mutex set_m_mutex WriteScoped (
    let! x := deref t in
    match m_cb x with
    | None => ret false
    | Some _ =>
        do! update t (set_m_cb None) in
        let! h := get timers in
        let! l := get m_timers in
        match set_find h t l with
        | None => fail UB
        | Some u =>
            do! modify (set_m_timers (set_erase u l)) in
            ret true
        end
    end).

(** [reset] holds [m_mutex] when it calls [addTimer], which locks it again. *)
Definition reset (now : Z) (t : ptr) (ms : Z) (from_now : bool) : comp TimerManager bool :=
  with_lock m_mutex set_m_mutex WriteScoped (
    let! x := deref t in
    match m_cb x with
    | None => ret false
    | Some _ =>
        let! h := get timers in
        let! l := get m_timers in
        match set_find h t l with
        | None => ret false
        | Some u =>
            do! modify (set_m_timers (set_erase u l)) in
            do! update t (set_m_ms ms) in
            do! (if from_now then update t (set_m_next (wrap 64 (now + ms))) else ret tt) in
            do! addTimer_ptr t in
            ret true
        end
    end).

Definition refresh (now : Z) (t : ptr) : comp TimerManager bool :=
  with_lock m_mutex set_m_mutex WriteScoped (
    let! x := deref t in
    match m_cb x with
    | None => ret false
    | Some _ =>
        do! update t (set_m_cb None) in
        let! h := get timers in
        let! l := get m_timers in
        match set_find h t l with
        | None => ret false
        | Some u =>
            do! modify (set_m_timers (set_erase u l)) in
            do! update t (set_m_next (wrap 64 (now + m_ms x))) in
            let! h := get timers in
            do! modify (fun s => set_m_timers (fst (set_insert h t (m_timers s))) s) in
            ret true
        end
    end).

(** [TimerManager::TimerManager()]. *)
Definition TimerManager_ctor : TimerManager := mkTimerManager pl_init [] ∅ 0%nat.
End Timer.

Arguments TimerManager L : clear implicits.
