(* ===== verification/TimerTheorems.v ===== *)
(** * TimerTheorems: the timer queue

    The order of the timer set, which timers expire and in which order, and what
    cancelling, resetting and refreshing a timer do. *)

From Stdlib Require Import Sorting.Sorted.
From stdpp Require Import base list numbers gmap sets.
From S2P Require Import Prelude Words Mutex Timer.

Local Open Scope Z_scope.

(** ** The order of the set *)

Definition nx (h : gmap ptr Timer) (t : ptr) : Z :=
  match h !! t with Some x => m_next x | None => 0 end.

(** By deadline, then by address. *)
Definition before (h : gmap ptr Timer) (t u : ptr) : Prop :=
  nx h t < nx h u \/ nx h t = nx h u /\ (t < u)%nat.

#[global] Instance before_dec h t u : Decision (before h t u).
Proof. unfold before. apply _. Defined.

Definition in_heap (h : gmap ptr Timer) (t : ptr) : Prop := is_Some (h !! t).

Lemma before_trans h t u v : before h t u -> before h u v -> before h t v.
Proof. unfold before. lia. Qed.

Lemma before_irrefl h t : ~ before h t t.
Proof. unfold before. lia. Qed.

Lemma before_total h t u : t <> u -> before h t u \/ before h u t.
Proof. unfold before. lia. Qed.

Lemma less_before h t u : in_heap h t -> in_heap h u -> less h t u = bool_decide (before h t u).
Proof.
  intros [x Hx] [y Hy]. unfold less, Comparator. rewrite Hx, Hy. unfold timer_lt.
  case_bool_decide as Hb; unfold before, nx in Hb; rewrite Hx, Hy in Hb;
    destruct (Z.ltb_spec (m_next x) (m_next y)), (Z.ltb_spec (m_next y) (m_next x)),
      (Nat.ltb_spec t u); try done; lia.
Qed.

(** Sorted lists of live timers. *)
Definition sorted (h : gmap ptr Timer) (l : list ptr) : Prop :=
  StronglySorted (before h) l /\ Forall (in_heap h) l.

Lemma sorted_nil h : sorted h [].
Proof. split; constructor. Qed.

Lemma sorted_cons_inv h t l :
  sorted h (t :: l) -> sorted h l /\ in_heap h t /\ forall u, u ∈ l -> before h t u.
Proof.
  intros [Hs Hf]. apply StronglySorted_inv in Hs as [Hs Ht]. apply Forall_cons in Hf as [? ?].
  split; [done|]. split; [done|]. by apply Forall_forall.
Qed.

Lemma sorted_NoDup h l : sorted h l -> NoDup l.
Proof.
  induction l as [|t l IH]; intros Hs; [constructor|].
  apply sorted_cons_inv in Hs as (Hs & _ & Hb). constructor; [|auto].
  intros Ht. by apply (before_irrefl h t), Hb.
Qed.

(** Changing a timer that is not in the list. *)
Lemma sorted_update h l t x : sorted h l -> t ∉ l -> sorted (<[t := x]> h) l.
Proof.
  intros [Hs Hf] Ht.
  assert (forall u, u ∈ l -> nx (<[t:=x]> h) u = nx h u /\ (in_heap h u -> in_heap (<[t:=x]> h) u)) as Hn.
  { intros u Hu. unfold nx, in_heap. rewrite lookup_insert_ne by congruence. done. }
  split.
  - clear Hf. induction l as [|u l IH]; [constructor|]. apply StronglySorted_inv in Hs as [Hs Hb].
    constructor.
    + apply IH; [done|set_solver|]. intros v Hv. apply Hn. set_solver.
    + rewrite Forall_forall in *. intros v Hv. unfold before.
      rewrite (proj1 (Hn u ltac:(set_solver))), (proj1 (Hn v ltac:(set_solver))). by apply Hb.
  - rewrite Forall_forall in *. intros u Hu. by apply Hn, Hf.
Qed.

Lemma set_insert_spec h t l :
  sorted h l -> in_heap h t -> t ∉ l ->
  exists l', set_insert h t l = (l', true) /\ l' ≡ₚ t :: l /\ sorted h l' /\
    (head l' = Some t <-> forall u, u ∈ l -> before h t u).
Proof.
  intros Hs Ht. induction l as [|u l IH]; intros Hn; cbn [set_insert].
  { exists [t]. split; [done|]. split; [done|]. split; [split; repeat constructor; done|].
    split; [set_solver|done]. }
  destruct (sorted_cons_inv h u l Hs) as (Hs' & Hu & Hb).
  rewrite !less_before by done. case_bool_decide as H1.
  { exists (t :: u :: l). split; [done|]. split; [done|]. split.
    - split; [|by constructor; [|apply Hs]]. constructor; [apply Hs|].
      constructor; [done|]. apply Forall_forall. intros v Hv. eapply before_trans; [done|]. by apply Hb.
    - split; [|done]. intros _ v Hv. apply elem_of_cons in Hv as [->|Hv]; [done|].
      eapply before_trans; [done|]. by apply Hb. }
  destruct (before_total h t u) as [|H2]; [set_solver|done|].
  rewrite bool_decide_true by done.
  destruct (IH Hs' ltac:(set_solver)) as (l' & -> & Hp & Hs'' & _).
  exists (u :: l'). split; [done|]. split; [by rewrite Hp; constructor|]. split.
  - destruct Hs'' as [Hss Hf]. split; [|by constructor]. constructor; [done|].
    apply Forall_forall. intros v Hv. rewrite Hp in Hv. apply elem_of_cons in Hv as [->|Hv]; [done|].
    by apply Hb.
  - split; [intros [= ->]; set_solver|]. intros Hall. exfalso. apply H1, Hall. set_solver.
Qed.

Lemma set_find_spec h t l :
  sorted h l -> in_heap h t -> set_find h t l = if decide (t ∈ l) then Some t else None.
Proof.
  intros Hs Ht. induction l as [|u l IH]; cbn [set_find].
  { by rewrite decide_False by set_solver. }
  destruct (sorted_cons_inv h u l Hs) as (Hs' & Hu & Hb). rewrite !less_before by done.
  destruct (decide (u = t)) as [->|Hne].
  - rewrite bool_decide_false by apply before_irrefl. simpl. by rewrite decide_True by set_solver.
  - assert (bool_decide (before h u t) = true \/ bool_decide (before h t u) = true) as Hc
      by (rewrite !bool_decide_eq_true; by apply before_total).
    assert (negb (bool_decide (before h u t)) && negb (bool_decide (before h t u)) = false) as ->
      by (destruct Hc as [-> | ->]; [done|apply andb_false_r]).
    rewrite (IH Hs'). destruct (decide (t ∈ l)), (decide (t ∈ u :: l)); try done; set_solver.
Qed.

(** The callback plays no role in the order. *)
Lemma set_find_set_cb h t x v u l :
  h !! t = Some x -> set_find (<[t := set_m_cb v x]> h) u l = set_find h u l.
Proof.
  intros Hx. induction l as [|w l IH]; [done|]. cbn [set_find]. rewrite IH.
  assert (forall a b, less (<[t := set_m_cb v x]> h) a b = less h a b) as Hless.
  { intros a b. unfold less, Comparator.
    destruct (decide (t = a)) as [<-|], (decide (t = b)) as [<-|];
      rewrite ?lookup_insert_eq, ?lookup_insert_ne, ?Hx by done; try done; by destruct (h !! _). }
  by rewrite !Hless.
Qed.

Lemma filter_sorted h (P : ptr -> Prop) `{!forall t, Decision (P t)} l : sorted h l -> sorted h (filter P l).
Proof.
  intros [Hs Hf]. split.
  - induction l as [|u l IH]; [constructor|]. apply StronglySorted_inv in Hs as [Hs Hb].
    apply Forall_cons in Hf as [Hu Hf]. rewrite filter_cons. case_decide; [|auto].
    constructor; [auto|]. apply Forall_forall. intros v Hv. apply list_elem_of_filter in Hv as [_ Hv].
    rewrite Forall_forall in Hb. by apply Hb.
  - apply Forall_forall. intros v Hv. apply list_elem_of_filter in Hv as [_ Hv].
    rewrite Forall_forall in Hf. by apply Hf.
Qed.

Lemma erase_Permutation t l : t ∈ l -> NoDup l -> t :: set_erase t l ≡ₚ l.
Proof.
  intros Ht Hnd. induction Hnd as [|u l Hu Hnd IH]; [set_solver|].
  unfold set_erase in *. rewrite filter_cons. destruct (decide (u <> t)) as [Hne|Heq].
  - rewrite <- IH at 2 by set_solver. constructor.
  - assert (u = t) as -> by (destruct (decide (u = t)); tauto).
    rewrite filter_all_in; [done|]. intros w Hw ->. done.
Qed.

Lemma set_erase_sorted h t l : sorted h l -> sorted h (set_erase t l).
Proof. apply filter_sorted. Qed.

(** ** Which timers expire *)

Section due.
Context (h : gmap ptr Timer) (now : Z).

Definition due (t : ptr) : Prop := nx h t <= now.

#[local] Instance due_dec t : Decision (due t).
Proof. unfold due. apply _. Defined.

Lemma due_now_spec l :
  sorted h l -> (forall t, t ∈ l -> now <= nx h t) ->
  due_now h now l = filter due l /\ drop (length (filter due l)) l = filter (fun t => ~ due t) l.
Proof.
  induction l as [|t l IH]; intros Hs Hge; [done|].
  destruct (sorted_cons_inv h t l Hs) as (Hs' & [x Hx] & Hb).
  assert (nx h t = m_next x) as Hnx by (unfold nx; by rewrite Hx).
  pose proof (Hge t ltac:(set_solver)) as Ht. cbn [due_now]. rewrite Hx, !filter_cons.
  destruct (Z.eqb_spec (m_next x) now).
  - assert (due t) by (unfold due; lia). rewrite decide_True by done.
    rewrite (decide_False (P := ~ due t)) by tauto.
    destruct (IH Hs' ltac:(set_solver)) as [-> Hd]. split; [done|]. exact Hd.
  - assert (Hall : forall u, u ∈ t :: l -> ~ due u).
    { intros u Hu. apply elem_of_cons in Hu as [->|Hu]; unfold due; [lia|].
      destruct (Hb u Hu) as [|[]]; lia. }
    rewrite decide_False by (apply Hall; set_solver).
    rewrite (decide_True (P := ~ due t)) by (apply Hall; set_solver).
    rewrite filter_none_in by set_solver.
    split; [done|]. simpl. f_equal. symmetry. apply filter_all_in. set_solver.
Qed.

(** [lower_bound] of a timer for [now], then the timers due exactly now: all
    that are due. *)
Lemma expired_spec p l :
  sorted h l -> h !! p = None ->
  let before := set_before (<[p := Timer_now now]> h) p l in
  let expired := before ++ due_now h now (drop (length before) l) in
  expired = filter due l /\ drop (length expired) l = filter (fun t => ~ due t) l.
Proof.
  intros Hs Hp. induction l as [|t l IH]; [done|]. cbv zeta in *.
  pose proof Hs as (Hs' & [x Hx] & Hb)%sorted_cons_inv.
  assert (nx h t = m_next x) as Hnx by (unfold nx; by rewrite Hx).
  assert (p <> t) as Hne by congruence. cbn [set_before].
  assert (less (<[p:=Timer_now now]> h) t p = timer_lt x t (Timer_now now) p) as ->.
  { unfold less, Comparator. by rewrite lookup_insert_ne, Hx, lookup_insert_eq. }
  unfold timer_lt; cbn [m_next Timer_now].
  destruct (if m_next x <? now then true else if now <? m_next x then false else (t <? p)%nat) eqn:Hlt.
  - assert (due t).
    { unfold due. destruct (Z.ltb_spec (m_next x) now); [lia|].
      destruct (Z.ltb_spec now (m_next x)); [done|lia]. }
    rewrite !filter_cons. rewrite decide_True by done. rewrite (decide_False (P := ~ due t)) by tauto.
    destruct (IH Hs') as [He Hd]. cbn [app length drop]. rewrite He in *. done.
  - cbn [app length drop]. rewrite ?drop_0.
    cut (forall u, u ∈ t :: l -> now <= nx h u).
    { intros Hge. destruct (due_now_spec (t :: l) Hs Hge) as [-> ?]. done. }
    assert (now <= nx h t) as Ht by (destruct (Z.ltb_spec (m_next x) now); [done|lia]).
    intros u Hu. apply elem_of_cons in Hu as [->|Hu]; [done|]. destruct (Hb u Hu) as [|[]]; lia.
Qed.
End due.

#[local] Existing Instance due_dec.

(** ** The loop over the expired timers *)

Definition recurring (h : gmap ptr Timer) (t : ptr) : Prop :=
  match h !! t with Some x => m_recurring x = true | None => False end.

#[local] Instance recurring_dec h t : Decision (recurring h t).
Proof. unfold recurring. destruct (h !! t); apply _. Defined.

(** A timer after it has fired. *)
Definition fired (now : Z) (x : Timer) : Timer :=
  if m_recurring x then set_m_next (wrap 64 (now + m_ms x)) x else set_m_cb None x.

(** The callback of a timer. *)
Definition cb_of (h : gmap ptr Timer) (t : ptr) : option callback :=
  match h !! t with Some x => m_cb x | None => None end.

Section timers.
Context {L : Type} `{PosixLockLaws L}.

Lemma timer_deref_Ok (s : TimerManager L) t x : timers s !! t = Some x -> deref t s = (Ok x, s).
Proof. intros Hx. unfold deref. by rewrite Hx. Qed.

Lemma timer_update_Ok (s : TimerManager L) t f x :
  timers s !! t = Some x -> update t f s = (Ok tt, set_timers (<[t := f x]> (timers s)) s).
Proof. intros Hx. unfold update. by rewrite Hx. Qed.

(** One of the timers taken out: a recurring one goes back with its next deadline. *)
Lemma expire_one now (s : TimerManager L) t x :
  timers s !! t = Some x -> t ∉ m_timers s -> sorted (timers s) (m_timers s) ->
  exists s1, (if m_recurring x then
         bind (update t (set_m_next (wrap 64 (now + m_ms x)))) (fun _ =>
         bind (get timers) (fun h =>
         modify (fun s => set_m_timers (fst (set_insert h t (m_timers s))) s)))
       else update t (set_m_cb None)) s = (Ok tt, s1) /\
    timers s1 = <[t := fired now x]> (timers s) /\ m_mutex s1 = m_mutex s /\ front_insertions s1 = front_insertions s /\
    sorted (timers s1) (m_timers s1) /\
    m_timers s1 ≡ₚ m_timers s ++ (if m_recurring x then [t] else []).
Proof.
  intros Hx Hout Hs. set (s0 := set_timers (<[t := fired now x]> (timers s)) s).
  assert (sorted (timers s0) (m_timers s0)) as Hs0 by (by apply sorted_update).
  assert (in_heap (timers s0) t) as Ht0 by (unfold in_heap; simpl; rewrite lookup_insert_eq; by eexists).
  unfold s0, fired in *. destruct (m_recurring x).
  - rewrite (bind_Ok _ _ _ _ _ (timer_update_Ok s t _ x Hx)), bind_get.
    destruct (set_insert_spec _ t (m_timers s) Hs0 Ht0 Hout) as (l' & Hi & Hp & Hsl & _).
    eexists. split; [reflexivity|]. simpl in *. rewrite Hi. do 3 (split; [done|]). split; [done|].
    simpl. rewrite Hp. apply Permutation_cons_append.
  - rewrite (timer_update_Ok s t _ x Hx). eexists. split; [reflexivity|]. do 3 (split; [done|]). split; [done|].
    simpl. by rewrite app_nil_r.
Qed.

Lemma expire_spec now expired : forall s : TimerManager L,
  NoDup expired -> Forall (in_heap (timers s)) expired ->
  (forall t, t ∈ expired -> t ∉ m_timers s) -> sorted (timers s) (m_timers s) ->
  exists s', expire now expired s = (Ok (map (cb_of (timers s)) expired), s') /\
    m_mutex s' = m_mutex s /\ front_insertions s' = front_insertions s /\
    sorted (timers s') (m_timers s') /\
    m_timers s' ≡ₚ m_timers s ++ filter (recurring (timers s)) expired /\
    (forall t, timers s' !! t = if decide (t ∈ expired) then fired now <$> timers s !! t else timers s !! t).
Proof.
  induction expired as [|t expired IH]; intros s Hnd Hh Hdis Hs.
  { exists s. split; [done|]. do 3 (split; [done|]). split; [by rewrite app_nil_r|].
    intros t. by rewrite decide_False by set_solver. }
  apply NoDup_cons in Hnd as [Ht Hnd]. apply Forall_cons in Hh as [[x Hx] Hh].
  cbn [expire map]. rewrite (bind_Ok _ _ _ _ _ (timer_deref_Ok s t x Hx)).
  destruct (expire_one now s t x Hx ltac:(set_solver) Hs) as (s1 & He & Ht1 & Hm1 & Hf1 & Hs1 & Hp1).
  rewrite (bind_Ok _ _ _ _ _ He).
  destruct (IH s1 Hnd) as (s2 & He2 & Hm2 & Hf2 & Hs2 & Hp2 & Hh2).
  { rewrite Ht1. eapply Forall_impl; [exact Hh|]. intros u Hu. unfold in_heap.
    destruct (decide (t = u)) as [<-|]; [by rewrite lookup_insert_eq|by rewrite lookup_insert_ne]. }
  { intros u Hu Hin. rewrite Hp1 in Hin. apply elem_of_app in Hin as [Hin|Hin].
    - by apply (Hdis u); [right|].
    - destruct (m_recurring x); set_solver. }
  { done. }
  rewrite (bind_Ok _ _ _ _ _ He2). exists s2.
  assert (Heq : forall u, u ∈ expired -> timers s1 !! u = timers s !! u).
  { intros u Hu. rewrite Ht1. apply lookup_insert_ne. congruence. }
  split; [|split; [congruence|split; [congruence|split; [done|split]]]].
  - assert (cb_of (timers s) t = m_cb x) as -> by (unfold cb_of; by rewrite Hx).
    unfold ret. do 3 f_equal. apply map_ext_in. intros u Hu.
    unfold cb_of. rewrite Heq; [done|]. by apply list_elem_of_In.
  - rewrite Hp2, Hp1, <- app_assoc, filter_cons. f_equiv.
    assert (filter (recurring (timers s1)) expired = filter (recurring (timers s)) expired) as ->.
    { apply filter_ext_in. intros u Hu. unfold recurring. by rewrite Heq. }
    assert (recurring (timers s) t <-> m_recurring x = true) as Hr by (unfold recurring; by rewrite Hx).
    destruct (m_recurring x); [rewrite decide_True by (by apply Hr) | rewrite decide_False by (by rewrite Hr)]; done.
  - intros u. rewrite Hh2, Ht1.
    destruct (decide (t = u)) as [<-|Hne].
    + rewrite decide_False by done. rewrite decide_True by left. by rewrite lookup_insert_eq, Hx.
    + rewrite lookup_insert_ne by done.
      destruct (decide (u ∈ expired)), (decide (u ∈ t :: expired)); try done; set_solver.
Qed.

(** ** The manager between two calls *)

Definition tm_ok (s : TimerManager L) : Prop :=
  m_mutex s = pl_init /\ sorted (timers s) (m_timers s).

(** A critical section of the manager. *)
Lemma critical {A} k (body : comp (TimerManager L) A) s a s2 :
  m_mutex s = pl_init -> body (set_m_mutex (held k) s) = (Ok a, s2) -> m_mutex s2 = held k ->
  with_lock m_mutex set_m_mutex k body s = (Ok a, set_m_mutex pl_init s2).
Proof. apply (with_lock_Ok m_mutex set_m_mutex). Qed.

Lemma unlocked s : m_mutex s = pl_init -> set_m_mutex pl_init (set_m_mutex (held ReadScoped) s) = s.
Proof. destruct s; simpl. by intros ->. Qed.

(** The result of [getNextTimer]: the wait until the first deadline. *)
Lemma getNextTimer_first now s t l x :
  tm_ok s -> m_timers s = t :: l -> timers s !! t = Some x ->
  getNextTimer now s = (Ok (if m_next x <=? now then 0 else m_next x - now), s).
Proof.
  intros [Hm Hs] Hl Hx. unfold getNextTimer. erewrite critical; [|done| |].
  - by rewrite unlocked.
  - rewrite bind_get. cbn [m_timers set_m_mutex]. rewrite Hl.
    by rewrite (bind_Ok _ _ _ _ _ (timer_deref_Ok (set_m_mutex _ s) t x Hx)).
  - done.
Qed.

(** Insertion of an object that is in the heap and not in the set. *)
Lemma addTimer_ptr_inserts s t :
  tm_ok s -> in_heap (timers s) t -> t ∉ m_timers s ->
  exists s', addTimer_ptr t s = (Ok tt, s') /\ tm_ok s' /\ m_timers s' ≡ₚ t :: m_timers s /\
    timers s' = timers s /\
    front_insertions s' = (front_insertions s +
      if bool_decide (head (m_timers s') = Some t) then 1 else 0)%nat /\
    (head (m_timers s') = Some t <-> forall u, u ∈ m_timers s -> before (timers s) t u).
Proof.
  intros [Hm Hs] Ht Hn. unfold addTimer_ptr.
  assert (lift m_mutex set_m_mutex RWMutex_wrlock s = (Ok tt, set_m_mutex pl_writer s)) as Hlock.
  { unfold lift. rewrite Hm. pose proof (acquire_init WriteScoped) as Ha. simpl in Ha. by rewrite Ha. }
  rewrite (bind_Ok _ _ _ _ _ Hlock), !bind_get. cbn [timers m_timers set_m_mutex].
  destruct (set_insert_spec _ t _ Hs Ht Hn) as (l' & -> & Hp & Hsl & Hhd).
  rewrite bind_modify. set (s1 := set_m_timers l' _).
  rewrite (bind_Ok _ _ _ _ _ (lift_unlock m_mutex set_m_mutex WriteScoped s1 eq_refl)), bind_get.
  cbn [m_timers set_m_timers set_m_mutex s1 andb].
  destruct (bool_decide (head l' = Some t)) eqn:Hb.
  - eexists. split; [reflexivity|]. simpl. rewrite Hb, Nat.add_1_r. split; [by split|]. done.
  - eexists. split; [reflexivity|]. simpl. rewrite Hb, Nat.add_0_r. split; [by split|]. done.
Qed.

(** C35: [addTimer] keeps the set ordered and complete.  A new timer of [ms]
    milliseconds is added with the deadline [now + ms] modulo 2^64, nothing else
    is lost or moved, the front hook runs exactly when the new timer is the
    first to expire, and [getNextTimer] then reports the distance to the least
    deadline of all (zero when it has passed). *)
Theorem addTimer_keeps_order now later p ms cb rec s :
  tm_ok s -> timers s !! p = None ->
  exists s', addTimer now p ms cb rec s = (Ok p, s') /\ tm_ok s' /\
    m_timers s' ≡ₚ p :: m_timers s /\ nx (timers s') p = wrap 64 (now + ms) /\
    (forall u, u <> p -> timers s' !! u = timers s !! u) /\
    front_insertions s' = (front_insertions s +
      if decide (Forall (before (timers s') p) (m_timers s)) then 1 else 0)%nat /\
    exists t, t ∈ m_timers s' /\ (forall u, u ∈ m_timers s' -> nx (timers s') t <= nx (timers s') u) /\
      getNextTimer later s' =
        (Ok (if nx (timers s') t <=? later then 0 else nx (timers s') t - later), s').
Proof.
  intros [Hm Hs] Hp. assert (p ∉ m_timers s) as Hn.
  { intros Hin. destruct Hs as [_ Hf]. rewrite Forall_forall in Hf. destruct (Hf p Hin). congruence. }
  set (s0 := set_timers (<[p := Timer_ctor now ms cb rec]> (timers s)) s).
  assert (tm_ok s0) as Hok0 by (split; [done|]; by apply sorted_update).
  destruct (addTimer_ptr_inserts s0 p Hok0) as (s1 & He & Hok1 & Hperm & Ht & Hf & Hhd); [|done|].
  { unfold in_heap, s0; simpl. rewrite lookup_insert_eq. by eexists. }
  exists s1. split.
  { unfold addTimer. rewrite bind_modify. fold s0. by rewrite (bind_Ok _ _ _ _ _ He). }
  split; [done|]. split; [done|]. split; [|split; [|split]].
  - rewrite Ht. unfold s0, nx; simpl. by rewrite lookup_insert_eq.
  - intros u Hu. rewrite Ht. unfold s0; simpl. by apply lookup_insert_ne.
  - rewrite Hf, Ht. f_equal.
    destruct (decide (Forall (before (timers s0) p) (m_timers s))) as [Ha|Ha].
    + rewrite bool_decide_true; [done|]. apply Hhd. by apply Forall_forall.
    + rewrite bool_decide_false; [done|]. rewrite Hhd. intros Hb. by apply Ha, Forall_forall.
  - destruct (m_timers s1) as [|t l] eqn:Hl.
    { by apply Permutation_nil_cons in Hperm. }
    destruct Hok1 as [Hm1 Hs1]. rewrite Hl in Hs1.
    destruct (sorted_cons_inv _ _ _ Hs1) as (_ & [x Hx] & Hb).
    exists t. split; [by left|]. split.
    + intros u Hu. apply elem_of_cons in Hu as [->|Hu]; [done|]. destruct (Hb u Hu) as [|[]]; lia.
    + rewrite (getNextTimer_first later s1 t l x); [|by split; [|rewrite Hl]|done|done].
      unfold nx. by rewrite Hx.
Qed.

Lemma getExpiredCb_spec now p s :
  tm_ok s -> timers s !! p = None ->
  let expired := filter (due (timers s) now) (m_timers s) in
  exists s', getExpiredCb now p s = (Ok (map (cb_of (timers s)) expired), s') /\ tm_ok s' /\
    sorted (timers s) expired /\
    m_timers s' ≡ₚ filter (fun t => ~ due (timers s) now t) (m_timers s) ++
                    filter (recurring (timers s)) expired /\
    (forall t, timers s' !! t = if decide (t ∈ expired) then fired now <$> timers s !! t else timers s !! t).
Proof.
  intros [Hm Hs] Hp expired. unfold getExpiredCb.
  erewrite bind_Ok; [|apply critical; [done|reflexivity|done]]. cbn beta. rewrite unlocked by done.
  cbn [m_timers set_m_mutex].
  case_bool_decide as Hnil.
  { exists s. unfold expired. rewrite Hnil. split; [done|]. split; [by split|]. split; [apply sorted_nil|].
    split; [done|]. intros t. by rewrite decide_False by set_solver. }
  destruct (expired_spec (timers s) now p (m_timers s) Hs Hp) as [He Hd]. fold expired in He.
  assert (Hse : sorted (timers s) expired /\ sorted (timers s) (filter (fun t => ~ due (timers s) now t) (m_timers s))).
  { split; apply filter_sorted; done. }
  destruct Hse as [Hse Hsr].
  set (s0 := set_m_timers (filter (fun t => ~ due (timers s) now t) (m_timers s)) (set_m_mutex (held WriteScoped) s)).
  destruct (expire_spec now expired s0) as (s1 & He1 & Hm1 & _ & Hs1 & Hp1 & Hh1).
  { by eapply sorted_NoDup. }
  { apply Hse. }
  { intros t Ht Hin. apply list_elem_of_filter in Ht as [? _]. apply list_elem_of_filter in Hin as [? _]. done. }
  { exact Hsr. }
  exists (set_m_mutex pl_init s1). split; [|split; [by split|split; [done|split; [done|done]]]].
  apply critical; [done| |by rewrite Hm1]. rewrite !bind_get. cbn [timers m_timers set_m_mutex].
  rewrite He in *. rewrite bind_modify, Hd. exact He1.
Qed.

(** C15: [getExpiredCb] returns the callbacks of exactly the timers whose deadline
    has been reached, in the order of their deadlines, each once.  Recurring ones
    stay in the set with the deadline [now + interval]; one-shot ones leave it
    and lose their callback, so they cannot fire or be cancelled later; the
    timers that are not due are untouched, and the set stays ordered. *)
Theorem getExpiredCb_fires_due now p s :
  tm_ok s -> timers s !! p = None ->
  let expired := filter (due (timers s) now) (m_timers s) in
  exists s', getExpiredCb now p s = (Ok (map (cb_of (timers s)) expired), s') /\ tm_ok s' /\
    sorted (timers s) expired /\
    m_timers s' ≡ₚ filter (fun t => ~ due (timers s) now t) (m_timers s) ++
                    filter (recurring (timers s)) expired /\
    (forall t, timers s' !! t = if decide (t ∈ expired) then fired now <$> timers s !! t else timers s !! t).
Proof. apply getExpiredCb_spec. Qed.

(** An active timer: it is in the set and has a callback. *)
Definition active (s : TimerManager L) (t : ptr) : Prop :=
  t ∈ m_timers s /\ exists x cb, timers s !! t = Some x /\ m_cb x = Some cb.

Lemma tm_ok_in_heap s t : tm_ok s -> t ∈ m_timers s -> in_heap (timers s) t.
Proof. intros [_ [_ Hf]] Ht. rewrite Forall_forall in Hf. by apply Hf. Qed.

(** The result of [cancel]. *)
Definition cancelled (s : TimerManager L) (t : ptr) (x : Timer) : TimerManager L :=
  set_m_timers (set_erase t (m_timers s)) (set_timers (<[t := set_m_cb None x]> (timers s)) s).

Lemma cancel_active s t x cb :
  tm_ok s -> t ∈ m_timers s -> timers s !! t = Some x -> m_cb x = Some cb ->
  cancel t s = (Ok true, cancelled s t x).
Proof.
  intros [Hm Hs] Ht Hx Hcb. unfold cancel.
  rewrite (critical WriteScoped _ s true (cancelled (set_m_mutex (held WriteScoped) s) t x)); [|done| |].
  - destruct s; simpl in *. by rewrite Hm.
  - rewrite (bind_Ok _ _ _ _ _ (timer_deref_Ok (set_m_mutex _ s) t x Hx)), Hcb.
    rewrite (bind_Ok _ _ _ _ _ (timer_update_Ok (set_m_mutex _ s) t _ x Hx)), !bind_get.
    cbn [timers m_timers set_timers set_m_mutex].
    rewrite set_find_set_cb, set_find_spec by (done || by eexists). by rewrite decide_True.
  - reflexivity.
Qed.

Lemma cancel_inactive s t x :
  tm_ok s -> timers s !! t = Some x -> m_cb x = None -> cancel t s = (Ok false, s).
Proof.
  intros [Hm Hs] Hx Hcb. unfold cancel.
  rewrite (critical WriteScoped _ s false (set_m_mutex (held WriteScoped) s)); [|done| |].
  - destruct s; simpl in *. by rewrite Hm.
  - by rewrite (bind_Ok _ _ _ _ _ (timer_deref_Ok (set_m_mutex _ s) t x Hx)), Hcb.
  - reflexivity.
Qed.

Lemma cancelled_ok s t x : tm_ok s -> timers s !! t = Some x -> tm_ok (cancelled s t x).
Proof.
  intros [Hm Hs] Hx. split; [done|]. unfold cancelled; simpl. apply sorted_update.
  - by apply set_erase_sorted.
  - unfold set_erase. rewrite list_elem_of_filter. tauto.
Qed.

(** [cancel] is exact and idempotent.  Cancelling an active timer returns
    true, removes that timer and no other, and drops its callback; a second
    [cancel], or one after a one-shot timer has fired, returns false and changes
    nothing; a cancelled timer is never among the expired ones again. *)
Theorem cancel_removes s t x cb :
  tm_ok s -> t ∈ m_timers s -> timers s !! t = Some x -> m_cb x = Some cb ->
  exists s', cancel t s = (Ok true, s') /\ tm_ok s' /\
    (forall u, u ∈ m_timers s' <-> u ∈ m_timers s /\ u <> t) /\
    (forall u, u <> t -> timers s' !! u = timers s !! u) /\
    cancel t s' = (Ok false, s') /\
    (forall now p, timers s' !! p = None ->
       exists cbs s'', getExpiredCb now p s' = (Ok cbs, s'') /\ t ∉ m_timers s'' /\
         cbs = map (cb_of (timers s)) (filter (fun u => u <> t /\ due (timers s) now u) (m_timers s))).
Proof.
  intros Hok Ht Hx Hcb. exists (cancelled s t x).
  pose proof (cancelled_ok s t x Hok Hx) as Hok'.
  split; [by eapply cancel_active|]. split; [done|].
  assert (timers (cancelled s t x) !! t = Some (set_m_cb None x)) as Hx'
    by (simpl; by rewrite lookup_insert_eq).
  split; [|split; [|split]].
  - intros u. simpl. unfold set_erase. rewrite list_elem_of_filter. tauto.
  - intros u Hu. simpl. by apply lookup_insert_ne.
  - by eapply cancel_inactive.
  - intros now p Hp. destruct (getExpiredCb_spec now p _ Hok' Hp) as (s'' & He & _ & _ & Hperm & _).
    do 2 eexists. split; [exact He|]. split.
    + rewrite Hperm. intros Hin. apply elem_of_app in Hin as [Hin|Hin];
        apply list_elem_of_filter in Hin as [_ Hin]; [|apply list_elem_of_filter in Hin as [_ Hin]];
        simpl in Hin; apply list_elem_of_filter in Hin as [? _]; done.
    + simpl. unfold set_erase. rewrite list_filter_filter.
      assert (filter (fun a => due (<[t:=set_m_cb None x]> (timers s)) now a /\ a <> t) (m_timers s) =
              filter (fun u => u <> t /\ due (timers s) now u) (m_timers s)) as ->.
      { apply filter_ext_in. intros u _. unfold due, nx.
        destruct (decide (t = u)) as [<-|]; [tauto|]. rewrite lookup_insert_ne by done. tauto. }
      apply map_ext_in. intros u Hu. apply list_elem_of_In, list_elem_of_filter in Hu as [[Hu _] _].
      unfold cb_of. by rewrite lookup_insert_ne by congruence.
Qed.

(** [addTimer(timer, mutex)] called with the lock already held for writing. *)
Lemma addTimer_ptr_relocks s t :
  m_mutex s = pl_writer ->
  fst (addTimer_ptr t s) = Deadlock \/ exists s', addTimer_ptr t s = (Ok tt, s') /\ m_mutex s' = pl_init.
Proof.
  intros Hm. unfold addTimer_ptr. destruct wrlock_writer as [Hw|Hw].
  - left. unfold bind at 1, lift, RWMutex_wrlock, bind at 1. by rewrite Hm, Hw.
  - right. assert (lift m_mutex set_m_mutex RWMutex_wrlock s = (Ok tt, set_m_mutex pl_writer s)) as Hl
      by (unfold lift, RWMutex_wrlock, bind; by rewrite Hm, Hw).
    rewrite (bind_Ok _ _ _ _ _ Hl), !bind_get. destruct (set_insert _ _ _) as [l' b].
    rewrite bind_modify. set (s1 := set_m_timers l' _).
    rewrite (bind_Ok _ _ _ _ _ (lift_unlock m_mutex set_m_mutex WriteScoped s1 eq_refl)), bind_get.
    destruct (b && _); by eexists.
Qed.

(** [reset] of an active timer never completes normally.  It holds the
    manager's lock for writing and calls [addTimer], which takes the same lock
    again.  If the lock blocks a second acquisition, the thread waits for itself;
    if it reports [EDEADLK] (which [RWMutex] ignores), the timer is re-inserted
    and the lock released, and the guard's destructor then unlocks a lock that
    is not held. *)
Theorem reset_never_returns now ms from_now s t x cb :
  tm_ok s -> t ∈ m_timers s -> timers s !! t = Some x -> m_cb x = Some cb ->
  fst (reset now t ms from_now s) = Deadlock \/ fst (reset now t ms from_now s) = UB.
Proof.
  intros [Hm Hs] Ht Hx Hcb. unfold reset. rewrite (with_lock_body m_mutex set_m_mutex) by done.
  set (s0 := set_m_mutex (held WriteScoped) s).
  rewrite (bind_Ok _ _ _ _ _ (timer_deref_Ok s0 t x Hx)), Hcb, !bind_get.
  cbn [timers m_timers set_m_mutex s0]. rewrite set_find_spec by (done || by eexists).
  rewrite decide_True, bind_modify by done. set (s1 := set_m_timers _ _).
  rewrite (bind_Ok _ _ _ _ _ (timer_update_Ok s1 t _ x Hx)). set (s2 := set_timers _ s1).
  assert (exists s3, (if from_now then update t (set_m_next (wrap 64 (now + ms))) else ret tt) s2 = (Ok tt, s3) /\
    m_mutex s3 = pl_writer) as (s3 & He3 & Hm3).
  { destruct from_now; [|by exists s2].
    exists (set_timers (<[t := set_m_next (wrap 64 (now + ms)) (set_m_ms ms x)]> (timers s2)) s2).
    split; [|done]. apply timer_update_Ok. simpl. apply lookup_insert_eq. }
  rewrite (bind_Ok _ _ _ _ _ He3).
  destruct (addTimer_ptr_relocks s3 t Hm3) as [Hd|(s4 & He4 & Hm4)].
  - left. unfold bind at 1. destruct (addTimer_ptr t s3) as [o s4]. simpl in Hd. by subst o.
  - right. rewrite (bind_Ok _ _ _ _ _ He4). cbv [ret]. unfold bind, lift, RWMutex_unlock, bind.
    rewrite Hm4. pose proof unlock_init as Hu. by destruct (pl_unlock pl_init) as [[] ?].
Qed.

(** The timer a [refresh] leaves. *)
Definition refreshed (now : Z) (x : Timer) : Timer := set_m_next (wrap 64 (now + m_ms x)) (set_m_cb None x).

(** [refresh] loses the callback.  On an active timer it returns true and
    moves the deadline to [now + interval], but [m_cb] has been cleared before
    the timer is put back: the timer stays in the set, [cancel] and a second
    [refresh] refuse it, and when it expires an empty function is returned in its
    place. *)
Theorem refresh_loses_callback now s t x cb :
  tm_ok s -> t ∈ m_timers s -> timers s !! t = Some x -> m_cb x = Some cb ->
  exists s', refresh now t s = (Ok true, s') /\ tm_ok s' /\
    m_timers s' ≡ₚ m_timers s /\ timers s' !! t = Some (refreshed now x) /\
    cancel t s' = (Ok false, s') /\
    (forall later p, timers s' !! p = None -> wrap 64 (now + m_ms x) <= later ->
       exists cbs s'', getExpiredCb later p s' = (Ok cbs, s'') /\ None ∈ cbs).
Proof.
  intros Hok Ht Hx Hcb. pose proof Hok as [Hm Hs].
  set (l := set_erase t (m_timers s)).
  set (h := <[t := refreshed now x]> (timers s)).
  assert (t ∉ l) as Hn by (unfold l, set_erase; rewrite list_elem_of_filter; tauto).
  assert (sorted h l) as Hsl by (apply sorted_update; [by apply set_erase_sorted|done]).
  assert (in_heap h t) as Hht by (unfold in_heap, h; rewrite lookup_insert_eq; by eexists).
  destruct (set_insert_spec h t l Hsl Hht Hn) as (l' & Hi & Hp & Hs' & _).
  set (s' := mkTimerManager pl_init l' h (front_insertions s)).
  assert (timers s' !! t = Some (refreshed now x)) as Hx' by (simpl; apply lookup_insert_eq).
  assert (tm_ok s') as Hok' by by split.
  assert (m_timers s' ≡ₚ m_timers s) as Hperm.
  { simpl. rewrite Hp. by apply erase_Permutation, (sorted_NoDup (timers s)). }
  exists s'. split; [|split; [done|split; [done|split; [done|split]]]].
  - unfold refresh. rewrite (critical WriteScoped _ s true (mkTimerManager pl_writer l' h (front_insertions s)));
      [done|done| |done].
    set (s0 := set_m_mutex (held WriteScoped) s).
    rewrite (bind_Ok _ _ _ _ _ (timer_deref_Ok s0 t x Hx)), Hcb.
    rewrite (bind_Ok _ _ _ _ _ (timer_update_Ok s0 t _ x Hx)), !bind_get.
    cbn [timers m_timers set_timers set_m_mutex s0].
    rewrite set_find_set_cb, set_find_spec, decide_True by (done || by eexists).
    rewrite bind_modify. set (s1 := set_m_timers _ _).
    assert (timers s1 !! t = Some (set_m_cb None x)) as Hx1 by (simpl; apply lookup_insert_eq).
    rewrite (bind_Ok _ _ _ _ _ (timer_update_Ok s1 t _ _ Hx1)), bind_get, bind_modify.
    unfold s1, ret; cbn [timers m_timers set_timers set_m_timers]. rewrite insert_insert_eq.
    fold (refreshed now x) h l. by rewrite Hi.
  - by apply (cancel_inactive s' t (refreshed now x)).
  - intros later p Hfresh Hdue.
    destruct (getExpiredCb_spec later p s' Hok' Hfresh) as (s'' & He & _).
    do 2 eexists. split; [exact He|].
    apply list_elem_of_In, in_map_iff. exists t. split; [unfold cb_of; by rewrite Hx'|].
    apply list_elem_of_In, list_elem_of_filter. split.
    + unfold due, nx. by rewrite Hx'.
    + simpl. rewrite Hp. left.
Qed.
End timers.

(** ** Witnesses *)

Section witnesses.
(** A manager with a one-shot timer for time 15 and a recurring one for 12. *)
#[local] Instance lock : PosixLock lock_state := simple_lock true.
#[local] Instance lock_laws : PosixLockLaws lock_state := simple_lock_laws true.

Definition tm2 : TimerManager lock_state :=
  let s := snd (addTimer 10 1%nat 5 (Some (Client 7)) false TimerManager_ctor) in
  snd (addTimer 10 2%nat 2 (Some (Client 8)) true s).

Lemma tm2_ok : tm_ok tm2.
Proof.
  split; [reflexivity|]. split.
  - repeat constructor.
  - repeat constructor; by eexists.
Defined.

Lemma addTimer_keeps_order_witness :
  exists s', addTimer 10 3%nat 1 None false tm2 = (Ok 3%nat, s') /\ tm_ok s' /\
    m_timers s' ≡ₚ [3; 2; 1]%nat.
Proof.
  destruct (addTimer_keeps_order 10 11 3%nat 1 None false tm2 tm2_ok eq_refl) as (s' & H1 & H2 & H3 & _).
  exists s'. split; [exact H1|]. split; [exact H2|exact H3].
Defined.

Lemma getExpiredCb_fires_due_witness :
  exists s', getExpiredCb 12 9%nat tm2 = (Ok [Some (Client 8)], s') /\ tm_ok s' /\ m_timers s' ≡ₚ [1; 2]%nat.
Proof.
  destruct (getExpiredCb_fires_due 12 9%nat tm2 tm2_ok eq_refl) as (s' & H1 & H2 & _ & H3 & _).
  exists s'. split; [exact H1|]. split; [exact H2|exact H3].
Defined.

Lemma cancel_removes_witness :
  exists s', cancel 1%nat tm2 = (Ok true, s') /\ tm_ok s' /\ cancel 1%nat s' = (Ok false, s').
Proof.
  destruct (cancel_removes tm2 1%nat _ (Client 7) tm2_ok ltac:(right; left) eq_refl eq_refl)
    as (s' & H1 & H2 & _ & _ & H3 & _).
  exists s'. split; [exact H1|]. split; [exact H2|exact H3].
Defined.

Lemma reset_never_returns_witness :
  fst (reset 10 1%nat 100 true tm2) = Deadlock \/ fst (reset 10 1%nat 100 true tm2) = UB.
Proof.
  exact (reset_never_returns 10 100 true tm2 1%nat _ (Client 7) tm2_ok ltac:(right; left) eq_refl eq_refl).
Defined.

Lemma refresh_loses_callback_witness :
  exists s', refresh 11 2%nat tm2 = (Ok true, s') /\ tm_ok s' /\ cancel 2%nat s' = (Ok false, s').
Proof.
  destruct (refresh_loses_callback 11 tm2 2%nat _ (Client 8) tm2_ok ltac:(left) eq_refl eq_refl)
    as (s' & H1 & H2 & _ & _ & H3 & _).
  exists s'. split; [exact H1|]. split; [exact H2|exact H3].
Defined.
End witnesses.
