(* ===== verification/IOManager.v ===== *)
(** * IOManager: the event loop

    Models [cczoecpp/Scheduler/iomanager.cpp] and [iomanager.h]: the table of file
    descriptor contexts, registration and removal of events, the processing of
    what [epoll_wait] returns, the wait of the idle fiber and [tickle].

    The kernel is a parameter: [Epoll] gives [epoll_ctl] on its state and the
    interest list it keeps.  The locks are left out: every method takes them
    through balanced guards ([Mutex.v]), and a step of the model is a whole
    critical section. *)

From stdpp Require Import base list numbers gmap.
From S2P Require Import Prelude Words Mutex Fiber Timer.

Local Open Scope Z_scope.

(** ** The kernel *)

Definition EPOLLIN : Z := 0x1.
Definition EPOLLOUT : Z := 0x4.
Definition EPOLLERR : Z := 0x8.
Definition EPOLLHUP : Z := 0x10.
Definition EPOLLET : Z := 0x80000000.

Inductive epoll_op : Set := EPOLL_CTL_ADD | EPOLL_CTL_MOD | EPOLL_CTL_DEL.

(** [epoll_ctl] on the kernel's state, and the events it watches per descriptor. *)
Class Epoll (K : Type) := {
  epoll_ctl : K -> epoll_op -> Z -> Z -> Z * K;
  interest : K -> gmap Z Z
}.

(** What a call that returns 0 has done, that a failed one has done nothing, and
    that a watched descriptor can be changed and removed ([ENOENT] is the error
    of one that is not watched). *)
Class EpollLaws (K : Type) `{Epoll K} : Prop := {
  epoll_ctl_ok k op fd ev k' : epoll_ctl k op fd ev = (0, k') ->
    interest k' = match op with EPOLL_CTL_DEL => delete fd (interest k) | _ => <[fd := ev]> (interest k) end;
  epoll_ctl_fail k op fd ev rt k' : epoll_ctl k op fd ev = (rt, k') -> rt <> 0 -> interest k' = interest k;
  epoll_ctl_watched k op fd ev : op <> EPOLL_CTL_ADD -> is_Some (interest k !! fd) ->
    fst (epoll_ctl k op fd ev) = 0
}.

(** A kernel that follows the documentation. *)
Definition simple_epoll : Epoll (gmap Z Z) := {|
  epoll_ctl k op fd ev :=
    match op, k !! fd with
    | EPOLL_CTL_ADD, None => (0, <[fd := ev]> k)
    | EPOLL_CTL_MOD, Some _ => (0, <[fd := ev]> k)
    | EPOLL_CTL_DEL, Some _ => (0, delete fd k)
    | _, _ => (-1, k)
    end;
  interest k := k
|}.

Lemma simple_epoll_laws : @EpollLaws _ simple_epoll.
Proof.
  split.
  - intros k op fd ev k'. simpl. destruct op, (k !! fd); intros [=]; by subst.
  - intros k op fd ev rt k'. simpl. destruct op, (k !! fd); intros [= <- <-]; done.
  - intros k op fd ev Hop [x Hx]. simpl in *. rewrite Hx. by destruct op.
Qed.

(** ** Data *)

(** [IOManager::Event] and its bits. *)
Definition NONE : Z := 0x0.
Definition READ : Z := 0x1.
Definition WRITE : Z := 0x4.

(** [FdContext::EventContext]; a scheduler is named by its address. *)
Record EventContext : Type := mkEventContext {
  scheduler : option nat;
  fiber : option ptr;
  cb : option callback
}.

Record FdContext : Type := mkFdContext {
  fd : Z;
  events : Z;
  read : EventContext;
  write : EventContext
}.

(** What has been handed to [Scheduler::schedule]. *)
Inductive task : Type := TaskFiber (f : ptr) | TaskCb (c : callback).

Definition set_events (v : Z) (c : FdContext) : FdContext := mkFdContext (fd c) v (read c) (write c).
Definition set_read (v : EventContext) (c : FdContext) : FdContext := mkFdContext (fd c) (events c) v (write c).
Definition set_write (v : EventContext) (c : FdContext) : FdContext := mkFdContext (fd c) (events c) (read c) v.

Definition EventContext_default : EventContext := mkEventContext None None None.
Definition FdContext_default (i : Z) : FdContext :=
  mkFdContext i NONE EventContext_default EventContext_default.

Section IOManager.
Context {K : Type} `{Epoll K}.

Record IOManager : Type := mkIOManager {
  m_epoll : K;
  m_tickleFds : Z * Z;            (* the pipe: read end, write end *)
  m_pendingEventCount : Z;
  m_fdContexts : list FdContext;
  scheduled : list task;          (* tasks appended to the queue, in order *)
  written : list Z                (* descriptors tickle has written to *)
}.

Definition set_m_epoll (v : K) (s : IOManager) : IOManager :=
  mkIOManager v (m_tickleFds s) (m_pendingEventCount s) (m_fdContexts s) (scheduled s) (written s).
Definition set_m_pendingEventCount (v : Z) (s : IOManager) : IOManager :=
  mkIOManager (m_epoll s) (m_tickleFds s) v (m_fdContexts s) (scheduled s) (written s).
Definition set_m_fdContexts (v : list FdContext) (s : IOManager) : IOManager :=
  mkIOManager (m_epoll s) (m_tickleFds s) (m_pendingEventCount s) v (scheduled s) (written s).
Definition set_scheduled (v : list task) (s : IOManager) : IOManager :=
  mkIOManager (m_epoll s) (m_tickleFds s) (m_pendingEventCount s) (m_fdContexts s) v (written s).
Definition set_written (v : list Z) (s : IOManager) : IOManager :=
  mkIOManager (m_epoll s) (m_tickleFds s) (m_pendingEventCount s) (m_fdContexts s) (scheduled s) v.

(** [schedule] of a callback or a fiber; null tasks are dropped. *)
Definition schedule_cb (c : option callback) : comp IOManager unit :=
  match c with
  | Some c => modify (fun s => set_scheduled (scheduled s ++ [TaskCb c]) s)
  | None => ret tt
  end.
Definition schedule_fiber (f : option ptr) : comp IOManager unit :=
  match f with
  | Some f => modify (fun s => set_scheduled (scheduled s ++ [TaskFiber f]) s)
  | None => ret tt
  end.

(** The context a pointer [FdContext *] refers to, by its index. *)
Definition get_ctx (i : nat) : comp IOManager FdContext := fun s =>
  match m_fdContexts s !! i with Some c => (Ok c, s) | None => (UB, s) end.
Definition set_ctx (i : nat) (c : FdContext) : comp IOManager unit :=
  modify (fun s => set_m_fdContexts (<[i := c]> (m_fdContexts s)) s).

Definition ctl (op : epoll_op) (f ev : Z) : comp IOManager Z := fun s =>
  let '(rt, k) := epoll_ctl (m_epoll s) op f ev in (Ok rt, set_m_epoll k s).

Definition pending_inc : comp IOManager unit :=
  modify (fun s => set_m_pendingEventCount (wrap 64 (m_pendingEventCount s + 1)) s).
Definition pending_dec : comp IOManager unit :=
  modify (fun s => set_m_pendingEventCount (wrap 64 (m_pendingEventCount s - 1)) s).

(** ** [FdContext] *)

(** [getEventContext]: which of the two contexts; anything else than exactly one
    event fails the assertion. *)
Inductive direction : Set := DirRead | DirWrite.

Definition getEventContext (event : Z) : outcome direction :=
  if event =? READ then Ok DirRead else if event =? WRITE then Ok DirWrite else Abort.

Definition event_ctx (d : direction) (c : FdContext) : EventContext :=
  match d with DirRead => read c | DirWrite => write c end.
Definition set_event_ctx (d : direction) (v : EventContext) (c : FdContext) : FdContext :=
  match d with DirRead => set_read v c | DirWrite => set_write v c end.

Definition resetContext (x : EventContext) : EventContext := EventContext_default.

(** [triggerEvent]: [cb] and [fiber] stay in the context; calling [schedule]
    through a null scheduler is undefined. *)
Definition triggerEvent (i : nat) (event : Z) : comp IOManager unit :=
  let! c := get_ctx i in
  let c := set_events (Z.ldiff (events c) event) c in
  do! set_ctx i c in
  let! d := fail (getEventContext event) in
  let x := event_ctx d c in
  match scheduler x with
  | None => fail UB
  | Some _ =>
      do! match cb x with
          | Some _ => schedule_cb (cb x)
          | None => schedule_fiber (fiber x)
          end in
      set_ctx i (set_event_ctx d (mkEventContext None (fiber x) (cb x)) c)
  end.

(** ** Registration *)

(** [fdContextsResize]: grow or shrink, new entries are fresh contexts. *)
Definition fdContextsResize (size : nat) : comp IOManager unit := modify (fun s =>
  let l := take size (m_fdContexts s) in
  set_m_fdContexts (l ++ map (fun i => FdContext_default (Z.of_nat i))
                           (seq (length l) (size - length l))) s).

(** [m_fdContexts[fd]] for the [int] [fd], growing the table to [fd * 1.5]
    entries when it is too short.  [size_t(fd)] of a negative number is huge, and
    the conversion of a negative [double] is undefined. *)
Definition lookup_or_grow (f : Z) : comp IOManager nat :=
  let! n := get (fun s => length (m_fdContexts s)) in
  if f <? 0 then fail UB else
  let i := Z.to_nat f in
  do! (if (i <? n)%nat then ret tt else fdContextsResize (i * 3 / 2)) in
  let! _ := get_ctx i in
  ret i.

(** [addEvent].  [sched] is [Scheduler::GetThis()], [this_fiber] the running
    fiber and its state. *)
Definition addEvent (sched : option nat) (this_fiber : ptr * State) (f event : Z)
    (c : option callback) : comp IOManager Z :=
  let! i := lookup_or_grow f in
  let! ctx := get_ctx i in
  do! CCZOE_ASSERT (Z.land (events ctx) event =? 0) in
  let op := if events ctx =? 0 then EPOLL_CTL_ADD else EPOLL_CTL_MOD in
  let! rt := ctl op f (Z.lor (Z.lor EPOLLET (events ctx)) event) in
  if negb (rt =? 0) then ret 1 else
  do! pending_inc in
  let ctx := set_events (Z.lor (events ctx) event) ctx in
  do! set_ctx i ctx in
  let! d := fail (getEventContext event) in
  let x := event_ctx d ctx in
  match c with
  | Some _ => do! set_ctx i (set_event_ctx d (mkEventContext sched (fiber x) c) ctx) in ret 0
  | None =>
      do! set_ctx i (set_event_ctx d (mkEventContext sched (Some (fst this_fiber)) (cb x)) ctx) in
      do! CCZOE_ASSERT (bool_decide (snd this_fiber = RUNNING)) in
      ret 0
  end.

(** The common part of [delEvent] and [cancelEvent]: unregister [event], then
    [finish] on the context's index. *)
Definition remove_event (f event : Z) (finish : nat -> comp IOManager unit) : comp IOManager Z :=
  let! n := get (fun s => length (m_fdContexts s)) in
  if (f <? 0) || (Z.of_nat n <=? f) then ret 1 else
  let i := Z.to_nat f in
  let! ctx := get_ctx i in
  if Z.land (events ctx) event =? 0 then ret 1 else
  let newEvent := Z.ldiff (events ctx) event in
  let op := if newEvent =? 0 then EPOLL_CTL_DEL else EPOLL_CTL_MOD in
  let! rt := ctl op f (Z.lor EPOLLET newEvent) in
  if negb (rt =? 0) then ret 1 else
  do! pending_dec in
  do! set_ctx i (set_events newEvent ctx) in
  do! finish i in
  ret 0.

Definition delEvent (f event : Z) : comp IOManager Z :=
  remove_event f event (fun i =>
    let! ctx := get_ctx i in
    let! d := fail (getEventContext event) in
    set_ctx i (set_event_ctx d (resetContext (event_ctx d ctx)) ctx)).

Definition cancelEvent (f event : Z) : comp IOManager Z :=
  remove_event f event (fun i => triggerEvent i event).

(** One direction of [cancelAll]. *)
Definition trigger_if (i : nat) (event : Z) : comp IOManager unit :=
  let! ctx := get_ctx i in
  if Z.land (events ctx) event =? 0 then ret tt else
  do! triggerEvent i event in
  pending_dec.

Definition cancelAll (f : Z) : comp IOManager Z :=
  let! n := get (fun s => length (m_fdContexts s)) in
  if (f <? 0) || (Z.of_nat n <=? f) then ret 1 else
  let i := Z.to_nat f in
  let! ctx := get_ctx i in
  if events ctx =? 0 then ret 1 else
  let! rt := ctl EPOLL_CTL_DEL f 0 in
  if negb (rt =? 0) then ret 1 else
  do! trigger_if i READ in
  do! trigger_if i WRITE in
  let! ctx := get_ctx i in
  do! CCZOE_ASSERT (events ctx =? 0) in
  ret 0.

(** ** The idle fiber *)

(** The data of an [epoll_event] is a union: the tickle descriptor, or the
    pointer to a context (given by its index), whose low half is taken to differ
    from the descriptor. *)
Inductive epoll_data : Type := DataFd (f : Z) | DataPtr (i : nat).

Record epoll_event : Type := mkEpollEvent { ev_events : Z; ev_data : epoll_data }.

(** The events the loop collects for one [epoll_event]. *)
Definition collect_events (ev : Z) : Z :=
  let ev := if Z.land ev (Z.lor EPOLLERR EPOLLHUP) =? 0 then ev else Z.lor ev (Z.lor EPOLLIN EPOLLOUT) in
  Z.lor (if Z.land ev EPOLLIN =? 0 then NONE else READ)
        (if Z.land ev EPOLLOUT =? 0 then NONE else WRITE).

(** [if (e & event) { triggerEvent(event); m_pendingEventCount--; }]: the test is
    on [e], not on the registered events. *)
Definition trigger_collected (i : nat) (e event : Z) : comp IOManager unit :=
  if Z.land e event =? 0 then ret tt else
  do! triggerEvent i event in
  pending_dec.

Definition process_event (ev : epoll_event) : comp IOManager unit :=
  match ev_data ev with
  | DataFd f => ret tt                (* drains the tickle pipe *)
  | DataPtr i =>
      let! ctx := get_ctx i in
      let e := collect_events (ev_events ev) in
      if Z.land (events ctx) e =? NONE then ret tt else
      let leftEvents := Z.ldiff (events ctx) e in
      let op := if leftEvents =? 0 then EPOLL_CTL_DEL else EPOLL_CTL_MOD in
      let! rt2 := ctl op (fd ctx) (Z.lor EPOLLET leftEvents) in
      do! trigger_collected i e READ in
      trigger_collected i e WRITE
  end.

Fixpoint process_events (evs : list epoll_event) : comp IOManager unit :=
  match evs with
  | [] => ret tt
  | ev :: evs => do! process_event ev in process_events evs
  end.

Fixpoint schedule_all (cbs : list (option callback)) : comp IOManager unit :=
  match cbs with
  | [] => ret tt
  | c :: cbs => do! schedule_cb c in schedule_all cbs
  end.

(** The timeout handed to [epoll_wait] when [getNextTimer] returned
    [nextTimeout]. *)
Definition maxTimeout : Z := 3000.
Definition idle_timeout (nextTimeout : Z) : Z :=
  if nextTimeout =? UINT64_MAX then Z.min maxTimeout nextTimeout else maxTimeout.

(** The calls of [epoll_wait]: each result is [inl errno] or the events; the
    first that is not [EINTR] is taken, a failure counting as no events. *)
Definition EINTR : Z := 4.
Fixpoint wait_loop (results : list (Z + list epoll_event)) : option (list epoll_event) :=
  match results with
  | [] => None
  | inl e :: results => if e =? EINTR then wait_loop results else Some []
  | inr evs :: _ => Some evs
  end.

(** One round of the [while] of [idle], from the call of [epoll_wait] to the
    yield: the expired timers are scheduled, then the events are processed. *)
Definition idle_round (cbs : list (option callback)) (results : list (Z + list epoll_event))
    : comp IOManager unit :=
  match wait_loop results with
  | None => fail Diverge
  | Some evs => do! schedule_all cbs in process_events evs
  end.

(** The condition of that [while]. *)
Definition idle_condition (stopCommand hasTimer : bool) : bool := negb stopCommand || hasTimer.

(** [hasTimer] on the timer manager part of the object. *)
Definition hasTimer (timers_empty : bool) : bool := negb timers_empty.

(** ** [tickle] *)

(** [sys_write fd] is the result of writing one byte to [fd]; [m_idleThreadCount]
    belongs to the scheduler. *)
Definition tickle (sys_write : Z -> Z) (idleThreadCount : Z) : comp IOManager unit :=
  if 0 <? idleThreadCount then
    let! fds := get m_tickleFds in
    do! modify (fun s => set_written (written s ++ [fst fds]) s) in
    CCZOE_ASSERT (negb (sys_write (fst fds) =? 0))
  else ret tt.

Definition onTimerInsertedAtFront (sys_write : Z -> Z) (idleThreadCount : Z) : comp IOManager unit :=
  tickle sys_write idleThreadCount.

(** [IOManager::IOManager]: [k] is the new epoll instance and [fds] the pipe. *)
Definition IOManager_ctor (k : K) (fds : Z * Z) : outcome IOManager :=
  let '(rt, k) := epoll_ctl k EPOLL_CTL_ADD (fst fds) (Z.lor EPOLLIN EPOLLET) in
  if rt =? 0 then Ok (mkIOManager k fds 0 [] [] []) else Abort.
End IOManager.

Arguments IOManager K : clear implicits.
