(* ===== verification/IOManagerTheorems.v ===== *)
(** * IOManagerTheorems: registrations, what the event loop fires, and its waits *)

From stdpp Require Import base list numbers gmap sets.
From S2P Require Import Prelude Words Mutex Fiber Timer IOManager.

Local Open Scope Z_scope.

(** ** Registrations *)

Definition bit (d : direction) : Z := match d with DirRead => READ | DirWrite => WRITE end.

Definition registered (d : direction) (c : FdContext) : bool := negb (Z.land (events c) (bit d) =? 0).

Definition registrations (c : FdContext) : nat :=
  (if registered DirRead c then 1 else 0) + (if registered DirWrite c then 1 else 0).

(** A context: its events are flags of the two directions, and a direction has a
    scheduler and something to run exactly when it is registered. *)
Definition ctx_ok (i : nat) (c : FdContext) : Prop :=
  fd c = Z.of_nat i /\ events c ∈ [0; READ; WRITE; Z.lor READ WRITE] /\
  forall d, (registered d c = true <-> is_Some (scheduler (event_ctx d c))) /\
            (registered d c = true -> is_Some (cb (event_ctx d c)) \/ is_Some (fiber (event_ctx d c))).

Definition total (l : list FdContext) : nat := sum_list (map registrations l).

Section iomanager.
Context {K : Type} `{EpollLaws K}.

(** The contexts are consistent and the counter counts the registrations. *)
Record regs_ok (s : IOManager K) : Prop := mkRegsOk {
  regs_ctx : forall i c, m_fdContexts s !! i = Some c -> ctx_ok i c;
  regs_pending : m_pendingEventCount s = wrap 64 (Z.of_nat (total (m_fdContexts s)))
}.

(** What the kernel should watch for a descriptor. *)
Definition watch (l : list FdContext) (f : Z) : option Z :=
  match l !! Z.to_nat f with
  | Some c => if events c =? 0 then None else Some (Z.lor EPOLLET (events c))
  | None => None
  end.

(** The kernel watches what the contexts say; the read end of the tickle pipe is
    never registered through a context. *)
Definition mirror (s : IOManager K) : Prop :=
  0 <= fst (m_tickleFds s) /\ watch (m_fdContexts s) (fst (m_tickleFds s)) = None /\
  forall f, 0 <= f -> f <> fst (m_tickleFds s) ->
    interest (m_epoll s) !! f = watch (m_fdContexts s) f.

Definition iom_ok (s : IOManager K) : Prop := regs_ok s /\ mirror s.

Lemma total_insert l : forall i c c', l !! i = Some c ->
  (total (<[i := c']> l) + registrations c = total l + registrations c')%nat.
Proof.
  unfold total. induction l as [|x l IH]; intros [|i] c c' Hl; simpl in *; simplify_eq; [lia|].
  specialize (IH i c c' Hl). lia.
Qed.

(** Case analysis on the events of a context. *)
Ltac ctx_cases c Hev :=
  destruct c as [cfd cev crd cwr]; cbn [events] in Hev |- *;
  repeat (apply elem_of_cons in Hev as [Hev|Hev]; [subst cev|]); [..|by apply elem_of_nil in Hev].

Lemma get_ctx_Ok (s : IOManager K) i c : m_fdContexts s !! i = Some c -> get_ctx i s = (Ok c, s).
Proof. intros Hc. unfold get_ctx. by rewrite Hc. Qed.

Lemma getEventContext_bit d : getEventContext (bit d) = Ok d.
Proof. by destruct d. Qed.

(** What firing a registration hands to the scheduler. *)
Definition waiter (x : EventContext) : list task :=
  match cb x with
  | Some c => [TaskCb c]
  | None => match fiber x with Some f => [TaskFiber f] | None => [] end
  end.

(** A context after [triggerEvent]. *)
Definition triggered (d : direction) (c : FdContext) : FdContext :=
  let x := event_ctx d c in
  set_event_ctx d (mkEventContext None (fiber x) (cb x)) (set_events (Z.ldiff (events c) (bit d)) c).

Lemma event_ctx_set_events d v c : event_ctx d (set_events v c) = event_ctx d c.
Proof. by destruct d. Qed.

Lemma triggerEvent_spec (s : IOManager K) i c d :
  m_fdContexts s !! i = Some c ->
  match scheduler (event_ctx d c) with
  | Some _ => exists s', triggerEvent i (bit d) s = (Ok tt, s') /\
      m_fdContexts s' = <[i := triggered d c]> (m_fdContexts s) /\
      scheduled s' = scheduled s ++ waiter (event_ctx d c) /\
      m_pendingEventCount s' = m_pendingEventCount s /\ m_epoll s' = m_epoll s /\ m_tickleFds s' = m_tickleFds s
  | None => fst (triggerEvent i (bit d) s) = UB
  end.
Proof.
  intros Hc. unfold triggerEvent. rewrite (bind_Ok _ _ _ _ _ (get_ctx_Ok s i c Hc)). cbv zeta.
  unfold set_ctx. rewrite bind_modify, getEventContext_bit, bind_fail_Ok, event_ctx_set_events.
  unfold waiter, triggered. destruct (event_ctx d c) as [[q|] [f|] [x|]]; cbn [scheduler fiber cb]; [..|done|done|done|done].
  all: eexists; split; [reflexivity|]; simpl; rewrite list_insert_insert_eq, ?app_nil_r; by split_and!.
Qed.

Lemma triggered_ok i c d :
  ctx_ok i c -> ctx_ok i (triggered d c) /\
  (registrations (triggered d c) + (if registered d c then 1 else 0) = registrations c)%nat.
Proof.
  intros (Hfd & Hev & Hd). split; [split; [by destruct d|split]|].
  - destruct d; ctx_cases c Hev; vm_compute; set_solver.
  - intros d'. pose proof (Hd d') as Hd'. pose proof (Hd d) as Hdd.
    destruct d, d'; ctx_cases c Hev; vm_compute in Hd', Hdd |- *; split; intros; try done;
      try (by apply Hd'); try (split; [done|by intros []]).
  - destruct d; by ctx_cases c Hev.
Qed.

Lemma pending_down a b : (a = b + 1)%nat -> wrap 64 (wrap 64 (Z.of_nat a) - 1) = wrap 64 (Z.of_nat b).
Proof. intros ->. unfold wrap. rewrite Zminus_mod_idemp_l. f_equal. lia. Qed.

Lemma pending_up a b : (b = a + 1)%nat -> wrap 64 (wrap 64 (Z.of_nat a) + 1) = wrap 64 (Z.of_nat b).
Proof. intros ->. unfold wrap. rewrite Zplus_mod_idemp_l. f_equal. lia. Qed.

(** Replacing one context by a consistent one. *)
Lemma ctx_insert (l : list FdContext) i c :
  (forall j x, l !! j = Some x -> ctx_ok j x) -> ctx_ok i c ->
  forall j x, <[i := c]> l !! j = Some x -> ctx_ok j x.
Proof.
  intros Hl Hc j x [(<- & <- & _)|[_ Hj]]%list_lookup_insert_Some; [done|by apply Hl].
Qed.

(** ** What the loop fires *)

Definition collected (d : direction) (e : Z) : bool := negb (Z.land e (bit d) =? 0).

Definition fired (d : direction) (e : Z) (c : FdContext) : list task :=
  if collected d e then waiter (event_ctx d c) else [].

Definition after (d : direction) (e : Z) (c : FdContext) : FdContext :=
  if collected d e then triggered d c else c.

(** One [if (e & event) { triggerEvent(event); m_pendingEventCount--; }]. *)
Lemma trigger_collected_spec (s : IOManager K) i c d e :
  regs_ok s -> m_fdContexts s !! i = Some c ->
  if collected d e && negb (registered d c)
  then fst (trigger_collected i e (bit d) s) = UB
  else exists s', trigger_collected i e (bit d) s = (Ok tt, s') /\ regs_ok s' /\
      m_fdContexts s' = <[i := after d e c]> (m_fdContexts s) /\
      scheduled s' = scheduled s ++ fired d e c /\
      m_epoll s' = m_epoll s /\ m_tickleFds s' = m_tickleFds s.
Proof.
  intros [Hctx Hpen] Hc. pose proof (Hctx _ _ Hc) as Hok. unfold trigger_collected, after, fired.
  replace (Z.land e (bit d) =? 0) with (negb (collected d e)) by apply negb_involutive.
  destruct (collected d e); simpl.
  2:{ exists s. rewrite list_insert_id, app_nil_r by done. by split_and!. }
  pose proof (triggerEvent_spec s i c d Hc) as Ht. pose proof (triggered_ok i c d Hok) as [Hok' Hn].
  destruct (registered d c) eqn:Hreg; simpl.
  - destruct (proj1 (proj1 (proj2 (proj2 Hok) d)) Hreg) as [q Hq]. rewrite Hq in Ht.
    destruct Ht as (s' & Ht & Hl & Hs & Hp & He & Hf). rewrite (bind_Ok _ _ _ _ _ Ht).
    eexists. split; [reflexivity|]. cbn [m_fdContexts scheduled m_epoll m_tickleFds set_m_pendingEventCount].
    split_and!; try done. split; cbn [m_fdContexts m_pendingEventCount set_m_pendingEventCount].
    + rewrite Hl. by apply ctx_insert.
    + rewrite Hp, Hpen. apply pending_down. rewrite Hl.
      pose proof (total_insert _ i c (triggered d c) Hc). lia.
  - destruct (scheduler (event_ctx d c)) as [q|] eqn:Hq.
    + enough (registered d c = true) by congruence. apply (proj2 (proj2 Hok) d). by rewrite Hq.
    + unfold bind. destruct (triggerEvent i (bit d) s) as [[] ?]; done.
Qed.

Lemma collect_events_cases ev : collect_events ev ∈ [0; READ; WRITE; Z.lor READ WRITE].
Proof.
  unfold collect_events. repeat case_match_goal; vm_compute; set_solver.
Qed.

(** Firing READ leaves the WRITE direction alone. *)
Lemma after_read e i c : ctx_ok i c ->
  ctx_ok i (after DirRead e c) /\ fired DirWrite e (after DirRead e c) = fired DirWrite e c /\
  registered DirWrite (after DirRead e c) = registered DirWrite c.
Proof.
  intros Hok. unfold after. destruct (collected DirRead e); [|done].
  split; [by apply triggered_ok|]. split; [done|].
  destruct Hok as (_ & Hev & _). by ctx_cases c Hev.
Qed.

(** Both directions, READ before WRITE. *)
Definition fire_both (e : Z) (c : FdContext) : FdContext := after DirWrite e (after DirRead e c).

Definition all_registered (e : Z) (c : FdContext) : bool :=
  forallb (fun d => negb (collected d e) || registered d c) [DirRead; DirWrite].

Lemma trigger_both_spec (s : IOManager K) i c e :
  regs_ok s -> m_fdContexts s !! i = Some c ->
  let m := do! trigger_collected i e READ in trigger_collected i e WRITE in
  if all_registered e c
  then exists s', m s = (Ok tt, s') /\ regs_ok s' /\
      m_fdContexts s' = <[i := fire_both e c]> (m_fdContexts s) /\
      scheduled s' = scheduled s ++ fired DirRead e c ++ fired DirWrite e c /\
      m_epoll s' = m_epoll s /\ m_tickleFds s' = m_tickleFds s
  else fst (m s) = UB.
Proof.
  intros Hok Hc m. unfold all_registered. cbn [forallb].
  pose proof (trigger_collected_spec s i c DirRead e Hok Hc) as H1. cbn [bit] in H1.
  assert (i < length (m_fdContexts s))%nat as Hi by (by eapply lookup_lt_Some).
  assert (m_fdContexts s !! i = Some c -> ctx_ok i c) as Hci by apply Hok.
  destruct (after_read e i c (Hci Hc)) as (_ & Hf & Hr).
  destruct (collected DirRead e && negb (registered DirRead c)) eqn:Hread.
  { replace (negb (collected DirRead e) || registered DirRead c) with false
      by (destruct (collected DirRead e), (registered DirRead c); done).
    simpl. subst m. unfold bind. destruct (trigger_collected i e READ s) as [[] ?]; done. }
  replace (negb (collected DirRead e) || registered DirRead c) with true
    by (destruct (collected DirRead e), (registered DirRead c); done).
  destruct H1 as (s1 & H1 & Hok1 & Hl1 & Hs1 & He1 & Ht1).
  assert (m_fdContexts s1 !! i = Some (after DirRead e c)) as Hc1
    by (by rewrite Hl1, list_lookup_insert_eq).
  pose proof (trigger_collected_spec s1 i _ DirWrite e Hok1 Hc1) as H2. cbn [bit] in H2.
  rewrite Hf, Hr in H2. subst m. rewrite (bind_Ok _ _ _ _ _ H1).
  rewrite andb_true_l, andb_true_r, <- (negb_involutive (_ || _)), negb_orb, negb_involutive.
  destruct (collected DirWrite e && negb (registered DirWrite c)); simpl; [done|].
  destruct H2 as (s2 & H2 & Hok2 & Hl2 & Hs2 & He2 & Ht2).
  exists s2. split_and!; [done..| | | |]; [|by rewrite Hs2, Hs1, app_assoc|congruence|congruence].
  by rewrite Hl2, Hl1, list_insert_insert_eq.
Qed.

Lemma watch_insert l i c f : (i < length l)%nat -> 0 <= f ->
  watch (<[i := c]> l) f =
  if f =? Z.of_nat i then if events c =? 0 then None else Some (Z.lor EPOLLET (events c)) else watch l f.
Proof.
  intros Hi Hf. unfold watch. destruct (f =? Z.of_nat i) eqn:E; bool_to_prop.
  - subst. by rewrite Nat2Z.id, list_lookup_insert_eq.
  - by rewrite list_lookup_insert_ne by lia.
Qed.

Lemma mirror_update (s s' : IOManager K) i c c' :
  mirror s -> m_fdContexts s !! i = Some c -> m_tickleFds s' = m_tickleFds s ->
  Z.of_nat i <> fst (m_tickleFds s) -> m_fdContexts s' = <[i := c']> (m_fdContexts s) ->
  interest (m_epoll s') = (if events c' =? 0 then delete (Z.of_nat i) (interest (m_epoll s))
                           else <[Z.of_nat i := Z.lor EPOLLET (events c')]> (interest (m_epoll s))) ->
  mirror s'.
Proof.
  intros (Hn & Ht & Hm) Hc Htick Hi Hl Hk. unfold mirror. rewrite Htick, Hl.
  assert (i < length (m_fdContexts s))%nat as Hlen by (by eapply lookup_lt_Some).
  split; [done|]. split.
  { rewrite watch_insert by done. by destruct (Z.eqb_spec (fst (m_tickleFds s)) (Z.of_nat i)). }
  intros f Hf Hne. rewrite watch_insert by done. specialize (Hm f Hf Hne).
  destruct (Z.eqb_spec f (Z.of_nat i)) as [->|Hfi]; rewrite Hk; destruct (events c' =? 0).
  - by rewrite lookup_delete_eq.
  - by rewrite lookup_insert_eq.
  - by rewrite lookup_delete_ne.
  - by rewrite lookup_insert_ne.
Qed.

(** A registered context is watched, and is not the pipe's. *)
Lemma registered_watched (s : IOManager K) i c :
  iom_ok s -> m_fdContexts s !! i = Some c -> events c <> 0 ->
  Z.of_nat i <> fst (m_tickleFds s) /\ interest (m_epoll s) !! Z.of_nat i = Some (Z.lor EPOLLET (events c)).
Proof.
  intros [_ (Hn & Ht & Hm)] Hc He.
  assert (watch (m_fdContexts s) (Z.of_nat i) = Some (Z.lor EPOLLET (events c))) as Hw.
  { unfold watch. rewrite Nat2Z.id, Hc. by destruct (Z.eqb_spec (events c) 0). }
  assert (Z.of_nat i <> fst (m_tickleFds s)) as Hne by congruence.
  split; [done|]. by rewrite Hm by (done || lia).
Qed.

(** Changing or removing the registration of a watched descriptor succeeds. *)
Lemma ctl_watched (s : IOManager K) i v ev :
  interest (m_epoll s) !! Z.of_nat i = Some v ->
  let op := if ev =? 0 then EPOLL_CTL_DEL else EPOLL_CTL_MOD in
  exists k, ctl op (Z.of_nat i) (Z.lor EPOLLET ev) s = (Ok 0, set_m_epoll k s) /\
    interest k = if ev =? 0 then delete (Z.of_nat i) (interest (m_epoll s))
                 else <[Z.of_nat i := Z.lor EPOLLET ev]> (interest (m_epoll s)).
Proof.
  intros Hv op. unfold ctl.
  assert (op <> EPOLL_CTL_ADD) as Hop by (subst op; by destruct (ev =? 0)).
  pose proof (epoll_ctl_watched (m_epoll s) op (Z.of_nat i) (Z.lor EPOLLET ev) Hop (mk_is_Some _ _ Hv)) as Hrt.
  destruct (epoll_ctl _ op _ _) as [rt k] eqn:Hctl. simpl in Hrt. subst rt.
  exists k. split; [done|]. apply epoll_ctl_ok in Hctl. rewrite Hctl. subst op. by destruct (ev =? 0).
Qed.

Lemma fire_both_events i e c : ctx_ok i c -> e ∈ [0; READ; WRITE; Z.lor READ WRITE] ->
  events (fire_both e c) = Z.ldiff (events c) e.
Proof.
  intros (_ & Hev & _) He. ctx_cases c Hev;
    repeat (apply elem_of_cons in He as [->|He]; [done|]); by apply elem_of_nil in He.
Qed.

Lemma process_event_spec (s : IOManager K) i c ev :
  iom_ok s -> m_fdContexts s !! i = Some c ->
  let e := collect_events ev in
  let run := process_event (mkEpollEvent ev (DataPtr i)) s in
  if Z.land (events c) e =? 0 then run = (Ok tt, s)
  else if all_registered e c
  then exists s', run = (Ok tt, s') /\ iom_ok s' /\
         m_fdContexts s' = <[i := fire_both e c]> (m_fdContexts s) /\
         events (fire_both e c) = Z.ldiff (events c) e /\
         scheduled s' = scheduled s ++ fired DirRead e c ++ fired DirWrite e c
  else fst run = UB.
Proof.
  intros Hok Hc e run. subst run. unfold process_event. cbn [ev_data ev_events].
  rewrite (bind_Ok _ _ _ _ _ (get_ctx_Ok s i c Hc)). cbv zeta. fold e.
  change (Z.land (events c) e =? NONE) with (Z.land (events c) e =? 0).
  destruct (Z.land (events c) e =? 0) eqn:Hland; [done|]. bool_to_prop.
  pose proof Hok as [[Hctx Hpen] Hmir]. pose proof (Hctx _ _ Hc) as Hci.
  assert (events c <> 0) as He0 by (intros E; by rewrite E, Z.land_0_l in Hland).
  destruct (registered_watched s i c Hok Hc He0) as [Hne Hw].
  destruct (ctl_watched s i _ (Z.ldiff (events c) e) Hw) as (k & Hctl & Hk).
  rewrite (proj1 Hci). rewrite (bind_Ok _ _ _ _ _ Hctl).
  pose proof (trigger_both_spec (set_m_epoll k s) i c e
    (mkRegsOk (set_m_epoll k s) Hctx Hpen) Hc) as Hboth.
  cbv zeta in Hboth. destruct (all_registered e c); [|done].
  destruct Hboth as (s' & Hrun & Hregs & Hl & Hs & Hep & Ht).
  pose proof (fire_both_events i e c Hci (collect_events_cases ev)) as Hevs.
  exists s'. split_and!; try done. split; [done|].
  apply (mirror_update s s' i c (fire_both e c)); try done. by rewrite Hep, Hevs.
Qed.

(** ** Growing the table *)

Definition fresh (n m : nat) : list FdContext := map (fun i => FdContext_default (Z.of_nat i)) (seq n m).

(** The table reaches the descriptor, or will once it has grown to [fd * 1.5]. *)
Definition reachable (n : nat) (f : Z) : bool := (0 <=? f) && ((Z.to_nat f <? n)%nat || (2 <=? f)).

Lemma fresh_lookup n m j c : fresh n m !! j = Some c -> c = FdContext_default (Z.of_nat (n + j)) /\ (j < m)%nat.
Proof.
  unfold fresh. rewrite list_lookup_fmap. intros (x & Hx & ->)%fmap_Some.
  by apply lookup_seq in Hx as [-> ?].
Qed.

Lemma total_app l l' : total (l ++ l') = (total l + total l')%nat.
Proof. unfold total. rewrite map_app. induction l; simpl; [done|]. lia. Qed.

Lemma total_fresh n m : total (fresh n m) = 0%nat.
Proof. unfold total, fresh. revert n. induction m as [|m IH]; intros n; simpl; [done|]. apply IH. Qed.

Lemma grown_ok (s : IOManager K) m :
  iom_ok s -> iom_ok (set_m_fdContexts (m_fdContexts s ++ fresh (length (m_fdContexts s)) m) s).
Proof.
  intros [[Hctx Hpen] (Hn & Ht & Hm)].
  assert (forall f, watch (m_fdContexts s ++ fresh (length (m_fdContexts s)) m) f = watch (m_fdContexts s) f) as Hw.
  { intros f. unfold watch. destruct (m_fdContexts s !! Z.to_nat f) as [c|] eqn:Hc.
    - by rewrite lookup_app_l, Hc by (by eapply lookup_lt_Some).
    - apply lookup_ge_None in Hc. rewrite lookup_app_r by done.
      destruct (fresh _ _ !! _) as [c|] eqn:Hf; [|done]. by apply fresh_lookup in Hf as [-> _]. }
  split; [split|split_and!]; simpl; try done.
  - intros i c [Hc|[Hi Hc]]%lookup_app_Some; [by apply Hctx|].
    apply fresh_lookup in Hc as [-> _]. replace (length _ + (i - _))%nat with i by lia.
    split_and!; [done|by left|]. intros d. split; [split|]; [by destruct d|by destruct d; intros []|by destruct d].
  - by rewrite total_app, total_fresh, Nat.add_0_r.
  - by rewrite Hw.
  - intros f Hf Hne. rewrite Hw. by apply Hm.
Qed.

Lemma lookup_or_grow_spec (s : IOManager K) f :
  iom_ok s ->
  if reachable (length (m_fdContexts s)) f
  then exists m s' c, lookup_or_grow f s = (Ok (Z.to_nat f), s') /\ iom_ok s' /\
         s' = set_m_fdContexts (m_fdContexts s ++ fresh (length (m_fdContexts s)) m) s /\
         m_fdContexts s' !! Z.to_nat f = Some c
  else fst (lookup_or_grow f s) = UB.
Proof.
  intros Hok. unfold reachable, lookup_or_grow. rewrite bind_get.
  destruct (Z.leb_spec 0 f) as [Hf|Hf]; cbn [andb].
  2:{ by destruct (Z.ltb_spec f 0); [|lia]. }
  destruct (Z.ltb_spec f 0); [lia|]. cbv zeta.
  destruct (Nat.ltb_spec (Z.to_nat f) (length (m_fdContexts s))) as [Hlt|Hge]; cbn [orb].
  { rewrite bind_ret_l. destruct (lookup_lt_is_Some_2 _ _ Hlt) as [c Hc].
    exists 0%nat, s, c. rewrite (bind_Ok _ _ _ _ _ (get_ctx_Ok s _ c Hc)).
    unfold fresh. simpl. rewrite app_nil_r. destruct s. by split_and!. }
  unfold fdContextsResize. rewrite bind_modify.
  rewrite take_ge by (apply Nat.div_le_lower_bound; lia).
  set (m := (Z.to_nat f * 3 / 2 - length (m_fdContexts s))%nat). fold (fresh (length (m_fdContexts s)) m).
  destruct (Z.leb_spec 2 f) as [H2|H2].
  - destruct (lookup_lt_is_Some_2 (m_fdContexts s ++ fresh (length (m_fdContexts s)) m) (Z.to_nat f)) as [c Hc].
    { rewrite length_app. unfold fresh. rewrite length_map, length_seq. subst m.
      pose proof (Nat.div_le_lower_bound (Z.to_nat f * 3) 2 (S (Z.to_nat f)) ltac:(lia) ltac:(lia)). lia. }
    eexists m, _, c. split_and!; [|by apply grown_ok|done|done].
    by rewrite (bind_Ok _ _ _ _ _ (get_ctx_Ok (set_m_fdContexts _ s) _ c Hc)).
  - assert (Z.to_nat f * 3 / 2 <= Z.to_nat f)%nat as Hm.
    { assert (Z.to_nat f = 0 \/ Z.to_nat f = 1)%nat as [E|E] by lia; rewrite E; by vm_compute. }
    unfold bind at 1, get_ctx. simpl. rewrite lookup_ge_None_2; [done|].
    rewrite length_app. unfold fresh. rewrite length_map, length_seq. lia.
Qed.

Lemma lookup_there (s : IOManager K) f c :
  0 <= f -> m_fdContexts s !! Z.to_nat f = Some c -> lookup_or_grow f s = (Ok (Z.to_nat f), s).
Proof.
  intros Hf Hc. unfold lookup_or_grow. rewrite bind_get. destruct (Z.ltb_spec f 0); [lia|]. cbv zeta.
  pose proof (lookup_lt_Some _ _ _ Hc) as Hlt%Nat.ltb_lt. rewrite Hlt, bind_ret_l.
  by rewrite (bind_Ok _ _ _ _ _ (get_ctx_Ok s _ c Hc)).
Qed.

(** ** Registration and removal *)

(** What [addEvent] puts in a context: the callback, or the running fiber and
    whatever callback was left there. *)
Definition armed (d : direction) (sched : option nat) (this : ptr) (k : option callback) (c : FdContext) : FdContext :=
  let x := event_ctx d c in
  set_event_ctx d (match k with
                   | Some _ => mkEventContext sched (fiber x) k
                   | None => mkEventContext sched (Some this) (cb x)
                   end) (set_events (Z.lor (events c) (bit d)) c).

Lemma armed_ok i d q this k c : ctx_ok i c -> registered d c = false ->
  ctx_ok i (armed d (Some q) this k c) /\ registrations (armed d (Some q) this k c) = S (registrations c) /\
  events (armed d (Some q) this k c) <> 0.
Proof.
  intros (Hfd & Hev & Hd) Hr. split; [split; [by destruct d, k|split]|split].
  - destruct d, k; ctx_cases c Hev; vm_compute; set_solver.
  - intros d'. pose proof (Hd d') as Hd'.
    destruct d, d', k; ctx_cases c Hev; vm_compute in Hr, Hd' |- *; split; intros; try done; eauto;
      try (by apply Hd'); by split.
  - destruct d, k; by ctx_cases c Hev.
  - destruct d, k; by ctx_cases c Hev.
Qed.

Lemma dropped_ok i d c : ctx_ok i c -> registered d c = true ->
  let c' := set_event_ctx d EventContext_default (set_events (Z.ldiff (events c) (bit d)) c) in
  ctx_ok i c' /\ registrations c = S (registrations c').
Proof.
  intros (Hfd & Hev & Hd) Hr. split; [split; [by destruct d|split]|].
  - destruct d; ctx_cases c Hev; vm_compute; set_solver.
  - intros d'. pose proof (Hd d') as Hd'.
    destruct d, d'; ctx_cases c Hev; vm_compute in Hr, Hd' |- *; split; intros; try done;
      try (by apply Hd'); try (split; [done|by intros []]).
  - destruct d; by ctx_cases c Hev.
Qed.

(** [addEvent] on a table that holds the context. *)
Lemma add_to_ctx (s : IOManager K) i c d q this k :
  iom_ok s -> m_fdContexts s !! i = Some c -> registered d c = false ->
  Z.of_nat i <> fst (m_tickleFds s) -> (k = None -> snd this = RUNNING) ->
  exists rt s', addEvent (Some q) this (Z.of_nat i) (bit d) k s = (Ok rt, s') /\ iom_ok s' /\
    scheduled s' = scheduled s /\ m_tickleFds s' = m_tickleFds s /\
    (rt <> 0 -> m_fdContexts s' = m_fdContexts s /\ interest (m_epoll s') = interest (m_epoll s)) /\
    (rt = 0 -> m_fdContexts s' = <[i := armed d (Some q) (fst this) k c]> (m_fdContexts s)).
Proof.
  intros Hok Hc Hreg Hne Hrun. pose proof Hok as [[Hctx Hpen] Hmir].
  pose proof (armed_ok i d q (fst this) k c (Hctx _ _ Hc) Hreg) as (Ha & Hn & Hnz).
  assert (m_fdContexts s !! Z.to_nat (Z.of_nat i) = Some c) as Hc' by (by rewrite Nat2Z.id).
  unfold addEvent. rewrite (bind_Ok _ _ _ _ _ (lookup_there s _ c (Nat2Z.is_nonneg i) Hc')), Nat2Z.id.
  rewrite (bind_Ok _ _ _ _ _ (get_ctx_Ok s i c Hc)).
  unfold registered in Hreg. rewrite negb_false_iff in Hreg. rewrite bind_CCZOE_ASSERT, Hreg. cbv zeta.
  unfold ctl. unfold bind at 1.
  destruct (epoll_ctl (m_epoll s) _ _ _) as [rt kk] eqn:Hctl.
  destruct (Z.eqb_spec rt 0) as [->|Hrt]; cbn [negb].
  2:{ exists 1, (set_m_epoll kk s). pose proof (epoll_ctl_fail _ _ _ _ _ _ Hctl Hrt) as Hi.
      split_and!; try done. split; [done|]. unfold mirror. simpl. rewrite Hi. apply Hmir. }
  apply epoll_ctl_ok in Hctl.
  set (s' := set_m_fdContexts (<[i := armed d (Some q) (fst this) k c]> (m_fdContexts s))
               (set_m_pendingEventCount (wrap 64 (m_pendingEventCount s + 1)) (set_m_epoll kk s))).
  exists 0, s'. split_and!; try done.
  - unfold pending_inc, set_ctx. rewrite !bind_modify, getEventContext_bit, bind_fail_Ok, event_ctx_set_events.
    subst s'. unfold armed. destruct k as [k|]; rewrite bind_modify.
    + simpl. unfold ret. f_equal. unfold set_m_fdContexts. simpl. by rewrite list_insert_insert_eq.
    + rewrite bind_CCZOE_ASSERT, bool_decide_true by auto.
      unfold ret. f_equal. unfold set_m_fdContexts. simpl. by rewrite list_insert_insert_eq.
  - subst s'. split; [split|]; simpl.
    + by apply ctx_insert.
    + rewrite Hpen. apply pending_up. pose proof (total_insert _ i _ (armed d (Some q) (fst this) k c) Hc). lia.
    + apply (mirror_update s _ i c (armed d (Some q) (fst this) k c)); try done.
      simpl. rewrite Hctl. destruct (Z.eqb_spec (events (armed d (Some q) (fst this) k c)) 0) as [?|_]; [done|].
      replace (events (armed d (Some q) (fst this) k c)) with (Z.lor (events c) (bit d)) by (by destruct d, k).
      rewrite <- Z.lor_assoc. by destruct (events c =? 0).
Qed.

Lemma remove_unregistered (s : IOManager K) f d finish :
  (forall c, 0 <= f -> m_fdContexts s !! Z.to_nat f = Some c -> registered d c = false) ->
  remove_event f (bit d) finish s = (Ok 1, s).
Proof.
  intros Hc. unfold remove_event. rewrite bind_get.
  destruct (Z.ltb_spec f 0); cbn [orb]; [done|].
  destruct (Z.leb_spec (Z.of_nat (length (m_fdContexts s))) f); [done|]. cbv zeta.
  destruct (lookup_lt_is_Some_2 (m_fdContexts s) (Z.to_nat f)) as [c Hl]; [lia|].
  rewrite (bind_Ok _ _ _ _ _ (get_ctx_Ok s _ c Hl)).
  specialize (Hc c ltac:(lia) Hl). unfold registered in Hc. rewrite negb_false_iff in Hc. by rewrite Hc.
Qed.

(** The state in which [finish] runs: unregistered, and [finish] has to leave
    a consistent context. *)
Lemma remove_registered (s : IOManager K) i c d finish :
  iom_ok s -> m_fdContexts s !! i = Some c -> registered d c = true ->
  exists s1, remove_event (Z.of_nat i) (bit d) finish s = (do! finish i in ret 0) s1 /\
    m_fdContexts s1 = <[i := set_events (Z.ldiff (events c) (bit d)) c]> (m_fdContexts s) /\
    scheduled s1 = scheduled s /\
    forall s2 c2, m_fdContexts s2 = <[i := c2]> (m_fdContexts s1) -> m_pendingEventCount s2 = m_pendingEventCount s1 ->
      m_epoll s2 = m_epoll s1 -> m_tickleFds s2 = m_tickleFds s1 ->
      ctx_ok i c2 -> registrations c = S (registrations c2) -> events c2 = Z.ldiff (events c) (bit d) ->
      iom_ok s2 /\ m_fdContexts s2 = <[i := c2]> (m_fdContexts s).
Proof.
  intros Hok Hc Hreg. pose proof Hok as [[Hctx Hpen] Hmir].
  unfold registered in Hreg. rewrite negb_true_iff in Hreg.
  assert (events c <> 0) as He0 by (intros E; by rewrite E, Z.land_0_l in Hreg).
  destruct (registered_watched s i c Hok Hc He0) as [Hne Hw].
  destruct (ctl_watched s i _ (Z.ldiff (events c) (bit d)) Hw) as (k & Hctl & Hk).
  eexists. split.
  { unfold remove_event. rewrite bind_get. pose proof (lookup_lt_Some _ _ _ Hc).
    destruct (Z.ltb_spec (Z.of_nat i) 0); [lia|].
    destruct (Z.leb_spec (Z.of_nat (length (m_fdContexts s))) (Z.of_nat i)); [lia|]. cbv zeta. cbn [orb].
    rewrite Nat2Z.id, (bind_Ok _ _ _ _ _ (get_ctx_Ok s _ c Hc)), Hreg, (bind_Ok _ _ _ _ _ Hctl).
    unfold pending_dec, set_ctx. cbn [Z.eqb negb]. rewrite !bind_modify. reflexivity. }
  simpl. split_and!; [done..|]. intros s2 c2 Hl Hp He Ht Hok2 Hn Hev2.
  rewrite list_insert_insert_eq in Hl. split; [|done]. split; [split|].
  - rewrite Hl. by apply ctx_insert.
  - rewrite Hp, Hpen. apply pending_down. rewrite Hl. pose proof (total_insert _ i c c2 Hc). lia.
  - apply (mirror_update s s2 i c c2); try done. by rewrite He, Hev2.
Qed.

Lemma delEvent_spec (s : IOManager K) i c d :
  iom_ok s -> m_fdContexts s !! i = Some c -> registered d c = true ->
  exists s', delEvent (Z.of_nat i) (bit d) s = (Ok 0, s') /\ iom_ok s' /\ scheduled s' = scheduled s /\
    exists c', m_fdContexts s' = <[i := c']> (m_fdContexts s) /\ events c' = Z.ldiff (events c) (bit d).
Proof.
  intros Hok Hc Hreg. unfold delEvent.
  edestruct (remove_registered s i c d) as (s1 & -> & Hl & Hs & Hfin); [done..|].
  pose proof (lookup_lt_Some _ _ _ Hc) as Hi.
  assert (m_fdContexts s1 !! i = Some (set_events (Z.ldiff (events c) (bit d)) c)) as Hc1
    by (by rewrite Hl, list_lookup_insert_eq).
  destruct (dropped_ok i d c (regs_ctx s (proj1 Hok) _ _ Hc) Hreg) as [Hok' Hn].
  set (c' := set_event_ctx d EventContext_default (set_events (Z.ldiff (events c) (bit d)) c)) in *.
  exists (set_m_fdContexts (<[i := c']> (m_fdContexts s1)) s1).
  destruct (Hfin (set_m_fdContexts (<[i := c']> (m_fdContexts s1)) s1) c') as [Hok2 Hl2]; try done; [by destruct d|].
  split_and!; try done.
  - unfold bind at 1. rewrite (bind_Ok _ _ _ _ _ (get_ctx_Ok s1 i _ Hc1)).
    rewrite getEventContext_bit, bind_fail_Ok. done.
  - exists c'. split; [done|by destruct d].
Qed.

Lemma cancelEvent_spec (s : IOManager K) i c d :
  iom_ok s -> m_fdContexts s !! i = Some c -> registered d c = true ->
  exists s', cancelEvent (Z.of_nat i) (bit d) s = (Ok 0, s') /\ iom_ok s' /\
    scheduled s' = scheduled s ++ waiter (event_ctx d c) /\
    m_fdContexts s' = <[i := triggered d c]> (m_fdContexts s).
Proof.
  intros Hok Hc Hreg. unfold cancelEvent.
  edestruct (remove_registered s i c d) as (s1 & -> & Hl & Hs & Hfin); [done..|].
  pose proof (lookup_lt_Some _ _ _ Hc) as Hi. pose proof (regs_ctx s (proj1 Hok) _ _ Hc) as Hci.
  destruct (triggered_ok i c d Hci) as [Hok' Hn]. rewrite Hreg in Hn.
  assert (m_fdContexts s1 !! i = Some (set_events (Z.ldiff (events c) (bit d)) c)) as Hc1
    by (by rewrite Hl, list_lookup_insert_eq).
  pose proof (triggerEvent_spec s1 i _ d Hc1) as Ht. rewrite event_ctx_set_events in Ht.
  destruct (proj1 (proj1 (proj2 (proj2 Hci) d)) Hreg) as [q Hq]. rewrite Hq in Ht.
  destruct Ht as (s2 & Ht & Hl2 & Hs2 & Hp2 & He2 & Hf2).
  assert (triggered d (set_events (Z.ldiff (events c) (bit d)) c) = triggered d c) as Htt.
  { unfold triggered. rewrite event_ctx_set_events. cbn [events set_events].
    rewrite Z.ldiff_ldiff_l, Z.lor_diag. by destruct d. }
  rewrite Htt in Hl2. destruct (Hfin s2 (triggered d c)) as [Hok2 Hl3]; try done; [lia|by destruct d|].
  exists s2. rewrite (bind_Ok _ _ _ _ _ Ht). split_and!; [done..| |done]. by rewrite Hs2, Hs.
Qed.

(** A state in which both directions of a context are unregistered. *)
Lemma all_registered_events c : all_registered (events c) c = true.
Proof. unfold all_registered, collected, registered. simpl. by destruct (Z.land _ _ =? 0), (Z.land _ _ =? 0). Qed.

Lemma trigger_if_collected (s : IOManager K) i c d e :
  m_fdContexts s !! i = Some c -> collected d (events c) = collected d e ->
  trigger_if i (bit d) s = trigger_collected i e (bit d) s.
Proof.
  intros Hc He. unfold trigger_if, trigger_collected. rewrite (bind_Ok _ _ _ _ _ (get_ctx_Ok s i c Hc)).
  unfold collected in He. by destruct (Z.land (events c) _ =? 0), (Z.land e _ =? 0).
Qed.

Lemma cancelAll_spec (s : IOManager K) i c :
  iom_ok s -> m_fdContexts s !! i = Some c -> events c <> 0 ->
  exists s', cancelAll (Z.of_nat i) s = (Ok 0, s') /\ iom_ok s' /\
    scheduled s' = scheduled s ++ fired DirRead (events c) c ++ fired DirWrite (events c) c /\
    exists c', m_fdContexts s' = <[i := c']> (m_fdContexts s) /\ events c' = 0.
Proof.
  intros Hok Hc He0. pose proof Hok as [Hregs Hmir]. pose proof (regs_ctx s Hregs _ _ Hc) as Hci.
  pose proof (lookup_lt_Some _ _ _ Hc) as Hi.
  destruct (registered_watched s i c Hok Hc He0) as [Hne Hw].
  unfold cancelAll. rewrite bind_get.
  destruct (Z.ltb_spec (Z.of_nat i) 0); [lia|].
  destruct (Z.leb_spec (Z.of_nat (length (m_fdContexts s))) (Z.of_nat i)); [lia|]. cbv zeta. cbn [orb].
  rewrite Nat2Z.id, (bind_Ok _ _ _ _ _ (get_ctx_Ok s _ c Hc)).
  destruct (Z.eqb_spec (events c) 0); [done|].
  unfold ctl. unfold bind at 1.
  pose proof (epoll_ctl_watched (m_epoll s) EPOLL_CTL_DEL (Z.of_nat i) 0 ltac:(done) (mk_is_Some _ _ Hw)) as Hrt.
  destruct (epoll_ctl _ _ _ _) as [rt k] eqn:Hctl. simpl in Hrt. subst rt. cbn [Z.eqb negb].
  apply epoll_ctl_ok in Hctl.
  set (s1 := set_m_epoll k s). assert (regs_ok s1) as Hregs1 by (destruct Hregs; by split).
  pose proof (trigger_collected_spec s1 i c DirRead (events c) Hregs1 Hc) as Hfirst.
  pose proof (trigger_both_spec s1 i c (events c) Hregs1 Hc) as Hboth. cbv zeta in Hboth.
  rewrite all_registered_events in Hboth. destruct Hboth as (s2 & Hrun & Hregs2 & Hl & Hs & Hep & Ht).
  assert ((do! trigger_if i READ in do! trigger_if i WRITE in
           let! ctx := get_ctx i in do! CCZOE_ASSERT (events ctx =? 0) in ret 0) s1 = (Ok 0, s2)) as Hall.
  { apply bind_Ok_inv in Hrun as ([] & s3 & Hr & Hwr).
    change READ with (bit DirRead). change WRITE with (bit DirWrite).
    assert (trigger_if i (bit DirRead) s1 = (Ok tt, s3)) as Hr'.
    { by rewrite (trigger_if_collected s1 i c DirRead (events c)). }
    rewrite (bind_Ok _ _ _ _ _ Hr').
    destruct (collected DirRead (events c) && negb (registered DirRead c)) eqn:Hbad.
    { cbn [bit] in Hfirst. by rewrite Hr in Hfirst. }
    destruct Hfirst as (s3' & Hr3 & _ & Hl3 & _). cbn [bit] in Hr3. rewrite Hr in Hr3. injection Hr3 as <-.
    assert (m_fdContexts s3 !! i = Some (after DirRead (events c) c)) as Hc3
      by (by rewrite Hl3, list_lookup_insert_eq).
    assert (trigger_if i (bit DirWrite) s3 = (Ok tt, s2)) as Hw'.
    { rewrite (trigger_if_collected s3 i _ DirWrite (events c) Hc3); [done|].
      destruct (after_read (events c) i c Hci) as (_ & _ & Hrw). exact Hrw. }
    rewrite (bind_Ok _ _ _ _ _ Hw').
    assert (m_fdContexts s2 !! i = Some (fire_both (events c) c)) as Hc2
      by (by rewrite Hl, list_lookup_insert_eq).
    rewrite (bind_Ok _ _ _ _ _ (get_ctx_Ok s2 i _ Hc2)), bind_CCZOE_ASSERT.
    rewrite (fire_both_events i (events c) c Hci) by apply Hci. by rewrite Z.ldiff_diag. }
  assert (events (fire_both (events c) c) = 0) as Hz
    by (rewrite (fire_both_events i (events c) c Hci) by apply Hci; by rewrite Z.ldiff_diag).
  exists s2. split_and!; [exact Hall| |done|by eexists]. split; [done|].
  apply (mirror_update s s2 i c (fire_both (events c) c)); try done. by rewrite Hz, Hep.
Qed.

(** [addEvent] after the growth is [addEvent] on the grown table. *)
Lemma addEvent_grown (s : IOManager K) sched this f d k :
  iom_ok s -> reachable (length (m_fdContexts s)) f = true ->
  exists m c, let s' := set_m_fdContexts (m_fdContexts s ++ fresh (length (m_fdContexts s)) m) s in
    addEvent sched this f (bit d) k s = addEvent sched this f (bit d) k s' /\ iom_ok s' /\
    m_fdContexts s' !! Z.to_nat f = Some c /\
    registered d c = match m_fdContexts s !! Z.to_nat f with Some c => registered d c | None => false end.
Proof.
  intros Hok Hr. pose proof (lookup_or_grow_spec s f Hok) as Hg. rewrite Hr in Hg.
  destruct Hg as (m & s' & c & Hg & Hok' & -> & Hc). exists m, c. split_and!; [|done..|].
  - unfold addEvent. unfold reachable in Hr. apply andb_true_iff in Hr as [H0f%Z.leb_le _].
    by rewrite (bind_Ok _ _ _ _ _ Hg), (bind_Ok _ _ _ _ _ (lookup_there _ f c H0f Hc)).
  - simpl in Hc. destruct (m_fdContexts s !! Z.to_nat f) as [c0|] eqn:H0c.
    + rewrite lookup_app_l in Hc by (by eapply lookup_lt_Some). congruence.
    + apply lookup_ge_None in H0c. rewrite lookup_app_r in Hc by done.
      apply fresh_lookup in Hc as [-> _]. by destruct d.
Qed.

(** ** The interface as a whole *)

(** A call of the interface, or an event the loop takes from [epoll_wait]. *)
Inductive call : Type :=
  | Add (q : nat) (this : ptr * State) (f : Z) (d : direction) (k : option callback)
  | Del (f : Z) (d : direction)
  | Cancel (f : Z) (d : direction)
  | CancelAll (f : Z)
  | Fired (i : nat) (ev : Z).

Definition run_call (x : call) : comp (IOManager K) Z :=
  match x with
  | Add q this f d k => addEvent (Some q) this f (bit d) k
  | Del f d => delEvent f (bit d)
  | Cancel f d => cancelEvent f (bit d)
  | CancelAll f => cancelAll f
  | Fired i ev => do! process_event (mkEpollEvent ev (DataPtr i)) in ret 0
  end.

(** The descriptor is not the one of the pipe, a fiber that waits is the running
    one, and the kernel returns contexts that exist. *)
Definition admissible (s : IOManager K) (x : call) : Prop :=
  match x with
  | Add q this f d k => f <> fst (m_tickleFds s) /\ (k = None -> snd this = RUNNING)
  | Fired i ev => (i < length (m_fdContexts s))%nat
  | _ => True
  end.

Inductive verdict : Set := Returns | Aborts | Undefined.

Definition judge (s : IOManager K) (x : call) : verdict :=
  match x with
  | Add q this f d k =>
      if reachable (length (m_fdContexts s)) f
      then if match m_fdContexts s !! Z.to_nat f with Some c => registered d c | None => false end
           then Aborts else Returns
      else Undefined
  | Fired i ev =>
      match m_fdContexts s !! i with
      | Some c => let e := collect_events ev in
          if (Z.land (events c) e =? 0) || all_registered e c then Returns else Undefined
      | None => Undefined
      end
  | _ => Returns
  end.

Lemma Add_judged s q this f d k : iom_ok s -> admissible s (Add q this f d k) ->
  match judge s (Add q this f d k) with
  | Returns => exists r s', run_call (Add q this f d k) s = (Ok r, s') /\ iom_ok s'
  | Aborts => fst (run_call (Add q this f d k) s) = Abort
  | Undefined => fst (run_call (Add q this f d k) s) = UB
  end.
Proof.
  intros Hok [Hne Hthis]. cbn [judge run_call].
  destruct (reachable _ f) eqn:Hr.
  2:{ pose proof (lookup_or_grow_spec s f Hok) as Hg. rewrite Hr in Hg.
      unfold addEvent, bind at 1. by destruct (lookup_or_grow f s) as [[] ?]. }
  destruct (addEvent_grown s (Some q) this f d k Hok Hr) as (m & c & Heq & Hok' & Hc & Hreg).
  rewrite <- Hreg, Heq. unfold reachable in Hr. apply andb_true_iff in Hr as [H0f%Z.leb_le _].
  destruct (registered d c) eqn:Hd.
  - unfold addEvent. rewrite (bind_Ok _ _ _ _ _ (lookup_there _ f c H0f Hc)).
    rewrite (bind_Ok _ _ _ _ _ (get_ctx_Ok _ _ c Hc)), bind_CCZOE_ASSERT.
    unfold registered in Hd. rewrite negb_true_iff in Hd. by rewrite Hd.
  - rewrite <- (Z2Nat.id f H0f) in Hne |- *.
    edestruct add_to_ctx as (r & s' & Hrun & Hok2 & _); [exact Hok'|exact Hc|done|done|exact Hthis|].
    exists r, s'. done.
Qed.

Lemma Fired_judged s i ev : iom_ok s -> admissible s (Fired i ev) ->
  match judge s (Fired i ev) with
  | Returns => exists r s', run_call (Fired i ev) s = (Ok r, s') /\ iom_ok s'
  | Aborts => fst (run_call (Fired i ev) s) = Abort
  | Undefined => fst (run_call (Fired i ev) s) = UB
  end.
Proof.
  intros Hok Hi. simpl in Hi. cbn [judge run_call].
  destruct (lookup_lt_is_Some_2 _ _ Hi) as [c Hc]. rewrite Hc. cbv zeta.
  pose proof (process_event_spec s i c ev Hok Hc) as Hp. cbv zeta in Hp.
  destruct (Z.land _ _ =? 0); cbn [orb]; [|destruct (all_registered _ c)].
  - exists 0, s. by rewrite (bind_Ok _ _ _ _ _ Hp).
  - destruct Hp as (s' & Hrun & Hok' & _). exists 0, s'. by rewrite (bind_Ok _ _ _ _ _ Hrun).
  - unfold bind. by destruct (process_event _ s) as [[] ?].
Qed.

(** A descriptor has a registered direction, or the removals return 1. *)
Lemma removal_cases (s : IOManager K) f d :
  (exists i c, f = Z.of_nat i /\ m_fdContexts s !! i = Some c /\ registered d c = true) \/
  (forall c, 0 <= f -> m_fdContexts s !! Z.to_nat f = Some c -> registered d c = false).
Proof.
  destruct (Z.leb_spec 0 f) as [Hf|]; [|right; intros; lia].
  destruct (m_fdContexts s !! Z.to_nat f) as [c|] eqn:Hc; [|right; done].
  destruct (registered d c) eqn:Hr.
  - left. exists (Z.to_nat f), c. by rewrite Z2Nat.id.
  - right. intros c' _ [= <-]. done.
Qed.

Lemma cancelAll_cases (s : IOManager K) f :
  (exists i c, f = Z.of_nat i /\ m_fdContexts s !! i = Some c /\ events c <> 0) \/
  cancelAll f s = (Ok 1, s).
Proof.
  unfold cancelAll. rewrite bind_get.
  destruct (Z.ltb_spec f 0); cbn [orb]; [by right|].
  destruct (Z.leb_spec (Z.of_nat (length (m_fdContexts s))) f); [by right|]. cbv zeta.
  destruct (lookup_lt_is_Some_2 (m_fdContexts s) (Z.to_nat f)) as [c Hc]; [lia|].
  rewrite (bind_Ok _ _ _ _ _ (get_ctx_Ok s _ c Hc)).
  destruct (Z.eqb_spec (events c) 0); [by right|].
  left. exists (Z.to_nat f), c. by rewrite Z2Nat.id by lia.
Qed.

(** ** Claims *)

(** C10: (safety) on a manager whose kernel interest list mirrors its contexts
    and whose pending counter counts the registrations, every call of the
    interface and every event of the loop ends as [judge] says: it returns and
    keeps all of that, it fails the assertion of [addEvent] exactly when the
    direction is already registered, or it is undefined exactly when the table
    cannot grow to the descriptor (a negative one, or 0 or 1 beyond the table)
    or an error event meets a context with one direction registered. *)
Theorem iom_calls_safe (s : IOManager K) (x : call) : iom_ok s -> admissible s x ->
  match judge s x with
  | Returns => exists r s', run_call x s = (Ok r, s') /\ iom_ok s'
  | Aborts => fst (run_call x s) = Abort
  | Undefined => fst (run_call x s) = UB
  end.
Proof.
  intros Hok Hadm. destruct x as [q this f d k|f d|f d|f|i ev]; [by apply Add_judged|..|by apply Fired_judged].
  - cbn [judge run_call]. destruct (removal_cases s f d) as [(i & c & -> & Hc & Hreg)|Hno].
    + destruct (delEvent_spec s i c d Hok Hc Hreg) as (s' & Hrun & Hok' & _). by exists 0, s'.
    + exists 1, s. split; [by apply remove_unregistered|done].
  - cbn [judge run_call]. destruct (removal_cases s f d) as [(i & c & -> & Hc & Hreg)|Hno].
    + destruct (cancelEvent_spec s i c d Hok Hc Hreg) as (s' & Hrun & Hok' & _). by exists 0, s'.
    + exists 1, s. split; [by apply remove_unregistered|done].
  - cbn [judge run_call]. destruct (cancelAll_cases s f) as [(i & c & -> & Hc & Hev)|Hno]; [|by exists 1, s].
    destruct (cancelAll_spec s i c Hok Hc Hev) as (s' & Hrun & Hok' & _). by exists 0, s'.
Qed.

(** C14: (functional) what the loop does with the events of one descriptor: the
    collected directions that meet a registration are unregistered, in the
    kernel as well, and their waiters handed to the scheduler, READ before
    WRITE; nothing happens when no collected direction is registered; when only
    one of two collected directions is, as on [EPOLLERR] and [EPOLLHUP], the
    other one is triggered through a null scheduler. *)
Theorem process_event_fires (s : IOManager K) i c ev :
  iom_ok s -> m_fdContexts s !! i = Some c ->
  let e := collect_events ev in
  let run := process_event (mkEpollEvent ev (DataPtr i)) s in
  if Z.land (events c) e =? 0 then run = (Ok tt, s)
  else if all_registered e c
  then exists s', run = (Ok tt, s') /\ iom_ok s' /\
         m_fdContexts s' = <[i := fire_both e c]> (m_fdContexts s) /\
         events (fire_both e c) = Z.ldiff (events c) e /\
         scheduled s' = scheduled s ++ fired DirRead e c ++ fired DirWrite e c
  else fst run = UB.
Proof. apply process_event_spec. Qed.

(** (functional) after [addEvent] has returned 0, [cancelEvent] returns 0
    and hands exactly one task to the scheduler, and [delEvent] returns 0 and
    hands over none: the task is the callback when one was given, and otherwise
    a callback left by an earlier event of that direction, the waiting fiber
    only when there is none. *)
Theorem addEvent_cancelEvent (s s1 : IOManager K) i c d q this k :
  iom_ok s -> m_fdContexts s !! i = Some c -> registered d c = false ->
  Z.of_nat i <> fst (m_tickleFds s) -> (k = None -> snd this = RUNNING) ->
  addEvent (Some q) this (Z.of_nat i) (bit d) k s = (Ok 0, s1) ->
  (exists s2, cancelEvent (Z.of_nat i) (bit d) s1 = (Ok 0, s2) /\ iom_ok s2 /\
     scheduled s2 = scheduled s ++ [match k, cb (event_ctx d c) with
                                    | Some k, _ => TaskCb k
                                    | None, Some old => TaskCb old
                                    | None, None => TaskFiber (fst this)
                                    end]) /\
  (exists s3, delEvent (Z.of_nat i) (bit d) s1 = (Ok 0, s3) /\ iom_ok s3 /\ scheduled s3 = scheduled s).
Proof.
  intros Hok Hc Hreg Hne Hthis Hadd.
  destruct (add_to_ctx s i c d q this k Hok Hc Hreg Hne Hthis) as (rt & s' & Hadd' & Hok1 & Hs1 & Ht1 & _ & Hl1).
  rewrite Hadd in Hadd'. injection Hadd' as <- <-. specialize (Hl1 eq_refl).
  pose proof (regs_ctx s (proj1 Hok) _ _ Hc) as Hci.
  set (c1 := armed d (Some q) (fst this) k c) in *.
  assert (m_fdContexts s1 !! i = Some c1) as Hc1
    by (rewrite Hl1; apply list_lookup_insert_eq; by eapply lookup_lt_Some).
  assert (registered d c1 = true) as Hreg1
    by (destruct Hci as (_ & Hev & _); subst c1; destruct d, k; by ctx_cases c Hev).
  split.
  - destruct (cancelEvent_spec s1 i c1 d Hok1 Hc1 Hreg1) as (s2 & Hrun & Hok2 & Hs2 & _).
    exists s2. split_and!; [done..|]. rewrite Hs2, Hs1. f_equal. subst c1. unfold armed, waiter.
    destruct d, k; simpl; [done| |done|]; by destruct (cb _).
  - destruct (delEvent_spec s1 i c1 d Hok1 Hc1 Hreg1) as (s3 & Hrun & Hok3 & Hs3 & _).
    exists s3. by rewrite Hs3.
Qed.
End iomanager.

(** ** Witnesses *)

Section witnesses.
#[local] Existing Instance simple_epoll.
#[local] Existing Instance simple_epoll_laws.

Definition empty_iom : IOManager (gmap Z Z) := mkIOManager {[100 := Z.lor EPOLLIN EPOLLET]} (100, 101) 0 [] [] [].

Definition some_iom : IOManager (gmap Z Z) := set_m_fdContexts (fresh 0 8) empty_iom.

Lemma some_iom_ok : iom_ok some_iom.
Proof.
  apply (grown_ok empty_iom 8). split; [split|split_and!]; try done.
  intros f Hf Hne. simpl. rewrite lookup_singleton_ne by done. done.
Qed.

Definition some_fiber : ptr * State := (7%nat, RUNNING).

(** Descriptor 5 with a callback on READ. *)
Definition armed_iom : IOManager (gmap Z Z) :=
  Eval vm_compute in snd (addEvent (Some 1%nat) some_fiber 5 READ (Some (Client 9%nat)) some_iom).

Lemma armed_iom_ok : iom_ok armed_iom.
Proof.
  destruct (add_to_ctx some_iom 5 (FdContext_default 5) DirRead 1%nat some_fiber (Some (Client 9%nat)))
    as (rt & s' & Hrun & Hok & _); [apply some_iom_ok|done|done|done|done|].
  assert (addEvent (Some 1%nat) some_fiber 5 READ (Some (Client 9%nat)) some_iom = (Ok 0, armed_iom)) as Hadd
    by (vm_compute; reflexivity).
  change (bit DirRead) with READ in Hrun. change (Z.of_nat 5) with 5 in Hrun. rewrite Hadd in Hrun.
  injection Hrun as _ <-. exact Hok.
Qed.

Definition armed_ctx : FdContext := mkFdContext 5 READ (mkEventContext (Some 1%nat) None (Some (Client 9%nat))) EventContext_default.

(** A double registration aborts, [EPOLLHUP] on a read registration is undefined. *)
Lemma iom_calls_safe_witness :
  fst (run_call (Add 1%nat some_fiber 5 DirRead None) armed_iom) = Abort /\
  fst (run_call (Fired 5 EPOLLHUP) armed_iom) = UB /\
  exists r s', run_call (Fired 5 EPOLLIN) armed_iom = (Ok r, s') /\ iom_ok s'.
Proof.
  split; [|split].
  - apply (iom_calls_safe armed_iom (Add 1%nat some_fiber 5 DirRead None)); [apply armed_iom_ok|done].
  - apply (iom_calls_safe armed_iom (Fired 5 EPOLLHUP)); [apply armed_iom_ok|simpl; lia].
  - apply (iom_calls_safe armed_iom (Fired 5 EPOLLIN)); [apply armed_iom_ok|simpl; lia].
Defined.

Lemma process_event_fires_witness : exists s',
  process_event (mkEpollEvent EPOLLIN (DataPtr 5)) armed_iom = (Ok tt, s') /\ iom_ok s' /\
  scheduled s' = [TaskCb (Client 9%nat)].
Proof.
  destruct (process_event_fires armed_iom 5 armed_ctx EPOLLIN armed_iom_ok eq_refl)
    as (s' & Hrun & Hok & _ & _ & Hs).
  exists s'. done.
Defined.

Lemma addEvent_cancelEvent_witness : exists s1 s2,
  addEvent (Some 1%nat) some_fiber 5 WRITE None armed_iom = (Ok 0, s1) /\
  cancelEvent 5 WRITE s1 = (Ok 0, s2) /\ scheduled s2 = [TaskFiber 7%nat].
Proof.
  destruct (addEvent (Some 1%nat) some_fiber 5 WRITE None armed_iom) as [o s1] eqn:Hadd.
  assert (o = Ok 0) as -> by (apply (f_equal fst) in Hadd; vm_compute in Hadd; by subst).
  destruct (addEvent_cancelEvent armed_iom s1 5 armed_ctx DirWrite 1%nat some_fiber None
              armed_iom_ok eq_refl eq_refl) as [(s2 & Hrun & _ & Hs) _];
    [done|done|exact Hadd|].
  exists s1, s2. done.
Defined.
End witnesses.
