(* ===== verification/Runtime.v ===== *)
(** * Runtime: fibers, scheduler, event loop and timers together

    An [IOManager] is a [Scheduler] and a [TimerManager], and its [idle] is the idle
    fiber of the workers.  The parts are modelled on their own in [Scheduler], [Timer]
    and [IOManager]; here they share one state, as the object does: the event loop of
    [cczoecpp/Scheduler/iomanager.cpp] hands tasks to the queue of the scheduler, the
    hooked calls of a running fiber ([cczoecpp/Net/Hook/hook.cpp]) register it with
    the event loop or with a timer and yield, and the workers resume what is queued.

    What the environment decides is a script consumed from the front: the readings of
    the clock (one for each call that may read it), and for each round of [idle] the
    results of [epoll_wait].  A step is a
    step of one worker; a round of [idle] up to its yield is one step. *)

From stdpp Require Import base list numbers gmap.
From S2P Require Import Prelude Words Mutex Fiber Scheduler Timer IOManager.

Local Open Scope Z_scope.

(** What a hooked call does to the object, from the point where it has to wait:
    [do_io] registers the running fiber for an event, without a timeout; [usleep]
    and [nanosleep] add a timer whose callback is a closure. *)
Inductive io_call : Type :=
  | IoWait (f : Z) (d : direction)
  | IoSleep (ms : Z) (closure : callback).

Section Runtime.
Context {K L : Type} `{Epoll K} `{PosixLock L}.
Context (cfg_stack_size : Z).

(** Which computations of fiber bodies are hooked calls, what a callback calls when it
    runs, and [write] of one byte. *)
Context (io : nat -> option io_call) (code : callback -> list cmd) (sys_write : Z -> Z).

(** An [IOManager] object with its base classes, and the script. *)
Record Runtime : Type := mkRuntime {
  r_scheduler : Scheduler;
  r_iomanager : IOManager K;
  r_timers : TimerManager L;
  r_next_timer : Timer.ptr;                     (* the next free address of a timer *)
  r_clock : list Z;                             (* the readings of getCurrentMs *)
  r_polls : list (list (Z + list epoll_event)); (* the results of epoll_wait, by round *)
  r_waits : list Z                              (* the timeouts given to it, in order *)
}.

Definition set_scheduler (v : Scheduler) (s : Runtime) : Runtime :=
  mkRuntime v (r_iomanager s) (r_timers s) (r_next_timer s) (r_clock s) (r_polls s) (r_waits s).
Definition set_iomanager (v : IOManager K) (s : Runtime) : Runtime :=
  mkRuntime (r_scheduler s) v (r_timers s) (r_next_timer s) (r_clock s) (r_polls s) (r_waits s).
Definition set_timers (v : TimerManager L) (s : Runtime) : Runtime :=
  mkRuntime (r_scheduler s) (r_iomanager s) v (r_next_timer s) (r_clock s) (r_polls s) (r_waits s).
Definition set_next_timer (v : Timer.ptr) (s : Runtime) : Runtime :=
  mkRuntime (r_scheduler s) (r_iomanager s) (r_timers s) v (r_clock s) (r_polls s) (r_waits s).
Definition set_clock (v : list Z) (s : Runtime) : Runtime :=
  mkRuntime (r_scheduler s) (r_iomanager s) (r_timers s) (r_next_timer s) v (r_polls s) (r_waits s).
Definition set_polls (v : list (list (Z + list epoll_event))) (s : Runtime) : Runtime :=
  mkRuntime (r_scheduler s) (r_iomanager s) (r_timers s) (r_next_timer s) (r_clock s) v (r_waits s).
Definition set_waits (v : list Z) (s : Runtime) : Runtime :=
  mkRuntime (r_scheduler s) (r_iomanager s) (r_timers s) (r_next_timer s) (r_clock s) (r_polls s) v.

Definition in_scheduler {A} (m : comp Scheduler A) : comp Runtime A := lift r_scheduler set_scheduler m.
Definition in_iomanager {A} (m : comp (IOManager K) A) : comp Runtime A := lift r_iomanager set_iomanager m.
Definition in_timers {A} (m : comp (TimerManager L) A) : comp Runtime A := lift r_timers set_timers m.

Definition getCurrentMs : comp Runtime Z :=
  let! l := get r_clock in
  match l with
  | [] => fail Diverge
  | now :: l => do! modify (set_clock l) in ret now
  end.

(** [epoll_wait] with a timeout, until it is not interrupted; a failure counts as no
    events. *)
Definition epoll_wait (timeout : Z) : comp Runtime (list epoll_event) :=
  do! modify (fun s => set_waits (r_waits s ++ [timeout]) s) in
  let! l := get r_polls in
  match l with
  | [] => fail Diverge
  | results :: l =>
      do! modify (set_polls l) in
      match wait_loop results with Some evs => ret evs | None => fail Diverge end
  end.

(** ** The calls of the event loop on the scheduler *)

Definition ScheduleTask_of (t : task) : ScheduleTask :=
  match t with
  | TaskFiber f => ScheduleTask_fiber (Some f) (-1)
  | TaskCb c => ScheduleTask_cb (Some (code c)) (-1)
  end.

Fixpoint schedule_tasks (i : nat) (ts : list task) : comp Scheduler unit :=
  match ts with
  | [] => ret tt
  | t :: ts => do! schedule cfg_stack_size i (ScheduleTask_of t) in schedule_tasks i ts
  end.

(** The calls of [schedule] that the event loop has made, in order, reach the queue. *)
Definition flush (i : nat) : comp Runtime unit :=
  let! ts := get (fun s => scheduled (r_iomanager s)) in
  do! in_iomanager (modify (set_scheduled [])) in
  in_scheduler (schedule_tasks i ts).

(** ** [IOManager::idle] *)

(** [!m_stopCommand || hasTimer()]; [hasTimer] is not called before the stop command. *)
Definition idle_goes_on : comp Runtime bool :=
  let! stop := in_scheduler (get m_stopCommand) in
  if stop : bool then let! e := in_timers empty in ret (idle_condition true (hasTimer e))
  else ret true.

(** A round of the loop: wait, then hand the callbacks of the expired timers and the
    events over. *)
Definition idle_round : comp Runtime unit :=
  let! now := getCurrentMs in
  let! nextTimeout := in_timers (getNextTimer now) in
  let! evs := epoll_wait (idle_timeout nextTimeout) in
  let! now := getCurrentMs in
  let! p := get r_next_timer in
  let! cbs := in_timers (getExpiredCb now p) in
  do! in_iomanager (schedule_all cbs) in
  in_iomanager (process_events evs).

(** The test of the loop and, when it holds, a round up to the [yield]; [rest] is
    what follows the loop. *)
Definition idle (i : nat) (curr : Fiber.ptr) (rest : list cmd) : comp Runtime unit :=
  let! again := idle_goes_on in
  if negb again then in_scheduler (in_thread i (modify (set_control (InBody curr rest)))) else
  do! idle_round in
  do! flush i in
  in_scheduler (in_thread i (modify (set_control (InBody curr (YieldToReady_ :: IdleLoop :: rest))))).

(** ** Hooked calls *)

(** [addEvent(fd, event)] by the running fiber [curr], then the yield, unless the
    registration has failed. *)
Definition io_wait (i : nat) (curr : Fiber.ptr) (f : Z) (d : direction) (rest : list cmd)
    : comp Runtime unit :=
  let! x := in_scheduler (in_thread i (Fiber.deref curr)) in
  let! rt := in_iomanager (addEvent (Some 0%nat) (curr, m_state x) f
               (match d with DirRead => READ | DirWrite => WRITE end) None) in
  in_scheduler (in_thread i (modify (set_control (InBody curr
    (if rt =? 0 then YieldToReady_ :: rest else rest))))).

(** [addTimer(ms, closure, false)], then the yield; a timer that is the first to
    expire tickles the event loop. *)
Definition io_sleep (i : nat) (curr : Fiber.ptr) (ms : Z) (closure : callback) (rest : list cmd)
    : comp Runtime unit :=
  let! now := getCurrentMs in
  let! p := get r_next_timer in
  let! front := get (fun s => front_insertions (r_timers s)) in
  do! modify (set_next_timer (S p)) in
  let! _ := in_timers (addTimer now p ms (Some closure) false) in
  let! front' := get (fun s => front_insertions (r_timers s)) in
  let! n := in_scheduler (get m_idleThreadCount) in
  do! (if (front <? front')%nat then in_iomanager (onTimerInsertedAtFront sys_write n) else ret tt) in
  in_scheduler (in_thread i (modify (set_control (InBody curr (YieldToReady_ :: rest))))).

Definition io_step (i : nat) (curr : Fiber.ptr) (c : io_call) (rest : list cmd) : comp Runtime unit :=
  match c with
  | IoWait f d => io_wait i curr f d rest
  | IoSleep ms closure => io_sleep i curr ms closure rest
  end.

(** ** Steps *)

(** One step of worker [i]: a round of [idle], a hooked call, or what the worker does
    without the event loop. *)
Definition runtime_step (i : nat) : comp Runtime unit := fun s =>
  match w_control <$> m_threads (r_scheduler s) !! i with
  | Some (InBody curr (IdleLoop :: rest)) => idle i curr rest s
  | Some (InBody curr (Work n :: rest)) =>
      match io n with
      | Some c => io_step i curr c rest s
      | None => in_scheduler (worker_step cfg_stack_size i) s
      end
  | _ => in_scheduler (worker_step cfg_stack_size i) s
  end.

Fixpoint runtime_steps (i n : nat) : comp Runtime unit :=
  match n with
  | O => ret tt
  | S n => do! runtime_step i in runtime_steps i n
  end.

(** The steps of the workers in the order given by the operating system. *)
Fixpoint runtime_interleave (order : list nat) : comp Runtime unit :=
  match order with
  | [] => ret tt
  | i :: order => do! runtime_step i in runtime_interleave order
  end.
End Runtime.

Arguments Runtime K L : clear implicits.
