(* ===== verification/RuntimeTheorems.v ===== *)
(** * RuntimeTheorems: a fiber that waits is resumed

    What a worker does from a hooked call that has to wait, through the idle fiber and
    the event loop or the timers, to the point where the fiber goes on; and that the
    runtime as a whole uses the queue as [SchedulerSpec] says. *)

From stdpp Require Import base list numbers gmap sets.
From S2P Require Import Prelude Words Mutex Fiber FiberTheorems Scheduler SchedulerTheorems SchedulerSpec Timer TimerTheorems IOManager IOManagerTheorems Runtime.

Local Open Scope Z_scope.

#[local] Notation ptr := Fiber.ptr.

(** ** A worker in its main fiber, and in the body of a fiber *)

Section worker.
Context (cfg : Z) (i : nat) (others : gset ptr).
Implicit Types s : Scheduler.

(** The worker is in its main fiber at [pc]; [g] is its idle fiber. *)
Definition resting (s : Scheduler) (pc : run_pc) (g : ptr) : Prop :=
  exists t, runs_idle i s t pc g /\ thread_ok others t /\ control t = InMain.

(** It executes [c], to which something refers and which has [cs] left to do. *)
Definition awake (s : Scheduler) (pc : run_pc) (g c : ptr) (cs : list cmd) : Prop :=
  exists t, runs_idle i s t pc g /\ thread_ok others t /\ referred (heap t) c /\ control t = InBody c cs.

(** What a step on behalf of [c] leaves alone: the other fibers and workers, the stop
    command and the visible work. *)
Record keeps (c : ptr) (s s' : Scheduler) : Prop := mkKeeps {
  kept_fibers : extends c (process s) (process s');
  kept_stop : m_stopCommand s' = m_stopCommand s;
  kept_output : output s' = output s;
  kept_threads : forall j, j <> i -> m_threads s' !! j = m_threads s !! j
}.

Lemma extends_refl c h : extends c h h.
Proof. by intros ? ?. Qed.

Lemma keeps_refl c s : keeps c s s.
Proof. split; [apply extends_refl|done..]. Qed.

Lemma keeps_trans c s1 s2 s3 : keeps c s1 s2 -> keeps c s2 s3 -> keeps c s1 s3.
Proof.
  intros [Ha Hb Hc Hd] [He Hf Hg Hh]. split; [by eapply extends_trans|congruence|congruence|].
  intros j Hj. by rewrite Hh, Hd.
Qed.

Lemma keeps_pending c s s' h cs :
  keeps c s s' -> h <> c -> pending (process s) h = Some cs -> pending (process s') h = Some cs.
Proof. intros Hk. apply pending_extends. by apply Hk. Qed.

Lemma runs_idle_process s t pc g : runs_idle i s t pc g -> process s = heap t.
Proof. intros (w & _ & <- & _). done. Qed.

Lemma runs_idle_control s t pc g :
  runs_idle i s t pc g -> exists w, m_threads s !! i = Some w /\ w_control w = control t.
Proof. intros (w & ? & <- & _). by exists w. Qed.

Lemma same_env_keeps c s s' : same_env i s s' -> extends c (process s) (process s') -> keeps c s s'.
Proof. intros [] He. by split. Qed.

(** A fiber operation by the worker. *)
Lemma in_thread_keeps {A} (m : comp Thread A) s t t' pc g a c :
  runs_idle i s t pc g -> m t = (Ok a, t') -> extends c (heap t) (heap t') ->
  exists s', in_thread i m s = (Ok a, s') /\ runs_idle i s' t' pc g /\ keeps c s s' /\
    m_tasks s' = m_tasks s /\ m_idleThreadCount s' = m_idleThreadCount s /\ process s' = heap t'.
Proof.
  intros Hr Hm He. destruct (in_thread_runs_idle i m s t t' pc g a Hr Hm) as (s' & Hin & Hr' & Hs').
  pose proof (runs_idle_process _ _ _ _ Hr) as Hp. pose proof (runs_idle_process _ _ _ _ Hr') as Hp'.
  exists s'. split_and!; try done; [|by apply Hs'..].
  apply same_env_keeps; [done|]. by rewrite Hp, Hp'.
Qed.

(** The steps of [run] after the idle fiber has returned, before a task, and the
    resumption of a task. *)
Lemma back_step s g :
  resting s AfterIdle g ->
  exists s', worker_step cfg i s = (Ok tt, s') /\ resting s' AtLoop g /\ keeps g s s' /\
    m_tasks s' = m_tasks s /\ m_idleThreadCount s' = wrap 64 (m_idleThreadCount s - 1) /\ process s' = process s.
Proof.
  intros (t & Hr & Hok & Hc). destruct (worker_step_main cfg i s t _ g Hr Hc) as (w & -> & Hpc & _).
  unfold run_step. rewrite Hpc, bind_modify. set (s0 := set_m_idleThreadCount _ s).
  destruct (set_pc_runs_idle i s0 t _ AtLoop g (runs_idle_count _ _ _ _ _ _ Hr)) as (s1 & He & Hr1 & Hs1).
  assert (process s1 = process s) as Hps
    by (by rewrite (runs_idle_process _ _ _ _ Hr1), (runs_idle_process _ _ _ _ Hr)).
  exists s1. split_and!; try done; [by exists t| |by apply Hs1..].
  destruct Hs1. split; [rewrite Hps; apply extends_refl|done..].
Qed.

Lemma take_step s g f q :
  resting s AtLoop g -> m_tasks s = f :: q ->
  exists s', worker_step cfg i s = (Ok tt, s') /\ resting s' (HasTask f) g /\ keeps f s s' /\ process s' = process s /\
    m_tasks s' = q /\ m_idleThreadCount s' = m_idleThreadCount s.
Proof.
  intros (t & Hr & Hok & Hc) Hq. destruct (worker_step_main cfg i s t _ g Hr Hc) as (w & -> & Hpc & _).
  unfold run_step. rewrite Hpc, bind_get, Hq, bind_modify. set (s0 := set_m_tasks q s).
  destruct (set_pc_runs_idle i s0 t AtLoop (HasTask f) g Hr) as (s1 & He & Hr1 & Hs1).
  assert (process s1 = process s) as Hps
    by (by rewrite (runs_idle_process _ _ _ _ Hr1), (runs_idle_process _ _ _ _ Hr)).
  exists s1. split_and!; try done; [by exists t| |by apply Hs1..].
  destruct Hs1. split; [rewrite Hps; apply extends_refl|done..].
Qed.

Lemma run_task_step s g f cs :
  resting s (HasTask f) g -> f ∉ others -> pending (process s) f = Some cs ->
  exists s', worker_step cfg i s = (Ok tt, s') /\ awake s' AtLoop g f cs /\ keeps f s s' /\
    m_tasks s' = m_tasks s /\ m_idleThreadCount s' = m_idleThreadCount s.
Proof.
  intros (t & Hr & Hok & Hc) Hf Hp. pose proof (runs_idle_process _ _ _ _ Hr) as Hps. rewrite Hps in Hp.
  apply pending_held in Hp as [Hp Hh].
  destruct (resume_enters others t f cs Hok Hc Hf Hp) as (t1 & He & Hok1 & Hc1 & Hh1 & Hfr).
  destruct (worker_step_main cfg i s t _ g Hr Hc) as (w & -> & Hpc & _). unfold run_step. rewrite Hpc.
  destruct (set_pc_runs_idle i s t _ AtLoop g Hr) as (s1 & He1 & Hr1 & Hs1). rewrite (bind_Ok _ _ _ _ _ He1).
  destruct (in_thread_keeps (resume f) s1 t t1 _ g tt f Hr1 He) as (s2 & -> & Hr2 & Hk2 & Hq2 & Hn2 & _).
  { intros h Hne _. by apply Hfr. }
  exists s2. split; [done|]. split; [by exists t1; auto|]. destruct Hs1. split_and!; try congruence.
  apply (keeps_trans _ s s1); [|done]. split; [|done..].
  rewrite (runs_idle_process _ _ _ _ Hr1), Hps. apply extends_refl.
Qed.

(** The idle fiber is resumed when the queue is empty. *)
Lemma idle_enter s g cs :
  resting s AtLoop g -> m_tasks s = [] -> g ∉ others -> pending (process s) g = Some cs ->
  exists s', worker_step cfg i s = (Ok tt, s') /\ awake s' AfterIdle g g cs /\ keeps g s s' /\
    m_tasks s' = [] /\ m_idleThreadCount s' = wrap 64 (m_idleThreadCount s + 1).
Proof.
  intros (t & Hr & Hok & Hc) Hq Hg Hp. pose proof (runs_idle_process _ _ _ _ Hr) as Hps.
  rewrite Hps in Hp.
  destruct (setIdle_resume others t g cs Hok Hc Hg Hp) as (t1 & t2 & H1 & H2 & Hok2 & Hc2 & Hh2 & Hfr).
  destruct (idle_step cfg i s t g t1 t2 Hr Hc Hq H1 H2) as (s1 & He & Hr1 & Hq1 & Hst & Hn & Ho & Ht).
  exists s1. split_and!; try done; [by exists t2|]. split; try done.
  rewrite Hps, (runs_idle_process _ _ _ _ Hr1). intros h Hne _. by apply Hfr.
Qed.

(** *** In the body of a fiber *)

(** A call of the body that touches neither the loop of [idle] nor the queue. *)
Lemma body_step s pc g c cs es t t' :
  runs_idle i s t pc g -> control t = InBody c cs -> head cs <> Some IdleLoop ->
  fiber_step cfg t = (Ok es, t') ->
  exists s', in_thread i (fiber_step cfg) s = (Ok es, s') /\ worker_step cfg i s = handle_all cfg i es s' /\
    runs_idle i s' t' pc g /\ same_env i s s' /\ process s' = heap t'.
Proof.
  intros Hr Hc Hk Hs. destruct (in_thread_runs_idle i _ s t t' pc g es Hr Hs) as (s' & Hin & Hr' & He).
  exists s'. split_and!; try done; [|by eapply runs_idle_process].
  destruct (runs_idle_control _ _ _ _ Hr) as (w & Hw & Hwc). unfold worker_step. rewrite Hw, Hwc, Hc.
  destruct cs as [|[] cs]; try done; by rewrite (bind_Ok _ _ _ _ _ Hin).
Qed.

(** The fiber yields. *)
Lemma yield_step s pc g c rest :
  awake s pc g c (YieldToReady_ :: rest) ->
  exists s', worker_step cfg i s = (Ok tt, s') /\ resting s' pc g /\ keeps c s s' /\
    pending (process s') c = Some rest /\
    m_tasks s' = m_tasks s /\ m_idleThreadCount s' = m_idleThreadCount s.
Proof.
  intros (t & Hr & Hok & Hh & Hc). pose proof (set_body_ok _ _ _ _ _ Hok Hc) as Hok0.
  destruct (yield_to_ready others _ c rest Hok0 eq_refl) as (t1 & He & Hok1 & Hc1 & _ & Hp & Hh1 & Hfr).
  assert (fiber_step cfg t = (Ok [], t1)) as Hs
    by (unfold fiber_step; rewrite Hc; cbn [exec]; by rewrite (bind_Ok _ _ _ _ _ He)).
  destruct (body_step s pc g c _ [] t t1 Hr Hc ltac:(done) Hs) as (s1 & _ & Hw & Hr1 & He1 & Hp1).
  exists s1. rewrite Hw. split_and!; try done; [by exists t1| |by rewrite Hp1; apply left_held; auto|by apply He1..].
  apply same_env_keeps; [done|]. rewrite Hp1, (runs_idle_process _ _ _ _ Hr). intros h Hne _. by apply Hfr.
Qed.

(** The body ends. *)
Lemma end_step s pc g c :
  awake s pc g c [] ->
  exists s', worker_step cfg i s = (Ok tt, s') /\ resting s' pc g /\ keeps c s s' /\
    m_tasks s' = m_tasks s /\ m_idleThreadCount s' = m_idleThreadCount s.
Proof.
  intros (t & Hr & Hok & Hh & Hc).
  destruct (leave_terminates others t c Hok Hc Hh) as (t1 & x & He & Hok1 & Hc1 & _ & _ & _ & Hfr).
  assert (fiber_step cfg t = (Ok [], t1)) as Hs
    by (unfold fiber_step; rewrite Hc; by rewrite (bind_Ok _ _ _ _ _ He)).
  destruct (body_step s pc g c _ [] t t1 Hr Hc ltac:(done) Hs) as (s1 & _ & Hw & Hr1 & He1 & Hp1).
  exists s1. rewrite Hw. split_and!; try done; [by exists t1| |by apply He1..].
  apply same_env_keeps; [done|]. rewrite Hp1, (runs_idle_process _ _ _ _ Hr). intros h Hne _. by apply Hfr.
Qed.

(** The program of the running fiber is replaced: a call of the model is over. *)
Lemma thread_ok_body t c cs cs' :
  thread_ok others t -> control t = InBody c cs -> thread_ok others (set_control (InBody c cs') t).
Proof. intros (m & Hm & Hx) Hc. rewrite Hc in Hx. by exists m. Qed.

Lemma set_body s pc g c cs cs' :
  awake s pc g c cs ->
  exists s', in_thread i (modify (set_control (InBody c cs'))) s = (Ok tt, s') /\ awake s' pc g c cs' /\
    keeps c s s' /\ process s' = process s /\
    m_tasks s' = m_tasks s /\ m_idleThreadCount s' = m_idleThreadCount s.
Proof.
  intros (t & Hr & Hok & Hh & Hc).
  destruct (in_thread_keeps (modify (set_control (InBody c cs'))) s t (set_control (InBody c cs') t) pc g tt c Hr eq_refl)
    as (s' & Hin & Hr' & Hk & Hq & Hn & Hp); [apply extends_refl|].
  exists s'. split_and!; try done; [|by rewrite Hp, (runs_idle_process _ _ _ _ Hr)].
  exists (set_control (InBody c cs') t). split_and!; [done|by eapply thread_ok_body|done|done].
Qed.

(** *** Scheduling from a body *)

Lemma awake_tasks s pc g c cs q : awake s pc g c cs -> awake (set_m_tasks q s) pc g c cs.
Proof. intros (t & (w & ? & ? & ?) & ?). exists t. split; [by exists w|done]. Qed.

Lemma keeps_tasks c s s' q : keeps c s s' -> keeps c s (set_m_tasks q s').
Proof. intros []. by split. Qed.

Lemma schedule_fiber_step s pc g c cs f :
  awake s pc g c cs -> is_Some (fibers (process s) !! f) ->
  exists s', schedule cfg i (ScheduleTask_fiber (Some f) (-1)) s = (Ok tt, s') /\ awake s' pc g c cs /\
    keeps c s s' /\ process s' = process s /\
    m_tasks s' = m_tasks s ++ [f] /\ m_idleThreadCount s' = m_idleThreadCount s.
Proof.
  intros (t & Hr & Hok & Hh & Hc) [x Hx]. pose proof (runs_idle_process _ _ _ _ Hr) as Hps. rewrite Hps in Hx.
  destruct (in_thread_keeps (Fiber.deref f) s t t pc g x c Hr (fiber_deref_Ok _ _ _ Hx))
    as (s1 & Hin & Hr1 & Hk & Hq & Hn & Hp); [apply extends_refl|].
  eexists. unfold schedule. cbn [task_fiber ScheduleTask_fiber]. rewrite (bind_Ok _ _ _ _ _ Hin).
  split; [reflexivity|]. split_and!; [apply awake_tasks; by exists t|by apply keeps_tasks|..]; simpl; congruence.
Qed.

(** The fiber made for a function: new, with the function as its program. *)
Lemma schedule_cb_step s pc g c rest cb :
  awake s pc g c rest ->
  exists s' p, schedule cfg i (ScheduleTask_cb (Some cb) (-1)) s = (Ok tt, s') /\ awake s' pc g c rest /\
    keeps c s s' /\ (forall h, is_Some (fibers (process s) !! h) -> fibers (process s') !! h = fibers (process s) !! h) /\
    pending (process s') p = Some cb /\ p ∉ others /\ fibers (process s) !! p = None /\
    m_tasks s' = m_tasks s ++ [p] /\ m_idleThreadCount s' = m_idleThreadCount s.
Proof.
  intros (t & Hr & Hok & Hh & Hc). pose proof (runs_idle_process _ _ _ _ Hr) as Hps.
  destruct (new_ok others cfg t c rest cb Hok Hc) as (t1 & He & Hok1 & Hc1 & _ & Hfr & Hne & Hp).
  assert (referred (heap t1) c) as Hh1.
  { eapply held_same; [|exact Hh]. apply Hfr. destruct Hh as (x & Hx & _). by exists x. }
  destruct (in_thread_keeps _ s t t1 pc g _ c Hr He) as (s1 & Hin & Hr1 & Hk & Hq & Hn & Hp1).
  { intros h _. apply Hfr. }
  assert (fibers (heap t) !! next_ptr (heap t) = None /\ next_ptr (heap t) ∉ others) as [Hnew Hno].
  { destruct Hok as (m & _ & Hx). rewrite Hc in Hx. destruct Hx as (_ & _ & _ & Hhe & _). split.
    - destruct (fibers (heap t) !! _) as [x|] eqn:Hx; [|done]. apply (heap_next _ _ _ _ Hhe) in Hx. lia.
    - intros Hin'. destruct (heap_others _ _ _ _ Hhe _ Hin') as (x & Hx & _). apply (heap_next _ _ _ _ Hhe) in Hx. lia. }
  eexists _, (next_ptr (heap t)). unfold schedule. cbn [task_fiber ScheduleTask_cb task_cb].
  rewrite (bind_Ok _ _ _ _ _ Hin). split; [reflexivity|].
  split_and!; [apply awake_tasks; by exists t1|by apply keeps_tasks|..]; simpl; try congruence; try done.
  rewrite Hp1, Hps. exact Hfr.
Qed.

(** The body schedules a fiber. *)
Lemma schedule_step s pc g c f rest :
  awake s pc g c (ScheduleFiber f :: rest) -> is_Some (fibers (process s) !! f) ->
  exists s', worker_step cfg i s = (Ok tt, s') /\ awake s' pc g c rest /\ keeps c s s' /\ process s' = process s /\
    m_tasks s' = m_tasks s ++ [f] /\ m_idleThreadCount s' = m_idleThreadCount s.
Proof.
  intros (t & Hr & Hok & Hh & Hc) Hf.
  destruct (body_step s pc g c _ [Scheduled f] t (set_control (InBody c rest) t) Hr Hc ltac:(done))
    as (s1 & _ & Hw & Hr1 & He1 & Hp1); [by unfold fiber_step; rewrite Hc|].
  pose proof (runs_idle_process _ _ _ _ Hr) as Hps. assert (process s1 = process s) as Hpp by by rewrite Hp1, Hps.
  destruct (schedule_fiber_step s1 pc g c rest f) as (s2 & He2 & Ha & Hk & Hp2 & Hq & Hn).
  { exists (set_control (InBody c rest) t). split_and!; [done|by eapply thread_ok_body|done|done]. }
  { by rewrite Hpp. }
  exists s2. rewrite Hw. cbn [handle_all handle]. rewrite (bind_Ok _ _ _ _ _ He2). destruct He1.
  split_and!; try done; try congruence.
  apply (keeps_trans _ s s1); [|done]. split; [rewrite Hpp; apply extends_refl|done..].
Qed.
End worker.

(** ** The queue, the event loop and the timers in one state *)

Section runtime.
Context {K L : Type} `{EpollLaws K} `{PosixLockLaws L}.
Context (cfg : Z) (io : nat -> option io_call) (code : callback -> list cmd) (sys_write : Z -> Z).
Context (i : nat) (others : gset ptr).
Implicit Types s : Runtime K L.

#[local] Notation step := (runtime_step cfg io code sys_write i).
#[local] Notation steps := (runtime_steps cfg io code sys_write i).
#[local] Notation resting := (resting i others).
#[local] Notation awake := (awake i others).
#[local] Notation keeps := (keeps i).
#[local] Notation heap_of s := (process (r_scheduler s)).

Lemma runtime_steps_app n m s s1 : steps n s = (Ok tt, s1) -> steps (n + m) s = steps m s1.
Proof.
  revert s. induction n as [|n IH]; intros s Hn; simpl in *; [by injection Hn as ->|].
  apply bind_Ok_inv in Hn as ([] & s2 & E1 & E2). rewrite (bind_Ok _ _ _ _ _ E1). by apply IH.
Qed.

Lemma runtime_steps_1 s s1 : step s = (Ok tt, s1) -> steps 1 s = (Ok tt, s1).
Proof. intros Hs. cbn [runtime_steps]. by rewrite (bind_Ok _ _ _ _ _ Hs). Qed.

(** Steps in which the worker uses the scheduler only. *)
Lemma resting_step s pc g S' :
  resting (r_scheduler s) pc g -> worker_step cfg i (r_scheduler s) = (Ok tt, S') ->
  step s = (Ok tt, set_scheduler S' s).
Proof.
  intros (t & Hr & _ & Hc) Hw. destruct (runs_idle_control _ _ _ _ _ Hr) as (w & Hl & Hwc).
  unfold runtime_step. rewrite Hl. simpl. rewrite Hwc, Hc. unfold in_scheduler, lift. by rewrite Hw.
Qed.

Lemma awake_step s pc g c cs S' :
  awake (r_scheduler s) pc g c cs -> head cs <> Some IdleLoop -> (forall n, head cs = Some (Work n) -> io n = None) ->
  worker_step cfg i (r_scheduler s) = (Ok tt, S') -> step s = (Ok tt, set_scheduler S' s).
Proof.
  intros (t & Hr & _ & _ & Hc) Hk Hn Hw. destruct (runs_idle_control _ _ _ _ _ Hr) as (w & Hl & Hwc).
  unfold runtime_step. rewrite Hl. simpl. rewrite Hwc, Hc. unfold in_scheduler, lift. rewrite Hw.
  destruct cs as [|[] cs]; try done. by rewrite (Hn _ eq_refl).
Qed.

Lemma awake_exists S pc g c cs : awake S pc g c cs -> is_Some (fibers (process S) !! c).
Proof.
  intros (t & Hr & (m & _ & Hx) & _ & Hc). rewrite Hc in Hx. destruct Hx as (_ & _ & _ & _ & x & Hx & _).
  rewrite (runs_idle_process _ _ _ _ _ Hr). by exists x.
Qed.

Lemma pending_exists h f cs : pending h f = Some cs -> is_Some (fibers h !! f).
Proof. unfold pending. destruct (fibers h !! f); [by eexists|done]. Qed.

(** No fiber disappears from [S] to [S'], except perhaps [c]. *)
Lemma keeps_exists c S S' h : keeps c S S' -> h <> c -> is_Some (fibers (process S) !! h) -> is_Some (fibers (process S') !! h).
Proof. intros Hk Hh Hs. by rewrite (kept_fibers _ _ _ _ Hk h Hh Hs). Qed.

(** *** What the event loop queues *)

Definition target_exists (h : Heap) (t : task) : Prop :=
  match t with TaskFiber f => is_Some (fibers h !! f) | TaskCb _ => True end.

(** The fiber queued for a task: the waiting fiber, or a new one with the callback. *)
Definition queued_task (h h' : Heap) (t : task) (p : ptr) : Prop :=
  match t with
  | TaskFiber f => p = f
  | TaskCb c => pending h' p = Some (code c) /\ p ∉ others /\ fibers h !! p = None
  end.

Definition grows (h h' : Heap) : Prop :=
  forall f, is_Some (fibers h !! f) -> fibers h' !! f = fibers h !! f.

Lemma grows_pending h h' f cs : grows h h' -> pending h f = Some cs -> pending h' f = Some cs.
Proof. intros Hg Hp. unfold pending, left_code. by rewrite (Hg f (pending_exists _ _ _ Hp)). Qed.

Lemma schedule_tasks_spec pc g c cs ts : forall S,
  awake S pc g c cs -> Forall (target_exists (process S)) ts ->
  exists S' ps, schedule_tasks cfg code i ts S = (Ok tt, S') /\ awake S' pc g c cs /\ keeps c S S' /\
    grows (process S) (process S') /\ Forall2 (queued_task (process S) (process S')) ts ps /\
    m_tasks S' = m_tasks S ++ ps /\ m_idleThreadCount S' = m_idleThreadCount S.
Proof.
  induction ts as [|t ts IH]; intros S Ha Ht.
  { exists S, []. rewrite app_nil_r. split_and!; try done; apply keeps_refl. }
  apply Forall_cons in Ht as [Htt Ht]. cbn [schedule_tasks].
  assert (exists S1 p, schedule cfg i (ScheduleTask_of code t) S = (Ok tt, S1) /\ awake S1 pc g c cs /\ keeps c S S1 /\
    grows (process S) (process S1) /\ queued_task (process S) (process S1) t p /\
    m_tasks S1 = m_tasks S ++ [p] /\ m_idleThreadCount S1 = m_idleThreadCount S)
    as (S1 & p & He1 & Ha1 & Hk1 & Hg1 & Hp1 & Hq1 & Hn1).
  { destruct t as [f|k]; cbn [ScheduleTask_of].
    - destruct (schedule_fiber_step cfg i others S pc g c cs f Ha Htt) as (S1 & ? & ? & ? & Hps & ? & ?).
      exists S1, f. split_and!; try done. intros h _. by rewrite Hps.
    - destruct (schedule_cb_step cfg i others S pc g c cs (code k) Ha) as (S1 & p & ? & ? & ? & ? & ? & ? & ? & ? & ?).
      by exists S1, p. }
  destruct (IH S1 Ha1) as (S2 & ps & He2 & Ha2 & Hk2 & Hg2 & Hp2 & Hq2 & Hn2).
  { eapply Forall_impl; [exact Ht|]. intros [f|k] Hf; [|done]. simpl in *. by rewrite Hg1. }
  exists S2, (p :: ps). rewrite (bind_Ok _ _ _ _ _ He1). split_and!; try done; [by eapply keeps_trans| | | |congruence].
  - intros h Hh. rewrite Hg2; [by apply Hg1|]. by rewrite Hg1.
  - constructor.
    + destruct t as [f|k]; [done|]. destruct Hp1 as (Hp & ? & ?). split; [by eapply grows_pending|done].
    + eapply Forall2_impl; [exact Hp2|]. intros [f|k] p'; [done|]. intros (? & ? & Hnone). split_and!; try done.
      destruct (fibers (process S) !! p') eqn:E; [|done]. rewrite Hg1 in Hnone by by rewrite E. congruence.
  - by rewrite Hq2, Hq1, <- app_assoc.
Qed.

(** *** A round of the idle fiber *)

Lemma idle_timeout_always n : idle_timeout n = 3000.
Proof. unfold idle_timeout. destruct (Z.eqb_spec n UINT64_MAX) as [->|]; reflexivity. Qed.

Lemma getNextTimer_returns now (T : TimerManager L) : tm_ok T -> exists n, getNextTimer now T = (Ok n, T).
Proof.
  intros Hok. destruct (m_timers T) as [|t l] eqn:Hl.
  - exists UINT64_MAX. unfold getNextTimer. erewrite critical; [|apply Hok| |].
    + by rewrite unlocked by apply Hok.
    + rewrite bind_get. cbn [m_timers set_m_mutex]. by rewrite Hl.
    + done.
  - assert (is_Some (Timer.timers T !! t)) as [x Hx].
    { destruct Hok as [_ [_ Hf]]. rewrite Hl in Hf. by apply Forall_cons in Hf as [? _]. }
    eexists. by eapply getNextTimer_first.
Qed.

(** No timer is due. *)
Definition none_due (T : TimerManager L) (now : Z) : Prop := Forall (fun t => now < nx (Timer.timers T) t) (m_timers T).

Lemma getExpiredCb_none now p (T : TimerManager L) :
  tm_ok T -> Timer.timers T !! p = None -> none_due T now -> getExpiredCb now p T = (Ok [], T).
Proof.
  intros [Hm Hs] Hp Hn. unfold getExpiredCb.
  erewrite bind_Ok; [|apply critical; [done|reflexivity|done]]. cbn beta. rewrite unlocked by done.
  cbn [m_timers set_m_mutex]. case_bool_decide as Hnil; [done|].
  destruct (expired_spec (Timer.timers T) now p (m_timers T) Hs Hp) as [He Hd].
  erewrite (critical _ _ T [] (set_m_mutex (Mutex.held WriteScoped) T)); [|done| |done].
  - by destruct T; simpl in *; subst.
  - rewrite !bind_get. cbn [Timer.timers m_timers set_m_mutex]. rewrite bind_modify, Hd.
    rewrite He. rewrite filter_none_in, filter_all_in.
    + by destruct T.
    + intros t Ht. unfold none_due in Hn. rewrite Forall_forall in Hn. specialize (Hn t Ht). unfold due. lia.
    + intros t Ht. unfold none_due in Hn. rewrite Forall_forall in Hn. specialize (Hn t Ht). unfold due. lia.
Qed.
(** The operations of the parts, on the object with its parts written out. *)
Lemma in_scheduler_Ok {A} (m : comp Scheduler A) S M T p c po w x S' :
  m S = (Ok x, S') ->
  in_scheduler m (mkRuntime (K:=K) (L:=L) S M T p c po w) = (Ok x, mkRuntime S' M T p c po w).
Proof. intros Hm. unfold in_scheduler, lift. simpl. by rewrite Hm. Qed.

Lemma in_iomanager_Ok {A} (m : comp (IOManager K) A) S M (T : TimerManager L) p c po w x M' :
  m M = (Ok x, M') -> in_iomanager m (mkRuntime S M T p c po w) = (Ok x, mkRuntime S M' T p c po w).
Proof. intros Hm. unfold in_iomanager, lift. simpl. by rewrite Hm. Qed.

Lemma in_timers_Ok {A} (m : comp (TimerManager L) A) S (M : IOManager K) T p c po w x T' :
  m T = (Ok x, T') -> in_timers m (mkRuntime S M T p c po w) = (Ok x, mkRuntime S M T' p c po w).
Proof. intros Hm. unfold in_timers, lift. simpl. by rewrite Hm. Qed.

Lemma getCurrentMs_Ok S (M : IOManager K) (T : TimerManager L) p now c po w :
  getCurrentMs (mkRuntime S M T p (now :: c) po w) = (Ok now, mkRuntime S M T p c po w).
Proof. done. Qed.

Lemma epoll_wait_Ok timeout S (M : IOManager K) (T : TimerManager L) p c results po w evs :
  wait_loop results = Some evs ->
  epoll_wait timeout (mkRuntime S M T p c (results :: po) w) = (Ok evs, mkRuntime S M T p c po (w ++ [timeout])).
Proof. intros Hw. unfold epoll_wait. rewrite bind_modify, bind_get. simpl. by rewrite bind_modify, Hw. Qed.

(** One call of a part whose result is known. *)
Ltac part_step := first
  [ rewrite bind_ret_l
  | rewrite bind_assoc
  | rewrite bind_get; cbn [r_scheduler r_iomanager r_timers r_next_timer]
  | erewrite bind_Ok; [|first
      [ apply getCurrentMs_Ok
      | eapply epoll_wait_Ok; eassumption
      | eapply in_scheduler_Ok; eassumption
      | eapply in_iomanager_Ok; eassumption
      | eapply in_timers_Ok; eassumption ]] ]; cbv beta iota.

(** What the event loop does in a round, with the callbacks of the expired timers and
    the events: both are handed to the queue, and what follows is its yield. *)
Lemma idle_round_spec s g a b clock results polls evs cbs T' M' :
  awake (r_scheduler s) AfterIdle g g [IdleLoop] -> m_stopCommand (r_scheduler s) = false ->
  r_clock s = a :: b :: clock -> r_polls s = results :: polls -> wait_loop results = Some evs ->
  tm_ok (r_timers s) -> getExpiredCb b (r_next_timer s) (r_timers s) = (Ok cbs, T') ->
  (do! schedule_all cbs in process_events evs) (r_iomanager s) = (Ok tt, M') ->
  Forall (target_exists (heap_of s)) (scheduled M') ->
  exists S' ps, step s = (Ok tt, mkRuntime S' (set_scheduled [] M') T' (r_next_timer s) clock polls (r_waits s ++ [3000])) /\
    awake S' AfterIdle g g [YieldToReady_; IdleLoop] /\ keeps g (r_scheduler s) S' /\
    Forall2 (queued_task (heap_of s) (process S')) (scheduled M') ps /\
    m_tasks S' = m_tasks (r_scheduler s) ++ ps /\ m_idleThreadCount S' = m_idleThreadCount (r_scheduler s).
Proof.
  intros Ha Hst Hcl Hpo Hwait Htm Hexp Hrun Htg. pose proof Ha as (t & Hr & _ & _ & Hc).
  destruct (runs_idle_control _ _ _ _ _ Hr) as (w & Hl & Hwc).
  destruct (getNextTimer_returns a (r_timers s) Htm) as [n Hnext].
  destruct (schedule_tasks_spec AfterIdle g g _ (scheduled M') (r_scheduler s) Ha Htg)
    as (S1 & ps & Hts & Ha1 & Hk1 & _ & Hp1 & Hq1 & Hn1).
  destruct (set_body i others S1 AfterIdle g g _ [YieldToReady_; IdleLoop] Ha1) as (S2 & Hset & Ha2 & Hk2 & Hps2 & Hq2 & Hn2).
  exists S2, ps. split.
  - unfold runtime_step. rewrite Hl. simpl. rewrite Hwc, Hc. destruct s as [S M T nt cl po wt]. simpl in *. subst cl po.
    apply bind_Ok_inv in Hrun as ([] & M1 & Hm1 & Hm2).
    assert (get m_stopCommand S = (Ok false, S)) as Hget by (by rewrite <- Hst).
    assert (modify (set_scheduled []) M' = (Ok tt, set_scheduled [] M')) as Hclear by done.
    unfold idle, idle_goes_on, idle_round, flush. do 3 part_step. cbn [negb]. do 2 part_step.
    repeat part_step. rewrite idle_timeout_always. by apply in_scheduler_Ok.
  - split_and!; try done; [by eapply keeps_trans|by rewrite Hps2|congruence|congruence].
Qed.
(** *** A whole turn of the worker without a task *)

(** The worker is at the top of its loop with the queue [q]; its idle fiber [g] waits
    at its loop, no stop command was given, and all that the event loop has scheduled
    is in the queue. *)
Record at_top (s : Runtime K L) (g : ptr) (q : list ptr) : Prop := mkAtTop {
  top_rests : resting (r_scheduler s) AtLoop g;
  top_idle : pending (heap_of s) g = Some [IdleLoop];
  top_others : g ∉ others;
  top_running : m_stopCommand (r_scheduler s) = false;
  top_count : in_u 64 (m_idleThreadCount (r_scheduler s));
  top_tasks : m_tasks (r_scheduler s) = q;
  top_flushed : scheduled (r_iomanager s) = []
}.

Lemma wrap_up_down n : in_u 64 n -> wrap 64 (wrap 64 (n + 1) - 1) = n.
Proof. intros Hn. unfold wrap, in_u in *. rewrite Zminus_mod_idemp_l, Z.add_simpl_r. by apply Z.mod_small. Qed.

Lemma target_exists_keeps c S S' t :
  keeps c S S' -> is_Some (fibers (process S') !! c) -> target_exists (process S) t -> target_exists (process S') t.
Proof.
  intros Hk Hc. destruct t as [f|k]; [|done]. simpl. intros Hf.
  destruct (decide (f = c)) as [->|Hne]; [done|by eapply keeps_exists].
Qed.

(** What was queued stays queued when the idle fiber [g] runs before and after. *)
Lemma queued_task_keeps g S S1 S2 S' t p :
  keeps g S S1 -> is_Some (fibers (process S) !! g) -> is_Some (fibers (process S1) !! g) ->
  queued_task (process S1) (process S2) t p -> keeps g S2 S' -> queued_task (process S) (process S') t p.
Proof.
  intros Hk Hg Hg1 Hq Hk'. destruct t as [f|k]; [done|]. destruct Hq as (Hp & Ho & Hn).
  assert (p <> g) as Hpg by (intros ->; rewrite Hn in Hg1; by destruct Hg1).
  split_and!; [by eapply keeps_pending|done|].
  destruct (fibers (process S) !! p) as [x|] eqn:E; [|done].
  assert (is_Some (fibers (process S1) !! p)) as [y Hy] by (eapply keeps_exists; [done..|by exists x]). congruence.
Qed.

Lemma idle_cycle s g a b clock results polls evs cbs T' M' :
  at_top s g [] -> r_clock s = a :: b :: clock -> r_polls s = results :: polls -> wait_loop results = Some evs ->
  tm_ok (r_timers s) -> getExpiredCb b (r_next_timer s) (r_timers s) = (Ok cbs, T') ->
  (do! schedule_all cbs in process_events evs) (r_iomanager s) = (Ok tt, M') ->
  Forall (target_exists (heap_of s)) (scheduled M') ->
  exists S' ps, let s' := mkRuntime S' (set_scheduled [] M') T' (r_next_timer s) clock polls (r_waits s ++ [3000]) in
    steps 4 s = (Ok tt, s') /\ at_top s' g ps /\ keeps g (r_scheduler s) S' /\
    Forall2 (queued_task (heap_of s) (process S')) (scheduled M') ps /\
    m_idleThreadCount S' = m_idleThreadCount (r_scheduler s).
Proof.
  intros [Hrest Hidle Hoth Hrun Hcnt Hq Hfl] Hcl Hpo Hwait Htm Hexp Hev Htg.
  destruct (idle_enter cfg i others _ g _ Hrest Hq Hoth Hidle) as (S1 & Hs1 & Ha1 & Hk1 & Hq1 & Hn1).
  pose proof (awake_exists _ _ _ _ _ Ha1) as Hg1.
  destruct (idle_round_spec (set_scheduler S1 s) g a b clock results polls evs cbs T' M' Ha1)
    as (S2 & ps & Hs2 & Ha2 & Hk2 & Hp2 & Hq2 & Hn2); try done.
  { simpl. by rewrite (kept_stop _ _ _ _ Hk1). }
  { eapply Forall_impl; [exact Htg|]. intros t. by apply (target_exists_keeps g). }
  cbn [r_scheduler set_scheduler r_next_timer r_waits] in *.
  destruct (yield_step cfg i others S2 AfterIdle g g _ Ha2) as (S3 & Hs3 & Hr3 & Hk3 & Hp3 & Hq3 & Hn3).
  destruct (back_step cfg i others S3 g Hr3) as (S4 & Hs4 & Hr4 & Hk4 & Hq4 & Hn4 & Hps4).
  exists S4, ps. set (M := set_scheduled [] M'). split_and!.
  - cbn [runtime_steps]. rewrite (bind_Ok _ _ _ _ _ (resting_step s _ g S1 Hrest Hs1)), (bind_Ok _ _ _ _ _ Hs2).
    rewrite (bind_Ok _ _ _ _ _ (awake_step (mkRuntime S2 M T' _ _ _ _) _ g g _ S3 Ha2 ltac:(done) ltac:(done) Hs3)).
    by rewrite (bind_Ok _ _ _ _ _ (resting_step (set_scheduler S3 _) _ g S4 Hr3 Hs4)).
  - split; cbn [r_scheduler r_iomanager]; try done; [by rewrite Hps4| | |].
    + rewrite (kept_stop _ _ _ _ Hk4), (kept_stop _ _ _ _ Hk3), (kept_stop _ _ _ _ Hk2), (kept_stop _ _ _ _ Hk1). done.
    + rewrite Hn4, Hn3, Hn2, Hn1, wrap_up_down by done. done.
    + by rewrite Hq4, Hq3, Hq2, Hq1.
  - do 3 (eapply keeps_trans; [eassumption|]). done.
  - eapply Forall2_impl; [exact Hp2|]. intros t p Hqt.
    apply (queued_task_keeps g (r_scheduler s) S1 S2 S4 t p Hk1); [by eapply pending_exists|done|done|by eapply keeps_trans].
  - rewrite Hn4, Hn3, Hn2, Hn1. by apply wrap_up_down.
Qed.

(** A turn in which nothing happens, and any number of them: [rounds] gives the two
    readings of the clock and the results of [epoll_wait] of each. *)
Definition quiet_round (T : TimerManager L) (r : Z * Z * list (Z + list epoll_event)) : Prop :=
  none_due T (r.1.2) /\ wait_loop r.2 = Some [].

Definition clock_of (r : Z * Z * list (Z + list epoll_event)) : list Z := [r.1.1; r.1.2].

Lemma quiet_cycles rounds : forall s g clock polls,
  at_top s g [] -> r_clock s = flat_map clock_of rounds ++ clock -> r_polls s = map snd rounds ++ polls ->
  tm_ok (r_timers s) -> Timer.timers (r_timers s) !! r_next_timer s = None ->
  Forall (quiet_round (r_timers s)) rounds ->
  exists S', let s' := mkRuntime S' (r_iomanager s) (r_timers s) (r_next_timer s) clock polls
                         (r_waits s ++ replicate (length rounds) 3000) in
    steps (4 * length rounds) s = (Ok tt, s') /\ at_top s' g [] /\ keeps g (r_scheduler s) S' /\
    m_idleThreadCount S' = m_idleThreadCount (r_scheduler s).
Proof.
  induction rounds as [|[[a b] results] rounds IH]; intros s g clock polls Ht Hcl Hpo Htm Hfree Hquiet.
  { exists (r_scheduler s). simpl in *. rewrite app_nil_r. destruct s. simpl in *. subst.
    split_and!; [done|by destruct Ht|apply keeps_refl|done]. }
  apply Forall_cons in Hquiet as [[Hnone Hwait] Hquiet]. simpl in Hcl, Hpo, Hnone, Hwait.
  destruct (idle_cycle s g a b _ results _ [] [] (r_timers s) (r_iomanager s) Ht Hcl Hpo Hwait Htm)
    as (S1 & ps & Hs1 & Ht1 & Hk1 & Hp1 & Hn1); [by apply getExpiredCb_none|done|by rewrite (top_flushed _ _ _ Ht)|].
  assert (set_scheduled [] (r_iomanager s) = r_iomanager s) as Hid
    by (pose proof (top_flushed _ _ _ Ht) as Hf; destruct (r_iomanager s); simpl in *; by rewrite Hf).
  rewrite Hid in *. rewrite (top_flushed _ _ _ Ht) in Hp1. apply Forall2_nil_inv_l in Hp1 as ->.
  destruct (IH _ g clock polls Ht1 eq_refl eq_refl Htm Hfree Hquiet) as (S2 & Hs2 & Ht2 & Hk2 & Hn2).
  cbn [r_scheduler r_iomanager r_timers r_next_timer r_clock r_polls r_waits] in *.
  exists S2. rewrite <- app_assoc in Hs2, Ht2. cbv zeta. split_and!; [|done|by eapply keeps_trans|congruence].
  cbn [length]. rewrite Nat.mul_succ_r, Nat.add_comm. by rewrite (runtime_steps_app 4 _ _ _ Hs1).
Qed.
(** ** From the queue into a body, and the hooked calls *)

Lemma take_and_run s g f q cs :
  resting (r_scheduler s) AtLoop g -> m_tasks (r_scheduler s) = f :: q -> f ∉ others -> pending (heap_of s) f = Some cs ->
  exists S', steps 2 s = (Ok tt, set_scheduler S' s) /\ awake S' AtLoop g f cs /\ keeps f (r_scheduler s) S' /\
    m_tasks S' = q /\ m_idleThreadCount S' = m_idleThreadCount (r_scheduler s).
Proof.
  intros Hr Hq Hf Hp. destruct (take_step cfg i others _ g f q Hr Hq) as (S1 & Hs1 & Hr1 & Hk1 & Hp1 & Hq1 & Hn1).
  rewrite <- Hp1 in Hp. destruct (run_task_step cfg i others S1 g f cs Hr1 Hf Hp) as (S2 & Hs2 & Ha2 & Hk2 & Hq2 & Hn2).
  exists S2. split_and!; [|done|by eapply keeps_trans|congruence|congruence].
  cbn [runtime_steps]. rewrite (bind_Ok _ _ _ _ _ (resting_step s _ g S1 Hr Hs1)).
  by rewrite (bind_Ok _ _ _ _ _ (resting_step (set_scheduler S1 s) _ g S2 Hr1 Hs2)).
Qed.

(** The step of a hooked call. *)
Lemma io_call_step s pc g f n c rest :
  awake (r_scheduler s) pc g f (Work n :: rest) -> io n = Some c -> step s = io_step sys_write i f c rest s.
Proof.
  intros (t & Hr & _ & _ & Hc) Hn. destruct (runs_idle_control _ _ _ _ _ Hr) as (w & Hl & Hwc).
  unfold runtime_step. rewrite Hl. simpl. by rewrite Hwc, Hc, Hn.
Qed.

Lemma io_wait_step s g f n fd d rest M' :
  awake (r_scheduler s) AtLoop g f (Work n :: rest) -> io n = Some (IoWait fd d) ->
  addEvent (Some 0%nat) (f, RUNNING) fd (bit d) None (r_iomanager s) = (Ok 0, M') ->
  exists S', step s = (Ok tt, set_iomanager M' (set_scheduler S' s)) /\ awake S' AtLoop g f (YieldToReady_ :: rest) /\
    keeps f (r_scheduler s) S' /\ m_tasks S' = m_tasks (r_scheduler s) /\
    m_idleThreadCount S' = m_idleThreadCount (r_scheduler s).
Proof.
  intros Ha Hn Hadd. rewrite (io_call_step s _ g f n _ rest Ha Hn). pose proof Ha as (t & Hr & Hok & Hh & Hc).
  assert (exists x, fibers (heap t) !! f = Some x /\ m_state x = RUNNING) as (x & Hx & Hxs)
    by (destruct Hok as (m & _ & Ht); rewrite Hc in Ht; by destruct Ht as (_ & _ & _ & _ & ?)).
  destruct (in_thread_keeps i (Fiber.deref f) _ t t _ g x f Hr (fiber_deref_Ok _ _ _ Hx))
    as (S1 & Hd & Hr1 & Hk1 & Hq1 & Hn1 & _); [apply extends_refl|].
  destruct (set_body i others S1 AtLoop g f (Work n :: rest) (YieldToReady_ :: rest)) as (S2 & Hset & Ha2 & Hk2 & _ & Hq2 & Hn2);
    [by exists t|].
  exists S2. split_and!; [|done|by eapply keeps_trans|congruence|congruence].
  destruct s as [S M T p cl po wt]. cbn [r_scheduler r_iomanager] in *. cbn [io_step]. unfold io_wait. part_step.
  rewrite Hxs. assert (addEvent (Some 0%nat) (f, RUNNING) fd match d with DirRead => READ | DirWrite => WRITE end None M
    = (Ok 0, M')) as Hadd' by (by destruct d).
  part_step. by apply in_scheduler_Ok.
Qed.
(** A body that has yielded leaves the worker at the top of its loop. *)
Lemma yields_to_top s g f rest S0 :
  awake (r_scheduler s) AtLoop g f (YieldToReady_ :: rest) -> keeps f S0 (r_scheduler s) ->
  pending (process S0) g = Some [IdleLoop] -> g ∉ others -> f <> g ->
  m_stopCommand S0 = false -> in_u 64 (m_idleThreadCount (r_scheduler s)) -> scheduled (r_iomanager s) = [] ->
  exists S', step s = (Ok tt, set_scheduler S' s) /\
    at_top (set_scheduler S' s) g (m_tasks (r_scheduler s)) /\ pending (process S') f = Some rest /\
    keeps f S0 S' /\ m_idleThreadCount S' = m_idleThreadCount (r_scheduler s).
Proof.
  intros Ha Hk Hg Ho Hfg Hst Hcnt Hfl.
  destruct (yield_step cfg i others _ AtLoop g f rest Ha) as (S1 & Hs1 & Hr1 & Hk1 & Hp1 & Hq1 & Hn1).
  pose proof (keeps_trans _ _ _ _ _ Hk Hk1) as Hk'. exists S1. split_and!; try done.
  - by apply (awake_step s _ g f _ S1 Ha).
  - split; simpl; try done; [by eapply keeps_pending|by rewrite (kept_stop _ _ _ _ Hk')|congruence].
Qed.

(** The worker executes [f], with nothing else to do: the queue is empty, and the rest as
    in [at_top]. *)
Record busy (s : Runtime K L) (g f : ptr) (cs : list cmd) : Prop := mkBusy {
  busy_runs : awake (r_scheduler s) AtLoop g f cs;
  busy_idle : pending (heap_of s) g = Some [IdleLoop];
  busy_others : g ∉ others /\ f ∉ others /\ f <> g;
  busy_running : m_stopCommand (r_scheduler s) = false;
  busy_count : in_u 64 (m_idleThreadCount (r_scheduler s));
  busy_tasks : m_tasks (r_scheduler s) = [];
  busy_flushed : scheduled (r_iomanager s) = []
}.

(** What a stretch on behalf of [f], with rounds of the idle fiber [g], leaves alone. *)
Record spares (f g : ptr) (S S' : Scheduler) : Prop := mkSpares {
  spared_fibers : forall h, h <> f -> h <> g -> is_Some (fibers (process S) !! h) ->
    fibers (process S') !! h = fibers (process S) !! h;
  spared_threads : forall j, j <> i -> m_threads S' !! j = m_threads S !! j;
  spared_output : output S' = output S;
  spared_count : m_idleThreadCount S' = m_idleThreadCount S
}.

#[export] Instance spares_preorder f g : PreOrder (spares f g).
Proof.
  split; [by split|]. intros S1 S2 S3 [Ha Hb Hc Hd] [He Hf Hg Hh]. split; try congruence.
  - intros h Hhf Hhg Hs. rewrite He; [by apply Ha|done|done|]. by rewrite Ha.
  - intros j Hj. by rewrite Hf, Hb.
Qed.

Lemma keeps_spares_l f g S S' : keeps f S S' -> m_idleThreadCount S' = m_idleThreadCount S -> spares f g S S'.
Proof. intros [Hf _ Ho Ht] Hn. split; try done. intros h Hhf _ Hs. by apply Hf. Qed.

Lemma keeps_spares_r f g S S' : keeps g S S' -> m_idleThreadCount S' = m_idleThreadCount S -> spares f g S S'.
Proof. intros [Hf _ Ho Ht] Hn. split; try done. intros h _ Hhg Hs. by apply Hf. Qed.

(** From the queue to the processor. *)
Lemma top_busy s g f cs :
  at_top s g [f] -> f <> g -> f ∉ others -> pending (heap_of s) f = Some cs ->
  exists S', steps 2 s = (Ok tt, set_scheduler S' s) /\ busy (set_scheduler S' s) g f cs /\ spares f g (r_scheduler s) S'.
Proof.
  intros [Hrest Hidle Hoth Hrun Hcnt Hq Hfl] Hfg Hf Hp.
  destruct (take_and_run s g f [] _ Hrest Hq Hf Hp) as (S1 & Hs1 & Ha1 & Hk1 & Hq1 & Hn1).
  exists S1. split_and!; [done| |by apply keeps_spares_l]. split; cbn [r_scheduler r_iomanager set_scheduler]; try done.
  - by eapply keeps_pending.
  - by rewrite (kept_stop _ _ _ _ Hk1).
  - by rewrite Hn1.
Qed.

(** A wait for an event, up to the top of the loop. *)
Lemma busy_parks s g f n rest fd d M1 :
  busy s g f (Work n :: rest) -> io n = Some (IoWait fd d) ->
  addEvent (Some 0%nat) (f, RUNNING) fd (bit d) None (r_iomanager s) = (Ok 0, M1) -> scheduled M1 = [] ->
  exists S', let s' := set_iomanager M1 (set_scheduler S' s) in
    steps 2 s = (Ok tt, s') /\ at_top s' g [] /\ pending (process S') f = Some rest /\ spares f g (r_scheduler s) S'.
Proof.
  intros [Ha Hidle (Hgo & Hfo & Hfg) Hrun Hcnt Hq Hfl] Hn Hadd Hfl1.
  destruct (io_wait_step s g f n fd d rest M1 Ha Hn Hadd) as (S2 & Hs2 & Ha2 & Hk2 & Hq2 & Hn2).
  destruct (yields_to_top (set_iomanager M1 (set_scheduler S2 s)) g f rest (r_scheduler s) Ha2)
    as (S3 & Hs3 & Ht3 & Hp3 & Hk3 & Hn3); cbn [r_scheduler r_iomanager set_scheduler set_iomanager];
    try done; [by rewrite Hn2|].
  cbn [r_scheduler set_scheduler set_iomanager] in *. rewrite Hq2, Hq in Ht3. exists S3.
  split_and!; try done; [|apply keeps_spares_l; [done|congruence]].
  cbn [runtime_steps]. by rewrite (bind_Ok _ _ _ _ _ Hs2), (bind_Ok _ _ _ _ _ Hs3).
Qed.

(** *** Descriptors *)

(** The direction [d] of descriptor [j] can be waited for: it is in the table and not
    registered, no callback was left there, and it is not the pipe. *)
Record waitable (M : IOManager K) (j : nat) (d : direction) : Prop := mkWaitable {
  wait_ok : iom_ok M;
  wait_ctx : exists c, m_fdContexts M !! j = Some c /\ registered d c = false /\ IOManager.cb (event_ctx d c) = None;
  wait_pipe : Z.of_nat j <> fst (m_tickleFds M)
}.

(** The kernel takes a descriptor that it does not watch. *)
Definition accepts (j : nat) : Prop :=
  forall (k : K) ev, interest k !! Z.of_nat j = None -> fst (epoll_ctl k EPOLL_CTL_ADD (Z.of_nat j) ev) = 0.

Lemma addEvent_succeeds (M : IOManager K) j d f : waitable M j d -> accepts j -> scheduled M = [] ->
  exists M1 c, addEvent (Some 0%nat) (f, RUNNING) (Z.of_nat j) (bit d) None M = (Ok 0, M1) /\ iom_ok M1 /\
    scheduled M1 = [] /\ m_tickleFds M1 = m_tickleFds M /\ m_fdContexts M !! j = Some c /\ ctx_ok j c /\
    registered d c = false /\ IOManager.cb (event_ctx d c) = None /\
    m_fdContexts M1 !! j = Some (armed d (Some 0%nat) f None c).
Proof.
  intros [Hok (c & Hc & Hreg & Hcb) Hne] Hacc Hfl. pose proof (regs_ctx M (proj1 Hok) _ _ Hc) as Hci.
  destruct (add_to_ctx M j c d 0%nat (f, RUNNING) None Hok Hc Hreg Hne ltac:(done))
    as (rt & M1 & Hadd & Hok1 & Hsc1 & Ht1 & Hfail & Hl1).
  assert (rt = 0) as ->.
  { destruct (decide (rt = 0)) as [|Hrt]; [done|exfalso]. assert (fst (addEvent (Some 0%nat) (f, RUNNING) (Z.of_nat j) (bit d) None M) = Ok 0) as H';
      [|rewrite Hadd in H'; simpl in H'; congruence].
    assert (m_fdContexts M !! Z.to_nat (Z.of_nat j) = Some c) as Hc' by (by rewrite Nat2Z.id).
    unfold addEvent. rewrite (bind_Ok _ _ _ _ _ (lookup_there M _ c (Nat2Z.is_nonneg j) Hc')), Nat2Z.id.
    rewrite (bind_Ok _ _ _ _ _ (get_ctx_Ok M j c Hc)), bind_CCZOE_ASSERT.
    pose proof Hreg as Hreg'. unfold registered in Hreg'. rewrite negb_false_iff in Hreg'. rewrite Hreg'. cbv zeta.
    assert (forall op, (op = if events c =? 0 then EPOLL_CTL_ADD else EPOLL_CTL_MOD) -> forall ev,
      fst (epoll_ctl (m_epoll M) op (Z.of_nat j) ev) = 0) as Hctl.
    { intros op -> ev. destruct (Z.eqb_spec (events c) 0) as [E|E].
      - apply Hacc. destruct Hok as [_ (_ & _ & Hm)]. rewrite Hm by (done || lia).
        unfold watch. rewrite Hc'. by rewrite E.
      - destruct (registered_watched M j c Hok Hc E) as [_ Hw]. by apply epoll_ctl_watched. }
    unfold ctl. unfold bind at 1. specialize (Hctl _ eq_refl (Z.lor (Z.lor EPOLLET (events c)) (bit d))).
    destruct (epoll_ctl (m_epoll M) _ _ _) as [r k]. simpl in Hctl. subst r. cbn [negb Z.eqb].
    unfold pending_inc, set_ctx. rewrite !bind_modify, getEventContext_bit, bind_fail_Ok, bind_modify, bind_CCZOE_ASSERT.
    by rewrite bool_decide_true. }
  exists M1, c. split_and!; try done; [congruence|]. rewrite (Hl1 eq_refl). apply list_lookup_insert_eq. by eapply lookup_lt_Some.
Qed.

(** Processing events does not touch the pipe. *)
Definition same_pipe (M M' : IOManager K) : Prop := m_tickleFds M' = m_tickleFds M.

#[local] Instance same_pipe_preorder : PreOrder same_pipe.
Proof. split; [done|]. intros M1 M2 M3 E1 E2. unfold same_pipe in *. congruence. Qed.

Lemma same_pipe_process ev : along same_pipe (process_event ev).
Proof.
  assert (forall j, along same_pipe (get_ctx (K := K) j)) as Hget
    by (intros j M; unfold get_ctx; by destruct (m_fdContexts M !! j)).
  assert (forall op f v, along same_pipe (ctl (K := K) op f v)) as Hctl
    by (intros op f v M; unfold ctl; by destruct (epoll_ctl _ _ _ _)).
  assert (forall j c, along same_pipe (set_ctx (K := K) j c)) as Hset by (intros j c; by apply along_modify).
  assert (along same_pipe (pending_dec (K := K))) as Hdec by (by apply along_modify).
  assert (forall c, along same_pipe (schedule_cb (K := K) c)) as Hcb
    by (intros [c|]; [by apply along_modify|apply along_ret, _]).
  assert (forall c, along same_pipe (schedule_fiber (K := K) c)) as Hfi
    by (intros [c|]; [by apply along_modify|apply along_ret, _]).
  assert (forall j e, along same_pipe (triggerEvent (K := K) j e)) as Htr.
  { intros j e. apply along_bind; [apply _|apply Hget|]. intros c. apply along_bind; [apply _|apply Hset|]. intros _.
    apply along_bind; [apply _|apply along_fail, _|]. intros d. cbv zeta. destruct (scheduler _); [|apply along_fail, _].
    apply along_bind; [apply _| |intros _; apply Hset]. destruct (IOManager.cb _); auto. }
  assert (forall j e v, along same_pipe (trigger_collected (K := K) j e v)) as Hco.
  { intros j e v. unfold trigger_collected. destruct (_ =? 0); [apply along_ret, _|]. by apply along_bind; [apply _|..]. }
  unfold process_event. destruct (ev_data ev) as [|j]; [apply along_ret, _|].
  apply along_bind; [apply _|apply Hget|]. intros c. cbv zeta. destruct (_ =? NONE); [apply along_ret, _|].
  apply along_bind; [apply _|apply Hctl|]. intros _. by apply along_bind; [apply _|..].
Qed.

(** The event of the only registration of a direction hands its waiter over, and the
    direction can be waited for again. *)
Lemma event_wakes (M : IOManager K) j c d f ev :
  iom_ok M -> m_fdContexts M !! j = Some (armed d (Some 0%nat) f None c) -> ctx_ok j c -> registered d c = false ->
  IOManager.cb (event_ctx d c) = None -> collect_events ev = bit d -> scheduled M = [] ->
  Z.of_nat j <> fst (m_tickleFds M) ->
  exists M', process_events [mkEpollEvent ev (DataPtr j)] M = (Ok tt, M') /\ scheduled M' = [TaskFiber f] /\
    waitable (set_scheduled [] M') j d.
Proof.
  intros Hok Hc Hci Hreg Hcb Hev Hfl Hpipe. set (c1 := armed d (Some 0%nat) f None c) in *.
  pose proof (process_event_spec M j c1 ev Hok Hc) as Hp. cbv zeta in Hp. rewrite Hev in Hp.
  pose proof Hci as (_ & Hevs & _).
  assert (Z.land (events c1) (bit d) =? 0 = false /\ all_registered (bit d) c1 = true /\
    registered d (fire_both (bit d) c1) = false /\ IOManager.cb (event_ctx d (fire_both (bit d) c1)) = None /\
    fired DirRead (bit d) c1 ++ fired DirWrite (bit d) c1 = [TaskFiber f])
    as (E1 & E2 & E3 & E4 & E5).
  { subst c1. destruct c as [cfd cev [s1 f1 k1] [s2 f2 k2]]. simpl in Hevs.
    destruct d; simpl in Hcb; subst; repeat (apply elem_of_cons in Hevs as [->|Hevs]; [try done|]);
      by apply elem_of_nil in Hevs. }
  rewrite E1, E2 in Hp. destruct Hp as (M' & Hrun & Hok' & Hl & _ & Hs'). cbn [process_events].
  exists M'. rewrite (bind_Ok _ _ _ _ _ Hrun). split_and!; [done|by rewrite Hs', Hfl, E5|].
  pose proof (same_pipe_process (mkEpollEvent ev (DataPtr j)) M) as Hp. rewrite Hrun in Hp. unfold same_pipe in Hp. simpl in Hp.
  split; [by destruct Hok' as [[] ?]; split| |simpl; congruence].
  exists (fire_both (bit d) c1). split_and!; [|done|done]. simpl. rewrite Hl. apply list_lookup_insert_eq. by eapply lookup_lt_Some.
Qed.

(** ** Waits end *)

(** The steps from the top of the loop to the rounds of the idle fiber, then one in
    which something is handed over. *)
Lemma parked_cycles s g f rest rounds a b clock results polls evs cbs T' M' :
  at_top s g [] -> pending (heap_of s) f = Some rest -> f <> g ->
  r_clock s = flat_map clock_of rounds ++ a :: b :: clock -> r_polls s = map snd rounds ++ results :: polls ->
  tm_ok (r_timers s) -> Timer.timers (r_timers s) !! r_next_timer s = None ->
  Forall (quiet_round (r_timers s)) rounds ->
  wait_loop results = Some evs -> getExpiredCb b (r_next_timer s) (r_timers s) = (Ok cbs, T') ->
  (do! schedule_all cbs in process_events evs) (r_iomanager s) = (Ok tt, M') ->
  (scheduled M' = [TaskFiber f] \/ exists k, scheduled M' = [TaskCb k]) ->
  exists S' p, let s' := mkRuntime S' (set_scheduled [] M') T' (r_next_timer s) clock polls
                           (r_waits s ++ replicate (S (length rounds)) 3000) in
    steps (4 * length rounds + 4) s = (Ok tt, s') /\ at_top s' g [p] /\ pending (process S') f = Some rest /\
    keeps g (r_scheduler s) S' /\ m_idleThreadCount S' = m_idleThreadCount (r_scheduler s) /\
    match scheduled M' with
    | [TaskCb k] => pending (process S') p = Some (code k) /\ p ∉ others /\ p <> f
    | _ => p = f
    end.
Proof.
  intros Ht Hp Hfg Hcl Hpo Htm Hfree Hquiet Hwait Hexp Hrun Hts.
  destruct (quiet_cycles rounds s g (a :: b :: clock) (results :: polls) Ht Hcl Hpo Htm Hfree Hquiet)
    as (S1 & Hs1 & Ht1 & Hk1 & Hn1).
  set (s1 := mkRuntime S1 _ _ _ _ _ _) in *.
  assert (pending (process S1) f = Some rest) as Hp1 by (by eapply keeps_pending).
  destruct (idle_cycle s1 g a b clock results polls evs cbs T' M' Ht1 eq_refl eq_refl Hwait Htm Hexp Hrun)
    as (S2 & ps & Hs2 & Ht2 & Hk2 & Hps & Hn2).
  { destruct Hts as [-> |[k ->]]; repeat constructor. simpl. by eapply pending_exists. }
  assert (exists p, ps = [p] /\ match scheduled M' with
    | [TaskCb k] => pending (process S2) p = Some (code k) /\ p ∉ others /\ p <> f
    | _ => p = f
    end) as (p & -> & Hpp).
  { destruct Hts as [Hts|[k Hts]]; rewrite Hts in *;
      apply Forall2_cons_inv_l in Hps as (p & ps' & Hqt & Hnil & ->); apply Forall2_nil_inv_l in Hnil as ->;
      exists p; (split; [done|]); [done|].
    destruct Hqt as (? & ? & Hnone). split_and!; try done. intros ->.
    apply pending_exists in Hp1. cbn [r_scheduler s1] in Hnone. rewrite Hnone in Hp1. by destruct Hp1. }
  assert ((r_waits s1 ++ [3000]) = r_waits s ++ replicate (S (length rounds)) 3000) as Hw
    by (cbn [r_waits s1]; by rewrite <- app_assoc, replicate_S_end).
  rewrite Hw in *. exists S2, p. cbv zeta. split_and!; try done;
    [by rewrite (runtime_steps_app _ 4 _ _ Hs1)|by eapply keeps_pending|by eapply keeps_trans|by rewrite Hn2].
Qed.

(** *** A wait, and a sequence of waits *)

(** What the environment does during a wait: rounds of the idle fiber in which nothing
    happens, the readings of the clock and the results of [epoll_wait] of the last round,
    and the events it reports. *)
Record wait : Type := mkWait {
  w_rounds : list (Z * Z * list (Z + list epoll_event));
  w_clock : Z * Z;
  w_results : list (Z + list epoll_event);
  w_event : Z
}.

Definition clock_of_wait (w : wait) : list Z := flat_map clock_of (w_rounds w) ++ [fst (w_clock w); snd (w_clock w)].
Definition polls_of_wait (w : wait) : list (list (Z + list epoll_event)) := map snd (w_rounds w) ++ [w_results w].
Definition turns (w : wait) : nat := S (length (w_rounds w)).

(** The last round reports the event of direction [d] of descriptor [j], and no timer is
    due in any round. *)
Definition ends (T : TimerManager L) (j : nat) (d : direction) (w : wait) : Prop :=
  Forall (quiet_round T) (w_rounds w) /\ none_due T (snd (w_clock w)) /\
  wait_loop (w_results w) = Some [mkEpollEvent (w_event w) (DataPtr j)] /\ collect_events (w_event w) = bit d.

Lemma wait_round s g f n rest j d w clock polls :
  busy s g f (Work n :: rest) -> io n = Some (IoWait (Z.of_nat j) d) ->
  waitable (r_iomanager s) j d -> accepts j ->
  tm_ok (r_timers s) -> Timer.timers (r_timers s) !! r_next_timer s = None -> ends (r_timers s) j d w ->
  r_clock s = clock_of_wait w ++ clock -> r_polls s = polls_of_wait w ++ polls ->
  exists S' M', let s' := mkRuntime S' M' (r_timers s) (r_next_timer s) clock polls (r_waits s ++ replicate (turns w) 3000) in
    steps (4 * turns w + 4) s = (Ok tt, s') /\ busy s' g f rest /\ waitable M' j d /\ spares f g (r_scheduler s) S'.
Proof.
  intros Hb Hn Hwt Hacc Htm Hfree (Hquiet & Hdue & Hres & Hev) Hcl Hpo.
  destruct w as [rounds [a b] results ev]. cbn [w_rounds w_clock w_results w_event fst snd] in *.
  unfold clock_of_wait, polls_of_wait, turns in *. cbn [w_rounds w_clock w_results fst snd] in *. rewrite <- app_assoc in Hcl, Hpo.
  pose proof (busy_others _ _ _ _ Hb) as (Hgo & Hfo & Hfg).
  destruct (addEvent_succeeds _ j d f Hwt Hacc (busy_flushed _ _ _ _ Hb))
    as (M1 & c & Hadd & Hok1 & Hsc1 & Ht1 & Hc & Hci & Hreg & Hcb & Hc1).
  destruct (busy_parks s g f n rest _ d M1 Hb Hn Hadd Hsc1) as (S1 & Hs1 & Htop1 & Hp1 & Hsp1).
  destruct (event_wakes M1 j c d f ev Hok1 Hc1 Hci Hreg Hcb Hev Hsc1) as (M2 & Hrun & Hsc2 & Hwt2);
    [rewrite Ht1; by apply Hwt|].
  destruct (parked_cycles _ g f rest rounds a b clock results polls _ [] (r_timers s) M2 Htop1 Hp1 Hfg Hcl Hpo Htm Hfree
              Hquiet Hres) as (S2 & p & Hs2 & Ht2 & Hp2 & Hk2 & Hn2 & Hpf); [by apply getExpiredCb_none|exact Hrun|by left|].
  rewrite Hsc2 in Hpf. subst p.
  destruct (top_busy _ g f rest Ht2 Hfg Hfo Hp2) as (S3 & Hs3 & Hb3 & Hsp3).
  cbn [r_scheduler r_iomanager r_timers r_next_timer r_waits set_scheduler set_iomanager] in *.
  exists S3, (set_scheduled [] M2). split_and!; try done.
  - replace (4 * S (length rounds) + 4)%nat with (2 + (4 * length rounds + 4 + 2))%nat by lia.
    by rewrite (runtime_steps_app 2 _ _ _ Hs1), (runtime_steps_app _ 2 _ _ Hs2).
  - etrans; [exact Hsp1|]. etrans; [|exact Hsp3]. by apply keeps_spares_r.
Qed.

(** The steps of the waits [ws], and of all the rounds of the idle fiber in them. *)
Definition steps_of (ws : list wait) : nat := sum_list (map (fun w => 4 * turns w + 4)%nat ws).
Definition turns_of (ws : list wait) : nat := sum_list (map turns ws).

Lemma wait_rounds ws : forall s g f n rest j d clock polls,
  busy s g f (replicate (length ws) (Work n) ++ rest) -> io n = Some (IoWait (Z.of_nat j) d) ->
  waitable (r_iomanager s) j d -> accepts j ->
  tm_ok (r_timers s) -> Timer.timers (r_timers s) !! r_next_timer s = None -> Forall (ends (r_timers s) j d) ws ->
  r_clock s = flat_map clock_of_wait ws ++ clock -> r_polls s = flat_map polls_of_wait ws ++ polls ->
  exists S' M', let s' := mkRuntime S' M' (r_timers s) (r_next_timer s) clock polls (r_waits s ++ replicate (turns_of ws) 3000) in
    steps (steps_of ws) s = (Ok tt, s') /\ busy s' g f rest /\ waitable M' j d /\ spares f g (r_scheduler s) S'.
Proof.
  induction ws as [|w ws IH]; intros s g f n rest j d clock polls Hb Hn Hwt Hacc Htm Hfree Hends Hcl Hpo.
  - exists (r_scheduler s), (r_iomanager s). destruct s. simpl in *. subst. rewrite app_nil_r. by split_and!.
  - apply Forall_cons in Hends as [Hw Hends]. simpl in Hb, Hcl, Hpo. rewrite <- app_assoc in Hcl, Hpo.
    destruct (wait_round s g f n _ j d w _ _ Hb Hn Hwt Hacc Htm Hfree Hw Hcl Hpo) as (S1 & M1 & Hs1 & Hb1 & Hwt1 & Hsp1).
    destruct (IH _ g f n rest j d clock polls Hb1 Hn Hwt1 Hacc Htm Hfree Hends eq_refl eq_refl)
      as (S2 & M2 & Hs2 & Hb2 & Hwt2 & Hsp2).
    cbn [r_scheduler r_iomanager r_timers r_next_timer r_waits] in *.
    exists S2, M2. unfold turns_of, steps_of. cbn [map sum_list]. rewrite replicate_add, app_assoc. cbv zeta.
    split_and!; [by rewrite (runtime_steps_app _ _ _ _ Hs1)|done|done|by etrans].
Qed.

(** C5: (liveness) A fiber that waits for a descriptor is resumed when the event comes,
    as often as it has to wait.  A worker at the top of its loop has one task: a fiber about
    to make a hooked call that blocks [length ws] times before it completes ([do_io], each
    time after [EAGAIN]).  Every wait registers the fiber with the event loop, parks it and
    runs the idle fiber, through any number of rounds of [epoll_wait] without events and
    due timers, up to one that reports the event.  Then, after exactly the steps counted by
    [steps_of], the same worker executes the fiber from the point after its call; the
    descriptor can be waited for again, so that no registration is left in the table or in
    the kernel; the idle fiber is back at its loop and nothing is queued; every wait was
    given 3000 ms; no other fiber and no other worker was touched. *)
Theorem waiting_fiber_wakes s g f n rest j d ws clock polls :
  at_top s g [f] -> f <> g -> f ∉ others ->
  pending (heap_of s) f = Some (replicate (length ws) (Work n) ++ rest) -> io n = Some (IoWait (Z.of_nat j) d) ->
  waitable (r_iomanager s) j d -> accepts j ->
  tm_ok (r_timers s) -> Timer.timers (r_timers s) !! r_next_timer s = None -> Forall (ends (r_timers s) j d) ws ->
  r_clock s = flat_map clock_of_wait ws ++ clock -> r_polls s = flat_map polls_of_wait ws ++ polls ->
  exists S' M', let s' := mkRuntime S' M' (r_timers s) (r_next_timer s) clock polls (r_waits s ++ replicate (turns_of ws) 3000) in
    steps (2 + steps_of ws) s = (Ok tt, s') /\ busy s' g f rest /\ waitable M' j d /\ spares f g (r_scheduler s) S'.
Proof.
  intros Ht Hfg Hf Hp Hn Hwt Hacc Htm Hfree Hends Hcl Hpo.
  destruct (top_busy s g f _ Ht Hfg Hf Hp) as (S1 & Hs1 & Hb1 & Hsp1).
  destruct (wait_rounds ws (set_scheduler S1 s) g f n rest j d clock polls Hb1 Hn Hwt Hacc Htm Hfree Hends Hcl Hpo)
    as (S2 & M2 & Hs2 & Hb2 & Hwt2 & Hsp2).
  exists S2, M2. cbv zeta. split_and!; [by rewrite (runtime_steps_app 2 _ _ _ Hs1)|done|done|by etrans].
Qed.

(** *** The timers *)

#[local] Existing Instance due_dec.
#[local] Existing Instance recurring_dec.

(** A one-shot timer at the free address [p]. *)
Definition with_timer (T T1 : TimerManager L) (p : Timer.ptr) (x : Timer) : Prop :=
  tm_ok T1 /\ m_timers T1 ≡ₚ p :: m_timers T /\ Timer.timers T1 = <[p := x]> (Timer.timers T).

Lemma addTimer_inserts now p ms k (T : TimerManager L) :
  tm_ok T -> Timer.timers T !! p = None ->
  exists T1, addTimer now p ms k false T = (Ok p, T1) /\ with_timer T T1 p (Timer_ctor now ms k false).
Proof.
  intros [Hm Hs] Hp. assert (p ∉ m_timers T) as Hn.
  { intros Hin. destruct Hs as [_ Hf]. rewrite Forall_forall in Hf. destruct (Hf p Hin). congruence. }
  set (T0 := Timer.set_timers (<[p := Timer_ctor now ms k false]> (Timer.timers T)) T).
  destruct (addTimer_ptr_inserts T0 p) as (T1 & He & Hok1 & Hperm & Ht & _).
  - split; [done|]. by apply sorted_update.
  - unfold in_heap. simpl. rewrite lookup_insert_eq. by eexists.
  - done.
  - exists T1. unfold addTimer. rewrite bind_modify. fold T0. by rewrite (bind_Ok _ _ _ _ _ He).
Qed.

Lemma none_due_with T T1 p x now :
  with_timer T T1 p x -> Timer.timers T !! p = None -> tm_ok T -> none_due T now ->
  (none_due T1 now <-> now < m_next x).
Proof.
  intros (_ & Hperm & Hh) Hp [_ [_ Hs]] Hn. unfold none_due in *. rewrite Hperm, Forall_cons, Hh.
  unfold nx at 1. rewrite lookup_insert_eq.
  assert (Forall (fun t => now < nx (<[p := x]> (Timer.timers T)) t) (m_timers T)) as Hall.
  { rewrite Forall_forall in *. intros t Ht. specialize (Hn t Ht). destruct (Hs t Ht) as [y Hy].
    unfold nx in *. rewrite lookup_insert_ne by congruence. done. }
  tauto.
Qed.

(** When the deadline of [p] has come and no other, its callback alone is returned,
    and the timers are what they were. *)
Lemma expires_alone T T1 p x now q :
  with_timer T T1 p x -> Timer.timers T !! p = None -> tm_ok T -> none_due T now -> m_next x <= now ->
  m_recurring x = false -> Timer.timers T1 !! q = None ->
  exists T2, getExpiredCb now q T1 = (Ok [Timer.m_cb x], T2) /\ tm_ok T2 /\ m_timers T2 ≡ₚ m_timers T.
Proof.
  intros (Hok & Hperm & Hh) Hp [_ [_ Hs]] Hn Hx Hrec Hq.
  destruct (getExpiredCb_spec now q T1 Hok Hq) as (T2 & He & Hok2 & _ & Hp2 & _).
  assert (forall t, t ∈ m_timers T -> ~ due (Timer.timers T1) now t) as Hnd.
  { intros t Ht. unfold none_due in Hn. rewrite Forall_forall in *. specialize (Hn t Ht). destruct (Hs t Ht) as [y Hy].
    unfold due, nx in *. rewrite Hh, lookup_insert_ne by congruence. lia. }
  assert (due (Timer.timers T1) now p) as Hd by (unfold due, nx; by rewrite Hh, lookup_insert_eq).
  assert (filter (due (Timer.timers T1) now) (m_timers T1) = [p]) as Hf.
  { apply Permutation_singleton_r. rewrite Hperm, filter_cons, decide_True by done. by rewrite filter_none_in. }
  rewrite Hf in *. exists T2. split_and!; [|done|].
  - rewrite He. simpl. unfold cb_of. by rewrite Hh, lookup_insert_eq.
  - rewrite Hp2, Hperm, filter_cons, decide_False by tauto. rewrite filter_all_in by done.
    rewrite filter_cons, decide_False; [by rewrite app_nil_r|].
    unfold recurring. rewrite Hh, lookup_insert_eq. by rewrite Hrec.
Qed.
(** Tickling the event loop writes to the pipe and changes nothing else. *)
Definition tickled (M M1 : IOManager K) : Prop := exists l, M1 = set_written (written M ++ l) M.

Lemma tickle_returns n (M : IOManager K) : (forall fd, sys_write fd <> 0) ->
  exists M1, tickle sys_write n M = (Ok tt, M1) /\ tickled M M1.
Proof.
  intros Hw. unfold tickle. destruct (0 <? n).
  - rewrite bind_get, bind_modify. exists (set_written (written M ++ [fst (m_tickleFds M)]) M). split; [|by eexists].
    apply CCZOE_ASSERT_true. apply negb_true_iff, Z.eqb_neq, Hw.
  - exists M. split; [done|]. exists []. rewrite app_nil_r. by destruct M.
Qed.

Lemma io_sleep_step s g f n ms k rest now clock T1 :
  awake (r_scheduler s) AtLoop g f (Work n :: rest) -> io n = Some (IoSleep ms k) -> (forall fd, sys_write fd <> 0) ->
  r_clock s = now :: clock -> addTimer now (r_next_timer s) ms (Some k) false (r_timers s) = (Ok (r_next_timer s), T1) ->
  exists S' M1, step s = (Ok tt, mkRuntime S' M1 T1 (S (r_next_timer s)) clock (r_polls s) (r_waits s)) /\
    awake S' AtLoop g f (YieldToReady_ :: rest) /\ keeps f (r_scheduler s) S' /\ tickled (r_iomanager s) M1 /\
    m_tasks S' = m_tasks (r_scheduler s) /\ m_idleThreadCount S' = m_idleThreadCount (r_scheduler s).
Proof.
  intros Ha Hn Hw Hcl Hadd. rewrite (io_call_step s _ g f n _ rest Ha Hn).
  destruct (set_body i others (r_scheduler s) AtLoop g f (Work n :: rest) (YieldToReady_ :: rest) Ha)
    as (S1 & Hset & Ha1 & Hk1 & _ & Hq1 & Hn1).
  destruct s as [S M T p cl po wt]. cbn [r_scheduler r_iomanager r_timers r_next_timer r_clock r_polls r_waits] in *. subst cl.
  destruct (tickle_returns (m_idleThreadCount S) M Hw) as (M1 & Htk & HM1).
  assert (get m_idleThreadCount S = (Ok (m_idleThreadCount S), S)) as Hget by done.
  cbn [io_step]. unfold io_sleep. do 3 part_step. rewrite bind_modify. cbn [set_next_timer r_scheduler r_iomanager r_timers r_clock r_polls r_waits].
  do 3 part_step. destruct (front_insertions T <? front_insertions T1)%nat.
  - exists S1, M1. unfold onTimerInsertedAtFront. part_step. split_and!; try done. by apply in_scheduler_Ok.
  - exists S1, M. part_step. split_and!; try done; [by apply in_scheduler_Ok|].
    exists []. rewrite app_nil_r. by destruct M.
Qed.

(** A fiber in the queue that sleeps parks in four steps. *)
Lemma sleep_parks s g f n rest ms k now clock :
  at_top s g [f] -> f <> g -> f ∉ others -> pending (heap_of s) f = Some (Work n :: rest) ->
  io n = Some (IoSleep ms k) -> (forall fd, sys_write fd <> 0) -> r_clock s = now :: clock ->
  tm_ok (r_timers s) -> Timer.timers (r_timers s) !! r_next_timer s = None ->
  exists S' M1 T1, let s' := mkRuntime S' M1 T1 (S (r_next_timer s)) clock (r_polls s) (r_waits s) in
    steps 4 s = (Ok tt, s') /\ at_top s' g [] /\ pending (process S') f = Some rest /\
    keeps f (r_scheduler s) S' /\ m_idleThreadCount S' = m_idleThreadCount (r_scheduler s) /\
    tickled (r_iomanager s) M1 /\ with_timer (r_timers s) T1 (r_next_timer s) (Timer_ctor now ms (Some k) false).
Proof.
  intros [Hrest Hidle Hoth Hrun Hcnt Hq Hfl] Hfg Hf Hp Hn Hw Hcl Htm Hfree.
  destruct (take_and_run s g f [] _ Hrest Hq Hf Hp) as (S1 & Hs1 & Ha1 & Hk1 & Hq1 & Hn1).
  destruct (addTimer_inserts now (r_next_timer s) ms (Some k) (r_timers s) Htm Hfree) as (T1 & Hadd & HT1).
  destruct (io_sleep_step (set_scheduler S1 s) g f n ms k rest now clock T1 Ha1 Hn Hw Hcl Hadd)
    as (S2 & M1 & Hs2 & Ha2 & Hk2 & HM1 & Hq2 & Hn2).
  cbn [r_scheduler r_iomanager r_timers r_next_timer r_clock r_polls r_waits set_scheduler] in *.
  assert (scheduled M1 = []) as Hfl1 by (destruct HM1 as [l ->]; exact Hfl).
  destruct (yields_to_top (mkRuntime S2 M1 T1 (S (r_next_timer s)) clock (r_polls s) (r_waits s)) g f rest (r_scheduler s) Ha2)
    as (S3 & Hs3 & Ht3 & Hp3 & Hk3 & Hn3); cbn [r_scheduler r_iomanager]; try done; [by eapply keeps_trans|congruence|].
  cbn [r_scheduler r_iomanager r_timers r_next_timer r_clock r_polls r_waits set_scheduler] in *.
  rewrite Hq2, Hq1 in Ht3. exists S3, M1, T1. split_and!; try done; [|congruence].
  cbv zeta. change 4%nat with (2 + 2)%nat. rewrite (runtime_steps_app 2 2 _ _ Hs1). cbn [runtime_steps].
  rewrite (bind_Ok _ _ _ _ _ Hs2), (bind_Ok _ _ _ _ _ Hs3). done.
Qed.
(** A closure in the queue that schedules [f]: six steps later the worker is in [f]. *)
Lemma closure_resumes s g p f rest :
  at_top s g [p] -> pending (heap_of s) p = Some [ScheduleFiber f] -> p ∉ others ->
  pending (heap_of s) f = Some rest -> f ∉ others -> p <> f ->
  exists S', steps 6 s = (Ok tt, set_scheduler S' s) /\ awake S' AtLoop g f rest /\ m_tasks S' = [] /\
    output S' = output (r_scheduler s) /\ m_idleThreadCount S' = m_idleThreadCount (r_scheduler s).
Proof.
  intros Ht Hp Hpo Hf Hfo Hpf.
  destruct (take_and_run s g p [] _ (top_rests _ _ _ Ht) (top_tasks _ _ _ Ht) Hpo Hp) as (S1 & Hs1 & Ha1 & Hk1 & Hq1 & Hn1).
  assert (pending (process S1) f = Some rest) as Hf1 by (by eapply keeps_pending).
  destruct (schedule_step cfg i others S1 _ g p f [] Ha1 (pending_exists _ _ _ Hf1)) as (S2 & Hs2 & Ha2 & Hk2 & Hps2 & Hq2 & Hn2).
  destruct (end_step cfg i others S2 _ g p Ha2) as (S3 & Hs3 & Hr3 & Hk3 & Hq3 & Hn3).
  assert (pending (process S3) f = Some rest) as Hf3 by (eapply keeps_pending; [done..|]; by rewrite Hps2).
  destruct (take_and_run (set_scheduler S3 s) g f [] rest Hr3) as (S4 & Hs4 & Ha4 & Hk4 & Hq4 & Hn4);
    [simpl; by rewrite Hq3, Hq2, Hq1|done..|].
  cbn [r_scheduler set_scheduler] in *.
  exists S4. split_and!; try done; [| |congruence].
  - change 6%nat with (2 + (2 + 2))%nat. rewrite (runtime_steps_app 2 _ _ _ Hs1).
    assert (steps 2 (set_scheduler S1 s) = (Ok tt, set_scheduler S3 s)) as Hmid; [|by rewrite (runtime_steps_app 2 _ _ _ Hmid)].
    cbn [runtime_steps]. rewrite (bind_Ok _ _ _ _ _ (awake_step (set_scheduler S1 s) _ g p _ S2 Ha1 ltac:(done) ltac:(done) Hs2)).
    by rewrite (bind_Ok _ _ _ _ _ (awake_step (set_scheduler S2 s) _ g p _ S3 Ha2 ltac:(done) ltac:(done) Hs3)).
  - by rewrite (kept_output _ _ _ _ Hk4), (kept_output _ _ _ _ Hk3), (kept_output _ _ _ _ Hk2), (kept_output _ _ _ _ Hk1).
Qed.

(** C8: (liveness) A sleeping fiber is woken by its timer.  A worker at the top of its
    loop with one task, a fiber that calls [usleep] or [nanosleep] for [ms]
    milliseconds, adds the timer, parks the fiber and runs its idle fiber: any number of
    rounds that end before the deadline, then one that ends at or after it.  The
    expired callback becomes a task of its own, which schedules the fiber; after
    exactly [4 n + 14] steps the same worker executes the fiber from the point after its
    call.  The other timers are untouched, and no visible work is lost.  Every
    [epoll_wait] was given 3000 ms, whatever the deadline: the wake-up comes with the
    first round that ends after it. *)
Theorem sleeping_fiber_wakes s g f n rest ms k now rounds a b clock results polls :
  at_top s g [f] -> f <> g -> f ∉ others -> pending (heap_of s) f = Some (Work n :: rest) ->
  io n = Some (IoSleep ms k) -> code k = [ScheduleFiber f] -> (forall fd, sys_write fd <> 0) ->
  tm_ok (r_timers s) ->
  Timer.timers (r_timers s) !! r_next_timer s = None -> Timer.timers (r_timers s) !! S (r_next_timer s) = None ->
  0 <= now + ms < 2 ^ 64 ->
  r_clock s = now :: flat_map clock_of rounds ++ a :: b :: clock -> r_polls s = map snd rounds ++ results :: polls ->
  Forall (fun r => quiet_round (r_timers s) r /\ r.1.2 < now + ms) rounds ->
  none_due (r_timers s) b -> now + ms <= b -> wait_loop results = Some [] ->
  exists S' M' T', let s' := mkRuntime S' M' T' (S (r_next_timer s)) clock polls
                              (r_waits s ++ replicate (S (length rounds)) 3000) in
    steps (4 * length rounds + 14) s = (Ok tt, s') /\ awake S' AtLoop g f rest /\ m_tasks S' = [] /\
    m_timers T' ≡ₚ m_timers (r_timers s) /\ tm_ok T' /\
    m_fdContexts M' = m_fdContexts (r_iomanager s) /\ m_epoll M' = m_epoll (r_iomanager s) /\
    output S' = output (r_scheduler s) /\ m_idleThreadCount S' = m_idleThreadCount (r_scheduler s).
Proof.
  intros Ht Hfg Hf Hp Hn Hk Hw Htm Hfree Hfree' Hms Hcl Hpo Hquiet Hdue Hb Hwait.
  destruct (sleep_parks s g f n rest ms k now _ Ht Hfg Hf Hp Hn Hw Hcl Htm Hfree)
    as (S1 & M1 & T1 & Hs1 & Ht1 & Hp1 & Hk1 & Hn1 & [l HM1] & HT1).
  set (x := Timer_ctor now ms (Some k) false) in *.
  assert (m_next x = now + ms) as Hx by (unfold x; simpl; unfold wrap; by apply Z.mod_small).
  pose proof HT1 as (Htm1 & _ & Hh1).
  assert (Timer.timers T1 !! S (r_next_timer s) = None) as Hfree1 by (rewrite Hh1, lookup_insert_ne by lia; done).
  assert (Forall (quiet_round T1) rounds) as Hquiet1.
  { eapply Forall_impl; [exact Hquiet|]. intros r [[Hnd ?] Hlt]. split; [|done].
    apply (none_due_with _ _ _ _ _ HT1 Hfree Htm Hnd). lia. }
  destruct (expires_alone _ _ _ _ b (S (r_next_timer s)) HT1 Hfree Htm Hdue) as (T2 & Hexp & Htm2 & Hp2); [lia|done|done|].
  pose proof (top_flushed _ _ _ Ht1) as Hfl1. cbn [r_iomanager] in Hfl1.
  destruct (parked_cycles _ g f rest rounds a b clock results polls [] _ T2 (set_scheduled [TaskCb k] M1) Ht1 Hp1 Hfg eq_refl Hpo
              Htm1 Hfree1 Hquiet1 Hwait Hexp)
    as (S2 & p & Hs2 & Ht2 & Hpf2 & Hk2 & Hn2 & Hpp & Hpo2 & Hpf).
  { cbn [schedule_all x Timer_ctor Timer.m_cb schedule_cb]. unfold bind, modify, ret. cbn [r_iomanager].
    by rewrite Hfl1. }
  { right. by exists k. }
  rewrite Hk in Hpp.
  destruct (closure_resumes _ g p f rest Ht2 Hpp Hpo2 Hpf2 Hf Hpf) as (S3 & Hs3 & Ha3 & Hq3 & Ho3 & Hn3).
  cbn [r_scheduler r_iomanager r_timers r_next_timer r_waits set_scheduler] in *.
  exists S3, (set_scheduled [] (set_scheduled [TaskCb k] M1)), T2. split_and!; try done; [|by subst M1|by subst M1| |congruence].
  - replace (4 * length rounds + 14)%nat with (4 + (4 * length rounds + 4 + 6))%nat by lia.
    by rewrite (runtime_steps_app 4 _ _ _ Hs1), (runtime_steps_app _ 6 _ _ Hs2).
  - by rewrite Ho3, (kept_output _ _ _ _ Hk2), (kept_output _ _ _ _ Hk1).
Qed.
End runtime.

(** ** The runtime and the queue *)

Section queue.
Context {K L : Type} `{Epoll K} `{PosixLock L}.
Context (cfg : Z) (io : nat -> option io_call) (code : callback -> list cmd) (sys_write : Z -> Z).
Implicit Types s : Runtime K L.

(** *** What is handed to the queue *)

(** A task is a fiber, or a function that gets a fiber of its own. *)
Definition request : Type := ptr + list cmd.

Definition request_of (t : task) : request :=
  match t with TaskFiber f => inl f | TaskCb c => inr (code c) end.
Definition request_of_task (t : ScheduleTask) : list request :=
  match task_fiber t, task_cb t with
  | Some f, _ => [inl f]
  | None, Some cb => [inr cb]
  | None, None => []
  end.

(** What the next step of worker [i] hands over, in order: a call of [schedule] by the
    running fiber its task; a round of the idle fiber the callbacks of the timers that
    have expired and then the waiters of the events. *)
Definition handed_over (i : nat) (s : Runtime K L) : list request :=
  match w_control <$> m_threads (r_scheduler s) !! i with
  | Some (InBody _ (IdleLoop :: _)) =>
      match idle_goes_on s with
      | (Ok true, s1) => map request_of (scheduled (r_iomanager (snd (idle_round s1))))
      | _ => []
      end
  | Some (InBody curr (c :: _)) => requests curr [c]
  | _ => []
  end.

(** The tasks [ps] are queued for the requests, one for each and in their order: a fiber is
    queued itself; a function gets a new fiber ([next] is the next free address) which has
    the function to execute, in the heap [h] after the step. *)
Fixpoint delivered (h : Heap) (next : ptr) (rs : list request) (ps : list ptr) : Prop :=
  match rs, ps with
  | [], [] => True
  | inl f :: rs, p :: ps => p = f /\ delivered h next rs ps
  | inr cs :: rs, p :: ps => p = next /\ left_code h p = Some cs /\ delivered h (S next) rs ps
  | _, _ => False
  end.

(** What a step has handed over, and the heap before (its next free address) and after. *)
Record handing : Type := mkHanding { before : ptr; given : list request; after : Heap }.
Definition served (d : handing) (ps : list ptr) : Prop := delivered (after d) (before d) (given d) ps.

Definition handing_of (s s' : Runtime K L) (rs : list request) : handing :=
  mkHanding (next_ptr (process (r_scheduler s))) rs (process (r_scheduler s')).

(** An execution of the object: a worker steps, any thread schedules a task, or gives the
    stop command; with what is handed over and what that is to the queue. *)
Inductive runtime_execution : Runtime K L -> list handing -> list action -> Runtime K L -> Prop :=
  | runtime_nil s : runtime_execution s [] [] s
  | runtime_worker s i s' ds l s'' : runtime_step cfg io code sys_write i s = (Ok tt, s') ->
      runtime_execution s' ds l s'' ->
      runtime_execution s (handing_of s s' (handed_over i s) :: ds) (actions i (r_scheduler s) (r_scheduler s') ++ l) s''
  | runtime_schedule s i t s' ds l s'' : in_scheduler (schedule cfg i t) s = (Ok tt, s') ->
      runtime_execution s' ds l s'' ->
      runtime_execution s (handing_of s s' (request_of_task t) :: ds) (appended (r_scheduler s) (r_scheduler s') ++ l) s''
  | runtime_stop s s' ds l s'' : in_scheduler stop_command s = (Ok tt, s') ->
      runtime_execution s' ds l s'' -> runtime_execution s ds l s''.

(** The scheduler's part has at most got more tasks. *)
Definition rappends (s s' : Runtime K L) : Prop := appends (r_scheduler s) (r_scheduler s').

#[local] Instance rappends_preorder : PreOrder rappends.
Proof.
  split; [by intros s; unfold rappends|]. intros s1 s2 s3 H1' H2'. unfold rappends in *. by etrans.
Qed.

#[local] Notation radds := (along rappends).

Lemma radds_scheduler {A} (m : comp Scheduler A) : along appends m -> radds (in_scheduler m).
Proof. intros Hm s. specialize (Hm (r_scheduler s)). unfold in_scheduler, lift. by destruct (m (r_scheduler s)). Qed.

Lemma radds_iomanager {A} (m : comp (IOManager K) A) : radds (in_iomanager m).
Proof. intros s. unfold in_iomanager, lift. destruct (m (r_iomanager s)). unfold rappends. simpl. reflexivity. Qed.

Lemma radds_timers {A} (m : comp (TimerManager L) A) : radds (in_timers m).
Proof. intros s. unfold in_timers, lift. destruct (m (r_timers s)). unfold rappends. simpl. reflexivity. Qed.

Lemma radds_modify (f : Runtime K L -> Runtime K L) : (forall s, r_scheduler (f s) = r_scheduler s) -> radds (modify f).
Proof. intros Hf. apply along_modify. intros s. unfold rappends. by rewrite Hf. Qed.

Lemma adds_schedule_tasks i ts : along appends (schedule_tasks cfg code i ts).
Proof.
  induction ts as [|t ts IH]; simpl; [apply along_ret, _|]. apply along_bind; [apply _|apply adds_schedule|done].
Qed.

#[local] Hint Resolve along_bind along_ret along_fail along_get radds_scheduler radds_iomanager radds_timers
  radds_modify adds_in_thread adds_schedule_tasks appends_preorder rappends_preorder : core.

Lemma radds_clock : radds getCurrentMs.
Proof. apply along_bind; auto. intros [|now l]; auto. Qed.

Lemma radds_wait timeout : radds (epoll_wait timeout).
Proof.
  apply along_bind; auto. intros _. apply along_bind; auto. intros [|r l]; auto.
  apply along_bind; auto. intros _. destruct (wait_loop r); auto.
Qed.
#[local] Hint Resolve radds_clock radds_wait : core.

Lemma radds_flush i : radds (flush cfg code i).
Proof. unfold flush. auto 10. Qed.

Lemma radds_goes_on : radds idle_goes_on.
Proof. apply along_bind; auto. intros []; auto. Qed.
#[local] Hint Resolve radds_flush radds_goes_on : core.

Lemma radds_round : radds idle_round.
Proof. unfold idle_round. auto 15. Qed.
#[local] Hint Resolve radds_round : core.

Lemma radds_idle i curr rest : radds (idle cfg code i curr rest).
Proof. apply along_bind; auto. intros []; cbn [negb]; auto 15. Qed.

Lemma radds_io i curr c rest : radds (io_step sys_write i curr c rest).
Proof.
  destruct c as [f d|ms k]; cbn [io_step]; [unfold io_wait; auto 10|]. unfold io_sleep.
  repeat (apply along_bind; auto; intros). case_match; auto.
Qed.
Lemma runtime_step_dispatches i s s' :
  runtime_step cfg io code sys_write i s = (Ok tt, s') ->
  dispatches (abs (r_scheduler s)) (actions i (r_scheduler s) (r_scheduler s')) (abs (r_scheduler s')).
Proof.
  intros Hstep. unfold runtime_step in Hstep.
  assert (in_scheduler (worker_step cfg i) s = (Ok tt, s') ->
    dispatches (abs (r_scheduler s)) (actions i (r_scheduler s) (r_scheduler s')) (abs (r_scheduler s'))) as Hplain.
  { unfold in_scheduler, lift. destruct (worker_step cfg i (r_scheduler s)) as [o S1] eqn:Hw. intros [= -> <-].
    by apply (worker_step_dispatches cfg). }
  destruct (m_threads (r_scheduler s) !! i) as [w|] eqn:Hl; [|by apply Hplain].
  assert (forall c : comp (Runtime K L) unit, radds c -> c s = (Ok tt, s') -> w_control w <> InMain ->
    dispatches (abs (r_scheduler s)) (actions i (r_scheduler s) (r_scheduler s')) (abs (r_scheduler s'))) as Hadd.
  { intros c Hc Hcs Hm. unfold actions. rewrite Hl. pose proof (Hc s) as Happ. rewrite Hcs in Happ.
    destruct w as [x y [] pc f]; try done; by apply appends_dispatches. }
  simpl in Hstep. destruct (w_control w) as [|curr rest| | |] eqn:Hc; try (by apply Hplain).
  destruct rest as [|[] rest]; try (by apply Hplain).
  - destruct (io n) as [c|]; [|by apply Hplain]. eapply Hadd; [|exact Hstep|done]. apply radds_io.
  - eapply Hadd; [|exact Hstep|done]. apply radds_idle.
Qed.

Lemma runtime_dispatches s ds l s' :
  runtime_execution s ds l s' -> dispatches (abs (r_scheduler s)) l (abs (r_scheduler s')).
Proof.
  induction 1 as [s|s i s1 ds l s' He _ IH|s i t s1 ds l s' He _ IH|s s1 ds l s' He _ IH]; [constructor| | |].
  - eapply dispatches_app; [by eapply runtime_step_dispatches|done].
  - eapply dispatches_app; [|done]. apply appends_dispatches.
    pose proof (radds_scheduler _ (adds_schedule cfg i t) s) as Happ. by rewrite He in Happ.
  - by injection He as <-.
Qed.

(** *** The requests reach the queue *)

Fixpoint functions (rs : list request) : nat :=
  match rs with [] => 0 | inl _ :: rs => functions rs | inr _ :: rs => S (functions rs) end.

Lemma functions_app rs rs' : functions (rs ++ rs') = (functions rs + functions rs')%nat.
Proof. induction rs as [|[] rs IH]; simpl; by rewrite ?IH. Qed.

(** From [S] to [S'] exactly the tasks for [rs] were queued, and no fiber has changed. *)
Definition delivers (rs : list request) (S S' : Scheduler) : Prop :=
  (exists ps, m_tasks S' = m_tasks S ++ ps /\ delivered (process S') (next_ptr (process S)) rs ps) /\
  next_ptr (process S') = (functions rs + next_ptr (process S))%nat /\
  forall p, (p < next_ptr (process S))%nat -> fibers (process S') !! p = fibers (process S) !! p.

Lemma delivered_keep h h' rs : forall next ps,
  (forall p, (p < functions rs + next)%nat -> fibers h' !! p = fibers h !! p) ->
  delivered h next rs ps -> delivered h' next rs ps.
Proof.
  induction rs as [|[f|cs] rs IH]; intros next [|p ps] Hk; simpl; try done.
  - intros [-> Hd]. split; [done|]. by apply IH.
  - intros (-> & Hl & Hd). split; [done|]. split.
    + unfold left_code in *. rewrite Hk; [done|]. simpl. lia.
    + apply IH; [|done]. intros p Hp. apply Hk. simpl. lia.
Qed.

Lemma delivered_app h rs rs' : forall next ps ps',
  delivered h next rs ps -> delivered h (functions rs + next)%nat rs' ps' -> delivered h next (rs ++ rs') (ps ++ ps').
Proof.
  induction rs as [|[f|cs] rs IH]; intros next [|p ps] ps'; simpl; try done.
  - intros [-> Hd] Hd'. split; [done|]. by apply IH.
  - intros (-> & Hl & Hd) Hd'. do 2 (split; [done|]). apply IH; [done|].
    by rewrite <- plus_n_Sm.
Qed.

Lemma delivers_nil S S' : m_tasks S' = m_tasks S -> process S' = process S -> delivers [] S S'.
Proof. intros Ht Hp. unfold delivers. rewrite Hp. split; [|done]. exists []. by rewrite Ht, app_nil_r. Qed.

Lemma delivers_app rs rs' S1 S2 S3 : delivers rs S1 S2 -> delivers rs' S2 S3 -> delivers (rs ++ rs') S1 S3.
Proof.
  intros ((ps & Ht & Hd) & Hn & Hk) ((ps' & Ht' & Hd') & Hn' & Hk'). rewrite Hn in *. split; [|split].
  - exists (ps ++ ps'). split; [by rewrite Ht', Ht, app_assoc|]. apply delivered_app; [|done].
    eapply delivered_keep; [|exact Hd]. intros p Hp. by apply Hk'.
  - rewrite Hn', functions_app. lia.
  - intros p Hp. rewrite Hk' by lia. by apply Hk.
Qed.

Lemma schedule_delivers i t S S' : schedule cfg i t S = (Ok tt, S') -> delivers (request_of_task t) S S'.
Proof.
  unfold schedule, request_of_task. destruct (task_fiber t) as [f|].
  - intros He. apply bind_Ok_inv in He as (x & S1 & E1 & [= <-]). unfold in_thread, Fiber.deref in E1.
    destruct (m_threads S !! i) as [w|]; [|done]. destruct (fibers _ !! f); [|done]. injection E1 as _ <-.
    split; [|done]. exists [f]. simpl. by split.
  - destruct (task_cb t) as [cb|]; [|intros [= <-]; by apply delivers_nil].
    intros He. apply bind_Ok_inv in He as (f & S1 & E1 & [= <-]). unfold in_thread in E1.
    destruct (m_threads S !! i) as [w|]; [|done]. injection E1 as <- <-.
    split; [|split; [done|]].
    + exists [next_ptr (process S)]. simpl. split_and!; try done. unfold left_code. simpl. by rewrite lookup_insert_eq.
    + intros p Hp. simpl. rewrite lookup_insert_ne; [done|]. lia.
Qed.

Lemma schedule_tasks_delivers i ts : forall S S',
  schedule_tasks cfg code i ts S = (Ok tt, S') -> delivers (map request_of ts) S S'.
Proof.
  induction ts as [|t ts IH]; intros S S' He; simpl in He; [injection He as <-; by apply delivers_nil|].
  apply bind_Ok_inv in He as ([] & S1 & E1 & He). apply (delivers_app [request_of t] _ S S1); [|by apply IH].
  apply schedule_delivers in E1. by destruct t.
Qed.

(** The requests among the events of a body. *)
Definition event_requests (e : event) : list request :=
  match e with Worked _ => [] | Scheduled f => [inl f] | ScheduledCb cb => [inr cb] end.

Lemma handle_all_delivers i es : forall S S',
  handle_all cfg i es S = (Ok tt, S') -> delivers (flat_map event_requests es) S S'.
Proof.
  induction es as [|e es IH]; intros S S' He; simpl in He; [injection He as <-; by apply delivers_nil|].
  apply bind_Ok_inv in He as ([] & S1 & E1 & He). simpl. eapply delivers_app; [|by apply IH].
  destruct e; simpl in E1; [|by apply schedule_delivers in E1..]. injection E1 as <-. by apply delivers_nil.
Qed.

Lemma in_thread_tasks {A} i (m : comp Thread A) S a S' : in_thread i m S = (Ok a, S') ->
  exists w t, m_threads S !! i = Some w /\ m (thread_of w (process S)) = (Ok a, t) /\
    m_tasks S' = m_tasks S /\ process S' = heap t.
Proof.
  unfold in_thread. destruct (m_threads S !! i) as [w|]; [|done].
  destruct (m (thread_of w (process S))) as [o t] eqn:Hm. intros [= -> <-]. by exists w, t.
Qed.

(** What a call of a body emits; a call that schedules makes no fiber itself. *)
Lemma fiber_step_emits t t' es :
  fiber_step cfg t = (Ok es, t') ->
  match control t with
  | InBody curr (c :: _) => es = emits curr c /\ (requests curr [c] <> [] -> next_ptr (heap t') = next_ptr (heap t))
  | _ => es = []
  end.
Proof.
  unfold fiber_step. destruct (control t) as [|curr [|c rest]| | |]; intros He; try (by injection He as <- _).
  - apply bind_Ok_inv in He as ([] & t1 & _ & He). by injection He as <- _.
  - destruct c; cbn [exec emits requests flat_map] in *; try (by injection He as <- <-);
      apply bind_Ok_inv in He as (x & t1 & E & He); injection He as <- <-; split; try done.
    intros _. unfold Fiber.update in E. case_match; [|done]. by injection E as _ <-.
Qed.

Lemma fiber_step_delivers i S S' w :
  m_threads S !! i = Some w -> bind (in_thread i (fiber_step cfg)) (handle_all cfg i) S = (Ok tt, S') ->
  exists ps, m_tasks S' = m_tasks S ++ ps /\
    delivered (process S') (next_ptr (process S))
      (match w_control w with InBody curr (c :: _) => requests curr [c] | _ => [] end) ps.
Proof.
  intros Hw He. apply bind_Ok_inv in He as (es & S1 & E1 & E2).
  apply in_thread_tasks in E1 as (w' & t & Hw' & Ht & Hq & Hp). rewrite Hw in Hw'. injection Hw' as <-.
  apply fiber_step_emits in Ht. cbn [control thread_of] in Ht.
  assert (es = [] -> m_tasks S' = m_tasks S ++ []) as Hnil
    by (intros ->; injection E2 as <-; by rewrite app_nil_r).
  destruct (w_control w) as [|curr [|c rest]| | |]; try (by exists []; split; [apply Hnil|]).
  destruct Ht as [-> Hn]. pose proof (handle_all_delivers i _ _ _ E2) as ((ps & Hps & Hd) & _).
  assert (flat_map event_requests (emits curr c) = requests curr [c]) as Er by (by destruct c). rewrite Er in Hd.
  exists ps. split; [by rewrite Hps, Hq|]. destruct (requests curr [c]) as [|r rs] eqn:Hr; [by destruct ps|].
  rewrite Hp, Hn in Hd by done. exact Hd.
Qed.

(** Waiting for events does not touch the scheduler. *)
Definition same_scheduler (s s' : Runtime K L) : Prop := r_scheduler s' = r_scheduler s.

#[local] Instance same_scheduler_preorder : PreOrder same_scheduler.
Proof. split; [done|]. intros s1 s2 s3 E1 E2. unfold same_scheduler in *. congruence. Qed.

Lemma round_same : along same_scheduler idle_round.
Proof.
  assert (forall A (m : comp (IOManager K) A), along same_scheduler (in_iomanager m)) as Hio
    by (intros A m s; unfold in_iomanager, lift; by destruct (m (r_iomanager s))).
  assert (forall A (m : comp (TimerManager L) A), along same_scheduler (in_timers m)) as Hti
    by (intros A m s; unfold in_timers, lift; by destruct (m (r_timers s))).
  assert (forall f : Runtime K L -> Runtime K L, (forall s, same_scheduler s (f s)) -> along same_scheduler (modify f)) as Hmo
    by (intros f Hf; by apply along_modify).
  assert (along same_scheduler getCurrentMs) as Hcl.
  { apply along_bind; [apply _|by apply along_get, _|]. intros [|now l]; [apply along_fail, _|].
    apply along_bind; [apply _|by apply Hmo|intros _; apply along_ret, _]. }
  assert (forall t, along same_scheduler (epoll_wait t)) as Hw.
  { intros t. apply along_bind; [apply _|by apply Hmo|]. intros _. apply along_bind; [apply _|by apply along_get, _|].
    intros [|r l]; [apply along_fail, _|]. apply along_bind; [apply _|by apply Hmo|]. intros _.
    destruct (wait_loop r); [apply along_ret, _|apply along_fail, _]. }
  unfold idle_round. repeat (apply along_bind; [apply _|first [apply Hcl|apply Hio|apply Hti|apply Hw|apply along_get, _]|intros ?]).
  apply Hio.
Qed.

Lemma goes_on_same s o s1 : idle_goes_on s = (o, s1) -> same_scheduler s s1.
Proof.
  intros He. assert (along same_scheduler idle_goes_on) as Ha.
  { apply along_bind; [apply _|done|]. intros []; [|apply along_ret, _]. apply along_bind; [apply _| |intros ?; apply along_ret, _].
    intros t. unfold in_timers, lift. by destruct (empty (r_timers t)). }
  specialize (Ha s). by rewrite He in Ha.
Qed.

Lemma idle_delivers i s s' curr rest :
  idle cfg code i curr rest s = (Ok tt, s') ->
  exists ps, m_tasks (r_scheduler s') = m_tasks (r_scheduler s) ++ ps /\
    delivered (process (r_scheduler s')) (next_ptr (process (r_scheduler s)))
      (match idle_goes_on s with
       | (Ok true, s1) => map request_of (scheduled (r_iomanager (snd (idle_round s1))))
       | _ => []
       end) ps.
Proof.
  intros He. unfold idle in He. apply bind_Ok_inv in He as (again & s1 & Eg & He). rewrite Eg.
  pose proof (goes_on_same _ _ _ Eg) as Hs1. destruct again; cbn [negb] in He.
  - apply bind_Ok_inv in He as ([] & s2 & Er & He). rewrite Er. cbn [snd].
    assert (same_scheduler s s2) as Hs2.
    { etrans; [exact Hs1|]. pose proof (round_same s1) as H'. by rewrite Er in H'. }
    apply bind_Ok_inv in He as ([] & s3 & Ef & He). unfold flush in Ef. rewrite bind_get in Ef.
    unfold in_iomanager at 1, bind at 1, lift at 1 in Ef. simpl in Ef.
    unfold in_scheduler, lift in Ef, He. cbn [r_scheduler set_iomanager] in Ef.
    destruct (schedule_tasks _ _ _ _ _) as [o S3] eqn:Ht. injection Ef as -> <-.
    apply schedule_tasks_delivers in Ht as ((ps & Hps & Hd) & _). cbn [r_scheduler set_scheduler] in He.
    destruct (in_thread i _ S3) as [o S4] eqn:Hi. injection He as -> <-.
    apply in_thread_tasks in Hi as (w & t & _ & [= <-] & Hq & Hp). cbn [r_scheduler set_scheduler].
    exists ps. rewrite Hq, Hp. simpl. unfold same_scheduler in Hs2. by rewrite <- Hs2.
  - unfold in_scheduler, lift in He. destruct (in_thread i _ _) as [o S4] eqn:Hi. injection He as -> <-.
    apply in_thread_tasks in Hi as (w & t & _ & _ & Hq & _). exists []. rewrite app_nil_r. simpl.
    split; [|done]. unfold same_scheduler in Hs1. by rewrite Hq, Hs1.
Qed.

Definition same_queue (s s' : Runtime K L) : Prop := m_tasks (r_scheduler s') = m_tasks (r_scheduler s).

#[local] Instance same_queue_preorder : PreOrder same_queue.
Proof. split; [done|]. intros s1 s2 s3 E1 E2. unfold same_queue in *. congruence. Qed.

Lemma io_same_tasks i curr c rest : along same_queue (io_step sys_write i curr c rest).
Proof.
  assert (forall A (m : comp (IOManager K) A), along same_queue (in_iomanager m)) as Hio
    by (intros A m s; unfold in_iomanager, lift; by destruct (m (r_iomanager s))).
  assert (forall A (m : comp (TimerManager L) A), along same_queue (in_timers m)) as Hti
    by (intros A m s; unfold in_timers, lift; by destruct (m (r_timers s))).
  assert (forall f : Runtime K L -> Runtime K L, (forall s, same_queue s (f s)) -> along same_queue (modify f)) as Hmo
    by (intros f Hf; by apply along_modify).
  assert (forall A (m : comp Thread A), along same_queue (in_scheduler (in_thread i m))) as Hth.
  { intros A m s. unfold in_scheduler, lift, in_thread, same_queue.
    destruct (m_threads (r_scheduler s) !! i) as [w|]; [|done]. by destruct (m _). }
  assert (forall A (f : Scheduler -> A), along same_queue (in_scheduler (get f))) as Hge by done.
  assert (along same_queue getCurrentMs) as Hcl.
  { apply along_bind; [apply _|by apply along_get, _|]. intros [|now l]; [apply along_fail, _|].
    apply along_bind; [apply _|by apply Hmo|intros _; apply along_ret, _]. }
  destruct c as [f d|ms k]; cbn [io_step].
  - unfold io_wait. repeat (apply along_bind; [apply _|first [apply Hth|apply Hio]|intros ?]). apply Hth.
  - unfold io_sleep. repeat (apply along_bind; [apply _|first [apply Hcl|apply Hth|apply Hio|apply Hti|apply Hge|apply along_get, _|by apply Hmo|
      case_match; [apply Hio|apply along_ret, _]]|intros ?]). apply Hth.
Qed.

(** A hooked call schedules nothing itself. *)
Lemma io_step_queue i s s' curr c rest :
  io_step sys_write i curr c rest s = (Ok tt, s') -> m_tasks (r_scheduler s') = m_tasks (r_scheduler s).
Proof.
  intros He. pose proof (io_same_tasks i curr c rest s) as H'. by rewrite He in H'.
Qed.

Lemma run_step_queue i w S S' :
  run_step cfg i w S = (Ok tt, S') -> w_pc w <> AtLoop -> m_tasks S' = m_tasks S.
Proof.
  unfold run_step. intros He Hpc. destruct (w_pc w) as [| |task|]; [|done| |].
  - apply bind_Ok_inv in He as (a & S1 & E1 & He). apply bind_Ok_inv in He as (f & S2 & E2 & He).
    apply in_thread_tasks in E1 as (_ & _ & _ & _ & Q1 & _). apply in_thread_tasks in E2 as (_ & _ & _ & _ & Q2 & _).
    injection He as <-. simpl. congruence.
  - unfold set_pc in He. rewrite bind_modify in He. apply in_thread_tasks in He as (_ & _ & _ & _ & Q & _). by rewrite Q.
  - by injection He as <-.
Qed.

(** The tasks queued in a step are those for what it hands over. *)
Lemma runtime_step_delivers i s s' :
  runtime_step cfg io code sys_write i s = (Ok tt, s') ->
  served (handing_of s s' (handed_over i s)) (puts (actions i (r_scheduler s) (r_scheduler s'))).
Proof.
  intros Hstep. unfold served. cbn [after before given handing_of].
  assert (Hputs : forall ps rs, (forall w, m_threads (r_scheduler s) !! i = Some w -> w_control w <> InMain) ->
    m_tasks (r_scheduler s') = m_tasks (r_scheduler s) ++ ps ->
    delivered (process (r_scheduler s')) (next_ptr (process (r_scheduler s))) rs ps ->
    delivered (process (r_scheduler s')) (next_ptr (process (r_scheduler s))) rs
      (puts (actions i (r_scheduler s) (r_scheduler s')))).
  { intros ps rs Hm Hq Hd. assert (puts (appended (r_scheduler s) (r_scheduler s')) = ps) as Hp.
    { unfold appended. rewrite Hq, drop_app_length. clear. induction ps; simpl; [done|]. unfold puts in *. simpl. by f_equal. }
    unfold actions. destruct (m_threads _ !! i) as [[a b c pc f]|]; [|by rewrite Hp].
    destruct c; try (by rewrite Hp). by destruct (Hm _ eq_refl). }
  unfold runtime_step in Hstep. unfold handed_over.
  destruct (m_threads (r_scheduler s) !! i) as [w|] eqn:Hl.
  2: { unfold in_scheduler, lift, worker_step in Hstep. by rewrite Hl in Hstep. }
  simpl in Hstep |- *.
  assert (Hplain : in_scheduler (worker_step cfg i) s = (Ok tt, s') ->
    bind (in_thread i (fiber_step cfg)) (handle_all cfg i) (r_scheduler s) = worker_step cfg i (r_scheduler s) ->
    w_control w <> InMain ->
    delivered (process (r_scheduler s')) (next_ptr (process (r_scheduler s)))
      (match w_control w with InBody curr (c :: _) => requests curr [c] | _ => [] end)
      (puts (actions i (r_scheduler s) (r_scheduler s')))).
  { unfold in_scheduler, lift. intros Hw Heq Hm. rewrite <- Heq in Hw.
    destruct (bind _ _ (r_scheduler s)) as [o S1] eqn:He. injection Hw as -> <-.
    destruct (fiber_step_delivers i _ _ w Hl He) as (ps & Hq & Hd). eapply Hputs; [|exact Hq|exact Hd].
    intros w'. congruence. }
  destruct (w_control w) as [|curr [|c rest]| | |] eqn:Hc.
  - apply Hplain; [done| |done]. unfold worker_step. by rewrite Hl, Hc.
  - apply Hplain; [done| |done]. unfold worker_step. by rewrite Hl, Hc.
  - destruct c as [n| | | | | | | | |]; try (by apply Hplain; [|unfold worker_step; rewrite Hl, Hc|]).
    + destruct (io n) as [k|] eqn:Hn; [|by apply Hplain; [|unfold worker_step; rewrite Hl, Hc|]].
      apply (Hputs []); [intros w'; congruence| |done]. rewrite app_nil_r. by eapply io_step_queue.
    + destruct (idle_delivers i s s' curr rest Hstep) as (ps & Hq & Hd). eapply Hputs; [|exact Hq|exact Hd].
      intros w'. congruence.
  - apply Hplain; [done| |done]. unfold worker_step. by rewrite Hl, Hc.
  - unfold in_scheduler, lift, worker_step in Hstep. rewrite Hl, Hc in Hstep.
    destruct (run_step cfg i w (r_scheduler s)) as [o S1] eqn:Hr. injection Hstep as -> <-. cbn [r_scheduler set_scheduler].
    unfold actions. rewrite Hl. destruct w as [a b c pc f]. simpl in Hc. subst c.
    assert (pc <> AtLoop -> puts (appended (r_scheduler s) S1) = []) as Hnil.
    { intros Hpc. unfold appended. by rewrite (run_step_queue i _ _ _ Hr Hpc), drop_all. }
    destruct pc; [by rewrite Hnil| |done|by rewrite Hnil]. by destruct (m_tasks (r_scheduler s)).
  - unfold in_scheduler, lift, worker_step in Hstep. rewrite Hl, Hc in Hstep. injection Hstep as <-.
    apply (Hputs []); [intros w'; congruence|by rewrite app_nil_r|done].
Qed.

Lemma runtime_delivers s ds l s' :
  runtime_execution s ds l s' -> exists pss, Forall2 served ds pss /\ puts l = concat pss.
Proof.
  induction 1 as [s|s i s1 ds l s' He _ (pss & Hf & Hp)|s i t s1 ds l s' He _ (pss & Hf & Hp)|s s1 ds l s' He _ IH];
    [by exists []| | |done].
  - exists (puts (actions i (r_scheduler s) (r_scheduler s1)) :: pss). unfold puts in *.
    rewrite omap_app, Hp. split; [|done]. constructor; [by apply runtime_step_delivers|done].
  - unfold in_scheduler, lift in He. destruct (schedule cfg i t (r_scheduler s)) as [o S1] eqn:Hs. injection He as -> <-.
    apply schedule_delivers in Hs as ((ps & Hq & Hd) & _). exists (ps :: pss).
    assert (puts (appended (r_scheduler s) S1) = ps) as Hps.
    { unfold appended. rewrite Hq, drop_app_length. clear. induction ps; simpl; [done|]. unfold puts in *. simpl. by f_equal. }
    unfold puts in *. rewrite omap_app. cbn [r_scheduler set_scheduler]. rewrite Hp, Hps. split; [|done]. by constructor.
Qed.

(** C6: (refinement) The object as a whole uses the queue as a first-in first-out
    queue, in every execution of workers with the event loop, the timers and hooked
    calls, interleaved with requests of other threads.  Each step hands certain tasks
    over: a call of [schedule] its task, a round of the idle fiber the callbacks of the
    expired timers and the waiters of the events as the event loop has scheduled them,
    and nothing else does.  Exactly one task is queued for each, in the order in which
    they were handed over: a fiber itself, a function as a new fiber that has it to
    execute.  The queue and the hands of the workers follow the abstract queue: what was
    queued leaves in that order, each worker resumes exactly what it took, in its order,
    and, as multisets, what was queued, in hand or handed over is what has been resumed,
    is queued or in hand: none is lost between the event loop and a worker, and none is
    served twice. *)
Theorem runtime_refines_queue s ds l s' :
  runtime_execution s ds l s' ->
  (exists pss, Forall2 served ds pss /\ puts l = concat pss) /\
  dispatches (abs (r_scheduler s)) l (abs (r_scheduler s')) /\
  m_tasks (r_scheduler s) ++ puts l = takes l ++ m_tasks (r_scheduler s') /\
  (forall i, held (abs (r_scheduler s)) i ++ takes_of i l = runs_of i l ++ held (abs (r_scheduler s')) i) /\
  m_tasks (r_scheduler s) ++ all_held (abs (r_scheduler s)) ++ puts l ≡ₚ
    runs_all l ++ m_tasks (r_scheduler s') ++ all_held (abs (r_scheduler s')).
Proof.
  intros Hexec. split; [by eapply runtime_delivers|]. apply runtime_dispatches in Hexec. split; [done|].
  split; [by apply (dispatches_fifo _ _ _ Hexec)|]. split; [intros i; by apply dispatches_hand|].
  by apply (dispatches_once _ _ _ Hexec).
Qed.

(** The steps in the order [order], with what they hand over and are to the queue. *)
Fixpoint runtime_trace (order : list nat) (s : Runtime K L) : list handing * list action * Runtime K L :=
  match order with
  | [] => ([], [], s)
  | i :: order =>
      let s' := snd (runtime_step cfg io code sys_write i s) in
      let '(ds, l, s'') := runtime_trace order s' in
      (handing_of s s' (handed_over i s) :: ds, actions i (r_scheduler s) (r_scheduler s') ++ l, s'')
  end.

Lemma runtime_trace_execution order : forall s s',
  runtime_interleave cfg io code sys_write order s = (Ok tt, s') ->
  runtime_execution s (runtime_trace order s).1.1 (runtime_trace order s).1.2 s'.
Proof.
  induction order as [|i order IH]; intros s s' He; simpl in *; [injection He as <-; constructor|].
  apply bind_Ok_inv in He as ([] & s1 & E1 & He). rewrite E1. simpl. specialize (IH s1 s' He).
  destruct (runtime_trace order s1) as [[ds l] s2]. by eapply runtime_worker.
Qed.
End queue.

(** ** Two workers *)

Section race.
Context {K L : Type} `{EpollLaws K} `{PosixLockLaws L}.
Context (cfg : Z) (io : nat -> option io_call) (code : callback -> list cmd) (sys_write : Z -> Z).
Implicit Types s : Runtime K L.

#[local] Notation step := (runtime_step cfg io code sys_write).
#[local] Notation steps := (runtime_steps cfg io code sys_write).

(** A worker that rests does so too after another worker's fiber has yielded. *)
Lemma resting_yielded j others S S' pc g c x i :
  i <> j -> resting j ({[c]} ∪ others) S pc g -> c ∉ others -> fiber_ok c false x ->
  process S' = put c x (process S) -> m_threads S' !! j = m_threads S !! j -> resting j others S' pc g.
Proof.
  intros Hij (t & Hr & Hok & Hc) Hco Hx Hp Ht. destruct Hr as (w & Hw & <- & Hpc & Hg).
  exists (thread_of w (process S')). split; [exists w; split; [congruence|done]|]. split; [|done].
  destruct Hok as (m & Hm & H'). rewrite Hc in H'. destruct H' as [Htf Hh]. exists m. split; [done|].
  cbn [control thread_of] in *. rewrite Hc. split; [done|]. cbn [heap thread_of] in *. rewrite Hp.
  by apply heap_ok_yielded.
Qed.

(** The worker takes a fiber that is still running: the process aborts. *)
Lemma takes_running s j others g f q :
  resting j others (r_scheduler s) AtLoop g -> m_tasks (r_scheduler s) = f :: q -> f ∈ others ->
  fst (steps j 2 s) = Abort.
Proof.
  intros Hr Hq Hf.
  destruct (take_step cfg j others _ g f q Hr Hq) as (S1 & Hs1 & Hr1 & _).
  cbn [runtime_steps]. rewrite (bind_Ok _ _ _ _ _ (resting_step cfg io code sys_write j others s _ g S1 Hr Hs1)).
  destruct Hr1 as (t & Hrt & Hok & Hc). destruct (worker_step_main cfg j S1 t _ g Hrt Hc) as (w & Hw & Hpc & _).
  destruct (runs_idle_control _ _ _ _ _ Hrt) as (w' & Hl & Hwc).
  assert (exists x, fibers (heap t) !! f = Some x /\ m_state x = RUNNING) as (x & Hx & Hxs).
  { destruct Hok as (m & _ & H'). rewrite Hc in H'. destruct H' as [_ Hh]. by apply (heap_others _ _ _ _ Hh). }
  unfold bind at 1, runtime_step. cbn [r_scheduler set_scheduler]. rewrite Hl. simpl. rewrite Hwc, Hc.
  unfold in_scheduler, lift. cbn [r_scheduler set_scheduler]. rewrite Hw. unfold run_step. rewrite Hpc.
  destruct (set_pc_runs_idle j S1 t _ AtLoop g Hrt) as (S2 & He2 & Hr2 & _). rewrite (bind_Ok _ _ _ _ _ He2).
  destruct (resume_cases others t f x Hok Hc Hx) as [([] & _)|[_ Ha]]; [congruence..|].
  destruct Hr2 as (w2 & Hw2 & Ht2 & _). unfold in_thread. rewrite Hw2, Ht2, Ha. done.
Qed.

(** C38: (safety) Registering before yielding is a race.  [do_io] gives the running
    fiber to the event loop first and yields afterwards.  In every state in which the
    fiber [f] is already at the front of the queue while worker [i] is still about to
    execute its yield, and worker [j] is at the top of its loop: when [j] moves first, it
    takes [f] out of the queue, the assertion of [Fiber::resume] fails, and the process
    aborts; when [i] yields first, the same two steps of [j] resume [f], which has
    exactly the rest of its calls left, and the queue has lost just [f]. *)
Theorem event_before_yield_race s i j others others' pc g g' f rest q :
  i <> j ->
  awake i others (r_scheduler s) pc g f (YieldToReady_ :: rest) ->
  resting j ({[f]} ∪ others') (r_scheduler s) AtLoop g' -> f ∉ others' ->
  m_tasks (r_scheduler s) = f :: q ->
  fst (steps j 2 s) = Abort /\
  exists s1 S2, step i s = (Ok tt, s1) /\ steps j 2 s1 = (Ok tt, set_scheduler S2 s1) /\
    awake j others' S2 AtLoop g' f rest /\ m_tasks S2 = q.
Proof.
  intros Hij Ha Hr Hf Hq. split; [by eapply takes_running; [exact Hr|exact Hq|set_solver]|].
  destruct (yield_step cfg i others _ pc g f rest Ha) as (S1 & Hs1 & _ & Hk1 & Hp1 & Hq1 & _).
  assert (exists x, fiber_ok f false x /\ process S1 = put f x (process (r_scheduler s))) as (x & Hx & Hps).
  { destruct Ha as (t & Hrt & Hok & _ & Hc). pose proof (set_body_ok _ _ _ _ _ Hok Hc) as Hok0.
    destruct (yield_writes others _ f rest Hok0 eq_refl) as (x & m & He & Hx). exists x. split; [done|].
    assert (fiber_step cfg t = (Ok [], mkThread (put f x (heap t)) (Some m) (Some m) InMain)) as Hs
      by (unfold fiber_step; rewrite Hc; cbn [exec]; by rewrite (bind_Ok _ _ _ _ _ He)).
    destruct (body_step cfg i _ pc g f _ [] t _ Hrt Hc ltac:(done) Hs) as (S1' & _ & Hw & _ & _ & Hp').
    rewrite Hw in Hs1. injection Hs1 as <-. by rewrite Hp', (runs_idle_process _ _ _ _ _ Hrt). }
  pose proof (resting_yielded j others' _ S1 _ g' f x i Hij Hr Hf Hx Hps (kept_threads _ _ _ _ Hk1 j ltac:(done))) as Hr1.
  rewrite <- Hq1 in Hq.
  destruct (take_and_run cfg io code sys_write j others' (set_scheduler S1 s) g' f q rest Hr1 Hq Hf Hp1)
    as (S2 & Hs2 & Ha2 & _ & Hq2 & _).
  exists (set_scheduler S1 s), S2. split_and!; [|exact Hs2|done|done].
  by apply (awake_step cfg io code sys_write i others s pc g f _ S1 Ha).
Qed.
End race.

(** ** Witnesses *)

Section witnesses.
#[local] Existing Instance simple_epoll.
#[local] Existing Instance simple_epoll_laws.
#[local] Instance lock : PosixLock lock_state := simple_lock true.
#[local] Instance lock_laws : PosixLockLaws lock_state := simple_lock_laws true.

(** The computation 7 is a hooked read of descriptor 5, the computation 8 a sleep of 5
    milliseconds of fiber 2. *)
Definition some_io (n : nat) : option io_call :=
  match n with
  | 7%nat => Some (IoWait 5 DirRead)
  | 8%nat => Some (IoSleep 5 (Client 2))
  | _ => None
  end.
Definition some_code (c : callback) : list cmd := match c with Client n => [ScheduleFiber n] | CondClosure _ => [] end.
Definition some_write (fd : Z) : Z := -1.

(** One worker past the start of [run], with the task [cb] (its main fiber is 0, its idle
    fiber 1 and the task 2). *)
Definition one_worker (cb : list cmd) : Scheduler :=
  let s := snd (worker_step 4096 0 (snd (start (Scheduler_ctor 1 (mkHeap 0 0 ∅ 0%nat))))) in
  snd (schedule 4096 0 (ScheduleTask_cb (Some cb) (-1)) s).

Definition some_runtime (cb : list cmd) (clock : list Z) (polls : list (list (Z + list epoll_event)))
    : Runtime (gmap Z Z) lock_state :=
  mkRuntime (one_worker cb) some_iom tm2 3%nat clock polls [].

Lemma one_worker_rests cb : resting 0 ∅ (one_worker cb) AtLoop 1%nat.
Proof.
  exists (snd (Fiber_ctor 4096 cb 0 (snd (Fiber_ctor 4096 [IdleLoop] 0 thread0)))). split; [|split; [|done]].
  - exists (mkWorker (Some 0%nat) (Some 0%nat) InMain AtLoop (Some 1%nat)).
    split; [by vm_compute|]. split; [by vm_compute|done].
  - do 2 (apply ctor_keeps_ok; [|done]). exact thread0_ok.
Qed.

Lemma some_runtime_at_top cb clock polls : at_top 0 ∅ (some_runtime cb clock polls) 1%nat [2%nat].
Proof.
  split; [apply one_worker_rests|by vm_compute|set_solver|by vm_compute| |by vm_compute|by vm_compute].
  vm_compute. split; [discriminate|reflexivity].
Qed.

(** The fiber waits twice: a round without events, interrupted once, before the first
    event, and none before the second. *)
Definition first_wait : wait := mkWait [((3, 4), [inl EINTR; inr []])] (5, 6) [inr [mkEpollEvent EPOLLIN (DataPtr 5)]] EPOLLIN.
Definition second_wait : wait := mkWait [] (7, 8) [inr [mkEpollEvent EPOLLIN (DataPtr 5)]] EPOLLIN.
Definition waiting_runtime : Runtime (gmap Z Z) lock_state :=
  some_runtime [Work 7; Work 7; Work 1] [3; 4; 5; 6; 7; 8]
    [[inl EINTR; inr []]; [inr [mkEpollEvent EPOLLIN (DataPtr 5)]]; [inr [mkEpollEvent EPOLLIN (DataPtr 5)]]].

Lemma simple_epoll_accepts j : accepts (K := gmap Z Z) j.
Proof. intros k ev Hk. simpl in *. by rewrite Hk. Qed.

Lemma some_iom_waitable : waitable some_iom 5 DirRead.
Proof. split; [exact some_iom_ok| |done]. exists (FdContext_default 5). by split_and!. Qed.

Lemma waiting_fiber_wakes_witness : exists s',
  runtime_steps 4096 some_io some_code some_write 0 22 waiting_runtime = (Ok tt, s') /\
  busy 0 ∅ s' 1%nat 2%nat [Work 1] /\ r_waits s' = [3000; 3000; 3000].
Proof.
  destruct (waiting_fiber_wakes 4096 some_io some_code some_write 0 ∅ waiting_runtime 1%nat 2%nat 7%nat [Work 1]
    5 DirRead [first_wait; second_wait] [] []) as (S' & M' & Hs & Hb & _);
    [apply some_runtime_at_top|done|set_solver|by vm_compute|reflexivity|exact some_iom_waitable|exact (simple_epoll_accepts 5)
    |exact tm2_ok|by vm_compute| |by vm_compute|by vm_compute|].
  - constructor; [|constructor; [|constructor]].
    + split_and!; [repeat constructor|repeat constructor|reflexivity|reflexivity].
    + split_and!; [repeat constructor|repeat constructor|reflexivity|reflexivity].
  - eexists. split; [exact Hs|]. split; [exact Hb|reflexivity].
Defined.

(** The deadline is 6; a round ends before it, one after it. *)
Definition sleeping_runtime : Runtime (gmap Z Z) lock_state :=
  some_runtime [Work 8; Work 1] [1; 2; 3; 5; 7] [[inr []]; [inr []]].

Lemma sleeping_fiber_wakes_witness : exists s',
  runtime_steps 4096 some_io some_code some_write 0 18 sleeping_runtime = (Ok tt, s') /\
  awake 0 ∅ (r_scheduler s') AtLoop 1%nat 2%nat [Work 1] /\ r_waits s' = [3000; 3000] /\
  m_timers (r_timers s') ≡ₚ [2; 1]%nat.
Proof.
  destruct (sleeping_fiber_wakes 4096 some_io some_code some_write 0 ∅ sleeping_runtime 1%nat 2%nat 8%nat [Work 1]
    5 (Client 2) 1 [((2, 3), [inr []])] 5 7 [] [inr []] []) as (S' & M' & T' & Hs & Ha & _ & Ht & _);
    [apply some_runtime_at_top|done|set_solver|by vm_compute|reflexivity|reflexivity|done|exact tm2_ok
    |by vm_compute|by vm_compute|lia|by vm_compute|by vm_compute|by repeat constructor|by repeat constructor|lia|reflexivity|].
  eexists. split; [exact Hs|]. split; [exact Ha|]. split; [reflexivity|exact Ht].
Defined.

(** ** Two workers *)

Definition two_workers : Runtime (gmap Z Z) lock_state :=
  let s := snd (interleave 4096 [0; 1]%nat (snd (start (Scheduler_ctor 2 (mkHeap 0 0 ∅ 0%nat))))) in
  mkRuntime (snd (schedule 4096 0 (ScheduleTask_cb (Some [Work 7; Work 1]) (-1)) s)) some_iom tm2 3%nat
    [3; 4] [[inr [mkEpollEvent EPOLLIN (DataPtr 5)]]] [].

Definition yield_first : list nat := [0; 0; 0; 0; 1; 1; 1; 1; 1; 1; 1]%nat.
#[local] Notation run order := (runtime_interleave 4096 some_io some_code some_write order two_workers).
#[local] Notation trace_of order := (fst (runtime_trace 4096 some_io some_code some_write order two_workers)).

Lemma runtime_refines_queue_witness :
  run yield_first = (Ok tt, snd (run yield_first)) /\
  (trace_of yield_first).2 = [Take 0 4%nat; Run 0 4%nat; Put 4%nat; Take 1 4%nat; Run 1 4%nat] /\
  concat (map given (trace_of yield_first).1) = [inl 4%nat] /\
  exists pss, Forall2 served (trace_of yield_first).1 pss /\ puts (trace_of yield_first).2 = concat pss.
Proof.
  assert (run yield_first = (Ok tt, snd (run yield_first))) as Hrun by (vm_compute; reflexivity).
  split; [exact Hrun|]. split; [vm_compute; reflexivity|]. split; [vm_compute; reflexivity|].
  apply (runtime_refines_queue 4096 some_io some_code some_write two_workers _ _ (snd (run yield_first))).
  by apply runtime_trace_execution.
Defined.

(** The second worker's idle round has queued the fiber, and the first worker has not
    executed its yield yet. *)
Definition before_yield : Runtime (gmap Z Z) lock_state := snd (run [0; 0; 0; 1; 1; 1; 1]%nat).

(** A heap is well-formed when what [heap_ok] asks holds of the list of its objects. *)
Lemma heap_ok_list others cur m h :
  m ∉ others ->
  (exists x, fibers h !! m = Some x /\ m_stack x = false /\ m_state x = RUNNING /\ m_ucp x = InMain) ->
  Forall (fun p => (p.1 < next_ptr h)%nat /\
    (p.1 ∈ others \/ p.1 = m \/ fiber_ok p.1 (bool_decide (cur = Some p.1)) p.2)) (map_to_list (fibers h)) ->
  set_Forall (fun f => exists x, fibers h !! f = Some x /\ m_state x = RUNNING) others ->
  s_fiber_count h = wrap 64 (Z.of_nat (base.size (fibers h))) ->
  heap_ok others cur m h.
Proof.
  intros Hmo Hm Hall Ho Hc. rewrite Forall_forall in Hall.
  assert (forall f x, fibers h !! f = Some x -> (f, x) ∈ map_to_list (fibers h)) as Hin
    by (intros f x; apply elem_of_map_to_list).
  split; [done| |done| |done].
  - intros f x Hx Hf Hfm. destruct (Hall _ (Hin f x Hx)) as (_ & [?|[?|?]]); done.
  - intros f x Hx. apply (Hall _ (Hin f x Hx)).
Qed.

Ltac check_objects :=
  match goal with |- Forall ?P ?l => let v := eval vm_compute in l in replace l with v by (vm_compute; reflexivity) end;
  repeat (apply Forall_cons_2; [split; [vm_compute; lia|]|]); [..|by apply Forall_nil_2]; cbn [fst snd];
  first [by left; apply elem_of_singleton
        |by left; set_solver
        |by right; left
        |right; right; split; [reflexivity|vm_compute; by eauto 10]].

Lemma before_yield_awake :
  awake 0 {[2%nat]} (r_scheduler before_yield) AtLoop 1%nat 4%nat [YieldToReady_; Work 1].
Proof.
  set (w := mkWorker (Some 4%nat) (Some 0%nat) (InBody 4%nat [YieldToReady_; Work 1]) AtLoop (Some 1%nat)).
  exists (thread_of w (process (r_scheduler before_yield))). split; [|split; [|split; [|done]]].
  - exists w. by vm_compute.
  - exists 0%nat. split; [done|]. cbn [control thread_of w w_control]. split; [done|].
    split; [done|]. split; [set_solver|]. split; [|eexists; split; [vm_compute; reflexivity|done]].
    apply heap_ok_list; [set_solver|eexists; split; [vm_compute; reflexivity|done]| | |by vm_compute].
    + check_objects.
    + intros f ->%elem_of_singleton. eexists. split; [vm_compute; reflexivity|done].
  - eexists. split; [vm_compute; reflexivity|done].
Qed.

Lemma before_yield_resting :
  resting 1 ({[4%nat]} ∪ {[0%nat]}) (r_scheduler before_yield) AtLoop 3%nat.
Proof.
  set (w := mkWorker (Some 2%nat) (Some 2%nat) InMain AtLoop (Some 3%nat)).
  exists (thread_of w (process (r_scheduler before_yield))). split; [|split; [|done]].
  - exists w. by vm_compute.
  - exists 2%nat. split; [done|]. cbn [control thread_of w w_control]. split; [done|].
    apply heap_ok_list; [set_solver|eexists; split; [vm_compute; reflexivity|done]| | |by vm_compute].
    + check_objects.
    + intros f [->%elem_of_singleton| ->%elem_of_singleton]%elem_of_union;
        eexists; (split; [vm_compute; reflexivity|done]).
Qed.

Lemma event_before_yield_race_witness :
  fst (runtime_steps 4096 some_io some_code some_write 1 2 before_yield) = Abort /\
  exists s1 S2, runtime_step 4096 some_io some_code some_write 0 before_yield = (Ok tt, s1) /\
    runtime_steps 4096 some_io some_code some_write 1 2 s1 = (Ok tt, set_scheduler S2 s1) /\
    awake 1 {[0%nat]} S2 AtLoop 3%nat 4%nat [Work 1] /\ m_tasks S2 = [].
Proof.
  apply (event_before_yield_race 4096 some_io some_code some_write before_yield 0 1 {[2%nat]} {[0%nat]} AtLoop
    1%nat 3%nat 4%nat [Work 1] []); [done|exact before_yield_awake|exact before_yield_resting|set_solver|by vm_compute].
Defined.
End witnesses.

