(* ===== verification/Teardown.v ===== *)
(** * Teardown: the scheduler of a thread, and the end of an [IOManager]

    Models the thread-local [t_scheduler] with [setThis] and the two [GetThis], and
    the destructors [~IOManager] and [~Scheduler] with [stop], which run on one
    thread while the workers go on: the destroying thread is a state machine whose
    steps interleave with those of the workers ([Scheduler.v]) and with the events
    their idle fibers process ([IOManager.v]). *)

From stdpp Require Import base list numbers gmap.
From S2P Require Import Prelude Words Fiber Scheduler IOManager.

Local Open Scope Z_scope.

(** ** The scheduler of a thread *)

(** The dynamic class of a scheduler object. *)
Inductive scheduler_class : Set := IsScheduler | IsIOManager.

(** [t_scheduler] per thread, and the schedulers that exist, by address. *)
Record Process : Type := mkProcess {
  t_scheduler : gmap nat nat;
  schedulers : gmap nat scheduler_class
}.

(** [Scheduler::setThis] on the thread [thr]. *)
Definition setThis (thr this : nat) : comp Process unit :=
  modify (fun p => mkProcess (<[thr := this]> (t_scheduler p)) (schedulers p)).

(** The constructor ends with [t_scheduler = this]. *)
Definition construct (c : scheduler_class) (thr this : nat) : comp Process unit :=
  do! modify (fun p => mkProcess (t_scheduler p) (<[this := c]> (schedulers p))) in
  setThis thr this.

(** The end of [~Scheduler]: [t_scheduler] keeps its value. *)
Definition destroy (this : nat) : comp Process unit :=
  modify (fun p => mkProcess (t_scheduler p) (delete this (schedulers p))).

Definition Scheduler_GetThis (thr : nat) : comp Process (option nat) :=
  get (fun p => t_scheduler p !! thr).

(** [dynamic_cast<IOManager *>(Scheduler::GetThis())]: null on a null pointer and
    on an object of another class; it reads the object, which has to exist. *)
Definition IOManager_GetThis (thr : nat) : comp Process (option nat) :=
  let! t := Scheduler_GetThis thr in
  match t with
  | None => ret None
  | Some a =>
      let! c := get (fun p => schedulers p !! a) in
      match c with
      | Some IsIOManager => ret (Some a)
      | Some IsScheduler => ret None
      | None => fail UB
      end
  end.

(** ** The destructors *)

Section Teardown.
Context {K : Type} `{Epoll K}.
Context (cfg_stack_size : Z) (sys_write : Z -> Z).

(** The object: the [Scheduler] part with its workers, the members of [IOManager],
    and the descriptors that have been closed. *)
Record Manager : Type := mkManager {
  base : Scheduler;
  part : IOManager K;
  m_epfd : Z;
  closed : list Z
}.

Definition on_part {A} (m : comp (IOManager K) A) : comp Manager A :=
  lift part (fun p m => mkManager (base m) p (m_epfd m) (closed m)) m.
Definition on_base {A} (b : comp Scheduler A) : comp Manager A :=
  lift base (fun b m => mkManager b (part m) (m_epfd m) (closed m)) b.
Definition close_fd (f : Z) : comp Manager unit :=
  modify (fun m => mkManager (base m) (part m) (m_epfd m) (closed m ++ [f])).

(** [for (i = 0; i < m_threadCount; i++) tickle();] where [idles] are the values of
    [m_idleThreadCount] that the calls read. *)
Fixpoint tickle_all (idles : list Z) : comp (IOManager K) unit :=
  match idles with
  | [] => ret tt
  | n :: idles => do! tickle sys_write n in tickle_all idles
  end.

(** [for (...) if (m_fdContexts[i]) delete m_fdContexts[i];]: the pointers that are
    left dangle. *)
Definition delete_contexts : comp (IOManager K) unit := modify (set_m_fdContexts []).

(** [~IOManager] after its wait for the stop command. *)
Definition IOManager_dtor (idle : nat -> Z) : comp Manager unit :=
  let! n := get (fun m => m_threadCount (base m)) in
  do! on_part (tickle_all (map idle (seq 0 n))) in
  let! ep := get m_epfd in
  let! fds := get (fun m => m_tickleFds (part m)) in
  do! close_fd ep in
  do! close_fd (fst fds) in
  do! close_fd (snd fds) in
  on_part delete_contexts.

(** Where the destroying thread is: in the wait of [~IOManager]; at the start of
    [stop] in [~Scheduler] (whose wait for the command is over at once); in the
    wait of [stop] for an empty queue; about to join the thread [k]; through. *)
Inductive dtor_pc : Type := Waiting | Stopping | Emptying | Joining (k : nat) | Destroyed.

Definition has_exited (s : Scheduler) (k : nat) : bool :=
  match m_threads s !! k with
  | Some w => match w_control w with ThreadExit => true | _ => false end
  | None => false
  end.

Inductive dstep : dtor_pc * Manager -> dtor_pc * Manager -> Prop :=
  | d_sleep m : m_stopCommand (base m) = false -> dstep (Waiting, m) (Waiting, m)
  | d_body m idle m' : m_stopCommand (base m) = true -> IOManager_dtor idle m = (Ok tt, m') ->
      dstep (Waiting, m) (Stopping, m')
  | d_command m m' : on_base stop_command m = (Ok tt, m') -> dstep (Stopping, m) (Emptying, m')
  | d_full m : stop_ready (base m) = false -> dstep (Emptying, m) (Emptying, m)
  | d_empty m : stop_ready (base m) = true -> dstep (Emptying, m) (Joining 0, m)
  | d_join m k : has_exited (base m) k = true -> dstep (Joining k, m) (Joining (S k), m)
  | d_done m : dstep (Joining (length (m_threads (base m))), m) (Destroyed, m)
  | d_worker pc m s' : pc <> Destroyed -> sstep cfg_stack_size (base m) s' ->
      dstep (pc, m) (pc, mkManager s' (part m) (m_epfd m) (closed m))
  | d_event pc m ev p' : pc <> Destroyed -> process_event ev (part m) = (Ok tt, p') ->
      dstep (pc, m) (pc, mkManager (base m) p' (m_epfd m) (closed m)).
End Teardown.

Arguments Manager K : clear implicits.
