(* ===== verification/TeardownTheorems.v ===== *)
(** * TeardownTheorems: when an [IOManager] may be destroyed

    The invariant of the destroying thread: nothing is closed or freed before the
    stop command, everything is closed once, and the object is gone only after all
    workers have ended.  What the order of the two destructors means for workers
    that still run. *)

From stdpp Require Import base list numbers gmap.
From S2P Require Import Prelude Words Fiber Scheduler IOManager Teardown.

Local Open Scope Z_scope.

(** ** What a step of a worker leaves alone *)

Record other_threads (i : nat) (s s' : Scheduler) : Prop := mkOtherThreads {
  ot_length : length (m_threads s') = length (m_threads s);
  ot_stop : m_stopCommand s' = m_stopCommand s;
  ot_same : forall j, j <> i -> m_threads s' !! j = m_threads s !! j
}.

Definition frames {A} (i : nat) (m : comp Scheduler A) : Prop :=
  forall s a s', m s = (Ok a, s') -> other_threads i s s'.

Lemma other_threads_refl i s : other_threads i s s.
Proof. by split. Qed.

Lemma other_threads_trans i s1 s2 s3 : other_threads i s1 s2 -> other_threads i s2 s3 -> other_threads i s1 s3.
Proof. intros [] []. split; [congruence|congruence|]. intros j Hj. rewrite ot_same1 by done. auto. Qed.

Section frames.
Context (i : nat).

Lemma frames_ret {A} (a : A) : frames i (ret a).
Proof. intros s b s' [= _ <-]. apply other_threads_refl. Qed.

Lemma frames_fail {A} (o : outcome A) : frames i (fail o).
Proof. intros s b s' [= _ <-]. apply other_threads_refl. Qed.

Lemma frames_get {A} (f : Scheduler -> A) : frames i (get f).
Proof. intros s b s' [= _ <-]. apply other_threads_refl. Qed.

Lemma frames_bind {A B} (m : comp Scheduler A) (k : A -> comp Scheduler B) :
  frames i m -> (forall a, frames i (k a)) -> frames i (bind m k).
Proof.
  intros Hm Hk s b s' (a & s1 & H1 & H2)%bind_Ok_inv.
  eapply other_threads_trans; [by eapply Hm|by eapply Hk].
Qed.

Lemma frames_modify (f : Scheduler -> Scheduler) : (forall s, other_threads i s (f s)) -> frames i (modify f).
Proof. intros Hf s b s' [= _ <-]. apply Hf. Qed.

Lemma frames_in_thread {A} (m : comp Thread A) : frames i (in_thread i m).
Proof.
  intros s a s'. unfold in_thread. destruct (m_threads s !! i) as [w|]; [|done].
  destruct (m _) as [o t]. intros [= _ <-]. split; simpl; [apply length_insert|done|].
  intros j Hj. by apply list_lookup_insert_ne.
Qed.

Lemma frames_alter (f : Worker -> Worker) : frames i (modify (fun s => set_m_threads (alter f i (m_threads s)) s)).
Proof.
  apply frames_modify. intros s. split; simpl; [apply length_alter|done|].
  intros j Hj. by apply list_lookup_alter_ne.
Qed.
End frames.

Create HintDb frames.
#[export] Hint Resolve frames_ret frames_fail frames_get frames_in_thread frames_alter : frames.

Ltac frames := repeat first
  [ solve [auto with frames]
  | apply frames_bind; [|intros ?]
  | apply frames_modify; intros ?; by split
  | case_match ].

Lemma frames_schedule cfg i t : frames i (schedule cfg i t).
Proof. unfold schedule. frames. Qed.
#[export] Hint Resolve frames_schedule : frames.

Lemma frames_handle_all cfg i es : frames i (handle_all cfg i es).
Proof.
  induction es as [|e es IH]; cbn [handle_all]; [frames|].
  apply frames_bind; [|done]. unfold handle. frames.
Qed.
#[export] Hint Resolve frames_handle_all : frames.

Lemma frames_run_step cfg i w : frames i (run_step cfg i w).
Proof. unfold run_step, set_idleFiber, set_pc. frames. Qed.

Lemma frames_idle i curr rest : frames i (idle i curr rest).
Proof. unfold idle. frames. Qed.

(** A worker that has ended stays ended, and the stop command stands. *)
Lemma worker_step_keeps cfg i s s' k :
  worker_step cfg i s = (Ok tt, s') ->
  length (m_threads s') = length (m_threads s) /\ m_stopCommand s' = m_stopCommand s /\
  (has_exited s k = true -> has_exited s' k = true).
Proof.
  intros Hs. assert (s' = s \/ (other_threads i s s' /\ has_exited s i = false)) as [->|[[Hl Hst Hsame] Hx]].
  { unfold worker_step, has_exited in *. destruct (m_threads s !! i) as [w|]; [|done].
    destruct (w_control w) as [|curr [|[] rest]| | |] eqn:Hc; try (right; split; [|done]);
      try by eapply frames_run_step.
    all: try by eapply frames_idle.
    all: try (eapply (frames_bind i); [apply frames_in_thread|intros es; apply frames_handle_all|done]).
    left. by injection Hs. }
  - done.
  - split; [done|split; [done|]]. unfold has_exited in *. destruct (decide (k = i)) as [->|Hk].
    + by rewrite Hx.
    + by rewrite Hsame.
Qed.

Lemma sstep_keeps cfg s s' k :
  sstep cfg s s' ->
  length (m_threads s') = length (m_threads s) /\ (m_stopCommand s = true -> m_stopCommand s' = true) /\
  (has_exited s k = true -> has_exited s' k = true).
Proof.
  destruct 1 as [s i s' Hs|s s' [= <-]]; [|done].
  destruct (worker_step_keeps cfg i s s' k Hs) as (H1 & H2 & H3). split; [done|split; [|done]]. congruence.
Qed.

(** ** The invariant *)

Section Teardown.
Context {K : Type} `{Epoll K}.
Context (cfg_stack_size : Z) (sys_write : Z -> Z).
Notation dstep := (dstep cfg_stack_size sys_write).

Lemma tickle_all_keeps idles (p p' : IOManager K) :
  tickle_all sys_write idles p = (Ok tt, p') ->
  m_tickleFds p' = m_tickleFds p /\ m_fdContexts p' = m_fdContexts p.
Proof.
  revert p. induction idles as [|n idles IH]; cbn [tickle_all]; intros p; [by intros [= ->]|].
  intros ([] & p1 & H1 & H2)%bind_Ok_inv. destruct (IH _ H2) as [-> ->]. clear -H1.
  unfold tickle in H1. destruct (0 <? n); [|by injection H1 as <-].
  rewrite bind_get, bind_modify in H1. unfold CCZOE_ASSERT in H1. case_match; [|done]. by injection H1 as <-.
Qed.

(** The body of [~IOManager] closes the three descriptors and frees the contexts;
    the workers are left as they are. *)
Lemma IOManager_dtor_effect idle (m m' : Manager K) :
  IOManager_dtor sys_write idle m = (Ok tt, m') ->
  base m' = base m /\ m_epfd m' = m_epfd m /\ m_tickleFds (part m') = m_tickleFds (part m) /\
  m_fdContexts (part m') = [] /\
  closed m' = closed m ++ [m_epfd m; fst (m_tickleFds (part m)); snd (m_tickleFds (part m))].
Proof.
  unfold IOManager_dtor, on_part. rewrite bind_get. intros ([] & m1 & H1 & H2)%bind_Ok_inv.
  unfold lift in H1. destruct (tickle_all _ _ _) as [o p] eqn:Ht. injection H1 as -> <-.
  destruct (tickle_all_keeps _ _ _ Ht) as [Hf Hc]. injection H2 as <-.
  simpl. by rewrite Hf, <- !app_assoc.
Qed.

(** No step of the loop puts a context back. *)
Lemma process_event_freed ev (p p' : IOManager K) :
  m_fdContexts p = [] -> process_event ev p = (Ok tt, p') -> p' = p.
Proof.
  intros Hp. unfold process_event. destruct (ev_data ev) as [f|i]; [by intros [= ->]|].
  intros (c & p1 & H1 & _)%bind_Ok_inv. unfold get_ctx in H1. by rewrite Hp in H1.
Qed.

(** The operations on contexts leave the pipe alone. *)
Definition keeps_pipe {A} (m : comp (IOManager K) A) : Prop :=
  forall p a p', m p = (Ok a, p') -> m_tickleFds p' = m_tickleFds p.

Lemma keeps_pipe_bind {A B} (m : comp (IOManager K) A) (k : A -> comp (IOManager K) B) :
  keeps_pipe m -> (forall a, keeps_pipe (k a)) -> keeps_pipe (bind m k).
Proof.
  intros Hm Hk p b p' (a & p1 & H1 & H2)%bind_Ok_inv. by rewrite (Hk _ _ _ _ H2), (Hm _ _ _ H1).
Qed.

Lemma keeps_pipe_get_ctx i : keeps_pipe (get_ctx i).
Proof. intros p a p'. unfold get_ctx. by destruct (m_fdContexts p !! i); intros; simplify_eq. Qed.

Lemma keeps_pipe_ctl op f ev : keeps_pipe (ctl op f ev).
Proof. intros p a p'. unfold ctl. destruct (epoll_ctl _ _ _ _). by intros [= _ <-]. Qed.

Ltac pipe := repeat first
  [ apply keeps_pipe_get_ctx | apply keeps_pipe_ctl
  | apply keeps_pipe_bind; [|intros ?]
  | progress case_match
  | solve [intros ? ? ? [= _ <-]; done] ].

Lemma process_event_pipe ev : keeps_pipe (process_event ev).
Proof. 
  unfold process_event, trigger_collected, triggerEvent, schedule_cb, schedule_fiber, set_ctx, pending_dec.
  pipe.
Qed.

(** What holds at each point of the destroying thread, for an object that was [m0]
    when its destruction began. *)
Definition teardown_inv (m0 : Manager K) (pc : dtor_pc) (m : Manager K) : Prop :=
  m_epfd m = m_epfd m0 /\ m_tickleFds (part m) = m_tickleFds (part m0) /\
  length (m_threads (base m)) = length (m_threads (base m0)) /\
  (match pc with
   | Waiting => closed m = closed m0
   | _ => m_stopCommand (base m) = true /\ m_fdContexts (part m) = [] /\
          closed m = closed m0 ++ [m_epfd m0; fst (m_tickleFds (part m0)); snd (m_tickleFds (part m0))]
   end) /\
  (match pc with
   | Joining k => forall j, (j < k)%nat -> has_exited (base m) j = true
   | Destroyed => forall j, (j < length (m_threads (base m0)))%nat -> has_exited (base m) j = true
   | _ => True
   end).

Lemma dstep_inv m0 x y : teardown_inv m0 x.1 x.2 -> dstep x y -> teardown_inv m0 y.1 y.2.
Proof.
  unfold teardown_inv. intros (He & Hf & Hl & Hc & Hx) Hs.
  destruct Hs as [m Hst|m idle m' Hst Hb|m m' [= <-]|m Hfull|m Hempty|m k Hk|m|pc m s' Hpc Hs|pc m ev p' Hpc Hev];
    cbn [fst snd base part m_epfd closed] in *; try done; try (destruct Hc as (? & ? & ?)).
  - destruct (IOManager_dtor_effect idle m m' Hb) as (-> & -> & Hp & Hn & ->). by rewrite Hp, Hc, Hf, He.
  - by split_and!.
  - split_and!; try done. intros j Hj. lia.
  - split_and!; try done. intros j Hj. destruct (decide (j = k)) as [->|]; [done|]. apply Hx. lia.
  - split_and!; try done. by rewrite <- Hl.
  - assert (forall k, length (m_threads s') = length (m_threads (base m)) /\
      (m_stopCommand (base m) = true -> m_stopCommand s' = true) /\
      (has_exited (base m) k = true -> has_exited s' k = true)) as Hk
      by (intros k; by apply (sstep_keeps cfg_stack_size)).
    destruct (Hk O) as (Hl' & Hst & _). rewrite Hl'. split_and!; try done.
    + destruct pc; try done; destruct Hc as (? & ? & ?); by split_and!; try apply Hst.
    + destruct pc; try done. intros j Hj. apply Hk, Hx, Hj.
  - rewrite (process_event_pipe _ _ _ _ Hev). split_and!; try done.
    destruct pc; try done; destruct Hc as (? & Hfr & ?); by rewrite (process_event_freed _ _ _ Hfr Hev).
Qed.


(** The destruction ends when the workers have: the stop command was given and
    obeyed, the queue is empty. *)
Lemma joining_ends m : joined (base m) = true ->
  rtc dstep (Joining 0, m) (Destroyed, m).
Proof.
  intros Hj. eapply rtc_r; [|apply d_done].
  assert (forall k, (k <= length (m_threads (base m)))%nat -> rtc dstep (Joining 0, m) (Joining k, m)) as Hk; [|by apply Hk].
  induction k as [|k IH]; intros Hk; [done|]. eapply rtc_r; [apply IH; lia|]. apply d_join.
  unfold has_exited. destruct (lookup_lt_is_Some_2 (m_threads (base m)) k ltac:(lia)) as [w Hw]. rewrite Hw.
  unfold joined in Hj. rewrite forallb_forall in Hj. apply Hj, list_elem_of_In. by eapply list_elem_of_lookup_2.
Qed.

Lemma tickle_all_ok idles (p : IOManager K) : (forall f, sys_write f <> 0) -> exists p', tickle_all sys_write idles p = (Ok tt, p').
Proof.
  intros Hw. revert p. induction idles as [|n idles IH]; intros p; [by eexists|]. cbn [tickle_all].
  unfold bind at 1, tickle. destruct (0 <? n); [|by apply IH].
  rewrite bind_get, bind_modify, CCZOE_ASSERT_true; [by apply IH|].
  by apply negb_true_iff, Z.eqb_neq.
Qed.

(** After a [stop] that has returned, the destructor runs to its end by itself. *)
Lemma teardown_after_stop (m : Manager K) :
  (forall f, sys_write f <> 0) -> m_stopCommand (base m) = true -> m_tasks (base m) = [] ->
  joined (base m) = true -> exists m', rtc dstep (Waiting, m) (Destroyed, m') /\ base m' = base m.
Proof.
  intros Hw Hst Hq Hj.
  assert (exists m', IOManager_dtor sys_write (fun _ => 0) m = (Ok tt, m')) as [m1 Hm1].
  { unfold IOManager_dtor, on_part. rewrite bind_get.
    destruct (tickle_all_ok (map (fun _ => 0) (seq 0 (m_threadCount (base m)))) (part m) Hw) as [p Hp].
    rewrite (bind_Ok _ _ _ _ _ (lift_Ok _ _ _ _ _ _ Hp)). by eexists. }
  destruct (IOManager_dtor_effect _ _ _ Hm1) as (Hb & _).
  assert (on_base stop_command m1 = (Ok tt, m1)) as Hc.
  { destruct m1 as [[] p ep cl]. simpl in *. rewrite <- Hb in Hst. simpl in Hst. by rewrite Hst. }
  exists m1. split; [|done]. eapply rtc_l; [by eapply d_body|]. eapply rtc_l; [by eapply d_command|].
  eapply rtc_l; [apply d_empty; unfold stop_ready; by rewrite Hb, Hq|]. apply joining_ends. by rewrite Hb.
Qed.

(** The steps of a worker are steps of the system. *)
Lemma worker_steps_dsteps i n pc (m : Manager K) s' :
  pc <> Destroyed -> worker_steps cfg_stack_size i n (base m) = (Ok tt, s') ->
  rtc dstep (pc, m) (pc, mkManager s' (part m) (m_epfd m) (closed m)).
Proof.
  intros Hpc. revert m. induction n as [|n IH]; intros m; cbn [worker_steps].
  - intros [= <-]. destruct m. apply rtc_refl.
  - intros ([] & s1 & H1 & H2)%bind_Ok_inv.
    eapply rtc_l; [apply d_worker; [done|by eapply step_worker]|]. by apply (IH (mkManager s1 _ _ _)).
Qed.
End Teardown.

(** A kernel and a manager with one context, whose only worker is at the loop. *)
Definition manager1 : Manager (gmap Z Z) := {|
  base := snd (stop_command (snd (worker_step 4096 0 (snd (start (Scheduler_ctor 1 (mkHeap 0 0 ∅ 0%nat)))))));
  part := mkIOManager ∅ (4, 5) 0 [FdContext_default 0] [] [];
  m_epfd := 3;
  closed := []
|}.

(** The steps of the destroying thread alone: it has closed and freed everything
    while the worker has not ended, and joins it only after the worker has taken
    six more steps. *)
Lemma manager1_freed :
  exists m', rtc (@dstep _ simple_epoll 4096 (fun _ => 1)) (Waiting, manager1) (Joining 0, m') /\
    m_fdContexts (part m') = [] /\ joined (base m') = false.
Proof.
  eexists. split.
  - eapply rtc_l; [by eapply (d_body _ _ _ (fun _ => 0))|].
    eapply rtc_l; [by eapply d_command|]. eapply rtc_l; [by eapply d_empty|]. apply rtc_refl.
  - by vm_compute.
Qed.


(** ** The scheduler of a thread *)

(** The worker threads of an [IOManager] get it from [GetThis], and so does the
    thread that has constructed it, until another scheduler is constructed there. *)
Lemma GetThis_finds thr thr' a p :
  thr <> thr' ->
  let p1 := snd (setThis thr' a (snd (construct IsIOManager thr a p))) in
  IOManager_GetThis thr p1 = (Ok (Some a), p1) /\ IOManager_GetThis thr' p1 = (Ok (Some a), p1) /\
  forall b, b <> a ->
    let p2 := snd (construct IsScheduler thr b p1) in
    IOManager_GetThis thr p2 = (Ok None, p2) /\ IOManager_GetThis thr' p2 = (Ok (Some a), p2).
Proof.
  intros Ht. unfold IOManager_GetThis, Scheduler_GetThis, construct, setThis, bind, get, modify, ret, fail.
  simpl. split_and!; [..|intros b Hb; split]; repeat (simplify_map_eq; simpl); done.
Qed.

(** A scheduler that has been destroyed stays the scheduler of its threads. *)
Lemma GetThis_dangles thr a p :
  fst (IOManager_GetThis thr (snd (destroy a (snd (construct IsIOManager thr a p))))) = UB.
Proof.
  unfold IOManager_GetThis, Scheduler_GetThis, construct, setThis, destroy, bind, get, modify, ret, fail.
  simpl. repeat (simplify_map_eq; simpl). done.
Qed.
