(* ===== verification/FdManager.v ===== *)
(** * FdManager: the contexts of file descriptors

    Models [cczoecpp/Net/Hook/fdmanager.cpp] and [fdmanager.h].  The operating
    system is a parameter: the class [Os] has the calls the code makes on
    descriptors, [OsLaws] what they are documented to do to the flags.  The
    reader-writer lock of the manager is taken through balanced guards
    ([Mutex.v]) and left out. *)

From stdpp Require Import base list numbers gmap.
From S2P Require Import Prelude Words.

Local Open Scope Z_scope.

(** ** The operating system *)

Definition F_GETFD : Z := 1.
Definition F_SETFD : Z := 2.
Definition F_GETFL : Z := 3.
Definition F_SETFL : Z := 4.
Definition O_NONBLOCK : Z := 0x800.
Definition FIONBIO : Z := 0x5421.

(** The calls take the original functions' arguments ([fcntl]'s third one when
    it is passed); [getfl] is the file status flags of a descriptor. *)
Class Os (O : Type) := {
  getfl : O -> Z -> Z;
  fstat_socket : Z -> comp O (option bool);
  fcntl_f : Z -> Z -> option Z -> comp O Z;
  ioctl_f : Z -> Z -> Z -> comp O Z;
  socket_f : comp O Z;
  close_f : Z -> comp O Z
}.

(** [fstat] changes no flags; [F_GETFL] returns the flags; [F_SETFL] and
    [FIONBIO] set the non-blocking bit of their descriptor and no other
    descriptor's. *)
Class OsLaws (O : Type) `{Os O} : Prop := {
  fstat_flags fd o : exists b, fstat_socket fd o = (Ok b, o);
  fcntl_getfl fd a o : fcntl_f fd F_GETFL a o = (Ok (getfl o fd), o);
  fcntl_setfl fd a o : exists r o', fcntl_f fd F_SETFL (Some a) o = (Ok r, o') /\
    Z.testbit (getfl o' fd) 11 = Z.testbit a 11 /\ forall fd', fd' <> fd -> getfl o' fd' = getfl o fd';
  ioctl_fionbio fd v o : exists r o', ioctl_f fd FIONBIO v o = (Ok r, o') /\
    Z.testbit (getfl o' fd) 11 = negb (v =? 0) /\ forall fd', fd' <> fd -> getfl o' fd' = getfl o fd'
}.

(** ** [FdCtx] *)

Definition SO_RCVTIMEO : Z := 20.
Definition SO_SNDTIMEO : Z := 21.

Record FdCtx : Type := mkFdCtx {
  m_isInit : bool;
  m_isSocket : bool;
  m_sysNonblock : bool;
  m_userNonblock : bool;
  m_isClosed : bool;
  m_fd : Z;
  m_recvTimeout : Z;
  m_sendTimeout : Z
}.

Definition getTimeout (type : Z) (c : FdCtx) : Z := if type =? SO_RCVTIMEO then m_recvTimeout c else m_sendTimeout c.

Definition setUserNonblock (v : bool) (c : FdCtx) : FdCtx :=
  mkFdCtx (m_isInit c) (m_isSocket c) (m_sysNonblock c) v (m_isClosed c) (m_fd c) (m_recvTimeout c) (m_sendTimeout c).
Definition setSysNonblock (v : bool) (c : FdCtx) : FdCtx :=
  mkFdCtx (m_isInit c) (m_isSocket c) v (m_userNonblock c) (m_isClosed c) (m_fd c) (m_recvTimeout c) (m_sendTimeout c).
Definition setTimeout (type val : Z) (c : FdCtx) : FdCtx :=
  if type =? SO_RCVTIMEO
  then mkFdCtx (m_isInit c) (m_isSocket c) (m_sysNonblock c) (m_userNonblock c) (m_isClosed c) (m_fd c) val (m_sendTimeout c)
  else mkFdCtx (m_isInit c) (m_isSocket c) (m_sysNonblock c) (m_userNonblock c) (m_isClosed c) (m_fd c) (m_recvTimeout c) val.

Section FdManager.
Context {OS : Type} `{Os OS}.

(** The constructor makes a socket non-blocking for the system. *)
Definition FdCtx_ctor (fd : Z) : comp OS FdCtx :=
  let! st := fstat_socket fd in
  match st with
  | None => ret (mkFdCtx false false false false false fd UINT64_MAX UINT64_MAX)
  | Some false => ret (mkFdCtx true false false false false fd UINT64_MAX UINT64_MAX)
  | Some true =>
      let! flags := fcntl_f fd F_GETFL (Some 0) in
      do! (if Z.land flags O_NONBLOCK =? 0
           then let! _ := fcntl_f fd F_SETFL (Some (Z.lor flags O_NONBLOCK)) in ret tt
           else ret tt) in
      ret (mkFdCtx true true true false false fd UINT64_MAX UINT64_MAX)
  end.

(** ** [FdManager]

    The contexts are shared through [shared_ptr]: a slot of [m_data] holds the
    address of a context in [heap], so that a context a caller still holds
    survives [del] and is the same object as the table's. *)
Record FdManager : Type := mkFdManager {
  m_data : list (option nat);
  heap : list FdCtx;
  os : OS
}.

Definition set_m_data (v : list (option nat)) (s : FdManager) : FdManager := mkFdManager v (heap s) (os s).
Definition set_heap (v : list FdCtx) (s : FdManager) : FdManager := mkFdManager (m_data s) v (os s).
Definition set_os (v : OS) (s : FdManager) : FdManager := mkFdManager (m_data s) (heap s) v.

Definition with_os {A} (m : comp OS A) : comp FdManager A := lift os set_os m.

Definition FdManager_ctor (o : OS) : FdManager := mkFdManager (replicate 64 None) [] o.

(** [vector::resize]. *)
Definition resize (n : nat) (l : list (option nat)) : list (option nat) :=
  take n l ++ replicate (n - length l) None.

(** [static_cast<size_t>(fd) >= m_data.size()]; a negative descriptor becomes a
    huge index, and [fd * 1.5] a negative [double] whose conversion is
    undefined. *)
Definition beyond (fd : Z) (l : list (option nat)) : bool := (fd <? 0) || (Z.of_nat (length l) <=? fd).

(** [m_data[fd]]: reading or writing out of range is undefined. *)
Definition slot (fd : Z) : comp FdManager (option nat) := fun s =>
  if beyond fd (m_data s) then (UB, s) else
  match m_data s !! Z.to_nat fd with Some x => (Ok x, s) | None => (UB, s) end.
Definition put_slot (fd : Z) (x : option nat) : comp FdManager unit := fun s =>
  if beyond fd (m_data s) then (UB, s) else (Ok tt, set_m_data (<[Z.to_nat fd := x]> (m_data s)) s).

Definition FdManager_set (fd : Z) : comp FdManager nat :=
  let! c := with_os (FdCtx_ctor fd) in
  let! p := get (fun s => length (heap s)) in
  do! modify (fun s => set_heap (heap s ++ [c]) s) in
  let! l := get m_data in
  do! (if beyond fd l
       then if fd <? 0 then fail UB else modify (fun s => set_m_data (resize (Z.to_nat fd * 3 / 2) (m_data s)) s)
       else ret tt) in
  do! put_slot fd (Some p) in
  ret p.

Definition FdManager_get (fd : Z) (autoCreate : bool) : comp FdManager (option nat) :=
  let! l := get m_data in
  if beyond fd l && negb autoCreate then ret None else
  let! x := slot fd in
  if bool_decide (is_Some x) || negb autoCreate then ret x else
  let! p := FdManager_set fd in
  ret (Some p).

Definition FdManager_del (fd : Z) : comp FdManager unit :=
  let! l := get m_data in
  if beyond fd l then ret tt else put_slot fd None.

(** A context through its pointer. *)
Definition deref (p : nat) : comp FdManager FdCtx := fun s =>
  match heap s !! p with Some c => (Ok c, s) | None => (UB, s) end.
Definition update (p : nat) (f : FdCtx -> FdCtx) : comp FdManager unit :=
  modify (fun s => set_heap (alter f p (heap s)) s).
End FdManager.

Arguments FdManager OS : clear implicits.
