(* ===== verification/Hook.v ===== *)
(** * Hook: the replaced system calls

    Models [cczoecpp/Net/Hook/hook.cpp] and [hook.h]: [do_io], which turns a
    blocking call into a wait of the fiber, and the hooks of [sleep], [socket],
    [connect], [accept], [close], [fcntl], [ioctl] and [setsockopt].

    The state holds the descriptor contexts with the operating system below them,
    the thread's [t_hookEnable] and [errno], and what the environment decides, as
    scripts consumed from the front: the results of the original function, the
    results of [IOManager::addEvent] and the [errno] each refusal leaves (that of its
    failed [epoll_ctl]), and for each yield the value
    [timeInfo->cancelled] has when the fiber runs again.  A call whose script is
    used up never returns.  [trace] records the calls into the event loop. *)

From stdpp Require Import base list numbers.
From S2P Require Import Prelude Words FdManager.

Local Open Scope Z_scope.

(** [errno] values, events and constants. *)
Definition EINTR : Z := 4.
Definition EBADF : Z := 9.
Definition EAGAIN : Z := 11.
Definition ETIMEDOUT : Z := 110.
Definition EINPROGRESS : Z := 115.
Definition READ : Z := 0x1.
Definition WRITE : Z := 0x4.
Definition SOL_SOCKET : Z := 1.

(** The calls into the system and the event loop. *)
Inductive action : Type :=
  | SysCall (fd : Z)
  | AddTimer (ms : Z)
  | CancelTimer
  | AddEvent (fd event : Z)
  | CancelAll (fd : Z)
  | Yield.

Section Hook.
Context {OS : Type} `{Os OS}.

Record Thread : Type := mkThread {
  t_hookEnable : bool;
  errno : Z;
  in_iomanager : bool;               (* IOManager::GetThis() is not null *)
  fds : FdManager OS;
  calls : list (Z * Z);              (* result, errno when it is -1 *)
  registrations : list (outcome Z);
  refusals : list Z;                 (* errno after a registration that fails *)
  wakeups : list Z;
  trace : list action
}.

Definition set_errno (v : Z) (s : Thread) : Thread :=
  mkThread (t_hookEnable s) v (in_iomanager s) (fds s) (calls s) (registrations s) (refusals s) (wakeups s) (trace s).
Definition set_fds (v : FdManager OS) (s : Thread) : Thread :=
  mkThread (t_hookEnable s) (errno s) (in_iomanager s) v (calls s) (registrations s) (refusals s) (wakeups s) (trace s).
Definition set_calls (v : list (Z * Z)) (s : Thread) : Thread :=
  mkThread (t_hookEnable s) (errno s) (in_iomanager s) (fds s) v (registrations s) (refusals s) (wakeups s) (trace s).
Definition set_registrations (v : list (outcome Z)) (s : Thread) : Thread :=
  mkThread (t_hookEnable s) (errno s) (in_iomanager s) (fds s) (calls s) v (refusals s) (wakeups s) (trace s).
Definition set_refusals (v : list Z) (s : Thread) : Thread :=
  mkThread (t_hookEnable s) (errno s) (in_iomanager s) (fds s) (calls s) (registrations s) v (wakeups s) (trace s).
Definition set_wakeups (v : list Z) (s : Thread) : Thread :=
  mkThread (t_hookEnable s) (errno s) (in_iomanager s) (fds s) (calls s) (registrations s) (refusals s) v (trace s).
Definition set_trace (v : list action) (s : Thread) : Thread :=
  mkThread (t_hookEnable s) (errno s) (in_iomanager s) (fds s) (calls s) (registrations s) (refusals s) (wakeups s) v.

Definition with_fds {A} (m : comp (FdManager OS) A) : comp Thread A := lift fds set_fds m.

Definition log (a : action) : comp Thread unit := modify (fun s => set_trace (trace s ++ [a]) s).

Definition put_errno (e : Z) : comp Thread unit := modify (set_errno e).

(** The original function: [-1] sets [errno]. *)
Definition call_fun (fd : Z) : comp Thread Z :=
  do! log (SysCall fd) in
  let! l := get calls in
  match l with
  | [] => fail Diverge
  | (n, e) :: l =>
      do! modify (set_calls l) in
      do! (if n =? -1 then put_errno e else ret tt) in
      ret n
  end.

(** A call on [IOManager::GetThis()], which is null outside of an [IOManager]. *)
Definition addTimer (ms : Z) : comp Thread unit :=
  let! iom := get in_iomanager in
  if iom then log (AddTimer ms) else fail UB.

(** A registration; when it fails, [errno] is what [epoll_ctl] has left. *)
Definition addEvent (fd event : Z) : comp Thread Z :=
  let! iom := get in_iomanager in
  do! (if iom then log (AddEvent fd event) else fail UB) in
  let! l := get registrations in
  match l with
  | [] => fail Diverge
  | r :: l =>
      do! modify (set_registrations l) in
      let! rt := fail r in
      if rt =? 0 then ret rt else
      let! es := get refusals in
      match es with
      | [] => fail Diverge
      | e :: es => do! modify (set_refusals es) in do! put_errno e in ret rt
      end
  end.

(** [yield], and [timeInfo->cancelled] when it returns: only a timer sets it. *)
Definition yield (armed : bool) : comp Thread Z :=
  do! log Yield in
  let! l := get wakeups in
  match l with
  | [] => fail Diverge
  | c :: l => do! modify (set_wakeups l) in ret (if armed then c else 0)
  end.

Definition isHookEnable : comp Thread bool := get t_hookEnable.
Definition setHookEnable (enable : bool) : comp Thread unit := modify (fun s =>
  mkThread enable (errno s) (in_iomanager s) (fds s) (calls s) (registrations s) (refusals s) (wakeups s) (trace s)).

(** ** [do_io] *)

(** [n = fun(...); while (n == -1 && errno == EINTR) n = fun(...);] *)
Fixpoint call_eintr (fuel : nat) (fd : Z) : comp Thread Z :=
  match fuel with
  | O => fail Diverge
  | S fuel =>
      let! n := call_fun fd in
      let! e := get errno in
      if (n =? -1) && (e =? EINTR) then call_eintr fuel fd else ret n
  end.

(** From [retry:] on.  Each round makes at least one call, so that one more than
    the results left in the script is enough fuel. *)
Fixpoint io_loop (fuel : nat) (fd event timeout : Z) : comp Thread Z :=
  match fuel with
  | O => fail Diverge
  | S fuel =>
      let! m := get (fun s => length (calls s)) in
      let! n := call_eintr (S m) fd in
      let! e := get errno in
      if (n =? -1) && (e =? EAGAIN) then
        let armed := negb (timeout =? UINT64_MAX) in
        do! (if armed then addTimer timeout else ret tt) in
        let! rt := addEvent fd event in
        if negb (rt =? 0) then
          do! (if armed then log CancelTimer else ret tt) in
          ret (-1)
        else
          let! cancelled := yield armed in
          do! (if armed then log CancelTimer else ret tt) in
          if negb (cancelled =? 0) then do! put_errno cancelled in ret (-1)
          else io_loop fuel fd event timeout
      else ret n
  end.

Definition do_io (fd event soTimeout : Z) : comp Thread Z :=
  let! en := isHookEnable in
  if negb en then call_fun fd else
  let! p := with_fds (FdManager_get fd false) in
  match p with
  | None => call_fun fd
  | Some p =>
      let! ctx := with_fds (deref p) in
      if m_isClosed ctx then do! put_errno EBADF in ret (-1) else
      if negb (m_isSocket ctx) || m_userNonblock ctx then call_fun fd else
      let! m := get (fun s => length (calls s)) in
      io_loop (S m) fd event (getTimeout soTimeout ctx)
  end.

(** ** Reading and writing: [read], [readv], [recv], [recvfrom], [recvmsg] wait
    for [READ], [write], [writev], [send], [sendto], [sendmsg] for [WRITE]. *)
Definition read (fd : Z) : comp Thread Z := do_io fd READ SO_RCVTIMEO.
Definition write (fd : Z) : comp Thread Z := do_io fd WRITE SO_SNDTIMEO.

(** ** Sleeping.  The original function's result comes from the script. *)

Definition sleep (seconds : Z) : comp Thread Z :=
  let! en := isHookEnable in
  if negb en then call_fun (-1) else
  let! _ := yield false in
  do! addTimer (wrap 32 (seconds * 1000)) in
  ret 0.

Definition usleep (usec : Z) : comp Thread Z :=
  let! en := isHookEnable in
  if negb en then call_fun (-1) else
  do! addTimer (usec / 1000) in
  let! _ := yield false in
  ret 0.

(** [tv_sec * 1000] is a signed 64-bit product; the sum converts to [uint64_t]. *)
Definition to_ms (sec sub div : Z) : outcome Z :=
  let t := sec * 1000 in
  if negb (bool_decide (in_s 64 t) && bool_decide (in_s 64 (t + Z.quot sub div))) then UB
  else Ok (wrap 64 (t + Z.quot sub div)).

Definition nanosleep (tv_sec tv_nsec : Z) : comp Thread Z :=
  let! en := isHookEnable in
  if negb en then call_fun (-1) else
  let! ms := fail (to_ms tv_sec tv_nsec 1000000) in
  do! addTimer ms in
  let! _ := yield false in
  ret 0.

(** ** Sockets *)

Definition socket : comp Thread Z :=
  let! en := isHookEnable in
  if negb en then with_fds (with_os socket_f) else
  let! fd := with_fds (with_os socket_f) in
  if fd =? -1 then ret fd else
  let! _ := with_fds (FdManager_get fd true) in
  ret fd.

(** [getsockopt] of [SO_ERROR] gives a result and the pending error. *)
Definition connectWithTimeout (so_error : Z * Z) (fd timeout : Z) : comp Thread Z :=
  let! en := isHookEnable in
  if negb en then call_fun fd else
  let! p := with_fds (FdManager_get fd false) in
  match p with
  | None => do! put_errno EBADF in ret (-1)
  | Some p =>
      let! ctx := with_fds (deref p) in
      if m_isClosed ctx then do! put_errno EBADF in ret (-1) else
      if negb (m_isSocket ctx) then call_fun fd else
      if m_userNonblock ctx then call_fun fd else
      let! n := call_fun fd in
      if n =? 0 then ret 0 else
      let! e := get errno in
      if negb (n =? -1) || negb (e =? EINPROGRESS) then ret n else
      let armed := negb (timeout =? UINT64_MAX) in
      do! (if armed then addTimer timeout else ret tt) in
      let! rt := addEvent fd WRITE in
      if negb (rt =? 0) then
        do! (if armed then log CancelTimer else ret tt) in
        fail (Throw logic_error)
      else
        let! cancelled := yield armed in
        do! (if armed then log CancelTimer else ret tt) in
        if negb (cancelled =? 0) then do! put_errno cancelled in ret (-1) else
        let '(rt, error) := so_error in
        if rt =? -1 then ret (-1) else
        if error =? 0 then ret 0 else
        do! put_errno error in
        ret (-1)
  end.

Definition connect (sockfd : Z) : comp Thread Z :=
  let! en := isHookEnable in
  if negb en then call_fun sockfd else ret 0.

Definition accept (sockfd : Z) : comp Thread Z :=
  let! fd := do_io sockfd READ SO_RCVTIMEO in
  do! (if 0 <=? fd then let! _ := with_fds (FdManager_get fd true) in ret tt else ret tt) in
  ret fd.

Definition close (fd : Z) : comp Thread Z :=
  let! en := isHookEnable in
  if negb en then with_fds (with_os (close_f fd)) else
  let! p := with_fds (FdManager_get fd false) in
  do! (match p with
       | Some _ =>
           let! iom := get in_iomanager in
           do! (if iom then log (CancelAll fd) else ret tt) in
           with_fds (FdManager_del fd)
       | None => ret tt
       end) in
  with_fds (with_os (close_f fd)).

(** ** Control *)

(** The context of a live socket, as [fcntl] and [ioctl] test it. *)
Definition live_socket (fd : Z) : comp Thread (option (nat * FdCtx)) :=
  let! p := with_fds (FdManager_get fd false) in
  match p with
  | None => ret None
  | Some p =>
      let! ctx := with_fds (deref p) in
      if m_isClosed ctx || negb (m_isSocket ctx) then ret None else ret (Some (p, ctx))
  end.

(** [arg] is the optional argument of the caller.  The commands that take one
    pass it on, the others and the unknown ones drop it. *)
Definition takes_arg (cmd : Z) : bool :=
  (* F_DUPFD, F_DUPFD_CLOEXEC, F_SETFD, F_SETOWN, F_SETSIG, F_SETLEASE, F_NOTIFY,
     F_SETPIPE_SZ, F_GETLK, F_SETLK, F_SETLKW, F_SETOWN_EX, F_GETOWN_EX *)
  bool_decide (cmd ∈ [0; 1030; 2; 8; 10; 1024; 1026; 1031; 5; 6; 7; 15; 16]).

(** Reading an argument that was not passed is undefined. *)
Definition va_arg (arg : option Z) : outcome Z := match arg with Some a => Ok a | None => UB end.

Definition fcntl (fd cmd : Z) (arg : option Z) : comp Thread Z :=
  let! en := isHookEnable in
  if negb en then with_fds (with_os (fcntl_f fd cmd None)) else
  if cmd =? F_SETFL then
    let! a := fail (va_arg arg) in
    let! ctx := live_socket fd in
    match ctx with
    | None => with_fds (with_os (fcntl_f fd cmd (Some a)))
    | Some (p, ctx) =>
        do! with_fds (update p (setUserNonblock (negb (Z.land a O_NONBLOCK =? 0)))) in
        let a := if m_sysNonblock ctx then Z.lor a O_NONBLOCK else Z.ldiff a O_NONBLOCK in
        with_fds (with_os (fcntl_f fd cmd (Some a)))
    end
  else if cmd =? F_GETFL then
    let! r := with_fds (with_os (fcntl_f fd cmd None)) in
    let! ctx := live_socket fd in
    match ctx with
    | None => ret r
    | Some (p, ctx) => ret (if m_userNonblock ctx then Z.lor r O_NONBLOCK else Z.ldiff r O_NONBLOCK)
    end
  else if takes_arg cmd then
    let! a := fail (va_arg arg) in
    with_fds (with_os (fcntl_f fd cmd (Some a)))
  else with_fds (with_os (fcntl_f fd cmd None)).

(** [arg] is the [int] the third argument points to. *)
Definition ioctl (fd request arg : Z) : comp Thread Z :=
  if request =? FIONBIO then
    let! ctx := live_socket fd in
    match ctx with
    | None => with_fds (with_os (ioctl_f fd request arg))
    | Some (p, ctx) =>
        do! with_fds (update p (setUserNonblock (negb (arg =? 0)))) in
        with_fds (with_os (ioctl_f fd request arg))
    end
  else with_fds (with_os (ioctl_f fd request arg)).

Definition getsockopt (sockfd : Z) : comp Thread Z := call_fun sockfd.

(** [tv] is the [timeval] at [optval], read for the two timeouts only. *)
Definition setsockopt (sockfd level optname : Z) (tv : Z * Z) : comp Thread Z :=
  let! en := isHookEnable in
  do! (if en && (level =? SOL_SOCKET) && ((optname =? SO_RCVTIMEO) || (optname =? SO_SNDTIMEO)) then
         let! p := with_fds (FdManager_get sockfd false) in
         match p with
         | None => ret tt
         | Some p =>
             let! ms := fail (to_ms (fst tv) (snd tv) 1000) in
             with_fds (update p (setTimeout optname ms))
         end
       else ret tt) in
  call_fun sockfd.
End Hook.

Arguments Thread OS : clear implicits.
