(* ===== verification/HookTheorems.v ===== *)
(** * HookTheorems: the descriptor table, the waits of [do_io], the user's flags *)

From stdpp Require Import base list numbers.
From S2P Require Import Prelude Words FdManager Hook.

Local Open Scope Z_scope.

Section fdmanager.
Context {OS : Type} `{OsLaws OS}.
Implicit Types s : FdManager OS.

Lemma FdCtx_ctor_Ok fd o : exists c o', FdCtx_ctor fd o = (Ok c, o').
Proof.
  unfold FdCtx_ctor. destruct (fstat_flags fd o) as [b Hb]. rewrite (bind_Ok _ _ _ _ _ Hb).
  destruct b as [[]|]; [|by eexists _, _..].
  rewrite (bind_Ok _ _ _ _ _ (fcntl_getfl fd (Some 0) o)).
  destruct (Z.land _ _ =? 0); [|by eexists _, _].
  destruct (fcntl_setfl fd (Z.lor (getfl o fd) O_NONBLOCK) o) as (r & o' & Hset & _).
  unfold bind. rewrite Hset. by eexists _, _.
Qed.

(** Inside the table, a slot can be read and written. *)
Lemma slot_inside s fd : beyond fd (m_data s) = false ->
  exists x, m_data s !! Z.to_nat fd = Some x /\ slot fd s = (Ok x, s).
Proof.
  intros Hb. unfold slot. rewrite Hb. unfold beyond in Hb. apply orb_false_iff in Hb as [Hb1 Hb2].
  bool_to_prop. destruct (lookup_lt_is_Some_2 (m_data s) (Z.to_nat fd)) as [x Hx]; [lia|].
  exists x. by rewrite Hx.
Qed.

Lemma get_false_inside s fd x : beyond fd (m_data s) = false -> m_data s !! Z.to_nat fd = Some x ->
  FdManager_get fd false s = (Ok x, s).
Proof.
  intros Hb Hx. unfold FdManager_get. rewrite bind_get, Hb. cbn [negb andb].
  destruct (slot_inside s fd Hb) as (y & Hy & Hs). rewrite (bind_Ok _ _ _ _ _ Hs). simplify_eq.
  by rewrite orb_true_r.
Qed.

Lemma set_inside s fd : beyond fd (m_data s) = false ->
  exists p s', FdManager_set fd s = (Ok p, s') /\ m_data s' = <[Z.to_nat fd := Some p]> (m_data s).
Proof.
  intros Hb. unfold FdManager_set. destruct (FdCtx_ctor_Ok fd (os s)) as (c & o' & Hc).
  rewrite (bind_Ok _ _ _ _ _ (lift_Ok os set_os _ _ _ _ Hc)), bind_get, bind_modify, bind_get.
  cbn [m_data set_heap set_os]. rewrite Hb, bind_ret_l. unfold put_slot, bind at 1.
  cbn [m_data set_heap set_os]. rewrite Hb. by eexists _, _.
Qed.

Lemma set_grows s fd : 64 <= Z.of_nat (length (m_data s)) <= fd ->
  exists p s', FdManager_set fd s = (Ok p, s') /\ FdManager_get fd false s' = (Ok (Some p), s').
Proof.
  intros Hfd. assert (beyond fd (m_data s) = true) as Hb.
  { unfold beyond. apply orb_true_iff. right. apply Z.leb_le. lia. }
  unfold FdManager_set. destruct (FdCtx_ctor_Ok fd (os s)) as (c & o' & Hc).
  rewrite (bind_Ok _ _ _ _ _ (lift_Ok os set_os _ _ _ _ Hc)), bind_get, bind_modify, bind_get.
  cbn [m_data set_heap set_os heap]. rewrite Hb. destruct (Z.ltb_spec fd 0); [lia|]. rewrite bind_modify.
  set (l := resize (Z.to_nat fd * 3 / 2) (m_data s)).
  pose proof (Nat.div_le_lower_bound (Z.to_nat fd * 3) 2 (S (Z.to_nat fd)) ltac:(lia) ltac:(lia)).
  assert (length l = Z.to_nat fd * 3 / 2)%nat as Hl.
  { unfold l, resize. rewrite length_app, length_take, length_replicate. lia. }
  assert (beyond fd l = false) as Hb'.
  { unfold beyond. apply orb_false_iff. split; [by apply Z.ltb_ge|]. apply Z.leb_gt. lia. }
  unfold put_slot, bind at 1. cbn [m_data set_heap set_os heap set_m_data]. fold l. rewrite Hb'.
  eexists _, _. split; [done|]. apply get_false_inside; cbn [m_data set_m_data].
  - unfold beyond in *. by rewrite length_insert.
  - apply list_lookup_insert_eq. lia.
Qed.

(** (bounds) the table of descriptor contexts, of at least the 64 entries it
    starts with.  Looking a descriptor up without creating never fails, [nullptr]
    standing for a descriptor out of the table; with [autoCreate] the context is
    created, found again, unknown again after [del], and no other entry changes,
    but only for a descriptor inside the table: the growth of [set] is not reached
    and a descriptor of 64 or more, like a negative one, is undefined. *)
Theorem fd_table s fd : 64 <= Z.of_nat (length (m_data s)) ->
  (exists x, FdManager_get fd false s = (Ok x, s) /\ (beyond fd (m_data s) = true -> x = None)) /\
  (beyond fd (m_data s) = true -> fst (FdManager_get fd true s) = UB) /\
  (Z.of_nat (length (m_data s)) <= fd -> exists p s',
     FdManager_set fd s = (Ok p, s') /\ FdManager_get fd false s' = (Ok (Some p), s')) /\
  (beyond fd (m_data s) = false -> exists p s',
     FdManager_get fd true s = (Ok (Some p), s') /\ FdManager_get fd false s' = (Ok (Some p), s') /\
     (forall fd', fd' <> fd -> 0 <= fd' -> m_data s' !! Z.to_nat fd' = m_data s !! Z.to_nat fd') /\
     exists s2, FdManager_del fd s' = (Ok tt, s2) /\ FdManager_get fd false s2 = (Ok None, s2)).
Proof.
  intros Hlen. split; [|split; [|split]].
  - destruct (beyond fd (m_data s)) eqn:Hb.
    + exists None. unfold FdManager_get. by rewrite bind_get, Hb.
    + destruct (slot_inside s fd Hb) as (x & Hx & _). exists x. by rewrite (get_false_inside s fd x).
  - intros Hb. unfold FdManager_get. rewrite bind_get, Hb. cbn [negb andb].
    unfold bind, slot. by rewrite Hb.
  - intros Hfd. apply set_grows. lia.
  - intros Hb. destruct (slot_inside s fd Hb) as (x & Hx & Hs).
    assert (0 <= fd) as Hpos by (unfold beyond in Hb; apply orb_false_iff in Hb as [Hb _]; by apply Z.ltb_ge).
    pose proof (lookup_lt_Some _ _ _ Hx) as Hi.
    assert (exists p s', FdManager_get fd true s = (Ok (Some p), s') /\
      m_data s' = <[Z.to_nat fd := Some p]> (m_data s)) as (p & s' & Hget & Hd).
    { unfold FdManager_get. rewrite bind_get, Hb. cbn [negb andb]. rewrite (bind_Ok _ _ _ _ _ Hs).
      destruct x as [p|]; simpl.
      - exists p, s. by rewrite list_insert_id.
      - destruct (set_inside s fd Hb) as (p & s' & Hset & Hd). exists p, s'.
        by rewrite (bind_Ok _ _ _ _ _ Hset). }
    assert (forall y, beyond fd (<[Z.to_nat fd := y]> (m_data s)) = false) as Hb'
      by (intros y; unfold beyond; by rewrite length_insert).
    exists p, s'. split_and!; [done| | |].
    + apply get_false_inside; rewrite Hd; [done|by apply list_lookup_insert_eq].
    + intros fd' Hne Hpos'. rewrite Hd. apply list_lookup_insert_ne. lia.
    + exists (set_m_data (<[Z.to_nat fd := None]> (m_data s')) s'). split.
      * unfold FdManager_del. rewrite bind_get, Hd, Hb'. unfold put_slot. by rewrite Hd, Hb'.
      * apply get_false_inside; cbn [m_data set_m_data]; rewrite Hd, list_insert_insert_eq; [done|].
        by apply list_lookup_insert_eq.
Qed.
End fdmanager.

(** ** The waits of [do_io] *)

Section do_io.
Context {OS : Type} `{Os OS}.
Implicit Types s : Thread OS.

(** What [do_io] leaves alone. *)
Definition frame s s' : Prop :=
  in_iomanager s' = in_iomanager s /\ fds s' = fds s /\ t_hookEnable s' = t_hookEnable s.

(** The results of the original function in one round: interrupted [j] times,
    then it would block; and what the round does. *)
Definition interrupted (j : nat) : list (Z * Z) := replicate j (-1, EINTR).
Definition round (j : nat) : list (Z * Z) := interrupted j ++ [(-1, EAGAIN)].

Definition timer (timeout : Z) (a : action) : list action := if timeout =? UINT64_MAX then [] else [a].

Definition round_trace (fd event timeout : Z) (j : nat) : list action :=
  replicate (S j) (SysCall fd) ++ timer timeout (AddTimer timeout) ++
  [AddEvent fd event; Yield] ++ timer timeout CancelTimer.

(** How a call ends: the original function returns [n] with [errno] [e], a wait is
    cancelled with [c], or [addEvent] refuses with [r] and leaves [errno] [e]. *)
Inductive ending : Type :=
  | Finished (j : nat) (n e : Z)
  | TimedOut (j : nat) (c : Z)
  | Refused (j : nat) (r e : Z).

Definition ending_ok (timeout : Z) (x : ending) : Prop :=
  match x with
  | Finished j n e => n <> -1 \/ (e <> EINTR /\ e <> EAGAIN)
  | TimedOut j c => c <> 0 /\ timeout <> UINT64_MAX
  | Refused j r _ => r <> 0
  end.

Definition ending_calls (x : ending) : list (Z * Z) :=
  match x with Finished j n e => interrupted j ++ [(n, e)] | TimedOut j _ | Refused j _ _ => round j end.
Definition ending_registrations (x : ending) : list (outcome Z) :=
  match x with Finished _ _ _ => [] | TimedOut _ _ => [Ok 0] | Refused _ r _ => [Ok r] end.
Definition ending_refusals (x : ending) : list Z :=
  match x with Refused _ _ e => [e] | _ => [] end.
Definition ending_wakeups (x : ending) : list Z :=
  match x with TimedOut _ c => [c] | _ => [] end.
Definition ending_trace (fd event timeout : Z) (x : ending) : list action :=
  match x with
  | Finished j _ _ => replicate (S j) (SysCall fd)
  | TimedOut j _ => round_trace fd event timeout j
  | Refused j _ _ => replicate (S j) (SysCall fd) ++ timer timeout (AddTimer timeout) ++
                   [AddEvent fd event] ++ timer timeout CancelTimer
  end.
Definition ending_result (x : ending) : Z := match x with Finished _ n _ => n | _ => -1 end.
Definition ending_errno (x : ending) : Z :=
  match x with Finished _ _ e => e | TimedOut _ c => c | Refused _ _ e => e end.

(** A state after the calls of a round. *)
Definition called s (fd : Z) (j : nat) (rest : list (Z * Z)) (err : Z) : Thread OS :=
  set_errno err (set_calls rest (set_trace (trace s ++ replicate (S j) (SysCall fd)) s)).

Lemma call_fun_spec s fd n e rest : calls s = (n, e) :: rest ->
  call_fun fd s = (Ok n, called s fd 0 rest (if n =? -1 then e else errno s)).
Proof.
  intros Hc. destruct s as [en er io f cs rs es ws tr]. simpl in Hc. subst cs. unfold called, call_fun, log, put_errno.
  simpl. unfold bind, modify, get, ret. simpl. by destruct (n =? -1).
Qed.

Lemma called_called s fd j r1 e1 r2 e2 : called (called s fd 0 r1 e1) fd j r2 e2 = called s fd (S j) r2 e2.
Proof. unfold called. destruct s. simpl. by rewrite <- app_assoc. Qed.

Lemma call_eintr_spec j : forall s fd fuel n e rest,
  calls s = interrupted j ++ (n, e) :: rest -> ~ (n = -1 /\ e = EINTR) -> (j < fuel)%nat ->
  exists err, call_eintr fuel fd s = (Ok n, called s fd j rest err) /\ (n = -1 -> err = e).
Proof.
  induction j as [|j IH]; intros s fd [|fuel] n e rest Hc Hn Hf; try lia; cbn [call_eintr].
  - rewrite (bind_Ok _ _ _ _ _ (call_fun_spec s fd n e rest Hc)), bind_get.
    exists (if n =? -1 then e else errno s). split; [|by intros ->].
    destruct (Z.eqb_spec n (-1)) as [->|]; [|done]. cbn [errno called set_errno andb].
    by destruct (Z.eqb_spec e EINTR) as [->|]; [destruct Hn|].
  - rewrite (bind_Ok _ _ _ _ _ (call_fun_spec s fd _ _ _ Hc)), bind_get. cbn [errno called set_errno andb Z.eqb Pos.eqb].
    destruct (IH (called s fd 0 (interrupted j ++ (n, e) :: rest) EINTR) fd fuel n e rest)
      as (err & Hrun & Herr); [done|done|lia|].
    exists err. split; [|done]. rewrite <- (called_called s fd j (interrupted j ++ (n, e) :: rest) EINTR). exact Hrun.
Qed.

(** One round up to the yield. *)
Definition waited s (fd event timeout : Z) (j : nat) (rest : list (Z * Z)) (rs : list (outcome Z)) (ws : list Z) : Thread OS :=
  set_errno EAGAIN (set_calls rest (set_registrations rs (set_wakeups ws
    (set_trace (trace s ++ round_trace fd event timeout j) s)))).

Definition script s (cs : list (Z * Z)) (rs : list (outcome Z)) (ws : list Z) : Prop :=
  calls s = cs /\ registrations s = rs /\ wakeups s = ws.

Definition after_wait (fuel : nat) (fd event timeout cancelled : Z) : comp (Thread OS) Z :=
  if negb (cancelled =? 0) then do! put_errno cancelled in ret (-1) else io_loop fuel fd event timeout.

(** The calls into the event loop. *)
Definition logged s (l : list action) : Thread OS := set_trace (trace s ++ l) s.

Lemma addTimer_Ok s ms : in_iomanager s = true -> addTimer ms s = (Ok tt, logged s [AddTimer ms]).
Proof. intros Hiom. unfold addTimer. by rewrite bind_get, Hiom. Qed.

Lemma addEvent_Ok s fd event rs : in_iomanager s = true -> registrations s = Ok 0 :: rs ->
  addEvent fd event s = (Ok 0, set_registrations rs (logged s [AddEvent fd event])).
Proof.
  intros Hiom Hr. unfold addEvent, log. rewrite bind_get, Hiom, bind_modify, bind_get.
  cbn [registrations set_trace]. rewrite Hr, bind_modify, bind_fail_Ok. done.
Qed.

Lemma addEvent_refused s fd event r e rs es : in_iomanager s = true -> registrations s = Ok r :: rs ->
  refusals s = e :: es -> r <> 0 ->
  addEvent fd event s = (Ok r, set_errno e (set_refusals es (set_registrations rs (logged s [AddEvent fd event])))).
Proof.
  intros Hiom Hr He Hn%Z.eqb_neq. unfold addEvent, log, put_errno. rewrite bind_get, Hiom, bind_modify, bind_get.
  cbn [registrations set_trace]. rewrite Hr, bind_modify, bind_fail_Ok, Hn, bind_get.
  cbn [refusals set_registrations set_trace]. by rewrite He, !bind_modify.
Qed.

Lemma yield_Ok s armed c ws : wakeups s = c :: ws ->
  yield armed s = (Ok (if armed then c else 0), set_wakeups ws (logged s [Yield])).
Proof.
  intros Hw. unfold yield, log. rewrite bind_modify, bind_get. cbn [wakeups set_trace]. by rewrite Hw, bind_modify.
Qed.

Lemma armed_Ok s timeout a (m : comp (Thread OS) unit) :
  m s = (Ok tt, logged s [a]) ->
  (if negb (timeout =? UINT64_MAX) then m else ret tt) s = (Ok tt, logged s (timer timeout a)).
Proof.
  intros Hm. unfold timer. destruct (timeout =? UINT64_MAX); [|done]. unfold logged. rewrite app_nil_r. by destruct s.
Qed.

Lemma round_spec s fd event timeout fuel j c rest rs ws :
  in_iomanager s = true -> script s (round j ++ rest) (Ok 0 :: rs) (c :: ws) ->
  io_loop (S fuel) fd event timeout s =
  after_wait fuel fd event timeout (if timeout =? UINT64_MAX then 0 else c) (waited s fd event timeout j rest rs ws).
Proof.
  intros Hiom (Hc & Hr & Hw). unfold round in Hc. rewrite <- app_assoc in Hc. simpl in Hc.
  cbn [io_loop]. rewrite bind_get.
  destruct (call_eintr_spec j s fd (S (length (calls s))) (-1) EAGAIN rest Hc) as (err & Hrun & Herr).
  { by intros [_ ?]. }
  { rewrite Hc, length_app. unfold interrupted. rewrite length_replicate. lia. }
  rewrite (bind_Ok _ _ _ _ _ Hrun), bind_get, (Herr eq_refl). clear Hrun Hc.
  set (s1 := called s fd j rest EAGAIN). cbn [errno called set_errno s1].
  change ((-1 =? -1) && (EAGAIN =? EAGAIN)) with true. cbv iota zeta.
  rewrite (bind_Ok _ _ _ _ _ (armed_Ok s1 timeout _ _ (addTimer_Ok s1 timeout Hiom))). set (s2 := logged s1 _).
  rewrite (bind_Ok _ _ _ _ _ (addEvent_Ok s2 fd event rs Hiom Hr)). set (s3 := set_registrations rs _).
  change (negb (0 =? 0)) with false. cbv iota.
  rewrite (bind_Ok _ _ _ _ _ (yield_Ok s3 _ c ws Hw)). set (s4 := set_wakeups ws _).
  rewrite (bind_Ok _ _ _ _ _ (armed_Ok s4 timeout CancelTimer (log CancelTimer) eq_refl)).
  assert (logged s4 (timer timeout CancelTimer) = waited s fd event timeout j rest rs ws) as ->.
  { unfold s4, s3, s2, s1, logged, called, waited, round_trace.
    destruct s as [en er io f cs rs0 es0 ws0 tr]. simpl. by rewrite <- !app_assoc. }
  unfold after_wait. by destruct (timeout =? UINT64_MAX).
Qed.
(** The last round. *)
Lemma ending_spec s fd event timeout fuel x rest rs ws es :
  in_iomanager s = true -> ending_ok timeout x ->
  script s (ending_calls x ++ rest) (ending_registrations x ++ rs) (ending_wakeups x ++ ws) ->
  refusals s = ending_refusals x ++ es ->
  exists s', io_loop (S fuel) fd event timeout s = (Ok (ending_result x), s') /\
    trace s' = trace s ++ ending_trace fd event timeout x /\ script s' rest rs ws /\ refusals s' = es /\ frame s s' /\
    (ending_result x = -1 -> errno s' = ending_errno x).
Proof.
  intros Hiom Hok Hs Hes. destruct x as [j n e|j c|j r e].
  - destruct Hs as (Hc & Hr & Hw). simpl in Hc, Hok. rewrite <- app_assoc in Hc. simpl in Hc.
    cbn [io_loop]. rewrite bind_get.
    destruct (call_eintr_spec j s fd (S (length (calls s))) n e rest Hc) as (err & Hrun & Herr).
    { intros [? ?]. destruct Hok as [?|[? ?]]; congruence. }
    { rewrite Hc, length_app. unfold interrupted. rewrite length_replicate. lia. }
    rewrite (bind_Ok _ _ _ _ _ Hrun), bind_get. exists (called s fd j rest err).
    split_and!; try done. unfold called. cbn [errno set_errno].
    destruct (Z.eqb_spec n (-1)) as [->|]; [|done]. rewrite (Herr eq_refl).
    destruct Hok as [?|[_ ?]]; [done|]. by destruct (Z.eqb_spec e EAGAIN).
  - destruct Hok as [Hc0 Ht]. apply Z.eqb_neq in Ht.
    rewrite (round_spec s fd event timeout fuel j c rest rs ws Hiom Hs), Ht. unfold after_wait.
    destruct (Z.eqb_spec c 0); [done|]. cbn [negb]. unfold put_errno. rewrite bind_modify.
    eexists. by split_and!.
  - destruct Hs as (Hc & Hr & Hw). simpl in Hc. unfold round in Hc. rewrite <- app_assoc in Hc. simpl in Hc.
    cbn [io_loop]. rewrite bind_get.
    destruct (call_eintr_spec j s fd (S (length (calls s))) (-1) EAGAIN rest Hc) as (err & Hrun & Herr).
    { by intros [_ ?]. }
    { rewrite Hc, length_app. unfold interrupted. rewrite length_replicate. lia. }
    rewrite (bind_Ok _ _ _ _ _ Hrun), bind_get, (Herr eq_refl).
    clear Hrun Hc. cbv zeta. set (s1 := called s fd j rest EAGAIN). cbn [errno called set_errno s1].
    change ((-1 =? -1) && (EAGAIN =? EAGAIN)) with true. cbv iota.
    rewrite (bind_Ok _ _ _ _ _ (armed_Ok s1 timeout _ _ (addTimer_Ok s1 timeout Hiom))). set (s2 := logged s1 _).
    rewrite (bind_Ok _ _ _ _ _ (addEvent_refused s2 fd event r e rs es Hiom Hr Hes Hok)). set (s3 := set_errno e _).
    apply Z.eqb_neq in Hok. rewrite Hok. cbn [negb].
    rewrite (bind_Ok _ _ _ _ _ (armed_Ok s3 timeout CancelTimer (log CancelTimer) eq_refl)).
    eexists. split; [reflexivity|]. split_and!; try done.
    unfold s3, s2, s1, logged, called, ending_trace. destruct s as [en er io f cs rs0 es0 ws0 tr]. simpl.
    by rewrite <- !app_assoc.
Qed.

Lemma io_loop_spec js : forall s fd event timeout fuel x rest rs ws es,
  in_iomanager s = true -> ending_ok timeout x -> (length js < fuel)%nat ->
  script s (concat (map round js) ++ ending_calls x ++ rest)
           (replicate (length js) (Ok 0) ++ ending_registrations x ++ rs)
           (replicate (length js) 0 ++ ending_wakeups x ++ ws) ->
  refusals s = ending_refusals x ++ es ->
  exists s', io_loop fuel fd event timeout s = (Ok (ending_result x), s') /\
    trace s' = trace s ++ concat (map (round_trace fd event timeout) js) ++ ending_trace fd event timeout x /\
    script s' rest rs ws /\ refusals s' = es /\ frame s s' /\ (ending_result x = -1 -> errno s' = ending_errno x).
Proof.
  induction js as [|j js IH]; intros s fd event timeout [|fuel] x rest rs ws es Hiom Hok Hfuel Hs Hes;
    cbn [length] in Hfuel; try lia; cbn [map concat length replicate app] in Hs |- *.
  - by apply ending_spec.
  - rewrite <- app_assoc in Hs.
    erewrite round_spec by done.
    replace (if timeout =? UINT64_MAX then 0 else 0) with 0 by (by destruct (timeout =? UINT64_MAX)).
    unfold after_wait. cbn [Z.eqb negb].
    edestruct IH as (s' & Hrun & Ht & Hs' & Her & Hf & He); [..|exists s'; split_and!; [exact Hrun|..]];
      [exact Hiom|exact Hok|lia|by split_and!|exact Hes| |exact Hs'|exact Her|exact Hf|exact He].
    rewrite Ht. cbn [waited trace set_errno set_calls set_registrations set_wakeups set_trace].
    by rewrite <- !app_assoc.
Qed.

(** The way of a call into the loop, and the rounds against its fuel. *)
Lemma do_io_enters s fd event soTimeout p c :
  t_hookEnable s = true -> FdManager_get fd false (fds s) = (Ok (Some p), fds s) -> heap (fds s) !! p = Some c ->
  m_isClosed c = false -> m_isSocket c = true -> m_userNonblock c = false ->
  do_io fd event soTimeout s = io_loop (S (length (calls s))) fd event (getTimeout soTimeout c) s.
Proof.
  intros Hen Hget Hheap Hcl Hso Hub. unfold do_io, isHookEnable. rewrite bind_get, Hen. cbn [negb].
  assert (forall v, v = fds s -> set_fds v s = s) as Hid by (intros v ->; by destruct s).
  assert (with_fds (FdManager_get fd false) s = (Ok (Some p), s)) as Hg
    by (unfold with_fds, lift; rewrite Hget; f_equal; by apply Hid).
  rewrite (bind_Ok _ _ _ _ _ Hg).
  assert (with_fds (deref p) s = (Ok c, s)) as Hd
    by (unfold with_fds, lift, deref; rewrite Hheap; f_equal; by apply Hid).
  by rewrite (bind_Ok _ _ _ _ _ Hd), Hcl, Hso, Hub.
Qed.

Lemma rounds_length js : (length js <= length (concat (map round js)))%nat.
Proof. induction js as [|j js IH]; simpl; [lia|]. unfold round in *. rewrite !length_app. simpl. lia. Qed.

(** C9: (liveness) a hooked call on a socket the user left blocking: through any
    number of interruptions and of rounds in which the descriptor is not ready,
    each of them arming the timeout if there is one, registering the event,
    yielding and cancelling the timer it armed, the call returns what the
    original function returns in the end, or -1 with [ETIMEDOUT] when a timer
    cancelled the wait, or -1 when the event cannot be registered, with the [errno]
    that the registration has left; nothing is returned for [EINTR] and [EAGAIN] of
    the original function themselves. *)
Theorem do_io_waits js s fd event soTimeout p c x rest rs ws es :
  t_hookEnable s = true -> in_iomanager s = true ->
  FdManager_get fd false (fds s) = (Ok (Some p), fds s) -> heap (fds s) !! p = Some c ->
  m_isClosed c = false -> m_isSocket c = true -> m_userNonblock c = false ->
  ending_ok (getTimeout soTimeout c) x ->
  script s (concat (map round js) ++ ending_calls x ++ rest)
           (replicate (length js) (Ok 0) ++ ending_registrations x ++ rs)
           (replicate (length js) 0 ++ ending_wakeups x ++ ws) ->
  refusals s = ending_refusals x ++ es ->
  exists s', do_io fd event soTimeout s = (Ok (ending_result x), s') /\
    trace s' = trace s ++ concat (map (round_trace fd event (getTimeout soTimeout c)) js) ++
                 ending_trace fd event (getTimeout soTimeout c) x /\
    script s' rest rs ws /\ refusals s' = es /\ frame s s' /\ (ending_result x = -1 -> errno s' = ending_errno x).
Proof.
  intros Hen Hiom Hget Hheap Hcl Hso Hub Hok Hs Hes. rewrite (do_io_enters s fd event soTimeout p c) by done.
  apply io_loop_spec; try done. destruct Hs as (-> & _). rewrite length_app. pose proof (rounds_length js). lia.
Qed.
End do_io.

(** ** The non-blocking flag the user sees *)

Lemma land_nonblock a : negb (Z.land a O_NONBLOCK =? 0) = Z.testbit a 11.
Proof.
  change O_NONBLOCK with (2 ^ 11). destruct (Z.testbit a 11) eqn:Ha.
  - apply negb_true_iff, Z.eqb_neq. intros E. apply (f_equal (fun z => Z.testbit z 11)) in E.
    rewrite Z.land_spec, Ha, Z.pow2_bits_true, Z.bits_0 in E by lia. done.
  - apply negb_false_iff, Z.eqb_eq. apply Z.bits_inj. intros n. rewrite Z.land_spec, Z.bits_0.
    destruct (decide (n = 11)) as [->|]; [by rewrite Ha|].
    rewrite Z.pow2_bits_false by done. by rewrite andb_false_r.
Qed.

Lemma lor_nonblock a : Z.testbit (Z.lor a O_NONBLOCK) 11 = true.
Proof. rewrite Z.lor_spec. apply orb_true_r. Qed.

Lemma ldiff_nonblock a : Z.testbit (Z.ldiff a O_NONBLOCK) 11 = false.
Proof. rewrite Z.ldiff_spec. apply andb_false_r. Qed.

Section flags.
Context {OS : Type} `{OsLaws OS}.
Implicit Types s : Thread OS.

(** [fd] is a managed socket: its context is [c]. *)
Definition managed s (fd : Z) (p : nat) (c : FdCtx) : Prop :=
  beyond fd (m_data (fds s)) = false /\ m_data (fds s) !! Z.to_nat fd = Some (Some p) /\
  heap (fds s) !! p = Some c /\ m_isClosed c = false /\ m_isSocket c = true.

Lemma live_socket_managed s fd p c : managed s fd p c -> live_socket fd s = (Ok (Some (p, c)), s).
Proof.
  intros (Hb & Hd & Hh & Hcl & Hso). unfold live_socket.
  assert (forall v, v = fds s -> set_fds v s = s) as Hid by (intros v ->; by destruct s).
  assert (with_fds (FdManager_get fd false) s = (Ok (Some p), s)) as Hg.
  { unfold with_fds, lift. rewrite (get_false_inside (fds s) fd (Some p) Hb Hd). f_equal. by apply Hid. }
  rewrite (bind_Ok _ _ _ _ _ Hg).
  assert (with_fds (deref p) s = (Ok c, s)) as Hde.
  { unfold with_fds, lift, deref. rewrite Hh. f_equal. by apply Hid. }
  by rewrite (bind_Ok _ _ _ _ _ Hde), Hcl, Hso.
Qed.

Definition kernel_nonblock s (fd : Z) : bool := Z.testbit (getfl (os (fds s)) fd) 11.

(** Updating the context of a managed socket. *)
Definition updated s (p : nat) (f : FdCtx -> FdCtx) : Thread OS :=
  set_fds (set_heap (alter f p (heap (fds s))) (fds s)) s.

Lemma ctx_update_Ok s p f : with_fds (update p f) s = (Ok tt, updated s p f).
Proof. done. Qed.

Lemma managed_updated s fd p c v o : managed s fd p c ->
  let s' := updated s p (setUserNonblock v) in
  managed (set_fds (set_os o (fds s')) s') fd p (setUserNonblock v c).
Proof.
  intros (Hb & Hd & Hh & Hcl & Hso). split_and!; try done.
  cbn. rewrite list_lookup_alter_eq, Hh. done.
Qed.

(** (functional) on a managed socket, which the library itself has made
    non-blocking, the user's view of [O_NONBLOCK] and the kernel's are apart:
    [F_SETFL] keeps the kernel's bit set whatever the user asks, and [F_GETFL]
    then reports the bit the user asked for.  [ioctl] of [FIONBIO] keeps them
    together instead: clearing it clears the kernel's bit while the socket is
    still treated as one whose calls do not block. *)
Theorem nonblock_virtualised s fd p c a :
  t_hookEnable s = true -> managed s fd p c -> m_sysNonblock c = true ->
  (exists r s1 v, fcntl fd F_SETFL (Some a) s = (Ok r, s1) /\ kernel_nonblock s1 fd = true /\
     fcntl fd F_GETFL None s1 = (Ok v, s1) /\ Z.testbit v 11 = Z.testbit a 11) /\
  (exists r s1, ioctl fd FIONBIO 0 s = (Ok r, s1) /\ kernel_nonblock s1 fd = false /\
     managed s1 fd p (setUserNonblock false c)).
Proof.
  intros Hen Hm Hsys. split.
  - set (s0 := updated s p (setUserNonblock (Z.testbit a 11))).
    destruct (fcntl_setfl fd (Z.lor a O_NONBLOCK) (os (fds s0))) as (r & o & Hset & Hbit & _).
    set (s1 := set_fds (set_os o (fds s0)) s0).
    pose proof (managed_updated s fd p c (Z.testbit a 11) o Hm) as Hm1. cbv zeta in Hm1.
    fold s0 in Hm1. fold s1 in Hm1.
    exists r, s1. eexists. split_and!.
    + unfold fcntl, isHookEnable. rewrite bind_get, Hen. cbn [negb].
      change (F_SETFL =? F_SETFL) with true. cbv iota. unfold va_arg. rewrite bind_fail_Ok.
      rewrite (bind_Ok _ _ _ _ _ (live_socket_managed s fd p c Hm)), Hsys, land_nonblock.
      rewrite (bind_Ok _ _ _ _ _ (ctx_update_Ok s p _)).
      fold s0. unfold with_fds, with_os, lift. by rewrite Hset.
    + change (Z.testbit (getfl o fd) 11 = true). rewrite Hbit. apply lor_nonblock.
    + unfold fcntl, isHookEnable. rewrite bind_get. change (t_hookEnable s1) with (t_hookEnable s). rewrite Hen. cbn [negb].
      change (F_GETFL =? F_SETFL) with false. change (F_GETFL =? F_GETFL) with true. cbv iota.
      assert (with_fds (with_os (fcntl_f fd F_GETFL None)) s1 = (Ok (getfl o fd), s1)) as Hg.
      { unfold with_fds, with_os, lift. by rewrite fcntl_getfl. }
      rewrite (bind_Ok _ _ _ _ _ Hg), (bind_Ok _ _ _ _ _ (live_socket_managed s1 fd p _ Hm1)). reflexivity.
    + cbn [m_userNonblock setUserNonblock]. destruct (Z.testbit a 11); [apply lor_nonblock|apply ldiff_nonblock].
  - set (s0 := updated s p (setUserNonblock false)).
    destruct (ioctl_fionbio fd 0 (os (fds s0))) as (r & o & Hset & Hbit & _).
    exists r, (set_fds (set_os o (fds s0)) s0). split_and!.
    + unfold ioctl. change (FIONBIO =? FIONBIO) with true. cbv iota.
      rewrite (bind_Ok _ _ _ _ _ (live_socket_managed s fd p c Hm)). cbn [negb Z.eqb].
      rewrite (bind_Ok _ _ _ _ _ (ctx_update_Ok s p _)). fold s0. unfold with_fds, with_os, lift. by rewrite Hset.
    + change (Z.testbit (getfl o fd) 11 = false). by rewrite Hbit.
    + apply (managed_updated s fd p c false o Hm).
Qed.

(** A hooked [sleep] yields before it arms its timer: when nothing else resumes
    the fiber the timer is never armed; [usleep] arms it first. *)
Lemma sleep_yields_first s seconds usec :
  t_hookEnable s = true -> in_iomanager s = true -> wakeups s = [] ->
  sleep seconds s = (Diverge, set_trace (trace s ++ [Yield]) s) /\
  usleep usec s = (Diverge, set_trace (trace s ++ [AddTimer (usec / 1000); Yield]) s).
Proof.
  intros Hen Hiom Hw. destruct s as [en er io f cs rs es ws tr]. simpl in *. subst en io ws.
  unfold sleep, usleep, isHookEnable, yield, addTimer, log, bind, get, modify, fail. simpl.
  by rewrite <- app_assoc.
Qed.

(** A hooked [connect] connects nothing. *)
Lemma connect_does_nothing s fd : t_hookEnable s = true -> connect fd s = (Ok 0, s).
Proof. intros Hen. unfold connect, isHookEnable. by rewrite bind_get, Hen. Qed.

(** [closed] is never set: no operation of the manager makes a closed context. *)
Lemma FdCtx_ctor_open fd o c o' : FdCtx_ctor fd o = (Ok c, o') -> m_isClosed c = false.
Proof.
  unfold FdCtx_ctor. intros Hc. apply bind_Ok_inv in Hc as ([[]|] & o1 & _ & Hc); [|by injection Hc as <- _..].
  apply bind_Ok_inv in Hc as (fl & o2 & _ & Hc). by apply bind_Ok_inv in Hc as ([] & o3 & _ & [= <- _]).
Qed.
End flags.

(** ** Witnesses *)

Section witnesses.

(** An operating system whose descriptors are sockets, with their flags. *)
Definition set_flags (fd v : Z) (o : Z -> Z) : Z -> Z := fun x => if x =? fd then v else o x.

#[local] Instance simple_os : Os (Z -> Z) := {|
  getfl o fd := o fd;
  fstat_socket fd := ret (Some true);
  fcntl_f fd cmd a := fun o =>
    if cmd =? F_GETFL then (Ok (o fd), o)
    else match a with
         | Some a => if cmd =? F_SETFL then (Ok 0, set_flags fd a o) else (Ok 0, o)
         | None => (UB, o)
         end;
  ioctl_f fd request v := fun o =>
    (Ok 0, set_flags fd (if v =? 0 then Z.ldiff (o fd) O_NONBLOCK else Z.lor (o fd) O_NONBLOCK) o);
  socket_f := ret 5;
  close_f fd := ret 0
|}.

#[local] Instance simple_os_laws : OsLaws (Z -> Z).
Proof.
  assert (forall fd v o, set_flags fd v o fd = v) as Hsame by (intros; unfold set_flags; by rewrite Z.eqb_refl).
  assert (forall fd v o fd', fd' <> fd -> set_flags fd v o fd' = o fd') as Hother
    by (intros fd v o fd' Hne; unfold set_flags; by destruct (Z.eqb_spec fd' fd)).
  split.
  - by eexists.
  - done.
  - intros fd a o. eexists _, _. split; [done|]. simpl. rewrite Hsame. split; [done|by apply Hother].
  - intros fd v o. eexists _, _. split; [done|]. simpl. rewrite Hsame. split; [|by apply Hother].
    destruct (v =? 0); [apply ldiff_nonblock|apply lor_nonblock].
Qed.

Definition sock : FdCtx := mkFdCtx true true true false false 5 UINT64_MAX 300.

Definition some_fds : FdManager (Z -> Z) :=
  mkFdManager (<[5%nat := Some 0%nat]> (replicate 64 None)) [sock] (fun _ => O_NONBLOCK).

Definition some_thread (cs : list (Z * Z)) (rs : list (outcome Z)) (ws : list Z) : Thread (Z -> Z) :=
  mkThread true 0 true some_fds cs rs [EBADF] ws [].

Lemma fd_table_witness :
  fst (FdManager_get 64 true some_fds) = UB /\
  exists p s', FdManager_get 7 true some_fds = (Ok (Some p), s') /\ FdManager_get 7 false s' = (Ok (Some p), s').
Proof.
  split.
  - apply (fd_table some_fds 64); [vm_compute; congruence|done].
  - destruct (fd_table some_fds 7) as (_ & _ & _ & Hin); [vm_compute; congruence|].
    destruct Hin as (p & s' & H1 & H2 & _); [done|]. by exists p, s'.
Defined.

(** A write that is interrupted, waits once and is then timed out. *)
Lemma do_io_waits_witness : exists s',
  do_io 5 WRITE SO_SNDTIMEO
    (some_thread [(-1, EINTR); (-1, EAGAIN); (-1, EAGAIN)] [Ok 0; Ok 0] [0; ETIMEDOUT]) = (Ok (-1), s') /\
  errno s' = ETIMEDOUT.
Proof.
  destruct (do_io_waits [1%nat] (some_thread [(-1, EINTR); (-1, EAGAIN); (-1, EAGAIN)] [Ok 0; Ok 0] [0; ETIMEDOUT])
              5 WRITE SO_SNDTIMEO 0 sock (TimedOut 0 ETIMEDOUT) [] [] [] [EBADF])
    as (s' & Hrun & _ & _ & _ & _ & He); try reflexivity.
  - split; by vm_compute.
  - by split_and!.
  - exists s'. split; [exact Hrun|]. by apply He.
Defined.

Lemma nonblock_virtualised_witness : exists r s1 v,
  fcntl 5 F_SETFL (Some 0) (some_thread [] [] []) = (Ok r, s1) /\ kernel_nonblock s1 5 = true /\
  fcntl 5 F_GETFL None s1 = (Ok v, s1) /\ Z.testbit v 11 = false.
Proof.
  destruct (nonblock_virtualised (some_thread [] [] []) 5 0 sock 0) as [Hf _]; [done|by split_and!|done|].
  exact Hf.
Defined.
End witnesses.
