(* ===== verification/HookRuntime.v ===== *)
(** * HookRuntime: hooked calls of a fiber, run by the runtime

    [Hook] has [do_io] with the answers of the event loop in a script, and [Runtime] has
    fibers that wait, without the calls that make them wait.  Here the calls that [do_io]
    makes into the event loop are the program of a fiber of the runtime, and what the
    script says of the event loop is what the runtime does. *)

From stdpp Require Import base list numbers gmap sets.
From S2P Require Import Prelude Words FdManager Hook HookTheorems Mutex Fiber FiberTheorems Scheduler SchedulerTheorems Timer TimerTheorems IOManager IOManagerTheorems Runtime RuntimeTheorems.

Local Open Scope Z_scope.

#[local] Notation ptr := Fiber.ptr.

(** ** Programs of hooked calls *)

(** The waits among the calls of a fiber: [addEvent] and the yield after it are the
    command [Work n]; the calls of the system return at once. *)
Fixpoint waits (n : nat) (tr : list Hook.action) : list cmd :=
  match tr with
  | [] => []
  | AddEvent _ _ :: Yield :: tr => Work n :: waits n tr
  | _ :: tr => waits n tr
  end.

(** ** Calls on one socket, one after the other *)

Section calls.
Context {OS : Type} `{Os OS}.
Context (fd event soTimeout : Z).
Implicit Types th : Hook.Thread OS.

Definition made (m : comp (Hook.Thread OS) Z) th : list Hook.action :=
  drop (length (trace th)) (trace (snd (m th))).

(** The commands of a fiber that makes [k] calls, each in the state that the one before
    left, and what the calls return. *)
Fixpoint program (n k : nat) th : list cmd :=
  match k with
  | O => []
  | S k => waits n (made (do_io fd event soTimeout) th) ++ program n k (snd (do_io fd event soTimeout th))
  end.

Fixpoint results (k : nat) th : list (outcome Z) :=
  match k with
  | O => []
  | S k => fst (do_io fd event soTimeout th) :: results k (snd (do_io fd event soTimeout th))
  end.

(** The hooks are enabled and the descriptor is an open socket that the user left
    blocking, without a timeout. *)
Definition blocking th : Prop :=
  t_hookEnable th = true /\ Hook.in_iomanager th = true /\
  exists p c, FdManager_get fd false (fds th) = (Ok (Some p), fds th) /\ FdManager.heap (fds th) !! p = Some c /\
    m_isClosed c = false /\ m_isSocket c = true /\ m_userNonblock c = false /\ getTimeout soTimeout c = UINT64_MAX.

(** The answers to a call of the original function: rounds in which it would block, each
    after some interruptions, then a result. *)
Record call : Type := mkCall {
  c_rounds : list nat;
  c_last : nat;
  c_result : Z;
  c_errno : Z
}.

Definition call_ends (c : call) : ending := Finished (c_last c) (c_result c) (c_errno c).
Definition answers (c : call) : list (Z * Z) := concat (map round (c_rounds c)) ++ ending_calls (call_ends c).
Definition blocked (cs : list call) : nat := sum_list (map (fun c => length (c_rounds c)) cs).

Lemma waits_round n j tr : waits n (round_trace fd event UINT64_MAX j ++ tr) = Work n :: waits n tr.
Proof.
  unfold round_trace, timer. rewrite Z.eqb_refl. cbn [app]. rewrite <- app_assoc.
  induction (S j) as [|k IH]; [done|exact IH].
Qed.

Lemma waits_rounds n js tr : waits n tr = [] ->
  waits n (concat (map (round_trace fd event UINT64_MAX) js) ++ tr) = replicate (length js) (Work n).
Proof.
  intros Htr. induction js as [|j js IH]; [done|]. cbn [map concat length replicate].
  by rewrite <- app_assoc, waits_round, IH.
Qed.

Lemma do_io_call th n c rest rs ws :
  blocking th -> ending_ok UINT64_MAX (call_ends c) ->
  script th (answers c ++ rest) (replicate (length (c_rounds c)) (Ok 0) ++ rs) (replicate (length (c_rounds c)) 0 ++ ws) ->
  exists th', do_io fd event soTimeout th = (Ok (c_result c), th') /\ blocking th' /\ script th' rest rs ws /\
    waits n (made (do_io fd event soTimeout) th) = replicate (length (c_rounds c)) (Work n).
Proof.
  intros (Hen & Hiom & p & x & Hget & Hheap & Hcl & Hso & Hub & Hto) Hok Hs.
  unfold answers in Hs. rewrite <- app_assoc in Hs.
  destruct (io_loop_spec (c_rounds c) th fd event UINT64_MAX (S (length (calls th))) (call_ends c) rest rs ws (refusals th) Hiom Hok)
    as (th' & Hrun & Ht & Hs' & _ & (F1 & F2 & F3) & _); [|exact Hs|done|].
  { destruct Hs as (-> & _). rewrite length_app. pose proof (rounds_length (c_rounds c)). lia. }
  rewrite <- Hto, <- (do_io_enters th fd event soTimeout p x) in Hrun by done. cbn [ending_result call_ends] in Hrun.
  exists th'. split_and!; [exact Hrun| |exact Hs'|].
  - split_and!; [congruence|congruence|]. exists p, x. by rewrite F2.
  - unfold made. rewrite Hrun. cbn [snd]. rewrite Ht, drop_app_length. apply waits_rounds.
    cbn [ending_trace call_ends]. by induction (S (c_last c)).
Qed.

Lemma program_of_calls n cs : forall th,
  blocking th -> Forall (fun c => ending_ok UINT64_MAX (call_ends c)) cs ->
  script th (flat_map answers cs) (replicate (blocked cs) (Ok 0)) (replicate (blocked cs) 0) ->
  program n (length cs) th = replicate (blocked cs) (Work n) /\ results (length cs) th = map (fun c => Ok (c_result c)) cs.
Proof.
  induction cs as [|c cs IH]; intros th Hb Hok Hs; [done|]. apply Forall_cons in Hok as [Hc Hok].
  unfold blocked in *. cbn [map sum_list flat_map length program results] in *. rewrite !replicate_add in Hs.
  destruct (do_io_call th n c _ _ _ Hb Hc Hs) as (th' & Hrun & Hb' & Hs' & Hw).
  rewrite Hw, Hrun, replicate_add. cbn [fst snd]. by destruct (IH th' Hb' Hok Hs') as [-> ->].
Qed.
End calls.

(** ** The runtime *)

Section runtime.
Context {OS K L : Type} `{Os OS, EpollLaws K, PosixLockLaws L}.
Context (cfg : Z) (io : nat -> option io_call) (code : callback -> list cmd) (sys_write : Z -> Z).
Context (i : nat) (others : gset ptr).

#[local] Notation steps := (runtime_steps cfg io code sys_write i).

(** C7: (refinement) Blocking calls of a fiber complete through the event loop.  A fiber
    makes any number of calls of one hook on a socket without a timeout that the user left
    blocking; the operating system answers each of them with any number of [EAGAIN]s and
    interruptions before it completes.  Every call returns what the operating system
    returns in the end, and never the [EAGAIN] or [EINTR] of the descriptor, which is
    non-blocking; the runtime, with an event for each time a call had to wait, takes the
    fiber through all of these calls in the steps counted by [steps_of], to what the fiber
    does after them: the waits that [do_io] asks for are those that the event loop ends. *)
Theorem hooked_calls_complete th cs (s : Runtime K L) g f n rest j d soTimeout ws clock polls :
  blocking (Z.of_nat j) soTimeout th -> Forall (fun c => ending_ok UINT64_MAX (call_ends c)) cs ->
  script th (flat_map answers cs) (replicate (blocked cs) (Ok 0)) (replicate (blocked cs) 0) ->
  at_top i others s g [f] -> f <> g -> f ∉ others ->
  pending (process (r_scheduler s)) f = Some (program (Z.of_nat j) (bit d) soTimeout n (length cs) th ++ rest) ->
  io n = Some (IoWait (Z.of_nat j) d) -> waitable (r_iomanager s) j d -> accepts (K := K) j ->
  tm_ok (r_timers s) -> Timer.timers (r_timers s) !! r_next_timer s = None ->
  length ws = blocked cs -> Forall (ends (r_timers s) j d) ws ->
  r_clock s = flat_map clock_of_wait ws ++ clock -> r_polls s = flat_map polls_of_wait ws ++ polls ->
  results (Z.of_nat j) (bit d) soTimeout (length cs) th = map (fun c => Ok (c_result c)) cs /\
  exists S' M', let s' := mkRuntime S' M' (r_timers s) (r_next_timer s) clock polls (r_waits s ++ replicate (turns_of ws) 3000) in
    steps (2 + steps_of ws) s = (Ok tt, s') /\ busy i others s' g f rest /\ waitable M' j d /\
    spares i f g (r_scheduler s) S'.
Proof.
  intros Hb Hok Hs Ht Hfg Hf Hp Hn Hwt Hacc Htm Hfree Hlen Hends Hcl Hpo.
  destruct (program_of_calls (Z.of_nat j) (bit d) soTimeout n cs th Hb Hok Hs) as [Hprog Hres]. split; [exact Hres|].
  rewrite Hprog, <- Hlen in Hp.
  destruct (top_busy cfg io code sys_write i others s g f _ Ht Hfg Hf Hp) as (S1 & Hs1 & Hb1 & Hsp1).
  destruct (wait_rounds cfg io code sys_write i others ws (set_scheduler S1 s) g f n rest j d clock polls
              Hb1 Hn Hwt Hacc Htm Hfree Hends Hcl Hpo) as (S2 & M2 & Hs2 & Hb2 & Hwt2 & Hsp2).
  exists S2, M2. cbv zeta. split_and!; [|done|done|by etrans].
  rewrite (runtime_steps_app cfg io code sys_write i 2 _ _ _ Hs1). exact Hs2.
Qed.
End runtime.

(** ** A concrete instance *)

#[local] Existing Instance simple_os.
#[local] Existing Instance simple_epoll.
#[local] Existing Instance simple_epoll_laws.
#[local] Existing Instance RuntimeTheorems.lock.
#[local] Existing Instance RuntimeTheorems.lock_laws.

(** The socket 5, without a timeout for reads. *)
Definition patient : Hook.Thread (Z -> Z) :=
  let c := mkFdCtx true true true false false 5 UINT64_MAX UINT64_MAX in
  Hook.mkThread true 0 true (mkFdManager (<[5%nat := Some 0%nat]> (replicate 64 None)) [c] (fun _ => O_NONBLOCK))
    [(-1, EINTR); (-1, EAGAIN); (12, 0); (-1, EAGAIN); (0, 0)] [Ok 0; Ok 0] [] [0; 0] [].

(** Two reads that wait once each, and what [waiting_runtime] does about them. *)
Lemma hooked_calls_complete_witness : exists s',
  results 5 Hook.READ SO_RCVTIMEO 2 patient = [Ok 12; Ok 0] /\
  runtime_steps 4096 some_io some_code some_write 0 22 waiting_runtime = (Ok tt, s') /\
  busy 0 ∅ s' 1%nat 2%nat [Work 1].
Proof.
  destruct (hooked_calls_complete 4096 some_io some_code some_write 0 ∅ patient [mkCall [1%nat] 0 12 0; mkCall [0%nat] 0 0 0]
    waiting_runtime 1%nat 2%nat 7%nat [Work 1] 5 DirRead SO_RCVTIMEO [first_wait; second_wait] [] [])
    as (Hr & S' & M' & Hs & Hb & _);
    [| | |apply some_runtime_at_top|done|set_solver|by vm_compute|reflexivity|exact some_iom_waitable|exact (simple_epoll_accepts 5)
    |exact tm2_ok|by vm_compute|done| |by vm_compute|by vm_compute|].
  - split_and!; [done|done|]. do 2 eexists. by split_and!.
  - by repeat (constructor; [by left|]).
  - by split_and!.
  - constructor; [|constructor; [|constructor]].
    + split_and!; [repeat constructor|repeat constructor|reflexivity|reflexivity].
    + split_and!; [repeat constructor|repeat constructor|reflexivity|reflexivity].
  - eexists. split; [exact Hr|]. split; [exact Hs|exact Hb].
Defined.
