(* ===== verification/Http.v ===== *)
(** * Http: requests, responses and their text

    Models [cczoecpp/Net/Http/http.h] and [http.cpp]: the method and status maps,
    the case-insensitive maps of the headers, [HttpRequest] and [HttpResponse] with
    their accessors, and [dump].

    A [HttpMethod] or [HttpStatus] is its number: both enumerations are also made by
    casts of numbers that need not be in the map. *)

From stdpp Require Import base list numbers strings pretty.
From Stdlib Require Import Ascii String.
From S2P Require Import Prelude Words.

Local Open Scope string_scope.
Local Open Scope Z_scope.

(** ** Methods and status codes *)

(** [HTTP_METHOD_MAP]: number and text; the names are the texts, but for
    [MSEARCH] and [M-SEARCH]. *)
Definition HTTP_METHOD_MAP : list (Z * string) :=
  [(0, "DELETE"); (1, "GET"); (2, "HEAD"); (3, "POST");
   (4, "PUT"); (5, "CONNECT"); (6, "OPTIONS"); (7, "TRACE");
   (8, "COPY"); (9, "LOCK"); (10, "MKCOL"); (11, "MOVE");
   (12, "PROPFIND"); (13, "PROPPATCH"); (14, "SEARCH"); (15, "UNLOCK");
   (16, "BIND"); (17, "REBIND"); (18, "UNBIND"); (19, "ACL");
   (20, "REPORT"); (21, "MKACTIVITY"); (22, "CHECKOUT"); (23, "MERGE");
   (24, "M-SEARCH"); (25, "NOTIFY"); (26, "SUBSCRIBE"); (27, "UNSUBSCRIBE");
   (28, "PATCH"); (29, "PURGE"); (30, "MKCALENDAR"); (31, "LINK");
   (32, "UNLINK"); (33, "SOURCE")].

Definition HTTP_STATUS_MAP : list (Z * string) :=
  [(100, "Continue"); (101, "Switching Protocols"); (102, "Processing");
   (200, "OK"); (201, "Created"); (202, "Accepted");
   (203, "Non-Authoritative Information"); (204, "No Content"); (205, "Reset Content");
   (206, "Partial Content"); (207, "Multi-Status"); (208, "Already Reported");
   (226, "IM Used"); (300, "Multiple Choices"); (301, "Moved Permanently");
   (302, "Found"); (303, "See Other"); (304, "Not Modified");
   (305, "Use Proxy"); (307, "Temporary Redirect"); (308, "Permanent Redirect");
   (400, "Bad Request"); (401, "Unauthorized"); (402, "Payment Required");
   (403, "Forbidden"); (404, "Not Found"); (405, "Method Not Allowed");
   (406, "Not Acceptable"); (407, "Proxy Authentication Required"); (408, "Request Timeout");
   (409, "Conflict"); (410, "Gone"); (411, "Length Required");
   (412, "Precondition Failed"); (413, "Payload Too Large"); (414, "URI Too Long");
   (415, "Unsupported Media Type"); (416, "Range Not Satisfiable"); (417, "Expectation Failed");
   (421, "Misdirected Request"); (422, "Unprocessable Entity"); (423, "Locked");
   (424, "Failed Dependency"); (426, "Upgrade Required"); (428, "Precondition Required");
   (429, "Too Many Requests"); (431, "Request Header Fields Too Large"); (451, "Unavailable For Legal Reasons");
   (500, "Internal Server Error"); (501, "Not Implemented"); (502, "Bad Gateway");
   (503, "Service Unavailable"); (504, "Gateway Timeout"); (505, "HTTP Version Not Supported");
   (506, "Variant Also Negotiates"); (507, "Insufficient Storage"); (508, "Loop Detected");
   (510, "Not Extended"); (511, "Network Authentication Required")].

Definition HttpMethod : Type := Z.
Definition HttpStatus : Type := Z.
Definition DELETE : HttpMethod := 0.
Definition GET : HttpMethod := 1.
Definition CONNECT : HttpMethod := 5.
Definition OK : HttpStatus := 200.

(** The chains of [if]s that the macros expand to. *)
Fixpoint text_of (n : Z) (l : list (Z * string)) : option string :=
  match l with
  | [] => None
  | (m, s) :: l => if n =? m then Some s else text_of n l
  end.

Fixpoint number_of (s : string) (l : list (Z * string)) : option Z :=
  match l with
  | [] => None
  | (m, t) :: l => if String.eqb s t then Some m else number_of s l
  end.

Definition or_throw {A} (x : option A) : outcome A :=
  match x with Some a => Ok a | None => Throw invalid_argument end.

Definition stringToHttpMethod (method : string) : outcome HttpMethod := or_throw (number_of method HTTP_METHOD_MAP).
Definition httpMethodToString (method : HttpMethod) : outcome string := or_throw (text_of method HTTP_METHOD_MAP).
Definition httpStatusToString (status : HttpStatus) : outcome string := or_throw (text_of status HTTP_STATUS_MAP).

(** ** Case-insensitive maps *)

(** The bytes [strcasecmp] compares: up to the terminating zero, letters in lower
    case. *)
Definition tolower (c : ascii) : nat :=
  let n := nat_of_ascii c in if ((65 <=? n) && (n <=? 90))%nat then (n + 32)%nat else n.

Fixpoint casefold (s : string) : list nat :=
  match s with
  | EmptyString => []
  | String c s => if (nat_of_ascii c =? 0)%nat then [] else tolower c :: casefold s
  end.

Fixpoint lex_lt (x y : list nat) : bool :=
  match x, y with
  | [], [] => false
  | [], _ => true
  | _, [] => false
  | a :: x, b :: y => if (a =? b)%nat then lex_lt x y else (a <? b)%nat
  end.

Definition CaseInsensitiveLess (lhs rhs : string) : bool := lex_lt (casefold lhs) (casefold rhs).

(** [std::map] with that order, as its entries in order.  Two keys are the same
    when neither is less. *)
Definition MapType : Type := list (string * string).

Definition same_key (x y : string) : bool := negb (CaseInsensitiveLess x y) && negb (CaseInsensitiveLess y x).

Fixpoint map_find (k : string) (m : MapType) : option string :=
  match m with
  | [] => None
  | (x, v) :: m =>
      if CaseInsensitiveLess x k then map_find k m
      else if CaseInsensitiveLess k x then None else Some v
  end.

(** [m[key] = value]: an entry that is there keeps the spelling of its key. *)
Fixpoint map_set (k v : string) (m : MapType) : MapType :=
  match m with
  | [] => [(k, v)]
  | (x, w) :: m' =>
      if CaseInsensitiveLess x k then (x, w) :: map_set k v m'
      else if CaseInsensitiveLess k x then (k, v) :: m else (x, v) :: m'
  end.

Fixpoint map_erase (k : string) (m : MapType) : MapType :=
  match m with
  | [] => []
  | (x, w) :: m' =>
      if CaseInsensitiveLess x k then (x, w) :: map_erase k m'
      else if CaseInsensitiveLess k x then m else m'
  end.

Definition map_count (k : string) (m : MapType) : bool := bool_decide (is_Some (map_find k m)).

(** ** Requests *)

(** [m_status] is not initialised by the constructor. *)
Record HttpRequest : Type := mkHttpRequest {
  m_method : HttpMethod;
  m_status : option HttpStatus;
  m_version : Z;
  m_close : bool;
  m_path : string;
  m_query : string;
  m_fragment : string;
  m_body : string;
  m_headers : MapType;
  m_params : MapType;
  m_cookies : MapType
}.

Definition HttpRequest_ctor (version : Z) (close : bool) : HttpRequest :=
  mkHttpRequest GET None version close "/" EmptyString EmptyString EmptyString [] [] [].

Definition getHeader (r : HttpRequest) (key : string) : option string := map_find key (m_headers r).
Definition getParam (r : HttpRequest) (key : string) : option string := map_find key (m_params r).
Definition getCookie (r : HttpRequest) (key : string) : option string := map_find key (m_cookies r).

Definition setMethod (v : HttpMethod) (r : HttpRequest) : HttpRequest :=
  mkHttpRequest v (m_status r) (m_version r) (m_close r) (m_path r) (m_query r) (m_fragment r) (m_body r) (m_headers r) (m_params r) (m_cookies r).
Definition setVersion (v : Z) (r : HttpRequest) : HttpRequest :=
  mkHttpRequest (m_method r) (m_status r) v (m_close r) (m_path r) (m_query r) (m_fragment r) (m_body r) (m_headers r) (m_params r) (m_cookies r).
Definition setPath (v : string) (r : HttpRequest) : HttpRequest :=
  mkHttpRequest (m_method r) (m_status r) (m_version r) (m_close r) v (m_query r) (m_fragment r) (m_body r) (m_headers r) (m_params r) (m_cookies r).
Definition setQuery (v : string) (r : HttpRequest) : HttpRequest :=
  mkHttpRequest (m_method r) (m_status r) (m_version r) (m_close r) (m_path r) v (m_fragment r) (m_body r) (m_headers r) (m_params r) (m_cookies r).
Definition setFragment (v : string) (r : HttpRequest) : HttpRequest :=
  mkHttpRequest (m_method r) (m_status r) (m_version r) (m_close r) (m_path r) (m_query r) v (m_body r) (m_headers r) (m_params r) (m_cookies r).
Definition setBody (v : string) (r : HttpRequest) : HttpRequest :=
  mkHttpRequest (m_method r) (m_status r) (m_version r) (m_close r) (m_path r) (m_query r) (m_fragment r) v (m_headers r) (m_params r) (m_cookies r).
Definition setHeaders (v : MapType) (r : HttpRequest) : HttpRequest :=
  mkHttpRequest (m_method r) (m_status r) (m_version r) (m_close r) (m_path r) (m_query r) (m_fragment r) (m_body r) v (m_params r) (m_cookies r).

Definition setStatus (v : HttpStatus) (r : HttpRequest) : HttpRequest :=
  mkHttpRequest (m_method r) (Some v) (m_version r) (m_close r) (m_path r) (m_query r) (m_fragment r) (m_body r) (m_headers r) (m_params r) (m_cookies r).
Definition setClose (v : bool) (r : HttpRequest) : HttpRequest :=
  mkHttpRequest (m_method r) (m_status r) (m_version r) v (m_path r) (m_query r) (m_fragment r) (m_body r) (m_headers r) (m_params r) (m_cookies r).
Definition setParams (v : MapType) (r : HttpRequest) : HttpRequest :=
  mkHttpRequest (m_method r) (m_status r) (m_version r) (m_close r) (m_path r) (m_query r) (m_fragment r) (m_body r) (m_headers r) v (m_cookies r).
Definition setCookies (v : MapType) (r : HttpRequest) : HttpRequest :=
  mkHttpRequest (m_method r) (m_status r) (m_version r) (m_close r) (m_path r) (m_query r) (m_fragment r) (m_body r) (m_headers r) (m_params r) v.

Definition setHeader (key value : string) (r : HttpRequest) : HttpRequest := setHeaders (map_set key value (m_headers r)) r.
Definition setParam (key value : string) (r : HttpRequest) : HttpRequest := setParams (map_set key value (m_params r)) r.
Definition setCookie (key value : string) (r : HttpRequest) : HttpRequest := setCookies (map_set key value (m_cookies r)) r.
Definition delHeader (key : string) (r : HttpRequest) : HttpRequest := setHeaders (map_erase key (m_headers r)) r.
Definition delParam (key : string) (r : HttpRequest) : HttpRequest := setParams (map_erase key (m_params r)) r.
Definition delCookie (key : string) (r : HttpRequest) : HttpRequest := setCookies (map_erase key (m_cookies r)) r.

(** ** Text *)

(** Writing to a stream, and the text of a [uint32_t] or a size. *)
Definition emit (s : string) : comp string unit := modify (fun os => os ++ s).
Definition num (z : Z) : string := pretty (Z.to_N z).

Definition crlf : string := String (ascii_of_nat 13) (String (ascii_of_nat 10) EmptyString).

Definition is_empty (s : string) : bool := match s with EmptyString => true | _ => false end.

Definition version_text (version : Z) : string :=
  "HTTP/" ++ num (Z.shiftr version 4) ++ "." ++ num (Z.land version 0x0F).

Fixpoint emit_headers (m : MapType) : comp string unit :=
  match m with
  | [] => ret tt
  | (k, v) :: m => do! emit (k ++ ": " ++ v ++ crlf) in emit_headers m
  end.

(** [HttpRequest::dump] *)
Definition HttpRequest_dump (r : HttpRequest) : comp string unit :=
  let! m := fail (httpMethodToString (m_method r)) in
  do! emit (m ++ " " ++ m_path r) in
  do! (if is_empty (m_query r) then ret tt else emit ("?" ++ m_query r)) in
  do! (if is_empty (m_fragment r) then ret tt else emit ("#" ++ m_fragment r)) in
  do! emit (" " ++ version_text (m_version r) ++ crlf) in
  do! emit (if m_close r then "connection: close" ++ crlf else "connection: keep-alive" ++ crlf) in
  do! emit_headers (m_headers r) in
  if is_empty (m_body r) then emit crlf else
  if map_count "Content-Length" (m_headers r) then emit (crlf ++ m_body r) else
  emit ("Content-Length: " ++ num (Z.of_nat (String.length (m_body r))) ++ crlf ++ crlf ++ m_body r).

(** ** Responses *)

Module Response.
Record HttpResponse : Type := mkHttpResponse {
  m_status : HttpStatus;
  m_version : Z;
  m_close : bool;
  m_body : string;
  m_reason : string;
  m_headers : MapType
}.

Definition HttpResponse_ctor (version : Z) (close : bool) : HttpResponse :=
  mkHttpResponse OK version close EmptyString EmptyString [].

Definition getHeader (r : HttpResponse) (key : string) : option string := map_find key (m_headers r).

Definition setStatus (v : HttpStatus) (r : HttpResponse) : HttpResponse :=
  mkHttpResponse v (m_version r) (m_close r) (m_body r) (m_reason r) (m_headers r).
Definition setBody (v : string) (r : HttpResponse) : HttpResponse :=
  mkHttpResponse (m_status r) (m_version r) (m_close r) v (m_reason r) (m_headers r).
Definition setVersion (v : Z) (r : HttpResponse) : HttpResponse :=
  mkHttpResponse (m_status r) v (m_close r) (m_body r) (m_reason r) (m_headers r).
Definition setClose (v : bool) (r : HttpResponse) : HttpResponse :=
  mkHttpResponse (m_status r) (m_version r) v (m_body r) (m_reason r) (m_headers r).
Definition setReason (v : string) (r : HttpResponse) : HttpResponse :=
  mkHttpResponse (m_status r) (m_version r) (m_close r) (m_body r) v (m_headers r).
Definition setHeaders (v : MapType) (r : HttpResponse) : HttpResponse :=
  mkHttpResponse (m_status r) (m_version r) (m_close r) (m_body r) (m_reason r) v.
Definition setHeader (key value : string) (r : HttpResponse) : HttpResponse :=
  mkHttpResponse (m_status r) (m_version r) (m_close r) (m_body r) (m_reason r) (map_set key value (m_headers r)).

Definition delHeader (key : string) (r : HttpResponse) : HttpResponse :=
  mkHttpResponse (m_status r) (m_version r) (m_close r) (m_body r) (m_reason r) (map_erase key (m_headers r)).

(** [HttpResponse::dump]: the text goes out from left to right, so that an unknown
    status throws after the beginning of the status line. *)
Definition HttpResponse_dump (r : HttpResponse) : comp string unit :=
  do! emit (version_text (m_version r) ++ " " ++ num (wrap 32 (m_status r)) ++ " ") in
  let! s := fail (httpStatusToString (m_status r)) in
  do! emit (s ++ crlf) in
  do! (if map_count "connection" (m_headers r) then ret tt
       else emit (if m_close r then "Connection: close" ++ crlf else "Connection: keep-alive" ++ crlf)) in
  do! emit_headers (m_headers r) in
  if is_empty (m_body r) then emit crlf else
  emit ("content-length: " ++ num (Z.of_nat (String.length (m_body r))) ++ crlf ++ crlf ++ m_body r).
End Response.

(** [getAs]: the conversion is [boost::lexical_cast], [None] standing for the
    exception it throws. *)
Definition getAs {T : Type} (lexical_cast : string -> option T) (m : MapType) (key : string) : option T :=
  match map_find key m with
  | Some v => lexical_cast v
  | None => None
  end.
