(* ===== verification/ParserTexts.v ===== *)
(** * ParserTexts: the texts of the parser's codes

    Models the tables [HTTP_STATUS_MAP] and [HTTP_ERRNO_MAP] of
    [cczoecpp/Net/Http/parser/http_parser.h] with the functions of [http_parser.cpp]
    that look codes up in them.  The enumeration [http_status] and the table
    [http_strerror_tab] are made by the macros from the same rows. *)

From stdpp Require Import base list numbers sets strings.
From S2P Require Import Prelude ParserTables Http.

Local Open Scope Z_scope.

(** Number, name and text of each status. *)
Definition http_status : list (Z * (string * string)) :=
  [(100, ("CONTINUE", "Continue"));
   (101, ("SWITCHING_PROTOCOLS", "Switching Protocols"));
   (102, ("PROCESSING", "Processing"));
   (200, ("OK", "OK"));
   (201, ("CREATED", "Created"));
   (202, ("ACCEPTED", "Accepted"));
   (203, ("NON_AUTHORITATIVE_INFORMATION", "Non-Authoritative Information"));
   (204, ("NO_CONTENT", "No Content"));
   (205, ("RESET_CONTENT", "Reset Content"));
   (206, ("PARTIAL_CONTENT", "Partial Content"));
   (207, ("MULTI_STATUS", "Multi-Status"));
   (208, ("ALREADY_REPORTED", "Already Reported"));
   (226, ("IM_USED", "IM Used"));
   (300, ("MULTIPLE_CHOICES", "Multiple Choices"));
   (301, ("MOVED_PERMANENTLY", "Moved Permanently"));
   (302, ("FOUND", "Found"));
   (303, ("SEE_OTHER", "See Other"));
   (304, ("NOT_MODIFIED", "Not Modified"));
   (305, ("USE_PROXY", "Use Proxy"));
   (307, ("TEMPORARY_REDIRECT", "Temporary Redirect"));
   (308, ("PERMANENT_REDIRECT", "Permanent Redirect"));
   (400, ("BAD_REQUEST", "Bad Request"));
   (401, ("UNAUTHORIZED", "Unauthorized"));
   (402, ("PAYMENT_REQUIRED", "Payment Required"));
   (403, ("FORBIDDEN", "Forbidden"));
   (404, ("NOT_FOUND", "Not Found"));
   (405, ("METHOD_NOT_ALLOWED", "Method Not Allowed"));
   (406, ("NOT_ACCEPTABLE", "Not Acceptable"));
   (407, ("PROXY_AUTHENTICATION_REQUIRED", "Proxy Authentication Required"));
   (408, ("REQUEST_TIMEOUT", "Request Timeout"));
   (409, ("CONFLICT", "Conflict"));
   (410, ("GONE", "Gone"));
   (411, ("LENGTH_REQUIRED", "Length Required"));
   (412, ("PRECONDITION_FAILED", "Precondition Failed"));
   (413, ("PAYLOAD_TOO_LARGE", "Payload Too Large"));
   (414, ("URI_TOO_LONG", "URI Too Long"));
   (415, ("UNSUPPORTED_MEDIA_TYPE", "Unsupported Media Type"));
   (416, ("RANGE_NOT_SATISFIABLE", "Range Not Satisfiable"));
   (417, ("EXPECTATION_FAILED", "Expectation Failed"));
   (421, ("MISDIRECTED_REQUEST", "Misdirected Request"));
   (422, ("UNPROCESSABLE_ENTITY", "Unprocessable Entity"));
   (423, ("LOCKED", "Locked"));
   (424, ("FAILED_DEPENDENCY", "Failed Dependency"));
   (426, ("UPGRADE_REQUIRED", "Upgrade Required"));
   (428, ("PRECONDITION_REQUIRED", "Precondition Required"));
   (429, ("TOO_MANY_REQUESTS", "Too Many Requests"));
   (431, ("REQUEST_HEADER_FIELDS_TOO_LARGE", "Request Header Fields Too Large"));
   (451, ("UNAVAILABLE_FOR_LEGAL_REASONS", "Unavailable For Legal Reasons"));
   (500, ("INTERNAL_SERVER_ERROR", "Internal Server Error"));
   (501, ("NOT_IMPLEMENTED", "Not Implemented"));
   (502, ("BAD_GATEWAY", "Bad Gateway"));
   (503, ("SERVICE_UNAVAILABLE", "Service Unavailable"));
   (504, ("GATEWAY_TIMEOUT", "Gateway Timeout"));
   (505, ("HTTP_VERSION_NOT_SUPPORTED", "HTTP Version Not Supported"));
   (506, ("VARIANT_ALSO_NEGOTIATES", "Variant Also Negotiates"));
   (507, ("INSUFFICIENT_STORAGE", "Insufficient Storage"));
   (508, ("LOOP_DETECTED", "Loop Detected"));
   (510, ("NOT_EXTENDED", "Not Extended"));
   (511, ("NETWORK_AUTHENTICATION_REQUIRED", "Network Authentication Required"))].

(** The switch that the macro makes. *)
Fixpoint status_switch (s : Z) (rows : list (Z * (string * string))) : string :=
  match rows with
  | [] => "<unknown>"
  | (num, (_, text)) :: rows => if s =? num then text else status_switch s rows
  end.

Definition http_status_str (s : Z) : string := status_switch s http_status.

(** Name and description of each error, in the order of the enumeration. *)
Definition http_strerror_tab : list (string * string) :=
  [("HPE_OK", "success");
   ("HPE_CB_message_begin", "the on_message_begin callback failed");
   ("HPE_CB_url", "the on_url callback failed");
   ("HPE_CB_header_field", "the on_header_field callback failed");
   ("HPE_CB_header_value", "the on_header_value callback failed");
   ("HPE_CB_headers_complete", "the on_headers_complete callback failed");
   ("HPE_CB_body", "the on_body callback failed");
   ("HPE_CB_message_complete", "the on_message_complete callback failed");
   ("HPE_CB_status", "the on_status callback failed");
   ("HPE_CB_chunk_header", "the on_chunk_header callback failed");
   ("HPE_CB_chunk_complete", "the on_chunk_complete callback failed");
   ("HPE_INVALID_EOF_STATE", "stream ended at an unexpected time");
   ("HPE_HEADER_OVERFLOW", "too many header bytes seen; overflow detected");
   ("HPE_CLOSED_CONNECTION", "data received after completed connection: close message");
   ("HPE_INVALID_VERSION", "invalid HTTP version");
   ("HPE_INVALID_STATUS", "invalid HTTP status code");
   ("HPE_INVALID_METHOD", "invalid HTTP method");
   ("HPE_INVALID_URL", "invalid URL");
   ("HPE_INVALID_HOST", "invalid host");
   ("HPE_INVALID_PORT", "invalid port");
   ("HPE_INVALID_PATH", "invalid path");
   ("HPE_INVALID_QUERY_STRING", "invalid query string");
   ("HPE_INVALID_FRAGMENT", "invalid fragment");
   ("HPE_LF_EXPECTED", "LF character expected");
   ("HPE_INVALID_HEADER_TOKEN", "invalid character in header");
   ("HPE_INVALID_CONTENT_LENGTH", "invalid character in content-length header");
   ("HPE_UNEXPECTED_CONTENT_LENGTH", "unexpected content-length header");
   ("HPE_INVALID_CHUNK_SIZE", "invalid character in chunk size header");
   ("HPE_INVALID_CONSTANT", "invalid constant string");
   ("HPE_INVALID_INTERNAL_STATE", "encountered unexpected internal state");
   ("HPE_STRICT", "strict mode assertion failed");
   ("HPE_PAUSED", "parser is paused");
   ("HPE_UNKNOWN", "an unknown error occurred");
   ("HPE_INVALID_TRANSFER_ENCODING", "request has invalid transfer-encoding")].

(** [assert(err < ARRAY_SIZE(http_strerror_tab))], on any number. *)
Definition strerror_entry (err : Z) : outcome (string * string) :=
  if 0 <=? err then
    match http_strerror_tab !! Z.to_nat err with Some e => Ok e | None => Abort end
  else Abort.

Definition http_errno_name (err : http_errno) : outcome string :=
  match strerror_entry (errno_num err) with Ok e => Ok (fst e) | _ => Abort end.
Definition http_errno_description (err : http_errno) : outcome string :=
  match strerror_entry (errno_num err) with Ok e => Ok (snd e) | _ => Abort end.

(** [http_parser_set_max_header_size], on the global variable; the parameter is
    unsigned of 32 bits. *)
Definition http_parser_set_max_header_size (size : Z) : comp Z unit := modify (fun _ => size mod 2 ^ 32).

(** ** Theorems *)

(** Every error has a name and a description, and no two the same. *)
Lemma http_errno_name_total err : exists n d, http_errno_name err = Ok n /\ http_errno_description err = Ok d.
Proof. destruct err; do 2 eexists; split; reflexivity. Qed.

Definition all_errors : list http_errno :=
  [HPE_OK; HPE_CB_message_begin; HPE_CB_url;
   HPE_CB_header_field; HPE_CB_header_value; HPE_CB_headers_complete;
   HPE_CB_body; HPE_CB_message_complete; HPE_CB_status;
   HPE_CB_chunk_header; HPE_CB_chunk_complete; HPE_INVALID_EOF_STATE;
   HPE_HEADER_OVERFLOW; HPE_CLOSED_CONNECTION; HPE_INVALID_VERSION;
   HPE_INVALID_STATUS; HPE_INVALID_METHOD; HPE_INVALID_URL;
   HPE_INVALID_HOST; HPE_INVALID_PORT; HPE_INVALID_PATH;
   HPE_INVALID_QUERY_STRING; HPE_INVALID_FRAGMENT; HPE_LF_EXPECTED;
   HPE_INVALID_HEADER_TOKEN; HPE_INVALID_CONTENT_LENGTH; HPE_UNEXPECTED_CONTENT_LENGTH;
   HPE_INVALID_CHUNK_SIZE; HPE_INVALID_CONSTANT; HPE_INVALID_INTERNAL_STATE;
   HPE_STRICT; HPE_PAUSED; HPE_UNKNOWN;
   HPE_INVALID_TRANSFER_ENCODING].

(** The first error of a name, and of a description. *)
Definition errno_of (f : http_errno -> outcome string) (n : string) : option http_errno :=
  find (fun e => match f e with Ok m => String.eqb n m | _ => false end) all_errors.

Lemma http_errno_name_inj e1 e2 : http_errno_name e1 = http_errno_name e2 -> e1 = e2.
Proof.
  assert (forall e, match http_errno_name e with Ok n => errno_of http_errno_name n | _ => None end = Some e) as H
    by (intros []; vm_compute; reflexivity).
  intros He. pose proof (H e1) as H1. rewrite He, (H e2) in H1. by injection H1.
Qed.

Lemma http_errno_description_inj e1 e2 : http_errno_description e1 = http_errno_description e2 -> e1 = e2.
Proof.
  assert (forall e, match http_errno_description e with Ok n => errno_of http_errno_description n | _ => None end = Some e) as H
    by (intros []; vm_compute; reflexivity).
  intros He. pose proof (H e1) as H1. rewrite He, (H e2) in H1. by injection H1.
Qed.

(** The parser and the messages of the server know the same statuses by the same
    texts; on another number the one gives a default and the other throws. *)
Lemma status_texts_agree s :
  httpStatusToString s =
  if decide (s ∈ map fst http_status) then Ok (http_status_str s) else Throw invalid_argument.
Proof.
  assert (HTTP_STATUS_MAP = map (fun r => (fst r, snd (snd r))) http_status) as Hm by reflexivity.
  unfold httpStatusToString, http_status_str. rewrite Hm. generalize http_status as rows.
  induction rows as [|[num [name t]] rows IH]; [done|]. cbn [text_of map fst snd status_switch].
  destruct (Z.eqb_spec s num) as [->|Hs].
  - rewrite decide_True by set_solver. done.
  - rewrite IH. destruct (decide (s ∈ map fst rows)) as [Hin|Hin].
    + by rewrite decide_True by set_solver.
    + by rewrite decide_False by set_solver.
Qed.

Lemma http_status_str_unknown s : s ∉ map fst http_status -> http_status_str s = "<unknown>".
Proof.
  unfold http_status_str. generalize http_status as rows.
  induction rows as [|[num [name t]] rows IH]; [done|]. cbn [map fst status_switch]. intros Hs.
  destruct (Z.eqb_spec s num) as [->|]; [set_solver|]. apply IH. set_solver.
Qed.
