(* ===== verification/Socket.v ===== *)
(** * Socket: the socket object

    Models [cczoecpp/Net/Socket/socket.h] and [socket.cpp].  The system calls,
    most of them hooked ([Hook.v]), the descriptor table and the running
    [IOManager] are a parameter, the class [Net]; failures are only logged by the
    code, so that [errno] and the log lines are left out. *)

From stdpp Require Import base list numbers.
From S2P Require Import Prelude Words Address.

Local Open Scope Z_scope.

Definition SOCK_STREAM : Z := 1.
Definition SOCK_DGRAM : Z := 2.
Definition SOL_SOCKET : Z := 1.
Definition SO_REUSEADDR : Z := 2.
Definition SO_ERROR : Z := 4.
Definition SO_RCVTIMEO : Z := 20.
Definition SO_SNDTIMEO : Z := 21.
Definition IPPROTO_TCP : Z := 6.
Definition TCP_NODELAY : Z := 1.
Definition SOMAXCONN : Z := 4096.

(** What [FdMgr::get] tells of a descriptor: whether it is a socket that is not
    closed, and its two timeouts. *)
Record fd_info : Type := mkFdInfo { fi_open_socket : bool; fi_recv : Z; fi_send : Z }.

(** The calls, by descriptor.  A call that fills an address gets the default one
    and gives its result, the address and the length; the ones that receive give
    the result and the bytes stored. *)
Class Net (N : Type) := {
  fd_get : Z -> comp N (option fd_info);
  sys_socket : Z -> Z -> Z -> comp N Z;
  sys_accept : Z -> comp N Z;
  sys_bind : Z -> Address -> comp N Z;
  sys_connect : Z -> Address -> comp N Z;
  sys_connectWithTimeout : Z -> Address -> Z -> comp N Z;
  sys_listen : Z -> Z -> comp N Z;
  sys_close : Z -> comp N Z;
  sys_setsockopt : Z -> Z -> Z -> list Z -> comp N Z;
  sys_getsockopt : Z -> Z -> Z -> comp N (Z * list Z);
  sys_getpeername : Z -> Address -> comp N (Z * Address * nat);
  sys_getsockname : Z -> Address -> comp N (Z * Address * nat);
  sys_send : Z -> list Z -> Z -> comp N Z;
  sys_sendto : Z -> list Z -> Z -> Address -> comp N Z;
  sys_recv : Z -> nat -> Z -> comp N (Z * list Z);
  sys_recvfrom : Z -> nat -> Z -> Address -> comp N (Z * list Z * Address);
  iom_cancelEvent : Z -> Z -> comp N Z;
  iom_cancelAll : Z -> comp N Z
}.

Section Socket.
Context {N : Type} `{Net N}.

Record Socket : Type := mkSocket {
  m_sock : Z;
  m_family : Z;
  m_type : Z;
  m_protocol : Z;
  m_isConnected : bool;
  m_localAddress : option Address;
  m_remoteAddress : option Address;
  net : N
}.

Definition set_m_sock (v : Z) (s : Socket) : Socket :=
  mkSocket v (m_family s) (m_type s) (m_protocol s) (m_isConnected s) (m_localAddress s) (m_remoteAddress s) (net s).
Definition set_m_isConnected (v : bool) (s : Socket) : Socket :=
  mkSocket (m_sock s) (m_family s) (m_type s) (m_protocol s) v (m_localAddress s) (m_remoteAddress s) (net s).
Definition set_m_localAddress (v : option Address) (s : Socket) : Socket :=
  mkSocket (m_sock s) (m_family s) (m_type s) (m_protocol s) (m_isConnected s) v (m_remoteAddress s) (net s).
Definition set_m_remoteAddress (v : option Address) (s : Socket) : Socket :=
  mkSocket (m_sock s) (m_family s) (m_type s) (m_protocol s) (m_isConnected s) (m_localAddress s) v (net s).
Definition set_net (v : N) (s : Socket) : Socket :=
  mkSocket (m_sock s) (m_family s) (m_type s) (m_protocol s) (m_isConnected s) (m_localAddress s) (m_remoteAddress s) v.

Definition sys {A} (m : comp N A) : comp Socket A := lift net set_net m.

Definition Socket_ctor (family type protocol : Z) (n : N) : Socket :=
  mkSocket (-1) family type protocol false None None n.

Definition isValid : comp Socket bool := get (fun s => negb (m_sock s =? -1)).

(** ** Options *)

Definition setOption (level optname : Z) (optval : list Z) : comp Socket bool :=
  let! fd := get m_sock in
  let! rt := sys (sys_setsockopt fd level optname optval) in
  ret (rt =? 0).

Definition getOption (level optname : Z) : comp Socket (bool * list Z) :=
  let! fd := get m_sock in
  let! r := sys (sys_getsockopt fd level optname) in
  ret (fst r =? 0, snd r).

(** [None] stands for the [errno] of the failed call. *)
Definition getError : comp Socket (option Z) :=
  let! r := getOption SOL_SOCKET SO_ERROR in
  ret (if fst r then Some (swrap 32 (of_le (take 4 (snd r)))) else None).

(** [struct timeval { timeout / 1000, (int)(timeout % 1000 * 1000) }] *)
Definition timeval_bytes (timeout : Z) : list Z :=
  le_bytes 8 (Z.quot timeout 1000) ++ le_bytes 8 (swrap 32 (Z.rem timeout 1000 * 1000)).

Definition setSendTimeout (timeout : Z) : comp Socket bool := setOption SOL_SOCKET SO_SNDTIMEO (timeval_bytes timeout).
Definition setRecvTimeout (timeout : Z) : comp Socket bool := setOption SOL_SOCKET SO_RCVTIMEO (timeval_bytes timeout).

Definition getSendTimeout : comp Socket Z :=
  let! fd := get m_sock in
  let! c := sys (fd_get fd) in
  ret (match c with Some c => fi_send c | None => UINT64_MAX end).
Definition getRecvTimeout : comp Socket Z :=
  let! fd := get m_sock in
  let! c := sys (fd_get fd) in
  ret (match c with Some c => fi_recv c | None => UINT64_MAX end).

(** ** Addresses *)

Definition default_address (family : Z) : Address :=
  if family =? AF_INET then IPv4Address (IPv4Address_ip INADDR_ANY 0)
  else if family =? AF_INET6 then IPv6Address IPv6Address_any
  else if family =? AF_UNIX then UnixAddress_default
  else UnknownAddress_ctor family.

(** The common body of [getRemoteAddress] and [getLocalAddress]: [cached] is the
    member, [ask] the system call. *)
Definition resolve_address (cached : Socket -> option Address) (store : option Address -> Socket -> Socket)
    (ask : Z -> Address -> comp N (Z * Address * nat)) : comp Socket Address :=
  let! a := get cached in
  match a with
  | Some a => ret a
  | None =>
      let! family := get m_family in
      let! fd := get m_sock in
      let! r := sys (ask fd (default_address family)) in
      let '(rt, res, addrlen) := r in
      if negb (rt =? 0) then ret (UnknownAddress_ctor family) else
      let! res := (if family =? AF_UNIX then fail (setAddrLen res addrlen) else ret res) in
      do! modify (store (Some res)) in
      ret res
  end.

Definition getRemoteAddress : comp Socket Address :=
  resolve_address m_remoteAddress set_m_remoteAddress sys_getpeername.
Definition getLocalAddress : comp Socket Address :=
  resolve_address m_localAddress set_m_localAddress sys_getsockname.

(** ** Life cycle *)

(** [Socket::init()] *)
Definition init : comp Socket unit :=
  let! _ := setOption SOL_SOCKET SO_REUSEADDR (le_bytes 4 1) in
  let! t := get m_type in
  if t =? SOCK_STREAM then let! _ := setOption IPPROTO_TCP TCP_NODELAY (le_bytes 4 1) in ret tt else ret tt.

(** [Socket::init(int)] *)
Definition init_fd (sock : Z) : comp Socket bool :=
  let! c := sys (fd_get sock) in
  match c with
  | Some c =>
      if fi_open_socket c then
        do! modify (set_m_sock sock) in
        do! modify (set_m_isConnected true) in
        do! init in
        let! _ := getLocalAddress in
        let! _ := getRemoteAddress in
        ret true
      else ret false
  | None => ret false
  end.

(** A descriptor when there is none: [false] when the call must return. *)
Definition ensure_socket : comp Socket bool :=
  let! v := isValid in
  if v then ret true else
  let! f := get m_family in
  let! t := get m_type in
  let! p := get m_protocol in
  let! fd := sys (sys_socket f t p) in
  do! modify (set_m_sock fd) in
  if fd =? -1 then ret false else
  do! init in
  isValid.

Definition bind (addr : Address) : comp Socket bool :=
  do! modify (set_m_localAddress (Some addr)) in
  let! ok := ensure_socket in
  if negb ok then ret false else
  let! family := get m_family in
  if negb (family =? getFamily addr) then ret false else
  let! fd := get m_sock in
  let! rt := sys (sys_bind fd addr) in
  if negb (rt =? 0) then ret false else
  let! _ := getLocalAddress in
  ret true.

Definition close : comp Socket bool :=
  let! c := get m_isConnected in
  let! fd := get m_sock in
  if negb c && (fd =? -1) then ret true else
  do! modify (set_m_isConnected false) in
  do! (if negb (fd =? -1) then
         let! _ := sys (sys_close fd) in
         modify (set_m_sock (-1))
       else ret tt) in
  ret false.

Definition connect (addr : Address) (timeout : Z) : comp Socket bool :=
  do! modify (set_m_remoteAddress (Some addr)) in
  let! ok := ensure_socket in
  if negb ok then ret false else
  let! family := get m_family in
  if negb (getFamily addr =? family) then ret false else
  let! fd := get m_sock in
  let! rt := sys (if timeout =? UINT64_MAX then sys_connect fd addr else sys_connectWithTimeout fd addr timeout) in
  if negb (rt =? 0) then let! _ := close in ret false else
  do! modify (set_m_isConnected true) in
  let! _ := getRemoteAddress in
  let! _ := getLocalAddress in
  ret true.

Definition listen (backlog : Z) : comp Socket bool :=
  let! v := isValid in
  if negb v then ret false else
  let! fd := get m_sock in
  let! rt := sys (sys_listen fd backlog) in
  ret (rt =? 0).

(** [accept]: the new socket shares the system with this one; [None] is the null
    pointer, after which the accepted descriptor stays open. *)
Definition accept : comp Socket (option Socket) :=
  let! fd := get m_sock in
  let! sock := sys (sys_accept fd) in
  if sock =? -1 then ret None else
  fun s =>
    let sk := Socket_ctor (m_family s) (m_type s) (m_protocol s) (net s) in
    match init_fd sock sk with
    | (Ok true, sk) => (Ok (Some sk), set_net (net sk) s)
    | (Ok false, sk) => (Ok None, set_net (net sk) s)
    | (Throw e, sk) => (Throw e, set_net (net sk) s)
    | (Abort, sk) => (Abort, set_net (net sk) s)
    | (UB, sk) => (UB, set_net (net sk) s)
    | (Deadlock, sk) => (Deadlock, set_net (net sk) s)
    | (Diverge, sk) => (Diverge, set_net (net sk) s)
    end.

(** ** Transfer.  The results are [ssize_t] converted to [int]; the scatter and
    gather versions are given the bytes and sizes of their [iovec]s. *)

Definition send (buf : list Z) (flags : Z) : comp Socket Z :=
  let! c := get m_isConnected in
  if negb c then ret (-1) else
  let! fd := get m_sock in
  let! n := sys (sys_send fd buf flags) in
  ret (swrap 32 n).

Definition sendTo (buf : list Z) (addr : Address) (flags : Z) : comp Socket Z :=
  let! c := get m_isConnected in
  if negb c then ret (-1) else
  let! fd := get m_sock in
  let! n := sys (sys_sendto fd buf flags addr) in
  ret (swrap 32 n).

Definition recv (len : nat) (flags : Z) : comp Socket (Z * list Z) :=
  let! c := get m_isConnected in
  if negb c then ret (-1, []) else
  let! fd := get m_sock in
  let! r := sys (sys_recv fd len flags) in
  ret (swrap 32 (fst r), snd r).

Definition recvFrom (len : nat) (addr : Address) (flags : Z) : comp Socket (Z * list Z * Address) :=
  let! c := get m_isConnected in
  if negb c then ret (-1, [], addr) else
  let! fd := get m_sock in
  let! r := sys (sys_recvfrom fd len flags addr) in
  let '(n, bs, a) := r in
  ret (swrap 32 n, bs, a).

(** ** Cancelling: the [int] of the [IOManager], 0 on success, as a [bool]. *)

Definition READ : Z := 1.
Definition WRITE : Z := 4.

Definition cancelRead : comp Socket bool :=
  let! fd := get m_sock in let! r := sys (iom_cancelEvent fd READ) in ret (negb (r =? 0)).
Definition cancelWrite : comp Socket bool :=
  let! fd := get m_sock in let! r := sys (iom_cancelEvent fd WRITE) in ret (negb (r =? 0)).
Definition cancelAccept : comp Socket bool :=
  let! fd := get m_sock in let! r := sys (iom_cancelEvent fd READ) in ret (negb (r =? 0)).
Definition cancelAll : comp Socket bool :=
  let! fd := get m_sock in let! r := sys (iom_cancelAll fd) in ret (negb (r =? 0)).

(** ** Makers *)

Definition CreateTCP (address : Address) : N -> Socket := Socket_ctor (getFamily address) SOCK_STREAM 0.
Definition CreateUDP (address : Address) : N -> Socket := Socket_ctor (getFamily address) SOCK_DGRAM 0.
Definition CreateTCPSocket : N -> Socket := Socket_ctor AF_INET SOCK_STREAM 0.
Definition CreateUDPSocket : N -> Socket := Socket_ctor AF_INET SOCK_DGRAM 0.
Definition CreateUnixTCPSocket : N -> Socket := Socket_ctor AF_UNIX SOCK_STREAM 0.
Definition CreateUnixUDPSocket : N -> Socket := Socket_ctor AF_UNIX SOCK_DGRAM 0.
End Socket.

Arguments Socket N : clear implicits.
