(* ===== verification/Stream.v ===== *)
(** * Stream: transfers of a fixed size, and the stream of a socket

    Models [cczoecpp/Net/Socket/stream.h], [stream.cpp], [socketStream.h] and
    [socketStream.cpp].  The abstract class [Stream] is a type class: the virtual
    functions are its operations, the [FixSize] functions are written over them,
    and [SocketStream] is an instance. *)

From stdpp Require Import base list numbers.
From S2P Require Import Prelude Words ByteArray Address Socket.

Local Open Scope nat_scope.

(** A read gives its result and the bytes it stored in the buffer.  The versions
    on a [ByteArray] work on the shared array, a second component of the state. *)
Class Stream (S : Type) := {
  s_read : nat -> comp S (Z * list Z);
  s_read_barray : nat -> comp (S * ByteArray) Z;
  s_write : list Z -> comp S Z;
  s_write_barray : nat -> comp (S * ByteArray) Z;
  s_close : comp S Z
}.

(** What an implementation owes to the [FixSize] functions, seen as a channel:
    [sent] are the bytes that have gone out, [incoming] the ones that will come.  A
    read takes what it counts off [incoming], and no more than asked; a write adds
    a prefix of its buffer to [sent]. *)
Class StreamLaws (S : Type) `{Stream S} (sent incoming : S -> list Z) : Prop := {
  s_read_law n s : exists rt bs s', s_read n s = (Ok (rt, bs), s') /\ (rt <= Z.of_nat n)%Z /\
    ((0 < rt)%Z -> Z.of_nat (length bs) = rt /\ incoming s = bs ++ incoming s') /\
    ((rt <= 0)%Z -> incoming s' = incoming s);
  s_write_law bs s : exists rt s', s_write bs s = (Ok rt, s') /\ (rt <= Z.of_nat (length bs))%Z /\
    sent s' = sent s ++ take (Z.to_nat rt) bs
}.

Section Stream.
Context {S : Type} `{Stream S}.

(** [while (offset < length)]: every round that goes on transfers at least one
    byte, so that [length] rounds are enough.  [got] is the buffer up to
    [offset]. *)
Fixpoint readFixSize_loop (fuel length : nat) (got : list Z) : comp S (Z * list Z) :=
  if Datatypes.length got <? length then
    match fuel with
    | 0 => fail Diverge
    | Datatypes.S fuel =>
        let! r := s_read (length - Datatypes.length got) in
        if (fst r <=? 0)%Z then ret (fst r, got) else
        readFixSize_loop fuel length (got ++ snd r)
    end
  else ret (swrap 32 (Z.of_nat (Datatypes.length got)), got).

Definition readFixSize (length : nat) : comp S (Z * list Z) :=
  if length <=? 0 then ret (0%Z, []) else readFixSize_loop length length [].

Fixpoint writeFixSize_loop (fuel offset : nat) (buffer : list Z) : comp S Z :=
  if offset <? length buffer then
    match fuel with
    | 0 => fail Diverge
    | Datatypes.S fuel =>
        let! rt := s_write (drop offset buffer) in
        if (rt <=? 0)%Z then ret rt else
        writeFixSize_loop fuel (offset + Z.to_nat rt) buffer
    end
  else ret (swrap 32 (Z.of_nat offset)).

Definition writeFixSize (buffer : list Z) : comp S Z :=
  if length buffer <=? 0 then ret 0%Z else writeFixSize_loop (length buffer) 0 buffer.

(** The versions on a [ByteArray] count [length] down and return what is left of
    it. *)
Fixpoint barray_loop (m : nat -> comp (S * ByteArray) Z) (fuel length : nat) : comp (S * ByteArray) Z :=
  if 0 <? length then
    match fuel with
    | 0 => fail Diverge
    | Datatypes.S fuel =>
        let! rt := m length in
        if (rt <=? 0)%Z then ret rt else barray_loop m fuel (length - Z.to_nat rt)
    end
  else ret (swrap 32 (Z.of_nat length)).

Definition readFixSize_barray (length : nat) : comp (S * ByteArray) Z :=
  if length <=? 0 then ret 0%Z else barray_loop s_read_barray length length.
Definition writeFixSize_barray (length : nat) : comp (S * ByteArray) Z :=
  if length <=? 0 then ret 0%Z else barray_loop s_write_barray length length.
End Stream.

(** ** [SocketStream] *)

Section SocketStream.
Context {N : Type} `{Net N} (junk : Z).

(** The bytes of a list of segments, and storing bytes into one: what [sendmsg]
    and [recvmsg] do with their [iovec]s. *)
Definition iov_read (ns : list Node) (v : iovec) : list Z :=
  match ns !! iov_node v with Some n => take (iov_len v) (drop (iov_off v) (ptr n)) | None => [] end.

Definition iov_bytes (ns : list Node) (iovs : list iovec) : list Z := concat (map (iov_read ns) iovs).

Fixpoint iov_store (ns : list Node) (iovs : list iovec) (bs : list Z) : list Node :=
  match iovs with
  | [] => ns
  | v :: iovs =>
      let here := take (iov_len v) bs in
      iov_store (alter (fun n => mkNode (splice (iov_off v) here (ptr n)) (size n)) (iov_node v) ns)
                iovs (drop (iov_len v) bs)
  end.

Definition iov_total (iovs : list iovec) : nat := sum_list (map iov_len iovs).

(** [m_sock] may be null. *)
Definition SocketStream : Type := option (Socket N).

Definition with_sock {A} (dead : A) (m : comp (Socket N) A) : comp SocketStream A := fun s =>
  match s with
  | Some sk => if m_isConnected sk then let '(o, sk) := m sk in (o, Some sk) else (Ok dead, s)
  | None => (Ok dead, s)
  end.

Definition connected : comp SocketStream bool :=
  get (fun s => match s with Some sk => m_isConnected sk | None => false end).

Definition SocketStream_read (length : nat) : comp SocketStream (Z * list Z) :=
  with_sock ((-1)%Z, []) (recv length 0).

Definition SocketStream_write (buffer : list Z) : comp SocketStream Z :=
  with_sock (-1)%Z (send buffer 0).

Definition on_stream {A} (m : comp SocketStream A) : comp (SocketStream * ByteArray) A :=
  lift fst (fun s p => (s, snd p)) m.
Definition on_barray {A} (m : comp ByteArray A) : comp (SocketStream * ByteArray) A :=
  lift snd (fun b p => (fst p, b)) m.

(** [&iovs[0]] of an empty vector is undefined. *)
Definition front {A} (l : list A) : outcome unit := match l with [] => UB | _ => Ok tt end.

(** Neither version moves the array's position. *)
Definition SocketStream_read_barray (length : nat) : comp (SocketStream * ByteArray) Z :=
  let! c := on_stream connected in
  if negb c then ret (-1)%Z else
  let! r := on_barray (addWriteBuffers junk [] length) in
  do! fail (front (snd r)) in
  let! got := on_stream (with_sock ((-1)%Z, []) (recv (iov_total (snd r)) 0)) in
  do! on_barray (modify (fun b => set_m_nodes (iov_store (m_nodes b) (snd r) (snd got)) b)) in
  ret (fst got).

Definition SocketStream_write_barray (length : nat) : comp (SocketStream * ByteArray) Z :=
  let! c := on_stream connected in
  if negb c then ret (-1)%Z else
  let! r := on_barray (addReadBuffers [] length) in
  do! fail (front (snd r)) in
  let! ns := on_barray (get m_nodes) in
  on_stream (with_sock (-1)%Z (send (iov_bytes ns (snd r)) 0)).

(** [virtual int close() { return m_sock->close(); }] *)
Definition SocketStream_close : comp SocketStream Z := fun s =>
  match s with
  | Some sk => let '(o, sk) := close sk in
               (match o with Ok b => Ok (if b then 1%Z else 0%Z) | Throw e => Throw e | Abort => Abort
                        | UB => UB | Deadlock => Deadlock | Diverge => Diverge end, Some sk)
  | None => (UB, s)
  end.
End SocketStream.

(** [junk] is the indeterminate content of the blocks the array allocates. *)
Definition SocketStream_Stream {N} `{Net N} (junk : Z) : Stream (@SocketStream N) := {|
  s_read := SocketStream_read;
  s_read_barray := SocketStream_read_barray junk;
  s_write := SocketStream_write;
  s_write_barray := SocketStream_write_barray;
  s_close := SocketStream_close
|}.
