(* ===== verification/StreamTheorems.v ===== *)
(** * StreamTheorems: transfers of a fixed size, and the life of a socket *)

From stdpp Require Import base list numbers.
From S2P Require Import Prelude Words ByteArray ByteArraySpec Codec BufferTheorems Address Socket Stream.

Local Open Scope nat_scope.

(** ** Transfers over an abstract stream *)

Section fixsize.
Context {S : Type} `{St : Stream S} {sent incoming : S -> list Z} {Hlaws : StreamLaws S sent incoming}.

Lemma swrap_len n : (Z.of_nat n < 2 ^ 31)%Z -> swrap 32 (Z.of_nat n) = Z.of_nat n.
Proof.
  intros Hn. rewrite <- (wrap_id 32 (Z.of_nat n)) at 1 by (unfold in_u; lia).
  apply swrap_wrap; [lia|]. unfold in_s. lia.
Qed.

Lemma writeFixSize_loop_spec (buffer : list Z) : (Z.of_nat (length buffer) < 2 ^ 31)%Z ->
  forall fuel offset s, length buffer - offset <= fuel -> offset <= length buffer ->
  exists rt s' k, writeFixSize_loop fuel offset buffer s = (Ok rt, s') /\
    sent s' = sent s ++ take k (drop offset buffer) /\ offset + k <= length buffer /\
    (rt = Z.of_nat (length buffer) /\ offset + k = length buffer \/ (rt <= 0)%Z /\ offset + k < length buffer).
Proof.
  intros Hlen. induction fuel as [|fuel IH]; intros offset s Hfuel Hoff; cbn [writeFixSize_loop];
    (destruct (Nat.ltb_spec offset (length buffer)); [try lia|]).
  all: try (exists (Z.of_nat (length buffer)), s, 0; rewrite take_0, app_nil_r;
            replace offset with (length buffer) by lia; rewrite swrap_len by done;
            split_and!; [done..|lia|left; lia]).
  destruct (s_write_law (drop offset buffer) s) as (rt & s1 & Hw & Hrt & Hsent).
  rewrite (bind_Ok _ _ _ _ _ Hw). rewrite length_drop in Hrt.
  destruct (Z.leb_spec rt 0) as [Hneg|Hpos].
  - exists rt, s1, 0. rewrite Hsent. replace (Z.to_nat rt) with 0 by lia. rewrite !take_0. split_and!; [done..|lia|right; lia].
  - destruct (IH (offset + Z.to_nat rt) s1) as (r & s' & k & Hrun & Hs' & Hle & Hr); [lia..|].
    exists r, s', (Z.to_nat rt + k). split_and!; [done| |lia|lia].
    rewrite Hs', Hsent, <- app_assoc. f_equal.
    by rewrite <- drop_drop, take_take_drop.
Qed.

Lemma readFixSize_loop_spec n : (Z.of_nat n < 2 ^ 31)%Z ->
  forall fuel got s, n - length got <= fuel -> length got <= n ->
  exists rt bs s', readFixSize_loop fuel n got s = (Ok (rt, got ++ bs), s') /\
    incoming s = bs ++ incoming s' /\ length got + length bs <= n /\
    (rt = Z.of_nat n /\ length got + length bs = n \/ (rt <= 0)%Z /\ length got + length bs < n).
Proof.
  intros Hn. induction fuel as [|fuel IH]; intros got s Hfuel Hgot; cbn [readFixSize_loop];
    (destruct (Nat.ltb_spec (length got) n); [try lia|]).
  all: try (exists (Z.of_nat n), [], s; rewrite app_nil_r; replace (length got) with n by lia;
            rewrite swrap_len by done; split_and!; [done..|simpl; lia|left; simpl; lia]).
  destruct (s_read_law (n - length got) s) as (rt & bs & s1 & Hr & Hrt & Hgood & Hbad).
  rewrite (bind_Ok _ _ _ _ _ Hr). cbn [fst snd]. destruct (Z.leb_spec rt 0) as [Hneg|Hpos].
  - exists rt, [], s1. rewrite app_nil_r, (Hbad Hneg). split_and!; [done..|simpl; lia|right; simpl; lia].
  - destruct (Hgood Hpos) as [Hl Hin].
    destruct (IH (got ++ bs) s1) as (r & bs' & s' & Hrun & Hs' & Hle & Hres); [rewrite length_app; lia..|].
    rewrite length_app in Hle, Hres. exists r, (bs ++ bs'), s'.
    rewrite app_assoc, Hin, Hs', app_assoc, length_app. split_and!; [done..|lia|lia].
Qed.

Lemma fixsize_transfers_write (buffer : list Z) s : (Z.of_nat (length buffer) < 2 ^ 31)%Z ->
  exists rt s' k, writeFixSize buffer s = (Ok rt, s') /\ sent s' = sent s ++ take k buffer /\
     (rt = Z.of_nat (length buffer) /\ k = length buffer \/ (rt <= 0)%Z /\ k < length buffer).
Proof.
  intros Hb. unfold writeFixSize. destruct (Nat.leb_spec (length buffer) 0).
  - exists 0%Z, s, 0. rewrite take_0, app_nil_r. split_and!; [done..|left; lia].
  - destruct (writeFixSize_loop_spec buffer Hb (length buffer) 0 s) as (rt & s' & k & Hrun & Hs & _ & Hr);
      [lia..|]. exists rt, s', k. rewrite drop_0 in Hs. split_and!; [done..|lia].
Qed.

(** C32: (functional) [writeFixSize] and [readFixSize] of up to 2 GiB over any stream
    that keeps its contract return, and transfer a prefix of the request in order
    and without loss: all of it with its length as the result, or less with a
    result of at most 0. *)
Theorem fixsize_transfers (buffer : list Z) n s :
  (Z.of_nat (length buffer) < 2 ^ 31)%Z -> (Z.of_nat n < 2 ^ 31)%Z ->
  (exists rt s' k, writeFixSize buffer s = (Ok rt, s') /\ sent s' = sent s ++ take k buffer /\
     (rt = Z.of_nat (length buffer) /\ k = length buffer \/ (rt <= 0)%Z /\ k < length buffer)) /\
  (exists rt bs s', readFixSize n s = (Ok (rt, bs), s') /\ incoming s = bs ++ incoming s' /\
     (rt = Z.of_nat n /\ length bs = n \/ (rt <= 0)%Z /\ length bs < n)).
Proof.
  intros Hb Hn. split.
  - by apply fixsize_transfers_write.
  - unfold readFixSize. destruct (Nat.leb_spec n 0).
    + exists 0%Z, [], s. split_and!; [done..|left; simpl; lia].
    + destruct (readFixSize_loop_spec n Hn n [] s) as (rt & bs & s' & Hrun & Hs & _ & Hr); [simpl; lia..|].
      exists rt, bs, s'. simpl in *. split_and!; [done..|lia].
Qed.
End fixsize.

(** ** The stream of a socket keeps the contract *)

(** What the system does for [send] and [recv]: a transfer of less than 2 GiB and
    of no more than asked, or a result below 0 and nothing transferred. *)
Class NetLaws (N : Type) `{Net N} (nsent nincoming : N -> list Z) : Prop := {
  sys_send_law fd bs f n : exists rt n', sys_send fd bs f n = (Ok rt, n') /\
    (-1 <= rt <= Z.of_nat (length bs))%Z /\ (rt < 2 ^ 31)%Z /\
    nsent n' = nsent n ++ take (Z.to_nat rt) bs /\ nincoming n' = nincoming n;
  sys_recv_law fd len f n : exists rt bs n', sys_recv fd len f n = (Ok (rt, bs), n') /\
    (-1 <= rt <= Z.of_nat len)%Z /\ (rt < 2 ^ 31)%Z /\
    ((0 < rt)%Z -> Z.of_nat (length bs) = rt /\ nincoming n = bs ++ nincoming n') /\
    ((rt <= 0)%Z -> nincoming n' = nincoming n)
}.

Section socketstream.
Context {N : Type} `{NL : NetLaws N nsent nincoming} (junk : Z).

Definition stream_sent (s : @SocketStream N) : list Z := match s with Some sk => nsent (net sk) | None => [] end.
Definition stream_incoming (s : @SocketStream N) : list Z := match s with Some sk => nincoming (net sk) | None => [] end.

Lemma swrap_small (z : Z) : (-1 <= z < 2 ^ 31)%Z -> swrap 32 z = z.
Proof.
  intros Hz. destruct (Z.eq_dec z (-1)%Z) as [->|]; [by vm_compute|].
  rewrite <- (Z2Nat.id z) by lia. apply swrap_len. lia.
Qed.

Lemma SocketStream_laws : @StreamLaws _ (SocketStream_Stream junk) stream_sent stream_incoming.
Proof using NL.
  split.
  - intros n [sk|]; cbn [s_read SocketStream_Stream]; unfold SocketStream_read, with_sock.
    2:{ exists (-1)%Z, [], None. split_and!; done || lia. }
    destruct (m_isConnected sk) eqn:Hc.
    2:{ exists (-1)%Z, [], (Some sk). split_and!; done || lia. }
    destruct (sys_recv_law (m_sock sk) n 0 (net sk)) as (rt & bs & n' & Hr & Hrt & H31 & Hgood & Hbad).
    exists rt, bs, (Some (set_net n' sk)). unfold recv. rewrite bind_get, Hc. cbn [negb]. rewrite bind_get.
    rewrite (bind_Ok _ _ _ _ _ (lift_Ok net set_net _ _ _ _ Hr)). cbn. rewrite swrap_small by lia.
    split_and!; done || lia.
  - intros bs [sk|]; cbn [s_write SocketStream_Stream]; unfold SocketStream_write, with_sock.
    2:{ exists (-1)%Z, None. split_and!; done || lia. }
    destruct (m_isConnected sk) eqn:Hc.
    2:{ exists (-1)%Z, (Some sk). rewrite take_0, app_nil_r. split_and!; done || lia. }
    destruct (sys_send_law (m_sock sk) bs 0 (net sk)) as (rt & n' & Hr & Hrt & H31 & Hs & _).
    exists rt, (Some (set_net n' sk)). unfold send. rewrite bind_get, Hc. cbn [negb]. rewrite bind_get.
    rewrite (bind_Ok _ _ _ _ _ (lift_Ok net set_net _ _ _ _ Hr)). cbn. rewrite swrap_small by lia.
    split_and!; done || lia.
Qed.
End socketstream.

(** ** A [ByteArray] on a socket *)

Section barray.
Context {N : Type} `{Net N}.

(** The unread bytes of an array. *)
Definition unread (b : ByteArray) : list Z := drop (m_position b) (contents b).

Lemma gather_nil_take ns segs (l : list Z) n : gather ns segs = take n l -> 0 < n <= length l -> segs <> [].
Proof.
  intros Hg Hn ->. apply (f_equal length) in Hg. rewrite length_take in Hg. simpl in Hg. lia.
Qed.

Lemma send_connected (sk : Socket N) bs rt n' :
  m_isConnected sk = true -> sys_send (m_sock sk) bs 0 (net sk) = (Ok rt, n') ->
  send bs 0 sk = (Ok (swrap 32 rt), set_net n' sk).
Proof.
  intros Hconn Hsend. unfold send. rewrite bind_get, Hconn. cbn [negb]. rewrite bind_get.
  by rewrite (bind_Ok _ _ _ _ _ (lift_Ok net set_net _ _ _ _ Hsend)).
Qed.

Lemma write_barray_once (sk : Socket N) b len rt n' :
  m_isConnected sk = true -> wf b -> m_position b < m_capacity b -> 0 < len <= m_size b - m_position b ->
  sys_send (m_sock sk) (take len (unread b)) 0 (net sk) = (Ok rt, n') ->
  SocketStream_write_barray len (Some sk, b) = (Ok (swrap 32 rt), (Some (set_net n' sk), b)).
Proof.
  intros Hconn Hwf Hcap Hlen Hsend. destruct (addReadBuffers_spec b len Hwf Hcap) as (segs & Hadd & Hg).
  fold (unread b) in Hg. pose proof (wf_length_contents b Hwf) as Hlc.
  assert (segs <> []) as Hne.
  { eapply gather_nil_take; [exact Hg|]. unfold unread. rewrite length_drop. lia. }
  unfold SocketStream_write_barray.
  assert (on_stream connected (Some sk, b) = (Ok true, (Some sk, b))) as Hc
    by (unfold on_stream, lift, connected, get; simpl; by rewrite Hconn).
  rewrite (bind_Ok _ _ _ _ _ Hc). cbn [negb].
  assert (on_barray (addReadBuffers [] len) (Some sk, b) =
    (Ok (len `min` (m_size b - m_position b), segs), (Some sk, b))) as Hb
    by (unfold on_barray, lift; simpl; by rewrite Hadd).
  rewrite (bind_Ok _ _ _ _ _ Hb). cbn [snd].
  replace (front segs) with (Ok tt) by (by destruct segs). rewrite bind_fail_Ok.
  rewrite (bind_Ok _ _ _ (m_nodes b) (Some sk, b)) by done.
  change (iov_bytes (m_nodes b) segs) with (gather (m_nodes b) segs). rewrite Hg.
  unfold on_stream, lift, with_sock. cbn [fst snd].
  by rewrite Hconn, (send_connected sk _ rt n' Hconn Hsend).
Qed.

(** (functional) [writeFixSize] of a [ByteArray] on a connected socket: the
    position of the array does not move between the rounds, so that after a short
    write of [k] bytes the second round hands the first [len - k] unread bytes to
    the system again, instead of the ones that follow; the result of the
    complete transfer is 0, not the length. *)
Theorem writeFixSize_barray_resends (junk : Z) (sk : Socket N) b len k n1 n2 :
  m_isConnected sk = true -> wf b -> m_position b < m_capacity b ->
  0 < k < len -> len <= m_size b - m_position b -> (Z.of_nat len < 2 ^ 31)%Z ->
  sys_send (m_sock sk) (take len (unread b)) 0 (net sk) = (Ok (Z.of_nat k), n1) ->
  sys_send (m_sock sk) (take (len - k) (unread b)) 0 n1 = (Ok (Z.of_nat (len - k)), n2) ->
  writeFixSize_barray (H := SocketStream_Stream junk) len (Some sk, b) = (Ok 0%Z, (Some (set_net n2 sk), b)).
Proof.
  intros Hconn Hwf Hcap Hk Hlen H31 H1 H2. unfold writeFixSize_barray.
  destruct (Nat.leb_spec len 0); [lia|]. destruct len as [|len]; [lia|].
  cbn [barray_loop s_write_barray SocketStream_Stream]. destruct (Nat.ltb_spec 0 (S len)); [|lia].
  rewrite (bind_Ok _ _ _ _ _ (write_barray_once sk b (S len) _ n1 Hconn Hwf Hcap ltac:(lia) H1)).
  rewrite swrap_len by lia. destruct (Z.leb_spec (Z.of_nat k) 0); [lia|]. rewrite Nat2Z.id.
  destruct len as [|len]; [lia|]. cbn [barray_loop].
  destruct (Nat.ltb_spec 0 (S (S len) - k)); [|lia].
  rewrite (bind_Ok _ _ _ _ _ (write_barray_once (set_net n1 sk) b (S (S len) - k) _ n2 Hconn Hwf Hcap ltac:(lia) H2)).
  rewrite swrap_len by lia. destruct (Z.leb_spec (Z.of_nat (S (S len) - k)) 0); [lia|].
  rewrite Nat2Z.id, Nat.sub_diag. by destruct len.
Qed.
End barray.

(** ** The life of a socket *)

Section socket.
Context {N : Type} `{Net N}.
Implicit Types s : Socket N.

(** The descriptor and the flag, and the computations that leave them alone. *)
Definition shape s : Z * bool := (m_sock s, m_isConnected s).

Definition keeps {A} (m : comp (Socket N) A) : Prop := forall s, shape (snd (m s)) = shape s.

Lemma keeps_bind {A B} (m : comp (Socket N) A) (k : A -> comp (Socket N) B) :
  keeps m -> (forall a, keeps (k a)) -> keeps (Prelude.bind m k).
Proof.
  intros Hm Hk s. specialize (Hm s). unfold Prelude.bind. destruct (m s) as [[] s1]; simpl in *; try done.
  by rewrite Hk.
Qed.

Lemma keeps_sys {A} (m : comp N A) : keeps (sys m).
Proof. intros s. unfold sys, lift. by destruct (m (net s)). Qed.

Lemma keeps_get {A} (f : Socket N -> A) : keeps (get f).
Proof. done. Qed.

Lemma keeps_ret {A} (a : A) : keeps (ret a).
Proof. done. Qed.

Lemma keeps_fail {A} (o : outcome A) : keeps (fail o).
Proof. done. Qed.

Hint Resolve keeps_bind keeps_sys keeps_get keeps_ret keeps_fail : core.

Lemma keeps_setOption l o v : keeps (setOption l o v).
Proof. unfold setOption. auto. Qed.
Hint Resolve keeps_setOption : core.

Lemma keeps_init : keeps init.
Proof. unfold init. apply keeps_bind; [auto|]. intros _. apply keeps_bind; [auto|]. intros t. destruct (t =? SOCK_STREAM)%Z; auto. Qed.

Lemma keeps_resolve cached store ask : (forall a s, shape (store a s) = shape s) -> keeps (resolve_address cached store ask).
Proof.
  intros Hstore. unfold resolve_address. apply keeps_bind; [auto|]. intros [a|]; [auto|].
  apply keeps_bind; [auto|]. intros f. apply keeps_bind; [auto|]. intros fd. apply keeps_bind; [auto|].
  intros [[rt res] len]. destruct (negb _); [auto|]. apply keeps_bind; [destruct (f =? _)%Z; auto|].
  intros r. apply keeps_bind; [intros s; apply Hstore|auto].
Qed.

Lemma keeps_getLocal : keeps getLocalAddress.
Proof. by apply keeps_resolve. Qed.
Lemma keeps_getRemote : keeps getRemoteAddress.
Proof. by apply keeps_resolve. Qed.
Hint Resolve keeps_init keeps_getLocal keeps_getRemote : core.

(** A connected socket has a descriptor. *)
Definition socket_ok s : Prop := m_isConnected s = true -> m_sock s <> (-1)%Z.

Lemma shape_ok s s' : shape s' = shape s -> socket_ok s -> socket_ok s'.
Proof. unfold shape, socket_ok. by intros [= -> ->]. Qed.

(** What a computation does to the descriptor and the flag, by its outcome. *)
Definition triple {A} (P : Socket N -> Prop) (m : comp (Socket N) A) (Q : outcome A -> Socket N -> Prop) : Prop :=
  forall s, P s -> Q (fst (m s)) (snd (m s)).

(** [ensure_socket] keeps the flag, and has a descriptor when it returns true. *)
Lemma ensure_socket_spec s c :
  m_isConnected s = c ->
  let '(o, s') := ensure_socket s in
  m_isConnected s' = c /\ (socket_ok s -> socket_ok s') /\ (o = Ok true -> m_sock s' <> (-1)%Z).
Proof.
  intros Hc. unfold ensure_socket, isValid. rewrite bind_get.
  destruct (Z.eqb_spec (m_sock s) (-1)) as [Hs|Hs]; cbn [negb]; [|simpl; by split_and!].
  rewrite !bind_get. unfold Prelude.bind at 1, sys at 1, lift.
  destruct (sys_socket _ _ _ (net s)) as [[fd|?| | | |] n]; cbn; try by split_and!.
  destruct (Z.eqb_spec fd (-1)) as [->|Hfd].
  - split_and!; [done| |done]. unfold socket_ok. cbn. intros Hok Hcon. by specialize (Hok Hcon).
  - set (s1 := set_m_sock fd (set_net n s)). pose proof (keeps_init s1) as Hk. unfold Prelude.bind.
    destruct (init s1) as [[[]|?| | | |] s2]; cbn in *; unfold shape in Hk; cbn in Hk; injection Hk as Hk1 Hk2;
      unfold socket_ok; rewrite Hk1, Hk2; by split_and!.
Qed.

Lemma connect_spec addr timeout s : socket_ok s ->
  let '(o, s') := connect addr timeout s in
  socket_ok s' /\ (o = Ok true -> m_isConnected s' = true).
Proof.
  intros Hok. unfold connect. rewrite bind_modify. set (s0 := set_m_remoteAddress (Some addr) s).
  pose proof (ensure_socket_spec s0 (m_isConnected s) eq_refl) as Hens.
  unfold Prelude.bind at 1. destruct (ensure_socket s0) as [[ok|?| | | |] s1];
    destruct Hens as (Hc1 & Hok1 & Hsk); specialize (Hok1 Hok); try (split; [done|by intros [=]]).
  destruct ok; cbn [negb]; [|split; [done|by intros [=]]].
  specialize (Hsk eq_refl). rewrite bind_get.
  destruct (negb _); [split; [done|by intros [=]]|]. rewrite bind_get.
  unfold Prelude.bind at 1. unfold sys at 1, lift.
  set (m := if (timeout =? UINT64_MAX)%Z then _ else _). destruct (m (net s1)) as [[rt|?| | | |] n]; cbn; try (split; [done|by intros [=]]).
  destruct (rt =? 0)%Z; cbn [negb].
  2:{ unfold close. unfold Prelude.bind, get, ret, modify, sys, lift. cbn.
    destruct (negb (m_isConnected s1) && (m_sock s1 =? -1)%Z); cbn; [split; [done|by intros [=]]|].
    destruct (negb (m_sock s1 =? -1)%Z); cbn; [|split; [done|by intros [=]]].
    destruct (sys_close _ n) as [[?|?| | | |] n']; cbn; split; (done || by intros [=]). }
  set (s2 := set_m_isConnected true (set_net n s1)).
    assert (socket_ok s2) as Hok2 by (unfold socket_ok; done).
    pose proof (keeps_bind getRemoteAddress (fun _ => let! _ := getLocalAddress in ret true)
      keeps_getRemote (fun _ => keeps_bind _ _ keeps_getLocal (fun _ => keeps_ret true)) s2) as Hk.
    rewrite bind_modify. fold s2. destruct (Prelude.bind getRemoteAddress _ s2) as [o s3]. cbn in Hk.
    split; [by eapply shape_ok|]. intros _. unfold shape in Hk. by injection Hk as _ ->.
Qed.

Lemma bind_spec addr s : socket_ok s ->
  let '(o, s') := bind addr s in socket_ok s' /\ m_isConnected s' = m_isConnected s.
Proof.
  intros Hok. unfold bind. rewrite bind_modify. set (s0 := set_m_localAddress (Some addr) s).
  pose proof (ensure_socket_spec s0 (m_isConnected s) eq_refl) as Hens.
  unfold Prelude.bind at 1. destruct (ensure_socket s0) as [[ok|?| | | |] s1];
    destruct Hens as (Hc1 & Hok1 & _); specialize (Hok1 Hok); try by split.
  set (m := if negb ok then _ else _). assert (keeps m) as Hk.
  { subst m. destruct (negb ok); [auto|]. apply keeps_bind; [auto|]. intros f.
    destruct (negb _); [auto|]. apply keeps_bind; [auto|]. intros fd.
    apply keeps_bind; [auto|]. intros rt. destruct (negb _); auto. }
  specialize (Hk s1). destruct (m s1) as [o s2]. cbn in Hk. split; [by eapply shape_ok|].
  unfold shape in Hk. injection Hk as _ ->. done.
Qed.

Lemma init_fd_spec fd s : fd <> (-1)%Z -> socket_ok s ->
  let '(o, s') := init_fd fd s in
  socket_ok s' /\ (o = Ok true -> m_isConnected s' = true /\ m_sock s' = fd).
Proof.
  intros Hfd Hok. unfold init_fd. unfold Prelude.bind at 1. unfold sys at 1, lift.
  destruct (fd_get fd (net s)) as [[[c|]|?| | | |] n]; cbn; try (split; [done|by intros [=]]).
  destruct (fi_open_socket c); [|split; [done|by intros [=]]]. rewrite !bind_modify.
  set (s1 := set_m_isConnected true _).
  assert (keeps (do! init in let! _ := getLocalAddress in let! _ := getRemoteAddress in ret true)) as Hk by auto.
  specialize (Hk s1). destruct (Prelude.bind init _ s1) as [o s2]. cbn in Hk.
  assert (socket_ok s1) as Hok1 by (intros _; exact Hfd). split; [by eapply shape_ok|]. intros _.
  unfold shape in Hk. by injection Hk as -> ->.
Qed.

(** C40: (invariant) a socket that is connected has a descriptor, whatever the
    system answers: [connect], [bind] and the adoption of an accepted descriptor
    keep this, and [connect] and the adoption have set the flag when they return
    true.  [close] leaves a socket without descriptor and flag, but returns true
    only when there was nothing to close.  Transfers, [sendTo] of a bound datagram
    socket included, reach the system only on a connected socket. *)
Theorem socket_life s : socket_ok s ->
  (forall addr timeout, let '(o, s') := connect addr timeout s in
     socket_ok s' /\ (o = Ok true -> m_isConnected s' = true)) /\
  (forall addr, let '(o, s') := bind addr s in socket_ok s' /\ m_isConnected s' = m_isConnected s) /\
  (forall fd, fd <> (-1)%Z -> let '(o, s') := init_fd fd s in
     socket_ok s' /\ (o = Ok true -> m_isConnected s' = true /\ m_sock s' = fd)) /\
  (forall b s', close s = (Ok b, s') -> shape s' = ((-1)%Z, false) /\ (b = true <-> s' = s)) /\
  (m_isConnected s = false -> forall bs a n f,
     send bs f s = (Ok (-1)%Z, s) /\ sendTo bs a f s = (Ok (-1)%Z, s) /\
     recv n f s = (Ok ((-1)%Z, []), s) /\ recvFrom n a f s = (Ok ((-1)%Z, [], a), s)).
Proof.
  intros Hok. split; [|split; [|split; [|split]]].
  - intros. by apply connect_spec.
  - intros. by apply bind_spec.
  - intros. by apply init_fd_spec.
  - intros b s'. unfold close. rewrite !bind_get.
    destruct (m_isConnected s) eqn:Hc, (Z.eqb_spec (m_sock s) (-1)) as [Hs|Hs]; cbn [negb andb].
    + by destruct (Hok Hc).
    + rewrite bind_modify. unfold Prelude.bind, sys, lift, modify, ret. cbn.
      destruct (sys_close _ _) as [[?|?| | | |] n]; intros [= <- <-]. split; [done|].
      split; [done|]. intros E. apply (f_equal m_isConnected) in E. cbn in E. congruence.
    + intros [= <- <-]. unfold shape. by rewrite Hc, Hs.
    + rewrite bind_modify. unfold Prelude.bind, sys, lift, modify, ret. cbn.
      destruct (sys_close _ _) as [[?|?| | | |] n]; intros [= <- <-]. split; [done|].
      split; [done|]. intros E. apply (f_equal m_sock) in E. cbn in E. congruence.
  - intros Hc bs a n f. unfold send, sendTo, recv, recvFrom. rewrite !bind_get, Hc. done.
Qed.
End socket.

(** ** Witnesses *)

Section witnesses.

(** A channel that transfers at most two bytes at a time. *)
Record channel : Type := mkChannel { ch_sent : list Z; ch_incoming : list Z }.

#[local] Instance channel_Stream : Stream channel := {|
  s_read n := fun s =>
    let bs := take (n `min` 2) (ch_incoming s) in
    (Ok (Z.of_nat (length bs), bs), mkChannel (ch_sent s) (drop (length bs) (ch_incoming s)));
  s_write bs := fun s => (Ok (Z.of_nat (length (take 2 bs))), mkChannel (ch_sent s ++ take 2 bs) (ch_incoming s));
  s_read_barray n := ret 0%Z;
  s_write_barray n := ret 0%Z;
  s_close := ret 0%Z
|}.

#[local] Instance channel_laws : StreamLaws channel ch_sent ch_incoming.
Proof.
  split.
  - intros n s. simpl. eexists _, _, _. split; [reflexivity|]. simpl. rewrite length_take.
    split; [lia|]. split.
    + intros Hpos. split; [done|]. generalize (n `min` 2). intros k.
      rewrite <- (take_drop k (ch_incoming s)) at 1. f_equal.
      destruct (Nat.le_ge_cases k (length (ch_incoming s))) as [Hk|Hk].
      * by rewrite Nat.min_l.
      * rewrite Nat.min_r by done. by rewrite !drop_ge by lia.
    + intros Hneg. replace (_ `min` _) with 0 by lia. done.
  - intros bs s. eexists _, _. split; [reflexivity|]. rewrite Nat2Z.id. split.
    + rewrite length_take. lia.
    + simpl. f_equal. rewrite length_take. destruct (Nat.le_ge_cases 2 (length bs)).
      * by rewrite Nat.min_l.
      * rewrite Nat.min_r by done. by rewrite !take_ge by lia.
Qed.

Lemma fixsize_transfers_witness : exists rt s',
  writeFixSize (S := channel) [1; 2; 3]%Z (mkChannel [] [7; 8]%Z) = (Ok rt, s') /\
  exists rt bs s', readFixSize (S := channel) 3 (mkChannel [] [7; 8]%Z) = (Ok (rt, bs), s').
Proof.
  destruct (fixsize_transfers (sent := ch_sent) (incoming := ch_incoming) [1; 2; 3]%Z 3 (mkChannel [] [7; 8]%Z)
              eq_refl eq_refl) as [(rt & s' & k & Hw & _) (r & bs & s2 & Hr & _)].
  exists rt, s'. split; [exact Hw|]. by exists r, bs, s2.
Defined.

(** A system that accepts at most three bytes at a time and remembers them. *)
#[local] Instance log_net : Net (list Z) := {|
  fd_get fd := ret (Some (mkFdInfo true UINT64_MAX UINT64_MAX));
  sys_socket f t p := ret 5%Z;
  sys_accept fd := ret 6%Z;
  sys_bind fd a := ret 0%Z;
  sys_connect fd a := ret 0%Z;
  sys_connectWithTimeout fd a t := ret 0%Z;
  sys_listen fd b := ret 0%Z;
  sys_close fd := ret 0%Z;
  sys_setsockopt fd l o v := ret 0%Z;
  sys_getsockopt fd l o := ret (0%Z, []);
  sys_getpeername fd a := ret (0%Z, a, 0);
  sys_getsockname fd a := ret (0%Z, a, 0);
  sys_send fd bs f := fun out => (Ok (Z.of_nat (length (take 3 bs))), out ++ take 3 bs);
  sys_sendto fd bs f a := ret (-1)%Z;
  sys_recv fd n f := ret (0%Z, []);
  sys_recvfrom fd n f a := ret (0%Z, [], a);
  iom_cancelEvent fd e := ret 0%Z;
  iom_cancelAll fd := ret 0%Z
|}.

Definition some_socket : Socket (list Z) := set_m_isConnected true (set_m_sock 5 (Socket_ctor AF_INET SOCK_STREAM 0 [])).

(** Five bytes, read from the start. *)
Definition five : ByteArray :=
  Eval vm_compute in seek (snd (write 0 [1; 2; 3; 4; 5]%Z (ByteArray_ctor 0 16))) 0.

Lemma five_wf : wf five.
Proof. constructor; try (vm_compute; lia); [|reflexivity]. repeat constructor. Qed.

(** 1 2 3, and then 1 2 instead of 4 5. *)
Lemma writeFixSize_barray_resends_witness :
  writeFixSize_barray (H := SocketStream_Stream 0) 5 (Some some_socket, five) =
    (Ok 0%Z, (Some (set_net [1; 2; 3; 1; 2]%Z some_socket), five)).
Proof.
  exact (writeFixSize_barray_resends 0 some_socket five 5 3 [1; 2; 3]%Z [1; 2; 3; 1; 2]%Z
           eq_refl five_wf ltac:(vm_compute; lia) ltac:(lia) ltac:(vm_compute; lia) eq_refl eq_refl eq_refl).
Defined.

Lemma socket_life_witness : exists s',
  close some_socket = (Ok false, s') /\ shape s' = ((-1)%Z, false).
Proof.
  destruct (socket_life some_socket) as (_ & _ & _ & Hclose & _); [done|].
  destruct (close some_socket) as [o s'] eqn:E. assert (o = Ok false) as -> by (by injection E as <- _).
  exists s'. split; [done|]. by apply (Hclose false).
Defined.
End witnesses.
