(* ===== verification/HttpParser.v ===== *)
(** * HttpParser: the callbacks of the parser, and the session

    Models [cczoecpp/Net/Http/HttpParser.h], [HttpParser.cpp], [HttpSession.h] and
    [HttpSession.cpp]: the callbacks that [HttpRequestParser] and
    [HttpResponseParser] hand to [http_parser_execute] ([ParserExec.v]), and the
    session, which reads and writes through the interface [Stream]. *)

From stdpp Require Import base list numbers strings.
From Stdlib Require Import Ascii String.
From S2P Require Import Prelude Words ParserTables ParserUrl ParserState ParserExec Address ByteArray Socket Stream Http.

Local Open Scope Z_scope.

(** ** Texts and bytes *)

(** The bytes of a text, and [std::string(at, length)]. *)
Fixpoint chars (s : string) : list Z :=
  match s with
  | EmptyString => []
  | String c s => Z.of_nat (nat_of_ascii c) :: chars s
  end.

Fixpoint text (l : list Z) : string :=
  match l with
  | [] => EmptyString
  | c :: l => String (ascii_of_nat (Z.to_nat c)) (text l)
  end.

(** The initial value of [max_header_size], which nothing changes. *)
Definition HTTP_MAX_HEADER_SIZE : Z := 80 * 1024.

(** ** [HttpRequestParser]: what the callbacks work on *)

Record RequestParser : Type := mkRequestParser {
  m_data : HttpRequest;
  m_finished : bool;
  m_currField : string
}.

Definition set_m_data (v : HttpRequest) (p : RequestParser) : RequestParser := mkRequestParser v (m_finished p) (m_currField p).
Definition set_m_finished (v : bool) (p : RequestParser) : RequestParser := mkRequestParser (m_data p) v (m_currField p).
Definition setCurrField (v : string) (p : RequestParser) : RequestParser := mkRequestParser (m_data p) (m_finished p) v.

(** The object with its member [m_parser], whose [data] points back to it. *)
Definition HttpRequestParser : Type := http_parser RequestParser.

(** [static_cast<HttpRequestParser*>(parser->data)] *)
Definition on_object {D A} (m : comp D A) : comp (http_parser D) A := lift data set_data m.

Definition on_data (f : HttpRequest -> HttpRequest) : comp RequestParser unit :=
  modify (fun p => set_m_data (f (m_data p)) p).

(** [std::string(at + off, len)] when the field is set. *)
Definition set_url_field (u : http_parser_url) (at_ : list Z) (f : http_parser_url_fields)
    (set_ : string -> HttpRequest -> HttpRequest) : comp RequestParser unit :=
  if is_set f u then
    let '(off, len) := field_data u f in
    if Z.of_nat (List.length at_) <? off + len then fail UB else
    on_data (set_ (text (take (Z.to_nat len) (drop (Z.to_nat off) at_))))
  else ret tt.

Definition request_on_url (at_ : list Z) : comp (http_parser RequestParser) Z :=
  match http_parser_parse_url at_ false http_parser_url_init with
  | (Ok rt, u) =>
      if negb (rt =? 0) then ret 1 else
      on_object (
        do! set_url_field u at_ UF_PATH setPath in
        do! set_url_field u at_ UF_QUERY setQuery in
        do! set_url_field u at_ UF_FRAGMENT setFragment in
        ret 0)
  | (Throw e, _) => fail (Throw e)
  | (Abort, _) => fail Abort
  | (UB, _) => fail UB
  | (Deadlock, _) => fail Deadlock
  | (Diverge, _) => fail Diverge
  end.

Definition request_on_header_field (at_ : list Z) : comp (http_parser RequestParser) Z :=
  on_object (do! modify (setCurrField (text at_)) in ret 0).

Definition request_on_header_value (at_ : list Z) : comp (http_parser RequestParser) Z :=
  on_object (
    let! k := get m_currField in
    do! on_data (setHeader k (text at_)) in ret 0).

Definition request_on_body (at_ : list Z) : comp (http_parser RequestParser) Z :=
  on_object (do! on_data (setBody (text at_)) in ret 0).

Definition request_on_headers_complete : comp (http_parser RequestParser) Z :=
  let! ps := get id in
  on_object (
    do! on_data (setVersion (wrap 8 (Z.lor (Z.shiftl (http_major ps) 4) (http_minor ps)))) in
    do! on_data (setMethod (method ps)) in
    ret 0).

Definition request_on_message_complete : comp (http_parser RequestParser) Z :=
  on_object (do! modify (set_m_finished true) in ret 0).

Definition request_settings : http_parser_settings RequestParser :=
  mkSettings (Some (ret 0)) (Some request_on_url) (Some (fun _ => ret 0))
    (Some request_on_header_field) (Some request_on_header_value)
    (Some request_on_headers_complete) (Some request_on_body)
    (Some request_on_message_complete) (Some (ret 0)) (Some (ret 0)).

Definition HttpRequestParser_ctor : HttpRequestParser :=
  http_parser_init HTTP_REQUEST (mkRequestParser (HttpRequest_ctor 17 false) false EmptyString).

Definition finished (p : HttpRequestParser) : bool := m_finished (data p).
Definition error (p : HttpRequestParser) : Z := errno_num (errno p).
Definition getData (p : HttpRequestParser) : HttpRequest := m_data (data p).

Definition execute (bytes : list Z) : comp HttpRequestParser Z :=
  http_parser_execute HTTP_MAX_HEADER_SIZE request_settings bytes.

(** ** [HttpResponseParser]

    At the end of the headers [parser->data], a [HttpResponseParser], is used
    through a pointer to [HttpRequestParser]. *)
Record ResponseParser : Type := mkResponseParser {
  rm_data : Response.HttpResponse;
  rm_currField : string
}.

Definition on_response (f : Response.HttpResponse -> Response.HttpResponse) : comp (http_parser ResponseParser) Z :=
  on_object (do! modify (fun p => mkResponseParser (f (rm_data p)) (rm_currField p)) in ret 0).

Definition response_on_status (at_ : list Z) : comp (http_parser ResponseParser) Z :=
  let! code := get status_code in on_response (Response.setStatus code).

Definition response_on_header_field (at_ : list Z) : comp (http_parser ResponseParser) Z :=
  on_object (do! modify (fun p => mkResponseParser (rm_data p) (text at_)) in ret 0).

Definition response_on_header_value (at_ : list Z) : comp (http_parser ResponseParser) Z :=
  let! p := get data in on_response (Response.setHeader (rm_currField p) (text at_)).

Definition response_on_body (at_ : list Z) : comp (http_parser ResponseParser) Z :=
  on_response (Response.setBody (text at_)).

Definition response_on_headers_complete : comp (http_parser ResponseParser) Z := fail UB.

Definition response_settings : http_parser_settings ResponseParser :=
  mkSettings (Some (ret 0)) (Some (fun _ => ret 0)) (Some response_on_status)
    (Some response_on_header_field) (Some response_on_header_value)
    (Some response_on_headers_complete) (Some response_on_body)
    (Some (ret 0)) (Some (ret 0)) (Some (ret 0)).

Definition HttpResponseParser_ctor : http_parser ResponseParser :=
  http_parser_init HTTP_RESPONSE (mkResponseParser (Response.HttpResponse_ctor 17 false) EmptyString).

Definition response_execute (bytes : list Z) : comp (http_parser ResponseParser) Z :=
  http_parser_execute HTTP_MAX_HEADER_SIZE response_settings bytes.

(** ** [HttpSession] *)

Section HttpSession.
Context {S : Type} `{Stream S}.

Definition buffSize : nat := 4096.

(** The [while] of [recvRequest].  [got] is the buffer up to [total]; every round
    that goes on reads at least one byte, and a full buffer reads none, so that
    one round more than [buffSize] is enough. *)
Fixpoint recv_loop (fuel : nat) (got : list Z) (parser : HttpRequestParser) : comp S (option HttpRequest) :=
  if finished parser then ret (Some (getData parser)) else
  match fuel with
  | O => fail Diverge
  | Datatypes.S fuel =>
      let! r := s_read (buffSize - List.length got) in
      if fst r <=? 0 then let! _ := s_close in ret None else
      let got := (got ++ snd r)%list in
      match execute got parser with
      | (Ok nparse, parser) =>
          if negb (error parser =? 0) || (nparse <=? 0) then let! _ := s_close in ret None
          else recv_loop fuel got parser
      | (Throw e, _) => fail (Throw e)
      | (Abort, _) => fail Abort
      | (UB, _) => fail UB
      | (Deadlock, _) => fail Deadlock
      | (Diverge, _) => fail Diverge
      end
  end.

Definition recvRequest : comp S (option HttpRequest) := recv_loop (Datatypes.S buffSize) [] HttpRequestParser_ctor.

Definition sendResponse (response : Response.HttpResponse) : comp S Z :=
  match Response.HttpResponse_dump response EmptyString with
  | (Ok _, data) => writeFixSize (chars data)
  | (Throw e, _) => fail (Throw e)
  | (Abort, _) => fail Abort
  | (UB, _) => fail UB
  | (Deadlock, _) => fail Deadlock
  | (Diverge, _) => fail Diverge
  end.
End HttpSession.
