(* ===== verification/HttpTheorems.v ===== *)
(** * HttpTheorems: the header maps and the texts of the methods *)

From stdpp Require Import base list numbers strings.
From Stdlib Require Import Ascii String.
From S2P Require Import Prelude Words Http.

Local Open Scope nat_scope.

(** ** The order of the keys *)

Lemma lex_irrefl x : lex_lt x x = false.
Proof. induction x as [|a x IH]; [done|]. simpl. by rewrite Nat.eqb_refl. Qed.

Lemma lex_trans x : forall y z, lex_lt x y = true -> lex_lt y z = true -> lex_lt x z = true.
Proof.
  induction x as [|a x IH]; intros [|b y] [|c z]; simpl; try done.
  destruct (Nat.eqb_spec a b) as [->|Hab], (Nat.eqb_spec b c) as [->|Hbc]; intros Hx Hy.
  - rewrite ?Nat.eqb_refl. by eapply IH.
  - by destruct (Nat.eqb_spec b c).
  - by destruct (Nat.eqb_spec a c); [congruence|].
  - bool_to_prop. destruct (Nat.eqb_spec a c); [lia|]. apply Nat.ltb_lt. lia.
Qed.

Lemma lex_total x : forall y, lex_lt x y = false -> lex_lt y x = false -> x = y.
Proof.
  induction x as [|a x IH]; intros [|b y]; simpl; try done.
  rewrite (Nat.eqb_sym b a). destruct (Nat.eqb_spec a b) as [->|]; intros H1 H2.
  - f_equal. by apply IH.
  - bool_to_prop. lia.
Qed.

Lemma lex_asym x y : lex_lt x y = true -> lex_lt y x = false.
Proof.
  intros Hxy. destruct (lex_lt y x) eqn:Hyx; [|done].
  by rewrite <- (lex_irrefl x), (lex_trans x y x).
Qed.

Lemma same_key_casefold x y : same_key x y = true <-> casefold x = casefold y.
Proof.
  unfold same_key, CaseInsensitiveLess. rewrite andb_true_iff, !negb_true_iff. split.
  - intros [H1 H2]. by apply lex_total.
  - intros ->. by rewrite lex_irrefl.
Qed.

(** Keys that name the same entry. *)
Definition key_equiv (x y : string) : Prop := same_key x y = true.

#[export] Instance key_equiv_equivalence : Equivalence key_equiv.
Proof.
  unfold key_equiv. split.
  - intros x. by apply same_key_casefold.
  - intros x y. rewrite !same_key_casefold. done.
  - intros x y z. rewrite !same_key_casefold. congruence.
Qed.

#[export] Instance less_proper : Proper (key_equiv ==> key_equiv ==> eq) CaseInsensitiveLess.
Proof.
  intros x x' Hx y y' Hy. unfold CaseInsensitiveLess.
  by rewrite (proj1 (same_key_casefold x x') Hx), (proj1 (same_key_casefold y y') Hy).
Qed.

#[export] Instance same_key_proper : Proper (key_equiv ==> key_equiv ==> eq) same_key.
Proof.
  intros x x' Hx y y' Hy. unfold same_key. by rewrite (less_proper x x' Hx y y' Hy), (less_proper y y' Hy x x' Hx).
Qed.

#[export] Instance map_find_proper : Proper (key_equiv ==> eq ==> eq) map_find.
Proof.
  intros x x' Hx m m' <-. induction m as [|[k v] m IH]; [done|]. simpl. rewrite IH.
  by rewrite (less_proper k k (reflexivity k) x x' Hx), (less_proper x x' Hx k k (reflexivity k)).
Qed.

Lemma less_same x y : CaseInsensitiveLess x y = false -> CaseInsensitiveLess y x = false -> key_equiv x y.
Proof. intros H1 H2. unfold key_equiv, same_key. by rewrite H1, H2. Qed.

Lemma less_irrefl x : CaseInsensitiveLess x x = false.
Proof. apply lex_irrefl. Qed.

Lemma less_trans x y z : CaseInsensitiveLess x y = true -> CaseInsensitiveLess y z = true -> CaseInsensitiveLess x z = true.
Proof. apply lex_trans. Qed.

Lemma less_asym x y : CaseInsensitiveLess x y = true -> CaseInsensitiveLess y x = false.
Proof. apply lex_asym. Qed.

(** The two ways of comparing two keys: strictly ordered, or the same. *)
Lemma less_cases x y :
  (CaseInsensitiveLess x y = true /\ CaseInsensitiveLess y x = false /\ same_key x y = false) \/
  (CaseInsensitiveLess x y = false /\ CaseInsensitiveLess y x = true /\ same_key x y = false) \/
  (CaseInsensitiveLess x y = false /\ CaseInsensitiveLess y x = false /\ key_equiv x y).
Proof.
  unfold key_equiv, same_key. destruct (CaseInsensitiveLess x y) eqn:H1, (CaseInsensitiveLess y x) eqn:H2; try tauto.
  apply less_asym in H1. congruence.
Qed.

(** ** The maps *)

(** All the keys of [m] come after [k]. *)
Definition above (k : string) (m : MapType) : Prop :=
  Forall (fun e : string * string => CaseInsensitiveLess k (fst e) = true) m.

(** In order, without two entries of the same key. *)
Fixpoint ordered (m : MapType) : Prop :=
  match m with
  | [] => True
  | (k, _) :: m => above k m /\ ordered m
  end.

Lemma find_above k m : above k m -> map_find k m = None.
Proof.
  destruct m as [|[x w] m]; [done|]. intros Hf. inversion_clear Hf as [|? ? Hk _]. simpl in *.
  by rewrite (less_asym k x Hk), Hk.
Qed.

Lemma above_trans k x m : CaseInsensitiveLess k x = true ->
  above x m -> above k m.
Proof. intros Hk Hf. eapply Forall_impl; [exact Hf|]. intros e. by apply less_trans. Qed.

Lemma set_above x k v m : CaseInsensitiveLess x k = true ->
  above x m ->
  above x (map_set k v m).
Proof.
  intros Hk. induction m as [|[y w] m IH]; intros Hf; simpl; [by repeat constructor|].
  inversion_clear Hf. destruct (CaseInsensitiveLess y k), (CaseInsensitiveLess k y);
    repeat first [done | apply IH | constructor].
Qed.

Lemma erase_above x k m : above x m ->
  above x (map_erase k m).
Proof.
  induction m as [|[y w] m IH]; intros Hf; simpl; [done|].
  inversion_clear Hf. destruct (CaseInsensitiveLess y k), (CaseInsensitiveLess k y);
    repeat first [done | apply IH | constructor].
Qed.

Lemma set_ordered k v m : ordered m -> ordered (map_set k v m).
Proof.
  induction m as [|[x w] m IH]; simpl; [by repeat constructor|]. intros [Hf Ho].
  destruct (less_cases x k) as [(H1 & H2 & _)|[(H1 & H2 & _)|(H1 & H2 & Heq)]]; rewrite H1, ?H2; simpl.
  - split; [by apply set_above|by apply IH].
  - split; [|done]. constructor; [done|]. by apply (above_trans k x).
  - done.
Qed.

Lemma erase_ordered k m : ordered m -> ordered (map_erase k m).
Proof.
  induction m as [|[x w] m IH]; simpl; [done|]. intros [Hf Ho].
  destruct (CaseInsensitiveLess x k); simpl; [split; [by apply erase_above|by apply IH]|].
  by destruct (CaseInsensitiveLess k x).
Qed.

Lemma find_set k v k' m : ordered m ->
  map_find k' (map_set k v m) = if same_key k k' then Some v else map_find k' m.
Proof.
  induction m as [|[x w] m IH]; intros Ho.
  - simpl. destruct (less_cases k k') as [(H1 & H2 & H3)|[(H1 & H2 & H3)|(H1 & H2 & H3)]]; unfold key_equiv in *; rewrite H1, ?H2, ?H3; done.
  - destruct Ho as [Hf Ho]. specialize (IH Ho). simpl.
    destruct (less_cases x k) as [(H1 & H2 & H3)|[(H1 & H2 & H3)|(H1 & H2 & Heq)]]; rewrite H1, ?H2; simpl.
    + rewrite IH. destruct (same_key k k') eqn:Hs; [|done].
      by rewrite <- (less_proper x x (reflexivity x) k k' Hs), H1.
    + destruct (less_cases k k') as [(G1 & G2 & G3)|[(G1 & G2 & G3)|(G1 & G2 & G3)]]; unfold key_equiv in *; rewrite G1, ?G2, ?G3; try done.
      assert (CaseInsensitiveLess k' x = true) as Hlt by (by apply (less_trans k' k x)).
      by rewrite (less_asym _ _ Hlt), Hlt.
    + rewrite <- (same_key_proper x k Heq k' k' (reflexivity k')). unfold same_key.
      destruct (less_cases x k') as [(G1 & G2 & G3)|[(G1 & G2 & G3)|(G1 & G2 & G3)]]; rewrite G1, ?G2; done.
Qed.

Lemma find_erase k k' m : ordered m ->
  map_find k' (map_erase k m) = if same_key k k' then None else map_find k' m.
Proof.
  induction m as [|[x w] m IH]; intros Ho; simpl; [by destruct (same_key k k')|].
  destruct Ho as [Hf Ho]. specialize (IH Ho).
  destruct (less_cases x k) as [(H1 & H2 & H3)|[(H1 & H2 & H3)|(H1 & H2 & Heq)]]; rewrite H1, ?H2; simpl.
  - rewrite IH. destruct (same_key k k') eqn:Hs; [|done].
    by rewrite <- (less_proper x x (reflexivity x) k k' Hs), H1.
  - destruct (same_key k k') eqn:Hs; [|done].
    by rewrite <- (less_proper x x (reflexivity x) k k' Hs), <- (less_proper k k' Hs x x (reflexivity x)), H1, H2.
  - rewrite <- (same_key_proper x k Heq k' k' (reflexivity k')). unfold same_key.
    destruct (less_cases x k') as [(G1 & G2 & G3)|[(G1 & G2 & G3)|(G1 & G2 & G3)]]; rewrite G1, ?G2; simpl; [done| |].
    + apply find_above, (above_trans k' x); done.
    + rewrite <- G3. by apply find_above.
Qed.

(** *** The three maps of a request *)

(** A text as a C string: up to the first zero. *)
Fixpoint c_chars (s : string) : list ascii :=
  match s with
  | EmptyString => []
  | String c s => if Ascii.eqb c zero then [] else c :: c_chars s
  end.

(** The same text but for the case of its letters. *)
Definition same_text (x y : string) : Prop := map fold_case (c_chars x) = map fold_case (c_chars y).

Lemma casefold_chars s : casefold s = map nat_of_ascii (map fold_case (c_chars s)).
Proof.
  induction s as [|c s IH]; [done|]. cbn [casefold c_chars].
  assert ((nat_of_ascii c =? 0) = Ascii.eqb c zero /\ tolower c = nat_of_ascii (fold_case c)) as [-> ->].
  { by destruct c as [[] [] [] [] [] [] [] []]. }
  destruct (Ascii.eqb c zero); [done|]. cbn [map]. by rewrite IH.
Qed.

Lemma same_key_text x y : same_key x y = true <-> same_text x y.
Proof.
  rewrite same_key_casefold, !casefold_chars. unfold same_text. split; [|by intros ->]. intros Heq.
  apply (f_equal (map ascii_of_nat)) in Heq. rewrite !(map_map nat_of_ascii) in Heq.
  rewrite !(map_ext _ (fun c => c) ascii_nat_embedding), !map_id in Heq. done.
Qed.

Inductive table : Set := Headers | Params | Cookies.

(** What is done to the maps of a request. *)
Inductive change : Set := Put (t : table) (k v : string) | Del (t : table) (k : string).

Definition apply_change (c : change) : HttpRequest -> HttpRequest :=
  match c with
  | Put Headers k v => setHeader k v
  | Put Params k v => setParam k v
  | Put Cookies k v => setCookie k v
  | Del Headers k => delHeader k
  | Del Params k => delParam k
  | Del Cookies k => delCookie k
  end.

Definition look_up (t : table) (r : HttpRequest) (k : string) : option string :=
  match t with Headers => getHeader r k | Params => getParam r k | Cookies => getCookie r k end.

(** A change that is about a key of a table. *)
Definition about (t : table) (k : string) (c : change) : Prop :=
  match c with Put t' k' _ => t' = t /\ same_text k' k | Del t' k' => t' = t /\ same_text k' k end.

(** What a key has after a history of changes, the last one first: what the last change
    that is about it says. *)
Inductive last_said (t : table) (k : string) : list change -> option string -> Prop :=
  | said_nothing : last_said t k [] None
  | said_put k' v cs : about t k (Put t k' v) -> last_said t k (Put t k' v :: cs) (Some v)
  | said_del k' cs : about t k (Del t k') -> last_said t k (Del t k' :: cs) None
  | said_before c cs x : ~ about t k c -> last_said t k cs x -> last_said t k (c :: cs) x.

Definition changed (cs : list change) (r : HttpRequest) : HttpRequest := foldr apply_change r cs.

Definition maps_ordered (r : HttpRequest) : Prop := ordered (m_headers r) /\ ordered (m_params r) /\ ordered (m_cookies r).

Lemma apply_ordered c r : maps_ordered r -> maps_ordered (apply_change c r).
Proof.
  intros (H1 & H2 & H3). destruct c as [[] k v|[] k]; (split_and!; [..]); cbn; try done; by apply set_ordered || apply erase_ordered.
Qed.

Lemma changed_ordered version close cs : maps_ordered (changed cs (HttpRequest_ctor version close)).
Proof. induction cs as [|c cs IH]; [done|]. by apply apply_ordered. Qed.

#[export] Instance table_eq_dec : EqDecision table.
Proof. solve_decision. Defined.

Lemma look_up_change t k c r : maps_ordered r ->
  look_up t (apply_change c r) k =
  match c with
  | Put t' k' v => if decide (t' = t) then if same_key k' k then Some v else look_up t r k else look_up t r k
  | Del t' k' => if decide (t' = t) then if same_key k' k then None else look_up t r k else look_up t r k
  end.
Proof.
  intros (H1 & H2 & H3). destruct c as [[] k' v|[] k'], t; try done; by apply find_set || apply find_erase.
Qed.

(** C30: (functional) The headers, the parameters and the cookies of a request are three
    independent maps whose keys ignore case: whatever is set and deleted in whatever order,
    from a new request on, a key finds the value that was last set for it in this map,
    in whatever spelling of its letters, and nothing when it has been deleted since or was
    never set.  A key counts as a C string, up to its first zero byte. *)
Theorem maps_ignore_case version close cs t k :
  last_said t k cs (look_up t (changed cs (HttpRequest_ctor version close)) k).
Proof.
  induction cs as [|c cs IH]; [by destruct t; constructor|]. cbn [changed foldr].
  rewrite look_up_change by apply changed_ordered. fold (changed cs (HttpRequest_ctor version close)).
  destruct c as [t' k' v|t' k']; (destruct (decide (t' = t)) as [->|Hne]; [|by apply said_before; [intros [? _]|]]);
    destruct (same_key k' k) eqn:Hs;
    (by apply said_put; split; [|apply same_key_text]) || (by apply said_del; split; [|apply same_key_text]) ||
    (apply said_before; [|exact IH]; intros [_ Hk]; apply same_key_text in Hk; congruence).
Qed.

Example spelled_otherwise :
  let r := changed [Del Params "A"; Put Headers "content-LENGTH" "6"; Put Headers "Content-Length" "5"] (HttpRequest_ctor 17 false) in
  (getHeader r "content-length", getHeader r "a", getParam r "a") = (Some "6"%string, None, None).
Proof. reflexivity. Qed.

(** ** Methods: the text of a method is read back as the method. *)
Lemma method_text_roundtrip m s : httpMethodToString m = Ok s -> stringToHttpMethod s = Ok m.
Proof.
  unfold httpMethodToString, stringToHttpMethod, or_throw.
  assert (forallb (fun p => bool_decide (number_of (snd p) HTTP_METHOD_MAP = Some (fst p))) HTTP_METHOD_MAP = true) as Hall
    by (vm_compute; reflexivity).
  assert (forall l, text_of m l = Some s -> In (m, s) l) as Hin.
  { induction l as [|[n t] l IH]; simpl; [done|].
    destruct (Z.eqb_spec m n) as [->|]; [intros [= ->]; by left|intros; right; by apply IH]. }
  destruct (text_of m HTTP_METHOD_MAP) as [t|] eqn:Ht; [|done]. intros [= ->].
  apply Hin in Ht. rewrite forallb_forall in Hall. apply Hall in Ht. apply bool_decide_eq_true in Ht.
  cbn [fst snd] in Ht. by rewrite Ht.
Qed.
