(* ===== verification/HttpParserTheorems.v ===== *)
(** * HttpParserTheorems: the callbacks, and the reading of a request *)

From stdpp Require Import base list numbers strings.
From Stdlib Require Import Ascii String.
From S2P Require Import Prelude Words ParserTables ParserUrl ParserState ParserExec ParserSafety ParserTheorems ParserFrame ParserUrlTheorems Address ByteArray Socket Stream StreamTheorems Http HttpTheorems HttpParser.

Local Open Scope nat_scope.
#[local] Notation length := List.length.
#[local] Notation concat := List.concat.

(** ** The callbacks of a request *)

Lemma on_object_ok {D A} (m : comp D A) (a : A) d (ps : http_parser D) :
  m (data ps) = (Ok a, d) -> on_object m ps = (Ok a, set_data d ps).
Proof. intros H. unfold on_object, lift. by rewrite H. Qed.

(** A method of the object that always returns. *)
Definition returns {D A} (m : comp D A) : Prop := forall d, exists a d', m d = (Ok a, d').

Lemma on_object_calls {D} (m : comp D Z) : returns m -> calls_ok (on_object m).
Proof. intros Hm ps. destruct (Hm (data ps)) as (a & d & Hrun). exists a, d. by apply on_object_ok. Qed.

Lemma ret_calls {D} (v : Z) : calls_ok (D := D) (ret v).
Proof. intros ps. exists v, (data ps). by destruct ps. Qed.

Lemma set_url_field_returns u at_ f g : url_fits (length at_) u -> returns (set_url_field u at_ f g).
Proof.
  intros Hu d. unfold set_url_field. destruct (is_set f u); [|by exists tt, d].
  destruct (Hu f) as (_ & _ & Hle). destruct (field_data u f) as [off l]. cbn in Hle.
  destruct (Z.ltb_spec (Z.of_nat (List.length at_)) (off + l)); [lia|]. by eexists tt, _.
Qed.

Lemma bind_returns {D A B} (m : comp D A) (k : A -> comp D B) : returns m -> (forall a, returns (k a)) -> returns (Prelude.bind m k).
Proof.
  intros Hm Hk d. destruct (Hm d) as (a & d1 & Hrun). rewrite (bind_Ok _ _ _ _ _ Hrun). apply Hk.
Qed.

Lemma request_on_url_ok at_ : (Z.of_nat (length at_) <= 65535)%Z -> calls_ok (request_on_url at_).
Proof.
  intros Hl. destruct (parse_url_fits at_ false Hl) as (r & u & Hrun & Hu). unfold request_on_url.
  rewrite Hrun. destruct (negb _); [apply ret_calls|]. apply on_object_calls.
  repeat (apply bind_returns; [by apply set_url_field_returns|intros _]). intros d. by exists 0%Z, d.
Qed.

Lemma request_settings_ok bytes : (Z.of_nat (length bytes) <= 65535)%Z -> settings_ok request_settings bytes.
Proof.
  intros Hl. split_and!.
  - intros [] f [= <-]; apply ret_calls || apply on_object_calls; intros d; by eexists _, _.
  - intros f [= <-] ps. apply (on_object_calls (D := RequestParser)). intros d. by eexists _, _.
  - intros [] f l [= <-] Hll; try apply ret_calls; try (apply on_object_calls; intros d; by eexists _, _).
    apply request_on_url_ok. unfold ge in *. lia.
Qed.

(** A call of [execute], on a buffer of the session. *)
Lemma execute_returns bytes (p : HttpRequestParser) : (Z.of_nat (length bytes) <= 65535)%Z -> parser_ok p ->
  exists n p', execute bytes p = (Ok n, p') /\ parser_ok p'.
Proof.
  intros Hl Hp. unfold execute. pose proof (request_settings_ok bytes Hl) as Hset. destruct (decide (errno p = HPE_OK)) as [He|He].
  - destruct (decide (bytes = [])) as [->|Hb].
    + destruct (eof_ok HTTP_MAX_HEADER_SIZE request_settings [] Hset p Hp He) as (n & p' & Hrun & Hok & _).
      by exists (Z.of_nat n), p'.
    + destruct (http_parser_execute_ok HTTP_MAX_HEADER_SIZE request_settings bytes Hset p Hp) as (n & p' & Hrun & _ & Hok & _);
        [by destruct bytes|done|]. by exists (Z.of_nat n), p'.
  - exists 0%Z, p. split; [by apply execute_failed|done].
Qed.

(** ** Reading a request *)

(** What the parser is given: after each read the whole buffer up to there. *)
Fixpoint feeds (got : list Z) (chunks : list (list Z)) : list (list Z) :=
  match chunks with
  | [] => []
  | c :: chunks => (got ++ c)%list :: feeds (got ++ c)%list chunks
  end.

(** The parser after a series of buffers. *)
Definition fed (p : HttpRequestParser) (bufs : list (list Z)) : HttpRequestParser :=
  fold_left (fun p buf => snd (execute buf p)) bufs p.

(** No callback sets [m_close], whatever the [Connection] header says, and the
    version has eight bits. *)
Definition request_ok (r : HttpRequest) : Prop := m_close r = false /\ (0 <= m_version r < 256)%Z.
Definition data_ok (p : RequestParser) : Prop := request_ok (m_data p).

Lemma on_object_keeps {A} (m : comp RequestParser A) : (forall d, data_ok d -> data_ok (snd (m d))) ->
  keeps_data data_ok (on_object m).
Proof. intros Hm ps Hps. specialize (Hm _ Hps). unfold on_object, lift. by destruct (m (data ps)). Qed.

Lemma set_url_field_keeps u at_ f g d : (forall s r, request_ok r -> request_ok (g s r)) -> data_ok d ->
  data_ok (snd (set_url_field u at_ f g d)).
Proof.
  intros Hg Hd. unfold set_url_field. destruct (is_set f u); [|done]. destruct (field_data u f) as [off l].
  destruct (_ <? _)%Z; [done|]. by apply Hg.
Qed.

Lemma bind_keeps {A B} (m : comp RequestParser A) (k : A -> comp RequestParser B) d : data_ok (snd (m d)) ->
  (forall a d', data_ok d' -> data_ok (snd (k a d'))) -> data_ok (snd (Prelude.bind m k d)).
Proof. intros Hm Hk. unfold Prelude.bind. destruct (m d) as [[a| | | | |] d']; try exact Hm. by apply Hk. Qed.

Lemma request_settings_keep : callbacks_keep request_settings data_ok.
Proof.
  assert (keeps_data data_ok (ret 0%Z : comp (http_parser RequestParser) Z)) as Hret by (by intros ps).
  split_and!.
  - intros [] f [= <-]; exact Hret.
  - intros f [= <-] ps [Hc Hv]. split; [exact Hc|]. cbn. apply (wrap_range 8). lia.
  - intros [] f l [= <-]; try exact Hret; try (by apply on_object_keeps).
    unfold request_on_url. destruct (http_parser_parse_url _ _ _) as [[rt| | | | |] u]; try (by intros ps).
    destruct (negb _); [by intros ps|]. apply on_object_keeps. intros d Hd.
    repeat (apply bind_keeps; [by apply set_url_field_keeps|clear d Hd; intros _ d Hd]). done.
Qed.

Lemma fed_ok bufs p : request_ok (getData p) -> request_ok (getData (fed p bufs)).
Proof.
  revert p. induction bufs as [|b bufs IH]; intros p Hp; [done|]. apply IH.
  apply (execute_keeps HTTP_MAX_HEADER_SIZE request_settings b data_ok request_settings_keep p Hp).
Qed.

Section recv.
Context {S : Type} `{St : Stream S} {sent incoming : S -> list Z} {Hstream : StreamLaws S sent incoming}.
Context (Hclose : forall s : S, exists v s', s_close s = (Ok v, s')).

(** Reads that deliver [chunks], after [n] bytes of the buffer: each asks for the rest of
    the buffer, and is given at least a byte. *)
Inductive reads : nat -> S -> list (list Z) -> S -> Prop :=
  | reads_nil n s : reads n s [] s
  | reads_cons n s c s1 chunks s2 :
      s_read (buffSize - n) s = (Ok (Z.of_nat (length c), c), s1) -> c <> [] ->
      reads (n + length c) s1 chunks s2 -> reads n s (c :: chunks) s2.

(** The parser takes a buffer: it consumes some of it and reports no error. *)
Definition accepts (p : HttpRequestParser) (buf : list Z) : Prop :=
  (exists n, fst (execute buf p) = Ok n /\ (0 < n)%Z) /\ error (snd (execute buf p)) = 0%Z.

(** It takes all of them, and is not finished before the last. *)
Fixpoint accepts_all (p : HttpRequestParser) (bufs : list (list Z)) : Prop :=
  match bufs with
  | [] => True
  | b :: bufs => finished p = false /\ accepts p b /\ accepts_all (snd (execute b p)) bufs
  end.

(** How the reading of a request ends, with [n] bytes read and the parser [q]: it has
    finished; the stream delivers nothing more, or what the parser rejects, and is closed. *)
Definition ends_reading (q : HttpRequestParser) (got : list Z) (s1 : S) (r : option HttpRequest) (s' : S) : Prop :=
  (finished q = true /\ r = Some (getData q) /\ s' = s1) \/
  (finished q = false /\ r = None /\ exists rt bs s2 v,
     s_read (buffSize - length got) s1 = (Ok (rt, bs), s2) /\ (rt <= 0)%Z /\ s_close s2 = (Ok v, s')) \/
  (finished q = false /\ r = None /\ exists c s2 v,
     s_read (buffSize - length got) s1 = (Ok (Z.of_nat (length c), c), s2) /\ c <> [] /\
     ~ accepts q (got ++ c)%list /\ s_close s2 = (Ok v, s')).

Lemma recv_loop_spec fuel : forall got (p : HttpRequestParser) s,
  parser_ok p -> length got <= buffSize -> buffSize - length got < fuel ->
  exists r s' chunks s1, recv_loop fuel got p s = (Ok r, s') /\
    reads (length got) s chunks s1 /\ length got + length (concat chunks) <= buffSize /\
    incoming s = (concat chunks ++ incoming s1)%list /\ accepts_all p (feeds got chunks) /\
    ends_reading (fed p (feeds got chunks)) (got ++ concat chunks)%list s1 r s'.
Proof using Hclose Hstream.
  induction fuel as [|fuel IH]; intros got p s Hp Hgot Hfuel; [lia|].
  cbn [recv_loop]. destruct (finished p) eqn:Hf.
  { exists (Some (getData p)), s, [], s. cbn [List.concat feeds List.length]. rewrite app_nil_r.
    split_and!; done || lia || (by constructor) || (by left). }
  destruct (s_read_law (buffSize - length got) s) as (rt & bs & s1 & Hr & Hrt & Hgood & _).
  rewrite (bind_Ok _ _ _ _ _ Hr). cbn [fst snd].
  destruct (Z.leb_spec rt 0) as [Hneg|Hpos].
  { destruct (Hclose s1) as (v & s' & Hc). exists None, s', [], s. cbn [List.concat feeds List.length]. rewrite app_nil_r.
    rewrite (bind_Ok _ _ _ _ _ Hc). split_and!; try done; [constructor|lia|]. right; left. split_and!; try done. by exists rt, bs, s1, v. }
  destruct (Hgood Hpos) as [Hl Hin]. rewrite <- Hl in Hr.
  assert (bs <> []) as Hbs by (intros ->; cbn in Hl; lia).
  destruct (execute_returns (got ++ bs)%list p) as (n & p' & Hex & Hp'); [rewrite length_app; unfold buffSize in *; lia|done|].
  rewrite Hex. destruct (negb (error p' =? 0)%Z || (n <=? 0)%Z) eqn:Hbad.
  { destruct (Hclose s1) as (v & s' & Hc). exists None, s', [], s. cbn [List.concat feeds List.length]. rewrite app_nil_r.
    rewrite (bind_Ok _ _ _ _ _ Hc). split_and!; try done; [constructor|lia|]. right; right. split_and!; try done.
    exists bs, s1, v. split_and!; try done. intros [(m & Hm & Hpm) He]. cbn [fed fold_left] in Hm, He. rewrite Hex in Hm, He. cbn [fst snd] in Hm, He.
    injection Hm as ->. rewrite He in Hbad. cbn in Hbad. apply Z.leb_le in Hbad. lia. }
  destruct (IH (got ++ bs)%list p' s1) as (r & s' & chunks & s2 & Hrun & Hreads & Hle & Hin' & Hacc & Hend); [done|rewrite length_app; lia..|].
  exists r, s', (bs :: chunks), s2. rewrite length_app in Hle, Hreads. cbn [List.concat feeds]. rewrite length_app.
  unfold fed in *. cbn [fold_left accepts_all]. rewrite Hex. cbn [snd]. rewrite <- app_assoc in Hend.
  apply orb_false_iff in Hbad as [He Hn]. apply Z.leb_gt in Hn. apply negb_false_iff, Z.eqb_eq in He.
  split_and!; try done; [by eapply reads_cons|lia|by rewrite Hin, Hin', app_assoc|].
  split; rewrite Hex; [by exists n|exact He].
Qed.

(** C24: (termination) [recvRequest] returns, whatever the stream delivers, after at most
    4096 bytes, and does exactly this: it makes the reads [chunks], each for the rest
    of the buffer, giving the parser after each read all the bytes from the start
    again; the parser takes each of these buffers and is not finished before the last.
    Then either the parser has finished, and its request is returned; or it has not,
    and the next read delivers nothing (end of stream, failure, full buffer) or
    something that makes the parser fail or consume nothing, and the stream is closed
    and no request is returned.  With one read the request is the parse of its bytes;
    with two the bytes of the first are parsed twice. *)
Theorem recvRequest_refeeds s : exists r s' chunks s1,
  let q := fed HttpRequestParser_ctor (feeds [] chunks) in
  recvRequest s = (Ok r, s') /\
  reads 0 s chunks s1 /\ length (concat chunks) <= buffSize /\ incoming s = (concat chunks ++ incoming s1)%list /\
  accepts_all HttpRequestParser_ctor (feeds [] chunks) /\
  ends_reading q (concat chunks) s1 r s'.
Proof using Hclose Hstream.
  destruct (recv_loop_spec (Datatypes.S buffSize) [] HttpRequestParser_ctor s)
    as (r & s' & chunks & s1 & Hrun & Hrest); [apply init_ok|cbn [List.length]; lia..|].
  exists r, s', chunks, s1. by split.
Qed.
End recv.

(** A header value that the parser reports in two pieces is cut to the second. *)
Lemma split_value_lost (ps : HttpRequestParser) k v1 v2 : ordered (m_headers (getData ps)) ->
  getHeader (getData (snd ((let! _ := request_on_header_field k in
                            let! _ := request_on_header_value v1 in
                            request_on_header_value v2) ps))) (text k) = Some (text v2).
Proof.
  intros Ho. unfold getHeader. cbn. rewrite find_set by (by apply set_ordered).
  by rewrite (reflexivity (text k) : key_equiv (text k) (text k)).
Qed.

(** So is a body that it reports in two pieces. *)
Lemma split_body_lost (ps : HttpRequestParser) b1 b2 :
  m_body (getData (snd ((let! _ := request_on_body b1 in request_on_body b2) ps))) = text b2.
Proof. done. Qed.

(** Parsing a response is undefined at the end of its headers. *)
Lemma response_headers_complete_UB p : fst (response_on_headers_complete p) = UB.
Proof. done. Qed.

(** ** Witnesses *)

#[local] Existing Instance channel_Stream.
#[local] Existing Instance channel_laws.

Definition request_text : list Z := (chars "GET /a?b#c HTTP/1.1" ++ [13; 10] ++ chars "host: x" ++ [13; 10; 13; 10])%Z%list.

Lemma recvRequest_refeeds_witness : exists r s' chunks s1,
  recvRequest (S := channel) (mkChannel [] request_text) = (Ok r, s') /\ reads 0 (mkChannel [] request_text) chunks s1 /\
  ends_reading (fed HttpRequestParser_ctor (feeds [] chunks)) (concat chunks) s1 r s'.
Proof.
  assert (forall s : channel, exists v s', s_close s = (Ok v, s')) as Hclose by (intros s; by exists 0%Z, s).
  destruct (recvRequest_refeeds (sent := ch_sent) (incoming := ch_incoming) Hclose (mkChannel [] request_text))
    as (r & s' & chunks & s1 & Hrun & Hreads & _ & _ & _ & Hend).
  exists r, s', chunks, s1. split; [exact Hrun|]. split; [exact Hreads|exact Hend].
Defined.

(** The request that comes in one piece, and the same in two: its first line is
    parsed again where a header is expected. *)
Example one_piece : let r := getData (fed HttpRequestParser_ctor (feeds [] [request_text])) in
  (m_path r, m_query r, m_fragment r, getHeader r "Host") = ("/a"%string, "b"%string, "c"%string, Some "x"%string).
Proof. vm_compute. reflexivity. Qed.

Example two_pieces : errno (fed HttpRequestParser_ctor (feeds [] [take 21 request_text; drop 21 request_text])) = HPE_INVALID_HEADER_TOKEN.
Proof. vm_compute. reflexivity. Qed.

(** A header whose name only begins with [transfer-encoding] counts as one. *)
Definition lines (ls : list (list Z)) : list Z := concat (map (fun l => l ++ [13; 10]%Z)%list ls).

Example encoding_by_prefix : errno (fed HttpRequestParser_ctor [(lines [chars "POST / HTTP/1.1"; chars "transfer-encoding-x: 1"; chars "content-length: 2"; []] ++ chars "hi")%list]) =
  HPE_UNEXPECTED_CONTENT_LENGTH.
Proof. vm_compute. reflexivity. Qed.

(** A byte from 128 on is the digit 0 of the size of a chunk. *)
Example high_byte_in_chunk_size :
  let p := fed HttpRequestParser_ctor [lines [chars "POST / HTTP/1.1"; chars "transfer-encoding: chunked"; []; [200; 50]%Z; chars "hi"; chars "0"; []]] in
  (errno p, finished p, m_body (getData p)) = (HPE_OK, true, "hi"%string).
Proof. vm_compute. reflexivity. Qed.
