(* ===== verification/ParserRequest.v ===== *)
(** * ParserRequest: what http_parser_execute makes of a request

    The parser reads its bytes in one pass of a state machine.  Here its steps are
    put together into the parts of a request: the method, the target, the version,
    the headers and the body. *)

From stdpp Require Import base list numbers.
From S2P Require Import Prelude Words ParserTables ParserUrl ParserState ParserExec ParserSafety ParserUrlTheorems.

Local Open Scope Z_scope.

(** ** Names of headers

    The parser compares a name with the five it knows while it reads it: [header_state]
    and [index] say how far it has come. *)

(** One more character, in lower case, of a name. *)
Definition match_step (name : list Z) (c : Z) (h found : header_states) (i : Z) : header_states * Z :=
  let i := wrap 5 (i + 1) in
  if (Z.of_nat (length name) <? i) || negb (c =? nth (Z.to_nat i) name 0) then (h_general, i)
  else if i =? Z.of_nat (length name) - 1 then (found, i) else (h, i).

Definition name_step (r : header_states * Z) (c : Z) : header_states * Z :=
  let '(h, i) := r in
  match h with
  | h_C => (if c =? "o"%ch then h_CO else h_general, wrap 5 (i + 1))
  | h_CO => (if c =? "n"%ch then h_CON else h_general, wrap 5 (i + 1))
  | h_CON =>
      (if c =? "n"%ch then h_matching_connection
       else if c =? "t"%ch then h_matching_content_length else h_general, wrap 5 (i + 1))
  | h_matching_connection => match_step CONNECTION c h h_connection i
  | h_matching_proxy_connection => match_step PROXY_CONNECTION c h h_connection i
  | h_matching_content_length => match_step CONTENT_LENGTH c h h_content_length i
  | h_matching_transfer_encoding => match_step TRANSFER_ENCODING c h h_transfer_encoding i
  | h_matching_upgrade => match_step UPGRADE c h h_upgrade i
  | _ => (h_general, i)
  end.

Definition name_start (c : Z) : header_states :=
  if c =? "c"%ch then h_C
  else if c =? "p"%ch then h_matching_proxy_connection
  else if c =? "t"%ch then h_matching_transfer_encoding
  else if c =? "u"%ch then h_matching_upgrade
  else h_general.

(** A name, as the characters that [TOKEN] gives. *)
Definition name_state (name : list Z) : header_states * Z :=
  match name with [] => (h_general, 0) | c :: name => fold_left name_step name (name_start c, 0) end.

(** The names that a header state stands for. *)
Definition known_name (h : header_states) (name : list Z) : Prop :=
  match h with
  | h_connection => name = CONNECTION \/ name = PROXY_CONNECTION
  | h_content_length => name = CONTENT_LENGTH
  | h_transfer_encoding => name = TRANSFER_ENCODING
  | h_upgrade => name = UPGRADE
  | _ => False
  end.

Definition special (h : header_states) : bool :=
  match h with h_connection | h_content_length | h_transfer_encoding | h_upgrade => true | _ => false end.

(** What has been read so far, from the state. *)
Definition read_so_far (r : header_states * Z) (name : list Z) : Prop :=
  let prefix (l : list Z) := snd r = Z.of_nat (length name) - 1 /\ (0 < length name < length l)%nat /\ name = take (length name) l in
  match fst r with
  | h_general => True
  | h_C => name = [99] /\ snd r = 0
  | h_CO => name = [99; 111] /\ snd r = 1
  | h_CON => name = [99; 111; 110] /\ snd r = 2
  | h_matching_connection => prefix CONNECTION
  | h_matching_proxy_connection => prefix PROXY_CONNECTION
  | h_matching_content_length => prefix CONTENT_LENGTH
  | h_matching_transfer_encoding => prefix TRANSFER_ENCODING
  | h_matching_upgrade => prefix UPGRADE
  | h => known_name h name
  end.

Lemma match_step_reads l c h found i name : (length l <= 31)%nat ->
  i = Z.of_nat (length name) - 1 -> (0 < length name < length l)%nat -> name = take (length name) l ->
  let r := match_step l c h found i in
  (fst r = h_general) \/ (fst r = found /\ name ++ [c] = l) \/
  (fst r = h /\ snd r = Z.of_nat (length (name ++ [c])) - 1 /\ (0 < length (name ++ [c]) < length l)%nat /\
   name ++ [c] = take (length (name ++ [c])) l).
Proof.
  intros Hl -> Hn Htake. unfold match_step. rewrite wrap_id by (unfold in_u; change (2 ^ 5) with 32; lia).
  replace (Z.of_nat (length name) - 1 + 1) with (Z.of_nat (length name)) by lia. rewrite Nat2Z.id.
  destruct (Z.ltb_spec (Z.of_nat (length l)) (Z.of_nat (length name))); [lia|]. cbn [orb].
  destruct (Z.eqb_spec c (nth (length name) l 0)) as [Hc|]; cbn [negb]; [|by left].
  assert (name ++ [c] = take (S (length name)) l) as E.
  { rewrite (take_S_r _ _ c), <- Htake; [done|]. rewrite Hc. destruct (lookup_lt_is_Some_2 l (length name)) as [x Hx]; [lia|].
    rewrite Hx. f_equal. symmetry. by apply nth_lookup_Some with (d := 0) in Hx. }
  right. destruct (Z.eqb_spec (Z.of_nat (length name)) (Z.of_nat (length l) - 1)).
  - left. split; [done|]. rewrite E. apply take_ge. lia.
  - right. cbn [fst snd]. rewrite length_app, Nat.add_1_r. split_and!; try done; lia.
Qed.

Lemma name_step_reads r name c : read_so_far r name -> read_so_far (name_step r c) (name ++ [c]).
Proof.
  destruct r as [h i]. intros H.
  assert (forall l h0 found, (length l <= 31)%nat -> (match h0 with h_general => True | _ => h = h0 end) ->
    i = Z.of_nat (length name) - 1 /\ (0 < length name < length l)%nat /\ name = take (length name) l ->
    (name ++ [c] = l -> read_so_far (found, snd (match_step l c h found i)) (name ++ [c])) ->
    (forall j, j = Z.of_nat (length (name ++ [c])) - 1 /\ (0 < length (name ++ [c]) < length l)%nat /\
      name ++ [c] = take (length (name ++ [c])) l -> read_so_far (h, j) (name ++ [c])) ->
    read_so_far (match_step l c h found i) (name ++ [c])) as Hm.
  { intros l h0 found Hl _ (Hi & Hn & Htake) Hf Hs.
    destruct (match_step_reads l c h found i name Hl Hi Hn Htake) as [Hg|[[Hg E]|(Hg & Hrest)]];
      destruct (match_step l c h found i) as [h' i'] eqn:Em; cbn [fst snd] in *; subst h'; [done|by apply Hf|by apply Hs]. }
  destruct h; try done; cbn [name_step].
  1-3: destruct H as [-> E]; cbn in E; subst i; cbn [app].
  - destruct (Z.eqb_spec c "o"%ch) as [->|]; [by split|done].
  - destruct (Z.eqb_spec c "n"%ch) as [->|]; [by split|done].
  - destruct (Z.eqb_spec c "n"%ch) as [->|]; [by split_and!; try (cbn; lia)|].
    destruct (Z.eqb_spec c "t"%ch) as [->|]; [by split_and!; try (cbn; lia)|done].
  - apply (Hm CONNECTION h_general); [cbn; lia|done|exact H| |]; [intros ->; by left|done].
  - apply (Hm PROXY_CONNECTION h_general); [cbn; lia|done|exact H| |]; [intros ->; by right|done].
  - apply (Hm CONTENT_LENGTH h_general); [cbn; lia|done|exact H| |]; done.
  - apply (Hm TRANSFER_ENCODING h_general); [cbn; lia|done|exact H| |]; done.
  - apply (Hm UPGRADE h_general); [cbn; lia|done|exact H| |]; done.
Qed.

Lemma name_state_reads name : read_so_far (name_state name) name.
Proof.
  destruct name as [|c name]; [done|]. cbn [name_state].
  enough (forall seen r, read_so_far r seen -> read_so_far (fold_left name_step name r) (seen ++ name)) as Hf.
  { apply (Hf [c]). unfold name_start.
    destruct (Z.eqb_spec c "c"%ch) as [->|]; [by split|]. destruct (Z.eqb_spec c "p"%ch) as [->|]; [split_and!; cbn; lia || done|].
    destruct (Z.eqb_spec c "t"%ch) as [->|]; [split_and!; cbn; lia || done|].
    destruct (Z.eqb_spec c "u"%ch) as [->|]; [split_and!; cbn; lia || done|done]. }
  induction name as [|d name IH]; intros seen r Hr; [by rewrite app_nil_r|].
  cbn [fold_left]. replace (seen ++ d :: name) with ((seen ++ [d]) ++ name) by by rewrite <- app_assoc.
  by apply IH, name_step_reads.
Qed.

(** The recogniser is the comparison with the five names. *)
Lemma name_state_known name h : special h = true -> fst (name_state name) = h <-> known_name h name.
Proof.
  intros Hh. split.
  - pose proof (name_state_reads name) as Hr. unfold read_so_far in Hr. intros Hs. rewrite Hs in Hr. by destruct h.
  - destruct h; try done; cbn [known_name]; intros E; [destruct E as [-> | ->]|subst..]; vm_compute; reflexivity.
Qed.

(** ** Runs *)

Section run.
Context {D : Type}.
Variable max_header_size : Z.
Variable settings : http_parser_settings D.
Variable bytes : list Z.
Implicit Types e : exec D.
#[local] Notation len := (length bytes).

(** Rounds of the loop that end in [break]: each takes a byte at least, so that the
    fuel of the loop is enough. *)
Inductive runs : exec D -> exec D -> Prop :=
  | runs_refl e : runs e e
  | runs_byte e ch e1 e' : bytes !! pos e = Some ch -> one_byte max_header_size settings bytes ch e = (Ok Break, e1) ->
      (pos e <= pos e1)%nat -> runs (set_pos (pos e1 + 1) e1) e' -> runs e e'.

Lemma runs_trans e1 e2 e3 : runs e1 e2 -> runs e2 e3 -> runs e1 e3.
Proof. induction 1; [done|]. intros. eapply runs_byte; eauto. Qed.

Lemma runs_main_loop e e' : runs e e' -> pos e' = len -> forall fuel, (len - pos e <= fuel)%nat ->
  main_loop max_header_size settings bytes fuel e = (Ok Break, e').
Proof.
  induction 1 as [e|e ch e1 e' Hch Hrun Hp _ IH]; intros He' fuel Hf.
  - destruct fuel; cbn [main_loop]; by rewrite bind_get, He', Nat.eqb_refl.
  - pose proof (lookup_lt_Some _ _ _ Hch) as Hlt.
    destruct fuel as [|fuel]; [lia|]. cbn [main_loop]. rewrite bind_get, (proj2 (Nat.eqb_neq _ _)) by lia.
    unfold char_at. rewrite Hch, bind_ret_l, (bind_Ok _ _ _ _ _ Hrun), bind_modify. apply IH; [done|cbn; lia].
Qed.

(** From [e] the loop comes to a point with [Q]. *)
Definition goes e (Q : exec D -> Prop) : Prop := exists e', runs e e' /\ Q e'.

Lemma goes_now e (Q : exec D -> Prop) : Q e -> goes e Q.
Proof. exists e. split; [constructor|done]. Qed.

Lemma goes_then e (Q R : exec D -> Prop) : goes e Q -> (forall e', Q e' -> goes e' R) -> goes e R.
Proof. intros (e1 & H1 & HQ) HR. destruct (HR e1 HQ) as (e2 & H2 & HR2). exists e2. split; [by eapply runs_trans|done]. Qed.

(** ** Where the parser is

    What the later steps need to know of the parser, apart from the state, the mark and
    the members that match names and values. *)
Record view : Type := mkView { v_flags : Z; v_length : Z; v_major : Z; v_minor : Z; v_method : Z; v_data : D }.

Definition view_of (ps : http_parser D) : view :=
  mkView (flags ps) (content_length ps) (http_major ps) (http_minor ps) (method ps) (data ps).

(** At a byte, [n] bytes counted, in a state, with at most one mark. *)
Record at_ (e : exec D) (p n : nat) (st : state) (mk : option (data_cb * nat)) (v : view) : Prop := {
  at_pos : pos e = p;
  at_state : p_state e = st;
  at_nread : l_nread e = Z.of_nat n;
  at_marks m : marks e m = match mk with Some (m', s) => if decide (m = m') then Some s else None | None => None end;
  at_view : view_of (parser e) = v;
  at_ok : errno (parser e) = HPE_OK /\ type_ (parser e) = HTTP_REQUEST /\ uses_transfer_encoding (parser e) = false /\
          lenient_http_headers (parser e) = false
}.

(** The members that match. *)
Definition matching e (h : header_states) (i : Z) : Prop := header_state (parser e) = h /\ index (parser e) = i.

Lemma at_state_to e p n st mk v st' : at_ e p n st mk v -> at_ (set_p_state st' e) p n st' mk v.
Proof. by intros []. Qed.

Lemma at_pos_to e p n st mk v p' : at_ e p n st mk v -> at_ (set_pos p' e) p' n st mk v.
Proof. by intros []. Qed.

Lemma at_nread_to e p n st mk v n' : at_ e p n st mk v -> at_ (set_l_nread (Z.of_nat n') e) p n' st mk v.
Proof. by intros []. Qed.

Lemma at_mark e p n st v m : at_ e p n st None v -> at_ (set_mark m (Some p) e) p n st (Some (m, p)) v.
Proof. intros []. split; try done. intros m'. cbn. destruct (decide (m' = m)); [done|]. by rewrite at_marks0. Qed.

Lemma at_unmark e p n st v m s : at_ e p n st (Some (m, s)) v -> at_ (set_mark m None e) p n st None v.
Proof. intros []. split; try done. intros m'. cbn. destruct (decide (m' = m)) as [|Hne]; [done|]. by rewrite at_marks0, decide_False. Qed.

(** Assignments to the parser that keep what the steps rely on. *)
Definition calm (f : http_parser D -> http_parser D) : Prop := forall ps,
  errno (f ps) = errno ps /\ type_ (f ps) = type_ ps /\ uses_transfer_encoding (f ps) = uses_transfer_encoding ps /\
  lenient_http_headers (f ps) = lenient_http_headers ps.

Lemma at_put e p n st mk v f : at_ e p n st mk v -> calm f ->
  at_ (set_parser (f (parser e)) e) p n st mk (view_of (f (parser e))).
Proof. intros [] Hf. destruct (Hf (parser e)) as (E1 & E2 & E3 & E4). split; try done. cbn. by rewrite E1, E2, E3, E4. Qed.

Lemma at_put_same e p n st mk v f : at_ e p n st mk v -> calm f -> view_of (f (parser e)) = view_of (parser e) ->
  at_ (set_parser (f (parser e)) e) p n st mk v.
Proof. intros Ha Hf E. rewrite <- (at_view _ _ _ _ _ _ Ha), <- E. by eapply at_put. Qed.

(** ** One byte *)

Context (Hmax : Z.of_nat len <= max_header_size < 2 ^ 32).

(** The byte at [p] is done, and the loop goes on behind it. *)
Definition next (p : nat) (Q : exec D -> Prop) (f : flow) (e1 : exec D) : Prop :=
  f = Break /\ (p <= pos e1)%nat /\ Q (set_pos (pos e1 + 1) e1).

Lemma wp_count_at e p n st mk v k ext Q : at_ e p n st mk v -> (n + k <= len)%nat ->
  (forall e1, at_ e1 p (n + k) st mk v -> parser e1 = parser e -> wp ext Q e1) ->
  wp (COUNT_HEADER_SIZE max_header_size k ext) Q e.
Proof using Hmax.
  intros Ha Hk He. unfold COUNT_HEADER_SIZE. apply wp_bind, wp_modify, wp_bind, wp_get. cbn [l_nread set_l_nread].
  rewrite (at_nread _ _ _ _ _ _ Ha). rewrite (wrap_id 32 (Z.of_nat k)) by (unfold in_u; lia).
  rewrite wrap_id by (unfold in_u; lia). replace (Z.of_nat n + Z.of_nat k) with (Z.of_nat (n + k)) by lia.
  destruct (Z.ltb_spec max_header_size (Z.of_nat (n + k))); [lia|]. apply He; [by eapply at_nread_to|done].
Qed.

Lemma goes_byte e p st mk v ch Q : at_ e p p st mk v -> PARSING_HEADER st = true -> bytes !! p = Some ch ->
  (forall e0, at_ e0 p (p + 1) st mk v -> parser e0 = parser e ->
    wp (reexecute max_header_size settings bytes 8 ch) (next p Q) e0) -> goes e Q.
Proof using Hmax.
  intros Ha Hst Hch Hw. pose proof (lookup_lt_Some _ _ _ Hch) as Hlt.
  assert (wp (one_byte max_header_size settings bytes ch) (next p Q) e) as (f & e1 & Hrun & -> & Hp & HQ).
  { unfold one_byte. apply wp_bind, wp_get. rewrite (at_state _ _ _ _ _ _ Ha), Hst. eapply wp_count_at; [done|lia|done]. }
  exists (set_pos (pos e1 + 1) e1). split; [|done]. pose proof (at_pos _ _ _ _ _ _ Ha) as Hpe.
  eapply runs_byte; [by rewrite Hpe|done|lia|constructor].
Qed.

Lemma wp_reexecute n st ch Q e : p_state e = st ->
  wp (switch max_header_size settings bytes st ch)
    (fun f e1 => match f with Reexecute ch' => wp (reexecute max_header_size settings bytes n ch') Q e1 | f => Q f e1 end) e ->
  wp (reexecute max_header_size settings bytes (S n) ch) Q e.
Proof.
  intros Hs Hw. cbn [reexecute]. apply wp_bind, wp_get. rewrite Hs. apply wp_bind. eapply wp_mono; [exact Hw|].
  intros [|ch'| |r] e1 He1; try by apply wp_ret. exact He1.
Qed.

(** A byte whose [switch] ends in [break]. *)
Lemma goes_switch e p st mk v ch Q : at_ e p p st mk v -> PARSING_HEADER st = true -> bytes !! p = Some ch ->
  (forall e0, at_ e0 p (p + 1) st mk v -> parser e0 = parser e ->
    wp (switch max_header_size settings bytes st ch) (next p Q) e0) -> goes e Q.
Proof using Hmax.
  intros Ha Hst Hch Hw. eapply goes_byte; [done..|]. intros e0 H0 Hps. apply (wp_reexecute _ st); [apply H0|].
  eapply wp_mono; [by apply Hw|]. by intros f e1 [-> Hn].
Qed.

(** Only the state changes. *)
Lemma goes_state e p st st' mk v ch (Q : exec D -> Prop) : at_ e p p st mk v -> PARSING_HEADER st = true -> bytes !! p = Some ch ->
  (forall e0, switch max_header_size settings bytes st ch e0 = (Ok Break, set_p_state st' e0)) ->
  (forall e1, at_ e1 (p + 1) (p + 1) st' mk v -> parser e1 = parser e -> Q e1) -> goes e Q.
Proof using Hmax.
  intros Ha Hst Hch Hsw HQ. eapply goes_switch; [done..|]. intros e0 H0 Hps. eexists _, _. split; [apply Hsw|].
  split; [done|]. cbn [pos set_p_state]. rewrite (at_pos _ _ _ _ _ _ H0). split; [lia|]. apply HQ; [|done].
  by eapply at_pos_to, at_state_to.
Qed.

(** ** Texts in the bytes *)

(** The text [l] stands at [p]. *)
Definition sits (p : nat) (l : list Z) : Prop := exists post, drop p bytes = l ++ post.

Lemma sits_app p l1 l2 : sits p (l1 ++ l2) <-> sits p l1 /\ sits (p + length l1) l2.
Proof.
  split.
  - intros [post E]. split; [exists (l2 ++ post); by rewrite app_assoc|]. exists post.
    rewrite <- drop_drop, E, <- app_assoc. by rewrite drop_app_length.
  - intros [[post1 E1] [post2 E2]]. exists post2. rewrite E1. rewrite <- drop_drop, E1, drop_app_length in E2.
    by rewrite E2, <- app_assoc.
Qed.

Lemma sits_cons p c l : sits p (c :: l) -> bytes !! p = Some c /\ sits (p + 1) l.
Proof.
  intros H. apply (sits_app p [c] l) in H as [[post E] H]. split; [|exact H].
  rewrite <- (Nat.add_0_r p), <- lookup_drop, E. done.
Qed.

Lemma sits_bound p l : sits p l -> l <> [] -> (p + length l <= len)%nat.
Proof.
  intros [post E] Hl. apply (f_equal length) in E. rewrite length_drop, length_app in E.
  destruct l; [done|]. cbn [length] in *. lia.
Qed.

Lemma sits_slice p l : sits p l -> take (length l) (drop p bytes) = l.
Proof. intros [post ->]. apply take_app_length. Qed.

(** ** Callbacks *)

(** A callback that returns 0 and changes the object of the user, as a function of the
    view. *)
Definition tells (f : comp (http_parser D) Z) (g : view -> D) : Prop := forall ps, f ps = (Ok 0, set_data (g (view_of ps)) ps).

Definition with_data (d : D) (v : view) : view := mkView (v_flags v) (v_length v) (v_major v) (v_minor v) (v_method v) d.

(** What a callback leaves: the parser has the state and the data. *)
Definition called (d : D) e : http_parser D := set_data d (set_state_ (p_state e) (parser e)).

Lemma wp_call f g er ER k Q e : tells f g -> errno (parser e) = HPE_OK ->
  wp k Q (set_parser (called (g (view_of (parser e))) e) e) -> wp (call_back f er ER k) Q e.
Proof.
  intros Hf Hok Hk. unfold call_back. apply wp_bind, wp_get, wp_bind, wp_modify, wp_bind.
  eexists _, _. split; [apply lift_Ok, Hf|]. apply wp_bind, wp_ret, wp_bind, wp_get, wp_bind, wp_modify, wp_bind, wp_get.
  cbn [parser set_parser set_p_state errno set_data set_state_]. rewrite Hok, decide_True by done. destruct e. exact Hk.
Qed.

Lemma at_called e p n st mk v d : at_ e p n st mk v -> at_ (set_parser (called d e) e) p n st mk (with_data d v).
Proof. intros []. split; try done. cbn. by subst v. Qed.

(** A data callback on the text from the mark on. *)
Lemma wp_data_at e p n st m s v extra ER k f g Q : at_ e p n st (Some (m, s)) v -> data_of settings m = Some f ->
  tells (f (take (p - s + extra) (drop s bytes))) g ->
  (forall e1, at_ e1 p n st None (with_data (g v) v) -> parser e1 = called (g v) e -> wp k Q e1) ->
  wp (CALLBACK_DATA_ settings bytes m extra ER k) Q e.
Proof.
  intros Ha Hf Hg Hk. pose proof Ha as [Hp Hst Hn Hm Hv (Hok & _)]. unfold CALLBACK_DATA_.
  apply wp_bind, wp_get, wp_bind, wp_assert; [by apply bool_decide_eq_true|]. apply wp_bind, wp_get.
  rewrite Hm, decide_True by done. apply wp_bind, wp_get. rewrite Hp, Hf. eapply wp_call; [done|done|]. rewrite Hv.
  apply wp_bind, wp_modify, Hk; [|done]. by eapply at_unmark, at_called.
Qed.

Lemma wp_notify_at e p n st mk v m ER k f g Q : at_ e p n st mk v -> notify_of settings m = Some f -> tells f g ->
  (forall e1, at_ e1 p n st mk (with_data (g v) v) -> parser e1 = called (g v) e -> wp k Q e1) ->
  wp (CALLBACK_NOTIFY_ settings m ER k) Q e.
Proof.
  intros Ha Hf Hg Hk. pose proof Ha as [_ _ _ _ Hv (Hok & _)]. unfold CALLBACK_NOTIFY_.
  apply wp_bind, wp_get, wp_bind, wp_assert; [by apply bool_decide_eq_true|]. rewrite Hf. eapply wp_call; [done|done|].
  rewrite Hv. apply Hk; [by eapply at_called|done].
Qed.

(** ** The target *)

Definition url_state (st : state) : Prop :=
  match st with
  | s_req_path | s_req_query_string_start | s_req_query_string | s_req_fragment_start | s_req_fragment => True
  | _ => False
  end.

Lemma goes_url_char e p st s ch v (Q : exec D -> Prop) : at_ e p p st (Some (url, s)) v -> url_state st ->
  bytes !! p = Some ch -> url_state (parse_url_char st ch) ->
  (forall e1, at_ e1 (p + 1) (p + 1) (parse_url_char st ch) (Some (url, s)) v -> Q e1) -> goes e Q.
Proof using Hmax.
  intros Ha Hst Hch Hnew HQ. eapply goes_switch; [done|by destruct st|done|]. intros e0 H0 Hps.
  assert (switch max_header_size settings bytes st ch = case_req_url settings bytes ch) as -> by (by destruct st).
  unfold case_req_url. assert ((ch =? " "%ch) || (ch =? CR) || (ch =? LF) = false) as Hsp.
  { unfold parse_url_char in Hnew. by destruct (_ || _ || _). }
  apply orb_false_iff in Hsp as [Hsp HLF]. apply orb_false_iff in Hsp as [Hsp HCR]. rewrite Hsp, HCR, HLF. cbn [orb].
  unfold url_char. apply wp_bind, wp_get, wp_bind, wp_modify, wp_bind, wp_get.
  rewrite (at_state _ _ _ _ _ _ H0). cbn [p_state set_p_state]. rewrite decide_False by (by intros E; rewrite E in Hnew).
  apply wp_ret. split; [done|]. cbn [pos set_p_state]. rewrite (at_pos _ _ _ _ _ _ H0). split; [lia|].
  by eapply HQ, at_pos_to, at_state_to.
Qed.

Lemma goes_url_chars l e p st s v (Q : exec D -> Prop) : at_ e p p st (Some (url, s)) v -> url_state st ->
  sits p l -> Forall (fun c => parse_url_char st c = st) l ->
  (forall e1, at_ e1 (p + length l) (p + length l) st (Some (url, s)) v -> Q e1) -> goes e Q.
Proof using Hmax.
  revert e p. induction l as [|c l IH]; intros e p Ha Hst Hl Hc HQ.
  - cbn in HQ. rewrite Nat.add_0_r in HQ. by apply goes_now, HQ.
  - apply sits_cons in Hl as [Hch Hl]. inversion Hc as [|? ? Hc1 Hcs]; subst.
    eapply (goes_then _ (fun e1 => at_ e1 (p + 1) (p + 1) st (Some (url, s)) v)).
    + eapply goes_url_char; [done..|by rewrite Hc1|]. by rewrite Hc1.
    + intros e1 H1. eapply IH; [done..|]. cbn [length] in HQ. by replace (p + 1 + length l)%nat with (p + S (length l))%nat by lia.
Qed.

(** A part that may be missing. *)
Lemma goes_url_part d l e p st sd s0 s v (Q : exec D -> Prop) : at_ e p p st (Some (url, s)) v -> url_state st ->
  sits p (prefixed d l) -> parse_url_char st d = sd -> url_state sd -> url_state s0 ->
  (forall c, c ∈ l -> parse_url_char sd c = s0 /\ parse_url_char s0 c = s0) ->
  (forall e1, at_ e1 (p + length (prefixed d l)) (p + length (prefixed d l)) (match l with [] => st | _ => s0 end) (Some (url, s)) v -> Q e1) ->
  goes e Q.
Proof using Hmax.
  intros Ha Hst Hl Hd Hsd Hs0 Hc HQ. destruct l as [|c l]; [cbn in HQ; rewrite Nat.add_0_r in HQ; by apply goes_now, HQ|].
  cbn [prefixed] in Hl. apply sits_cons in Hl as [Hch1 Hl]. apply sits_cons in Hl as [Hch2 Hl].
  eapply (goes_then _ (fun e1 => at_ e1 (p + 1) (p + 1) sd (Some (url, s)) v)).
  { eapply goes_url_char; [done..|by rewrite Hd|by rewrite Hd]. }
  intros e1 H1. destruct (Hc c) as [Hc1 _]; [by left|].
  eapply (goes_then _ (fun e1 => at_ e1 (p + 1 + 1) (p + 1 + 1) s0 (Some (url, s)) v)).
  { eapply goes_url_char; [done..|by rewrite Hc1|by rewrite Hc1]. }
  intros e2 H2. eapply (goes_url_chars l); [done..| |].
  - apply Forall_forall. intros x Hx. apply Hc. right. by apply list_elem_of_In.
  - cbn [prefixed length] in HQ. by replace (p + 1 + 1 + length l)%nat with (p + S (S (length l)))%nat by lia.
Qed.

Lemma goes_target path query fragment e p v f g (Q : exec D -> Prop) :
  at_ e p p s_req_spaces_before_url None v -> v_method v <> HTTP_CONNECT ->
  url_chars path -> query_chars query -> query_chars fragment -> sits p (target path query fragment ++ [" "%ch]) ->
  data_of settings url = Some f -> tells (f (target path query fragment)) g ->
  (forall e1, at_ e1 (p + length (target path query fragment) + 1) (p + length (target path query fragment) + 1)
     s_req_http_start None (with_data (g v) v) -> Q e1) -> goes e Q.
Proof using Hmax.
  intros Ha Hmeth Hpath Hquery Hfrag Hl Hf Hg HQ. set (t := target path query fragment) in *.
  apply sits_app in Hl as [Ht Hsp]. apply sits_cons in Hsp as [Hsp _].
  pose proof Ht as Hl. unfold t, target in Hl. apply sits_cons in Hl as [Hslash Hl]. apply sits_app in Hl as [Hl1 Hl].
  apply sits_app in Hl as [Hl2 Hl3].
  eapply (goes_then _ (fun e1 => at_ e1 (p + 1) (p + 1) s_req_path (Some (url, p)) v)).
  { eapply goes_switch; [done..|]. intros e0 H0 Hps. cbn [switch]. unfold case_req_spaces_before_url. cbn [Z.eqb Pos.eqb].
    apply wp_bind, wp_modify. rewrite (at_marks _ _ _ _ _ _ H0). pose proof (at_pos _ _ _ _ _ _ H0) as Hp0. rewrite Hp0.
    apply wp_bind, wp_get. cbn [parser set_mark set_marks].
    pose proof (at_view _ _ _ _ _ _ H0) as Hv. replace (method (parser e0)) with (v_method v) by by rewrite <- Hv.
    rewrite (proj2 (Z.eqb_neq _ _) Hmeth). apply wp_bind, wp_ret. unfold url_char.
    apply wp_bind, wp_get, wp_bind, wp_modify, wp_bind, wp_get. cbn [p_state set_p_state set_mark set_marks].
    rewrite (at_state _ _ _ _ _ _ H0). apply wp_ret. split; [done|]. cbn [pos set_p_state set_mark set_marks]. rewrite Hp0.
    split; [lia|]. by eapply at_pos_to, at_state_to, at_mark. }
  intros e1 H1. eapply (goes_then _ (fun e2 => exists st, url_state st /\ at_ e2 (p + length t) (p + length t) st (Some (url, p)) v)).
  { eapply goes_then; [eapply (goes_url_chars path); [done..|by apply path_stays|intros e2 H2; exact H2]|].
    cbv beta. intros e2 H2. eapply goes_then.
    { eapply (goes_url_part "?"%ch query _ _ s_req_path s_req_query_string_start s_req_query_string); try done.
      - intros c Hc%list_elem_of_In. eapply Forall_forall in Hc; [|exact Hquery]. split; apply query_next; auto.
      - intros e3 H3. exact H3. }
    cbv beta. intros e3 H3. set (s2 := match query with [] => s_req_path | _ => s_req_query_string end) in *.
    eapply (goes_url_part "#"%ch fragment _ _ s2 s_req_fragment_start s_req_fragment); try done.
    - by destruct query.
    - by destruct query.
    - intros c Hc%list_elem_of_In. eapply Forall_forall in Hc; [|exact Hfrag]. split; apply fragment_next; auto.
    - intros e4 H4. assert (length t = 1 + length path + length (prefixed "?"%ch query) + length (prefixed "#"%ch fragment))%nat as El
        by (unfold t, target; cbn [length]; rewrite !length_app; lia).
      rewrite El, !Nat.add_assoc. eexists. split; [|exact H4]. subst s2. by destruct query, fragment. }
  intros e2 (st & Hst & H2). eapply goes_switch; [exact H2|by destruct st|done|]. intros e0 H0 Hps.
  assert (switch max_header_size settings bytes st " "%ch = case_req_url settings bytes " "%ch) as -> by (by destruct st).
  unfold case_req_url. cbn [Z.eqb Pos.eqb]. apply wp_bind, wp_modify. unfold CALLBACK_DATA. apply wp_bind, wp_get.
  eapply wp_data_at; [by eapply at_state_to|done| |].
  { rewrite Nat.add_0_r. replace (p + length t - p)%nat with (length t) by lia. rewrite sits_slice by done. exact Hg. }
  intros e3 H3 _. apply wp_ret. split; [done|]. rewrite (at_pos _ _ _ _ _ _ H3). split; [lia|].
  by eapply HQ, at_pos_to.
Qed.

(** ** The version *)

Definition with_version (major minor : Z) (v : view) : view :=
  mkView (v_flags v) (v_length v) major minor (v_method v) (v_data v).

Lemma goes_digit e p st st' v c (put_ : Z -> http_parser D -> http_parser D) (Q : exec D -> Prop) :
  at_ e p p st None v -> PARSING_HEADER st = true -> bytes !! p = Some c -> IS_NUM c = true -> calm (put_ (c - "0"%ch)) ->
  switch max_header_size settings bytes st c = (if negb (IS_NUM c) then error HPE_INVALID_VERSION else
    do! put (put_ (c - "0"%ch)) in do! UPDATE_STATE st' in break) ->
  (forall e1 ps, view_of ps = v -> at_ e1 (p + 1) (p + 1) st' None (view_of (put_ (c - "0"%ch) ps)) -> Q e1) -> goes e Q.
Proof using Hmax.
  intros Ha Hst Hch Hnum Hcalm Hsw HQ. eapply goes_switch; [done..|]. intros e0 H0 Hps. rewrite Hsw, Hnum. cbn [negb].
  apply wp_bind, wp_modify, wp_bind, wp_modify, wp_ret. split; [done|]. cbn [pos set_p_state set_parser].
  rewrite (at_pos _ _ _ _ _ _ H0). split; [lia|]. eapply (HQ _ (parser e0)); [apply H0|].
  by eapply at_pos_to, at_state_to, at_put.
Qed.

Lemma goes_version e p v a b (Q : exec D -> Prop) : at_ e p p s_req_http_start None v -> 0 <= a <= 9 -> 0 <= b <= 9 ->
  sits p ([72; 84; 84; 80; 47] ++ [48 + a; "."%ch; 48 + b; CR; LF]) ->
  (forall e1, at_ e1 (p + 10) (p + 10) s_header_field_start None (with_version a b v) -> Q e1) -> goes e Q.
Proof using Hmax.
  intros Ha Ha9 Hb9 Hl HQ. repeat (apply sits_cons in Hl as [? Hl]). 
  do 5 (eapply goes_then; [eapply goes_state; [done|reflexivity|done|intros e0; reflexivity|intros e1 Hn _; exact Hn]|cbv beta; clear dependent e; intros e Ha]).
  assert (forall x, 0 <= x <= 9 -> IS_NUM (48 + x) = true) as Hnum by (intros x Hx; unfold IS_NUM; apply andb_true_iff; split; apply Z.leb_le; cbn; lia).
  eapply goes_then; [eapply (goes_digit _ _ _ s_req_http_dot _ (48 + a) set_http_major); [done|done|done|by apply Hnum|done|done|intros e1 ps Hps Hn; exact (ex_intro _ ps (conj Hps Hn))]|].
  cbv beta. clear dependent e. intros e (ps & Hps & Ha).
  eapply goes_then; [eapply goes_state; [done|reflexivity|done|intros e0; reflexivity|intros e1 Hn _; exact Hn]|cbv beta; clear dependent e; intros e Ha].
  eapply goes_then; [eapply (goes_digit _ _ _ s_req_http_end _ (48 + b) set_http_minor); [done|done|done|by apply Hnum|done|done|intros e1 ps' Hps' Hn; exact (ex_intro _ ps' (conj Hps' Hn))]|].
  cbv beta. clear dependent e. intros e (ps' & Hps' & Ha).
  do 2 (eapply goes_then; [eapply goes_state; [done|reflexivity|done|intros e0; reflexivity|intros e1 Hn _; exact Hn]|cbv beta; clear dependent e; intros e Ha]).
  apply goes_now, HQ. replace (p + 10)%nat with (p + 1 + 1 + 1 + 1 + 1 + 1 + 1 + 1 + 1 + 1)%nat by lia.
  replace (with_version a b v) with (view_of (set_http_minor (48 + b - "0"%ch) ps')); [done|].
  rewrite <- Hps. unfold with_version, view_of in *. cbn in *. injection Hps'. intros. f_equal; congruence || lia.
Qed.

(** ** Names *)

Definition add_flags (h : header_states) (v : view) : view :=
  match finished_flag h with
  | Some f => mkView (Z.lor (v_flags v) f) (v_length v) (v_major v) (v_minor v) (v_method v) (v_data v)
  | None => v
  end.

(** At the start of a line: after the first one, the header before it is still to be
    finished. *)
Definition at_line e (p : nat) (v : view) : Prop :=
  at_ e p p s_header_field_start None v \/
  exists v0, at_ e p p s_header_value_lws None v0 /\ v = add_flags (header_state (parser e)) v0.

Lemma goes_line e p v ch (Q : exec D -> Prop) : at_line e p v -> bytes !! p = Some ch -> ch <> " "%ch -> ch <> TAB ->
  (forall e0 n, at_ e0 p (p + 1) s_header_field_start None v ->
     wp (reexecute max_header_size settings bytes (4 + n) ch) (next p Q) e0) -> goes e Q.
Proof using Hmax.
  intros Ha Hch Hsp Htab Hw. destruct Ha as [Ha|(v0 & Ha & ->)].
  - eapply goes_byte; [done..|]. intros e0 H0 _. by apply (Hw e0 4%nat).
  - eapply goes_byte; [done..|]. intros e0 H0 Hps. apply (wp_reexecute _ s_header_value_lws); [apply H0|]. cbn [switch].
    unfold case_header_value_lws. rewrite (proj2 (Z.eqb_neq _ _) Hsp), (proj2 (Z.eqb_neq _ _) Htab). cbn [orb].
    unfold finish_header. apply wp_bind, wp_bind, wp_get. rewrite Hps.
    assert (at_ (set_p_state s_header_field_start (match finished_flag (header_state (parser e)) with Some f => set_parser (add_flag f (parser e0)) e0 | None => e0 end))
              p (p + 1) s_header_field_start None (add_flags (header_state (parser e)) v0)) as H1.
    { eapply at_state_to. unfold add_flags. destruct (finished_flag _) as [f|]; [|done].
      pose proof (at_put _ _ _ _ _ _ (add_flag f) H0 ltac:(done)) as H1. rewrite <- (at_view _ _ _ _ _ _ H0). exact H1. }
    destruct (finished_flag _) as [f|]; [apply wp_modify|apply wp_ret]; apply wp_bind, wp_modify, wp_ret; by apply (Hw _ 3%nat).
Qed.

Lemma token_not_blank c : TOKEN c <> 0 -> c <> " "%ch /\ c <> TAB /\ c <> CR /\ c <> LF /\ c <> ":"%ch.
Proof. intros Hc. split_and!; intros ->; by apply Hc. Qed.

Lemma name_start_field c : field_hs (name_start c) = true.
Proof. unfold name_start. by repeat destruct (_ =? _). Qed.

Lemma match_step_field l c h found i : field_hs h = true -> field_hs found = true -> field_hs (fst (match_step l c h found i)) = true.
Proof. intros. unfold match_step. destruct (_ || _); [done|]. by destruct (_ =? _). Qed.

Lemma name_step_field h i c : field_hs h = true -> field_hs (fst (name_step (h, i) c)) = true.
Proof.
  intros Hh. destruct h; try done; cbn [name_step fst]; try by apply match_step_field.
  1-3: by repeat destruct (_ =? _).
Qed.

(** One character of a name that is being matched. *)
Lemma wp_match_name l c found foundh e p n st mk v h i Q : at_ e p n st mk v -> matching e h i ->
  (forall e1, found e1 = (Ok tt, set_parser (set_header_state foundh (parser e1)) e1)) ->
  (forall e1, at_ e1 p n st mk v ->
     matching e1 (fst (match_step l c h foundh i)) (snd (match_step l c h foundh i)) -> Q tt e1) ->
  wp (match_name l c found) Q e.
Proof.
  intros Ha [Hh Hi] Hf HQ. unfold match_name, match_next, inc_index. apply wp_bind, wp_bind, wp_modify, wp_bind, wp_get.
  cbn [parser set_parser index set_index]. rewrite Hi. unfold match_step in HQ.
  set (e0 := set_parser (set_index (wrap 5 (i + 1)) (parser e)) e).
  assert (at_ e0 p n st mk v) as H0 by by eapply (at_put_same _ _ _ _ _ _ (set_index (wrap 5 (i + 1)))).
  destruct ((Z.of_nat (length l) <? wrap 5 (i + 1)) || negb (c =? nth (Z.to_nat (wrap 5 (i + 1))) l 0)).
  - apply wp_ret, wp_modify, HQ; [by eapply (at_put_same _ _ _ _ _ _ (set_header_state h_general))|done].
  - destruct (wrap 5 (i + 1) =? Z.of_nat (length l) - 1).
    + apply wp_ret. eexists _, _. split; [apply Hf|]. apply HQ; [by eapply (at_put_same _ _ _ _ _ _ (set_header_state foundh))|done].
    + apply wp_ret, wp_ret, HQ; [done|by split].
Qed.

Lemma wp_put_hs h' e p n st mk v Q : at_ e p n st mk v ->
  (forall e1, at_ e1 p n st mk v -> matching e1 h' (index (parser e)) -> Q tt e1) -> wp (put_hs h') Q e.
Proof. intros Ha HQ. apply wp_modify, HQ; [by eapply (at_put_same _ _ _ _ _ _ (set_header_state h'))|by split]. Qed.

Lemma wp_inc_hs h' e p n st mk v h i Q : at_ e p n st mk v -> matching e h i ->
  (forall e1, at_ e1 p n st mk v -> matching e1 h' (wrap 5 (i + 1)) -> Q tt e1) -> wp (do! inc_index in put_hs h') Q e.
Proof.
  intros Ha [Hh Hi] HQ. apply wp_bind, wp_modify.
  eapply wp_put_hs; [by eapply (at_put_same _ _ _ _ _ _ (fun ps => set_index (wrap 5 (index ps + 1)) ps))|].
  intros e1 H1. cbn [index parser set_parser set_index]. rewrite Hi. by apply HQ.
Qed.

Lemma wp_name_char ch c e p n st mk v h i Q : at_ e p n st mk v -> matching e h i -> field_hs h = true -> h <> h_general ->
  ch <> " "%ch -> fst (name_step (h, i) c) <> h_transfer_encoding ->
  (forall e1, at_ e1 p n st mk v -> matching e1 (fst (name_step (h, i) c)) (snd (name_step (h, i) c)) -> Q tt e1) ->
  wp (header_field_char max_header_size bytes ch c) Q e.
Proof.
  intros Ha Hm Hf Hg Hsp Hte HQ. unfold header_field_char. apply wp_bind, wp_get. rewrite (proj1 Hm).
  destruct h; try done; cbn [name_step] in *.
  1-3: eapply wp_inc_hs; [exact Ha|exact Hm|exact HQ].
  1-3: eapply wp_match_name; [exact Ha|exact Hm|done|exact HQ].
  - (* transfer-encoding, which does not end here *)
    unfold match_name, match_next, inc_index. apply wp_bind, wp_bind, wp_modify, wp_bind, wp_get.
    destruct Hm as [Hh Hi]. cbn [parser set_parser index set_index]. rewrite Hi. unfold match_step in *.
    set (e0 := set_parser (set_index (wrap 5 (i + 1)) (parser e)) e).
    assert (at_ e0 p n st mk v) as H0 by by eapply (at_put_same _ _ _ _ _ _ (set_index (wrap 5 (i + 1)))).
    destruct (_ || _).
    + apply wp_ret, wp_modify, HQ; [by eapply (at_put_same _ _ _ _ _ _ (set_header_state h_general))|done].
    + destruct (_ =? _); [done|]. apply wp_ret, wp_ret, HQ; [done|by split].
  - eapply wp_match_name; [exact Ha|exact Hm|done|exact HQ].
  - rewrite (proj2 (Z.eqb_neq _ _) Hsp). eapply wp_put_hs; [exact Ha|]. rewrite (proj2 Hm). exact HQ.
  - rewrite (proj2 (Z.eqb_neq _ _) Hsp). eapply wp_put_hs; [exact Ha|]. rewrite (proj2 Hm). exact HQ.
  - rewrite (proj2 (Z.eqb_neq _ _) Hsp). eapply wp_put_hs; [exact Ha|]. rewrite (proj2 Hm). exact HQ.
  - rewrite (proj2 (Z.eqb_neq _ _) Hsp). eapply wp_put_hs; [exact Ha|]. rewrite (proj2 Hm). exact HQ.
Qed.

Definition tokens_only (l : list Z) : Prop := Forall (fun c => TOKEN c <> 0) l.

Lemma tokens_cons c l : tokens_only (c :: l) -> TOKEN c <> 0 /\ tokens_only l.
Proof. by inversion 1. Qed.

(** [skip_tokens] stops at the last character of the name. *)
Lemma wp_skip_tokens cs : forall fuel pe e p n st mk v Q, at_ e p n st mk v -> sits (p + 1) (cs ++ [":"%ch]) -> tokens_only cs ->
  (p + 1 + length cs < pe)%nat -> (length cs < fuel)%nat ->
  (forall e1, at_ e1 (p + length cs) n st mk v -> parser e1 = parser e -> Q tt e1) -> wp (skip_tokens bytes fuel pe) Q e.
Proof.
  induction cs as [|c cs IH]; intros [|fuel] pe e p n st mk v Q Ha Hl Ht Hpe Hf HQ; cbn [length app] in *; try lia;
    apply sits_cons in Hl as [Hch Hl]; cbn [skip_tokens]; apply wp_bind, wp_get; rewrite (at_pos _ _ _ _ _ _ Ha);
    (destruct (Nat.ltb_spec (p + 1) pe); [|lia]); unfold char_at; rewrite Hch; apply wp_bind, wp_ret.
  - apply wp_ret, HQ; [by rewrite Nat.add_0_r|done].
  - apply tokens_cons in Ht as [Hc Ht]. rewrite (proj2 (Z.eqb_neq _ _) Hc). apply wp_bind, wp_modify.
    eapply IH; [by eapply at_pos_to|exact Hl|done|lia|lia|]. intros e1 H1 Hps. apply HQ; [|done].
    by replace (p + S (length cs))%nat with (p + 1 + length cs)%nat by lia.
Qed.

Lemma pe_of_len p : (p <= len)%nat -> pe_of max_header_size bytes p = len.
Proof using Hmax. intros Hp. unfold pe_of. lia. Qed.

(** A name after which [transfer-encoding] has not been seen. *)
Definition no_te (r : header_states * Z) (l : list Z) : Prop :=
  forall l1 l2, l = l1 ++ l2 -> fst (fold_left name_step l1 r) <> h_transfer_encoding.

Lemma no_te_cons r c l : no_te r (c :: l) -> fst (name_step r c) <> h_transfer_encoding /\ no_te (name_step r c) l.
Proof. intros H. split; [by apply (H [c] l)|]. intros l1 l2 ->. by apply (H (c :: l1) l2). Qed.

Lemma name_step_general i l : exists j, fold_left name_step l (h_general, i) = (h_general, j).
Proof. revert i. induction l as [|c l IH]; intros i; [by exists i|]. cbn. apply IH. Qed.

(** The loop over a name, up to the colon. *)
Lemma wp_name_loop cs : forall fuel ch e p n st mk v h i Q, at_ e p n st mk v -> matching e h i -> field_hs h = true ->
  sits p (cs ++ [":"%ch]) -> tokens_only cs -> no_te (h, i) (map TOKEN cs) -> (length cs < fuel)%nat ->
  (forall e1, at_ e1 (p + length cs) n st mk v ->
     header_state (parser e1) = fst (fold_left name_step (map TOKEN cs) (h, i)) -> Q (":"%ch) e1) ->
  wp (header_field_loop max_header_size bytes fuel ch) Q e.
Proof using Hmax.
  induction cs as [|c cs IH]; intros [|fuel] ch e p n st mk v h i Q Ha Hm Hh Hl Ht Hte Hf HQ; cbn [length app map fold_left] in *; try lia;
    pose proof Hl as Hb; (apply sits_bound in Hb; [|done]); cbn [length] in Hb; apply sits_cons in Hl as [Hch Hl]; cbn [header_field_loop];
    apply wp_bind, wp_get; rewrite (at_pos _ _ _ _ _ _ Ha), (proj2 (Nat.eqb_neq _ _)) by lia;
    unfold char_at; rewrite Hch; apply wp_bind, wp_ret.
  - cbn [Z.eqb TOKEN]. apply wp_ret, HQ; [by rewrite Nat.add_0_r|apply Hm].
  - apply tokens_cons in Ht as [Hc Ht]. rewrite (proj2 (Z.eqb_neq _ _) Hc). apply wp_bind.
    rewrite length_app in Hb. cbn [length] in Hb.
    destruct (decide (h = h_general)) as [->|Hg].
    + unfold header_field_char. apply wp_bind, wp_get. rewrite (proj1 Hm). apply wp_bind, wp_get. rewrite (at_pos _ _ _ _ _ _ Ha).
      rewrite pe_of_len by lia. eapply (wp_skip_tokens cs); [exact Ha|exact Hl|done|lia|lia|].
      intros e1 H1 Hps. apply wp_bind, wp_modify. destruct (name_step_general i (map TOKEN cs)) as [j Ej].
      apply sits_app in Hl as [_ Hcolon]. apply sits_cons in Hcolon as [Hcolon _].
      destruct fuel as [|fuel]; [lia|]. cbn [header_field_loop]. apply wp_bind, wp_get. cbn [pos set_pos].
      rewrite (at_pos _ _ _ _ _ _ H1), (proj2 (Nat.eqb_neq _ _)) by lia.
      unfold char_at. replace (p + length cs + 1)%nat with (p + 1 + length cs)%nat by lia. rewrite Hcolon. apply wp_bind, wp_ret.
      cbn [Z.eqb TOKEN]. apply wp_ret, HQ.
      * replace (p + S (length cs))%nat with (p + 1 + length cs)%nat by lia. by eapply at_pos_to.
      * cbn [name_step]. rewrite Ej. cbn [parser set_pos]. rewrite Hps. apply Hm.
    + apply no_te_cons in Hte as [Hte1 Hte]. eapply wp_name_char; [exact Ha|exact Hm|done|done|by apply token_not_blank|done|].
      intros e1 H1 Hm1. apply wp_bind, wp_modify. destruct (name_step (h, i) (TOKEN c)) as [h' i'] eqn:Es.
      eapply (IH _ _ _ (p + 1)%nat); [|exact Hm1| |done..| |lia|].
      * rewrite (at_pos _ _ _ _ _ _ H1). by eapply at_pos_to.
      * pose proof (name_step_field h i (TOKEN c) Hh) as Hfd. by rewrite Es in Hfd.
      * exact Hte.
      * intros e2 H2 Hh2. apply HQ; [|done]. by replace (p + S (length cs))%nat with (p + 1 + length cs)%nat by lia.
Qed.

Lemma sits_head p l c : sits p (l ++ [c]) -> exists ch, bytes !! p = Some ch.
Proof. destruct l as [|d l]; intros H%sits_cons; eexists; apply H. Qed.

(** A name and its colon. *)
Lemma goes_name c cs e p v f g (Q : exec D -> Prop) : at_line e p v -> sits p (c :: cs ++ [":"%ch]) -> tokens_only (c :: cs) ->
  no_te (name_start (TOKEN c), 0) (map TOKEN cs) ->
  data_of settings header_field = Some f -> tells (f (c :: cs)) g ->
  (forall e1, at_ e1 (p + length (c :: cs) + 1) (p + length (c :: cs) + 1) s_header_value_discard_ws None (with_data (g v) v) ->
     header_state (parser e1) = fst (name_state (map TOKEN (c :: cs))) -> Q e1) -> goes e Q.
Proof using Hmax.
  intros Ha Hl Ht Hte Hf Hg HQ. pose proof Hl as Hname. change (c :: cs ++ [":"%ch]) with ((c :: cs) ++ [":"%ch]) in Hname.
  apply sits_app in Hname as [Hname _].
  apply sits_cons in Hl as [Hch Hl]. apply tokens_cons in Ht as [Hc Ht]. pose proof (token_not_blank c Hc) as (H1 & H2 & H3 & H4 & _).
  eapply (goes_then _ (fun e1 => at_ e1 (p + 1) (p + 1) s_header_field (Some (header_field, p)) v /\ matching e1 (name_start (TOKEN c)) 0)).
  { eapply goes_line; [done..|]. intros e0 n H0. apply (wp_reexecute (3 + n) s_header_field_start); [apply H0|]. cbn [switch].
    unfold case_header_field_start. rewrite (proj2 (Z.eqb_neq _ _) H3), (proj2 (Z.eqb_neq _ _) H4), (proj2 (Z.eqb_neq _ _) Hc).
    apply wp_bind, wp_modify. rewrite (at_marks _ _ _ _ _ _ H0). pose proof (at_pos _ _ _ _ _ _ H0) as Hp0. rewrite Hp0.
    apply wp_bind, wp_modify, wp_bind, wp_modify, wp_bind, wp_modify, wp_ret. split; [done|].
    cbn [pos set_parser set_p_state set_mark set_marks]. rewrite Hp0. split; [lia|]. split; [|by split].
    eapply at_pos_to. change (set_parser (set_header_state ?h ?ps) ?x) with (set_parser (set_header_state h (parser x)) x).
    eapply (at_put_same _ _ _ _ _ _ (set_header_state _)); [|done|done]. eapply at_state_to.
    eapply (at_put_same _ _ _ _ _ _ (set_index 0)); [|done|done]. by eapply at_mark. }
  intros e1 (Ha1 & Hm1). destruct (sits_head _ _ _ Hl) as [ch1 Hch1].
  pose proof Hl as Hb. apply sits_bound in Hb; [|by destruct cs]. rewrite length_app in Hb. cbn [length] in Hb.
  eapply goes_switch; [exact Ha1|done|done|]. intros e2 H5 Hps. cbn [switch]. unfold case_header_field.
  apply wp_bind, wp_get, wp_bind. rewrite (at_pos _ _ _ _ _ _ H5).
  eapply (wp_name_loop cs); [exact H5|unfold matching; rewrite Hps; exact Hm1|apply name_start_field|done|done|done|lia|].
  intros e3 H6 Hh. apply wp_bind, wp_get. rewrite (at_pos _ _ _ _ _ _ H6), (proj2 (Nat.eqb_neq _ _)) by lia.
  eapply wp_count_at; [exact H6|lia|]. intros e4 H7 Hps4. cbn [Z.eqb Pos.eqb]. apply wp_bind, wp_modify.
  unfold CALLBACK_DATA. apply wp_bind, wp_get. eapply wp_data_at; [by eapply at_state_to|done| |].
  { cbn [pos set_p_state]. rewrite Nat.add_0_r. replace (p + 1 + length cs - p)%nat with (length (c :: cs)) by (cbn; lia).
    rewrite sits_slice by done. exact Hg. }
  intros e5 H8 Hps5. apply wp_ret. split; [done|]. rewrite (at_pos _ _ _ _ _ _ H8). split; [lia|]. apply HQ.
  - replace (p + length (c :: cs) + 1)%nat with (p + 1 + length cs + 1)%nat by (cbn [length]; lia). eapply at_pos_to.
    replace (p + 1 + 1 + (p + 1 + length cs - (p + 1)))%nat with (p + 1 + length cs + 1)%nat in H8 by lia.
    exact H8.
  - cbn [parser set_pos]. rewrite Hps5. cbn [called header_state set_data set_state_ parser set_p_state]. by rewrite Hps4.
Qed.

(** ** Values *)

(** The characters of a value. *)
Definition value_char (c : Z) : bool := IS_HEADER_CHAR c && negb (c =? CR) && negb (c =? LF).

Lemma value_char_inv c : value_char c = true -> IS_HEADER_CHAR c = true /\ c <> CR /\ c <> LF.
Proof. unfold value_char. rewrite !andb_true_iff, !negb_true_iff, !Z.eqb_neq. by intros [[? ?] ?]. Qed.

(** The loop over the value takes [cs] from the state [h] and the index [i], and comes to
    [h']. *)
Definition value_run (cs : list Z) (h : header_states) (i : Z) (v : view) (h' : header_states) (v' : view) : Prop :=
  forall fuel start e p n mk Q, at_ e p n s_header_value mk v -> index (parser e) = i -> sits p (cs ++ [CR]) -> (length cs < fuel)%nat ->
  (forall fuel' e1, (0 < fuel')%nat -> at_ e1 (p + length cs) n s_header_value mk v' ->
     wp (header_value_loop max_header_size settings bytes fuel' start h') Q e1) ->
  wp (header_value_loop max_header_size settings bytes fuel start h) Q e.

Lemma value_run_nil h i v : value_run [] h i v h v.
Proof. intros fuel start e p n mk Q Ha _ _ Hf HQ. apply HQ; [cbn in Hf; lia|]. by rewrite Nat.add_0_r. Qed.

(** The head of the loop on a character of the value. *)
Lemma wp_value_loop c fuel start h e p n mk v Q : at_ e p n s_header_value mk v -> bytes !! p = Some c -> value_char c = true ->
  wp (header_value_char max_header_size bytes h c (LOWER c)) (fun r e1 => exists h', r = Some h' /\
    wp (header_value_loop max_header_size settings bytes fuel start h') Q (set_pos (pos e1 + 1) e1)) e ->
  wp (header_value_loop max_header_size settings bytes (S fuel) start h) Q e.
Proof.
  intros Ha Hch Hc Hw. pose proof (lookup_lt_Some _ _ _ Hch) as Hlt. apply value_char_inv in Hc as (Hc & HCR & HLF).
  cbn [header_value_loop]. apply wp_bind, wp_get. rewrite (at_pos _ _ _ _ _ _ Ha), (proj2 (Nat.eqb_neq _ _)) by lia.
  unfold char_at. rewrite Hch. apply wp_bind, wp_ret. rewrite (proj2 (Z.eqb_neq _ _) HCR), (proj2 (Z.eqb_neq _ _) HLF).
  apply wp_bind, wp_get. rewrite Hc, andb_false_r. apply wp_bind. eapply wp_mono; [exact Hw|].
  intros r e1 (h' & -> & Hl). by apply wp_bind, wp_modify.
Qed.

(** One character, and the rest. *)
Lemma value_run_cons c cs h i v h1 i1 v1 h2 v2 : value_char c = true ->
  (forall e p n mk, at_ e p n s_header_value mk v -> index (parser e) = i ->
     wp (header_value_char max_header_size bytes h c (LOWER c)) (fun r e1 => r = Some h1 /\ at_ e1 p n s_header_value mk v1 /\ index (parser e1) = i1) e) ->
  value_run cs h1 i1 v1 h2 v2 -> value_run (c :: cs) h i v h2 v2.
Proof.
  intros Hc Hone Hrest [|fuel] start e p n mk Q Ha Hi Hl Hf HQ; cbn [length app] in *; [lia|].
  apply sits_cons in Hl as [Hch Hl]. eapply wp_value_loop; [exact Ha|done|done|]. eapply wp_mono; [by apply Hone|].
  intros r e1 (-> & H1 & Hi1). exists h1. split; [done|]. eapply (Hrest _ _ _ (p + 1)%nat); [|exact Hi1|done|lia|].
  - rewrite (at_pos _ _ _ _ _ _ H1). by eapply at_pos_to.
  - intros fuel' e2 Hf2 H2. apply HQ; [done|]. by replace (p + S (length cs))%nat with (p + 1 + length cs)%nat by lia.
Qed.

(** [h_general] takes everything up to the end of the line at once. *)
Lemma wp_general_loop cs : forall fuel e p n st mk v Q, at_ e p n st mk v -> sits p (cs ++ [CR]) ->
  forallb value_char cs = true -> (length cs < fuel)%nat ->
  (forall e1, at_ e1 (p + length cs - 1) n st mk v -> parser e1 = parser e -> Q false e1) ->
  wp (general_value_loop bytes fuel len) Q e.
Proof.
  induction cs as [|c cs IH]; intros [|fuel] e p n st mk v Q Ha Hl Hc Hf HQ; cbn [length app forallb] in *; try lia;
    pose proof Hl as Hb; (apply sits_bound in Hb; [|done]); cbn [length] in Hb; apply sits_cons in Hl as [Hch Hl]; cbn [general_value_loop];
    apply wp_bind, wp_get; rewrite (at_pos _ _ _ _ _ _ Ha), (proj2 (Nat.eqb_neq _ _)) by lia;
    unfold char_at; rewrite Hch; apply wp_bind, wp_ret.
  - apply wp_bind, wp_modify, wp_ret, HQ; [|done]. rewrite Nat.add_0_r. by eapply at_pos_to.
  - apply andb_true_iff in Hc as [Hc Hcs]. apply value_char_inv in Hc as (Hc & HCR & HLF).
    rewrite (proj2 (Z.eqb_neq _ _) HCR), (proj2 (Z.eqb_neq _ _) HLF). cbn [orb]. apply wp_bind, wp_get. rewrite Hc, andb_false_r.
    apply wp_bind, wp_modify. eapply IH; [by eapply at_pos_to|done|done|lia|]. intros e1 H1 Hps. apply HQ; [|done].
    by replace (p + S (length cs) - 1)%nat with (p + 1 + length cs - 1)%nat by lia.
Qed.

Lemma value_run_general cs i v : forallb value_char cs = true -> value_run cs h_general i v h_general v.
Proof using Hmax.
  intros Hcs fuel start e p n mk Q Ha Hi Hl Hf HQ. destruct cs as [|c cs]; [by eapply value_run_nil|].
  destruct fuel as [|fuel]; [lia|]. pose proof Hl as Hb. apply sits_bound in Hb; [|done]. rewrite length_app in Hb. cbn [length] in *.
  pose proof Hl as Hl'. cbn [app] in Hl'. apply sits_cons in Hl' as [Hch _].
  eapply wp_value_loop; [exact Ha|done|by apply andb_true_iff in Hcs as [? _]|]. unfold header_value_char.
  apply wp_bind, wp_get. rewrite (at_pos _ _ _ _ _ _ Ha), pe_of_len by lia. apply wp_bind.
  eapply (wp_general_loop (c :: cs)); [exact Ha|done|done|cbn [length]; lia|]. intros e1 H1 Hps. cbn [length] in H1.
  apply wp_bind, wp_get. rewrite (at_pos _ _ _ _ _ _ H1), (proj2 (Nat.eqb_neq _ _)) by lia. apply wp_bind, wp_ret, wp_ret.
  exists h_general. split; [done|]. rewrite (at_pos _ _ _ _ _ _ H1). apply HQ; [lia|].
  replace (p + S (length cs) - 1 + 1)%nat with (p + S (length cs))%nat by lia. by eapply at_pos_to.
Qed.

(** A keyword, of which [pre] has been read. *)
Lemma value_run_keyword kw same found no pre cs v : (length kw <= 31)%nat -> kw = pre ++ cs -> cs <> [] -> pre <> [] ->
  forallb (fun c => value_char c && (LOWER c =? c)) kw = true ->
  (forall ch c, header_value_char (D := D) max_header_size bytes same ch c = match_value kw c same found no) ->
  value_run cs same (Z.of_nat (length pre) - 1) v found v.
Proof.
  intros Hlen Hkw Hcs Hpre Hall Hsw. revert pre Hkw Hpre. induction cs as [|c cs IH]; intros pre Hkw Hpre; [done|].
  assert (value_char c = true /\ LOWER c = c) as [Hc Hlow].
  { rewrite Hkw, forallb_app in Hall. cbn [forallb] in Hall. apply andb_true_iff in Hall as [_ Hall].
    apply andb_true_iff in Hall as [Hall _]. apply andb_true_iff in Hall as [Hc Hlow]. by apply Z.eqb_eq in Hlow. }
  assert (length kw = length pre + S (length cs))%nat as El by (by rewrite Hkw, length_app).
  assert (forall e p n mk Q, at_ e p n s_header_value mk v -> index (parser e) = Z.of_nat (length pre) - 1 ->
    (forall e1, at_ e1 p n s_header_value mk v -> index (parser e1) = Z.of_nat (length (pre ++ [c])) - 1 ->
       Q (Some (match cs with [] => found | _ => same end)) e1) ->
    wp (header_value_char max_header_size bytes same c (LOWER c)) Q e) as Hone.
  { intros e p n mk Q Ha Hi HQ. rewrite Hsw, Hlow. unfold match_value, match_next, inc_index.
    apply wp_bind, wp_bind, wp_modify, wp_bind, wp_get. cbn [parser set_parser index set_index]. rewrite Hi.
    replace (Z.of_nat (length pre) - 1 + 1) with (Z.of_nat (length pre)) by lia.
    rewrite wrap_id by (unfold in_u; change (2 ^ 5) with 32; lia). rewrite Nat2Z.id, Hkw.
    rewrite (proj2 (Z.ltb_ge _ _)) by (rewrite length_app; lia). rewrite app_nth2, Nat.sub_diag by lia. cbn [nth orb].
    rewrite Z.eqb_refl. cbn [negb]. rewrite <- Hkw, El.
    specialize (HQ (set_parser (set_index (Z.of_nat (length pre)) (parser e)) e)). rewrite length_app in HQ. cbn [length] in HQ.
    assert (at_ (set_parser (set_index (Z.of_nat (length pre)) (parser e)) e) p n s_header_value mk v) as H1
      by by eapply (at_put_same _ _ _ _ _ _ (set_index (Z.of_nat (length pre)))).
    specialize (HQ H1 ltac:(cbn; lia)).
    destruct cs as [|c2 cs2]; cbn [length].
    - rewrite (proj2 (Z.eqb_eq _ _)) by lia. apply wp_ret, wp_ret. exact HQ.
    - rewrite (proj2 (Z.eqb_neq _ _)) by lia. apply wp_ret, wp_ret. exact HQ. }
  eapply (value_run_cons c cs _ _ _ (match cs with [] => found | _ => same end) (Z.of_nat (length (pre ++ [c])) - 1) v); [done| |].
  - intros e p n mk Ha Hi. eapply Hone; [exact Ha|exact Hi|]. intros e1 H1 Hi1. by split_and!.
  - destruct cs as [|c2 cs2]; [apply value_run_nil|]. apply IH; [done|rewrite Hkw, <- app_assoc; done|by destruct pre].
Qed.

(** A number. *)
Definition dec_value (n : Z) (ds : list Z) : Z := fold_left (fun n d => n * 10 + (d - 48)) ds n.

Lemma dec_value_ge ds n : 0 <= n -> forallb IS_NUM ds = true -> n <= dec_value n ds.
Proof.
  revert n. induction ds as [|d ds IH]; intros n Hn Hd; [done|]. cbn [forallb] in Hd. apply andb_true_iff in Hd as [Hd Hds].
  unfold IS_NUM in Hd. bool_to_prop. cbn [dec_value fold_left]. cbn in H, H0.
  specialize (IH (n * 10 + (d - 48)) ltac:(lia) Hds). unfold dec_value in IH. lia.
Qed.

Definition with_length (n : Z) (v : view) : view := mkView (v_flags v) n (v_major v) (v_minor v) (v_method v) (v_data v).

Lemma num_value_char d : IS_NUM d = true -> value_char d = true.
Proof.
  unfold IS_NUM, value_char, IS_HEADER_CHAR, CR, LF, TAB. intros H. bool_to_prop. cbn in H, H0.
  rewrite (proj2 (Z.ltb_lt 31 d)) by lia. rewrite !(proj2 (Z.eqb_neq d _)) by lia. done.
Qed.

Lemma value_run_digits ds i v : forallb IS_NUM ds = true -> 0 <= v_length v -> dec_value (v_length v) ds < 2 ^ 32 ->
  value_run ds h_content_length_num i v h_content_length_num (with_length (dec_value (v_length v) ds) v).
Proof.
  revert v. induction ds as [|d ds IH]; intros v Hd Hn Hb; [destruct v; apply value_run_nil|].
  cbn [forallb] in Hd. apply andb_true_iff in Hd as [Hd Hds]. pose proof Hd as Hd'. unfold IS_NUM in Hd'. bool_to_prop. cbn in H, H0.
  set (m := v_length v * 10 + (d - 48)). assert (dec_value (v_length v) (d :: ds) = dec_value m ds) as E by done. rewrite E in *.
  pose proof (dec_value_ge ds m) as Hge. specialize (Hge ltac:(lia) Hds).
  eapply (value_run_cons d ds _ _ _ h_content_length_num i (with_length m v)); [by apply num_value_char| |].
  - intros e p n mk Ha Hi. unfold header_value_char, content_length_char. rewrite (proj2 (Z.eqb_neq _ _)) by (cbn; lia). rewrite Hd.
    cbn [negb]. apply wp_bind, wp_get. pose proof (at_view _ _ _ _ _ _ Ha) as Hv.
    replace (content_length (parser e)) with (v_length v) by by rewrite <- Hv.
    rewrite (proj2 (Z.ltb_ge _ _)) by (change ((ULLONG_MAX - 10) / 10) with 1844674407370955160; lia).
    apply wp_bind, wp_modify, wp_ret. split; [done|].
    rewrite (wrap_id 64 (v_length v * 10)) by (unfold in_u; lia). rewrite wrap_id by (unfold in_u; cbn; lia).
    split; [|done]. replace (with_length m v) with (view_of (set_content_length m (parser e))) by by rewrite <- Hv.
    by eapply (at_put _ _ _ _ _ _ (set_content_length m)).
  - replace (with_length (dec_value m ds) v) with (with_length (dec_value (v_length (with_length m v)) ds) (with_length m v)) by done.
    apply IH; cbn; lia || done.
Qed.

(** The first character of a value, after a name in state [h]. *)
Definition value_start (h : header_states) (v : view) (c : Z) (h1 : header_states) (v1 : view) : Prop :=
  forall e p n, at_ e p n s_header_value_discard_ws None v -> header_state (parser e) = h ->
    wp (case_header_value_start c) (fun f e1 => f = Break /\ at_ e1 p n s_header_value (Some (header_value, p)) v1 /\ matching e1 h1 0) e.

(** The mark, the state and the index; then what depends on the name. *)
Lemma value_start_by h v c h1 v1 :
  (forall e p n mk, at_ e p n s_header_value mk v -> header_state (parser e) = h -> index (parser e) = 0 ->
     wp (let! h := member header_state in match h with
         | h_upgrade => do! put (fun ps => set_header_state h_general (add_flag F_UPGRADE ps)) in break
         | h_transfer_encoding =>
             do! put_hs (if LOWER c =? "c"%ch then h_matching_transfer_encoding_chunked
                         else h_matching_transfer_encoding_token) in break
         | h_matching_transfer_encoding_token_start => break
         | h_content_length =>
             if negb (IS_NUM c) then error HPE_INVALID_CONTENT_LENGTH else
             let! seen := member (has_flag F_CONTENTLENGTH) in
             if seen : bool then error HPE_UNEXPECTED_CONTENT_LENGTH else
             do! put (fun ps => set_header_state h_content_length_num
                                  (set_content_length (c - "0"%ch) (add_flag F_CONTENTLENGTH ps))) in
             break
         | h_content_length_ws => break
         | h_connection =>
             do! put_hs (if LOWER c =? "k"%ch then h_matching_connection_keep_alive
                         else if LOWER c =? "c"%ch then h_matching_connection_close
                         else if LOWER c =? "u"%ch then h_matching_connection_upgrade
                         else h_matching_connection_token) in break
         | h_matching_connection_token_start => break
         | _ => do! put_hs h_general in break
         end) (fun f e1 => f = Break /\ at_ e1 p n s_header_value mk v1 /\ matching e1 h1 0) e) ->
  value_start h v c h1 v1.
Proof.
  intros Hw e p n Ha Hh. unfold case_header_value_start. apply wp_bind, wp_modify. rewrite (at_marks _ _ _ _ _ _ Ha).
  pose proof (at_pos _ _ _ _ _ _ Ha) as Hp. rewrite Hp. apply wp_bind, wp_modify, wp_bind, wp_modify.
  apply Hw; [|exact Hh|done].
  eapply (at_put_same _ _ _ _ _ _ (set_index 0)); [|done|done]. by eapply at_state_to, at_mark.
Qed.

Lemma value_start_general h v c : special h = false -> field_hs h = true -> value_start h v c h_general v.
Proof.
  intros Hs Hf. apply value_start_by. intros e p n mk Ha Hh Hi. apply wp_bind, wp_get. rewrite Hh.
  destruct h; try done.
  all: apply wp_bind, wp_modify, wp_ret; split; [done|]; split; [by eapply (at_put_same _ _ _ _ _ _ (set_header_state h_general))|by split].
Qed.

Lemma value_start_connection v c h1 : h1 = (if LOWER c =? "k"%ch then h_matching_connection_keep_alive
    else if LOWER c =? "c"%ch then h_matching_connection_close
    else if LOWER c =? "u"%ch then h_matching_connection_upgrade else h_matching_connection_token) ->
  value_start h_connection v c h1 v.
Proof.
  intros ->. apply value_start_by. intros e p n mk Ha Hh Hi. apply wp_bind, wp_get. rewrite Hh.
  apply wp_bind, wp_modify, wp_ret. split; [done|]. split; [by eapply (at_put_same _ _ _ _ _ _ (set_header_state _))|by split].
Qed.

Lemma value_start_length v c : IS_NUM c = true -> Z.land (v_flags v) F_CONTENTLENGTH = 0 ->
  value_start h_content_length v c h_content_length_num
    (mkView (Z.lor (v_flags v) F_CONTENTLENGTH) (c - 48) (v_major v) (v_minor v) (v_method v) (v_data v)).
Proof.
  intros Hc Hfl. apply value_start_by. intros e p n mk Ha Hh Hi. apply wp_bind, wp_get. rewrite Hh, Hc. cbn [negb].
  apply wp_bind, wp_get. pose proof (at_view _ _ _ _ _ _ Ha) as Hv. unfold has_flag.
  replace (flags (parser e)) with (v_flags v) by by rewrite <- Hv. rewrite Hfl. cbn [Z.eqb negb].
  apply wp_bind, wp_modify, wp_ret. split; [done|]. split; [|by split].
  replace (mkView _ _ _ _ _ _) with (view_of (set_header_state h_content_length_num
    (set_content_length (c - 48) (add_flag F_CONTENTLENGTH (parser e))))) by by rewrite <- Hv.
  by eapply (at_put _ _ _ _ _ _ (fun ps => set_header_state h_content_length_num (set_content_length (c - 48) (add_flag F_CONTENTLENGTH ps)))).
Qed.

(** The value of a header, and the end of its line. *)
Lemma goes_value c vs e p v h h1 v1 h2 v2 f g (Q : exec D -> Prop) :
  at_ e p p s_header_value_discard_ws None v -> header_state (parser e) = h ->
  sits p (" "%ch :: c :: vs ++ [CR; LF]) -> value_char c = true -> c <> " "%ch -> c <> TAB ->
  value_start h v c h1 v1 -> value_run vs h1 0 v1 h2 v2 ->
  data_of settings header_value = Some f -> tells (f (c :: vs)) g ->
  (forall e1, at_ e1 (p + length vs + 4) (p + length vs + 4) s_header_value_lws None (with_data (g v2) v2) ->
     header_state (parser e1) = h2 -> Q e1) -> goes e Q.
Proof using Hmax.
  intros Ha Hh Hl Hc Hsp Htab Hstart Hrun Hf Hg HQ. apply sits_cons in Hl as [Hch0 Hl].
  assert (sits (p + 1) (c :: vs)) as Hval by (change (c :: vs ++ [CR; LF]) with ((c :: vs) ++ [CR; LF]) in Hl; apply sits_app in Hl as [Hl _]; exact Hl).
  apply sits_cons in Hl as [Hch1 Hl].
  assert (sits (p + 1 + 1) (vs ++ [CR]) /\ bytes !! (p + 1 + 1 + length vs)%nat = Some CR /\ bytes !! (p + 1 + 1 + length vs + 1)%nat = Some LF)
    as (Hvs & HCR & HLF).
  { replace (vs ++ [CR; LF]) with ((vs ++ [CR]) ++ [LF]) in Hl by by rewrite <- app_assoc. apply sits_app in Hl as [Hvs Hend].
    split; [done|]. apply sits_app in Hvs as [_ Hcr]. apply sits_cons in Hcr as [Hcr _]. split; [done|].
    apply sits_cons in Hend as [Hend _]. rewrite length_app in Hend. cbn [length] in Hend.
    by replace (p + 1 + 1 + length vs + 1)%nat with (p + 1 + 1 + (length vs + 1))%nat by lia. }
  apply value_char_inv in Hc as (Hc & Hncr & Hnlf).
  (* the blank *)
  eapply (goes_then _ (fun e1 => at_ e1 (p + 1) (p + 1) s_header_value_discard_ws None v /\ header_state (parser e1) = h)).
  { eapply goes_switch; [exact Ha|done|exact Hch0|]. intros e0 H0 Hps. apply wp_ret. split; [done|].
    rewrite (at_pos _ _ _ _ _ _ H0). split; [lia|]. split; [by eapply at_pos_to|]. cbn [parser set_pos]. by rewrite Hps. }
  clear dependent e. intros e1 [Ha1 Hh].
  (* the first character *)
  eapply (goes_then _ (fun e2 => at_ e2 (p + 1 + 1) (p + 1 + 1) s_header_value (Some (header_value, (p + 1)%nat)) v1 /\ matching e2 h1 0)).
  { eapply goes_switch; [exact Ha1|done|exact Hch1|]. intros e0 H0 Hps. cbn [switch]. unfold case_header_value_discard_ws.
    rewrite (proj2 (Z.eqb_neq _ _) Hsp), (proj2 (Z.eqb_neq _ _) Htab), (proj2 (Z.eqb_neq _ _) Hncr), (proj2 (Z.eqb_neq _ _) Hnlf). cbn [orb].
    eapply wp_mono; [apply (Hstart e0 _ _ H0); by rewrite Hps|]. intros fl e2 (-> & H2 & Hm2). split; [done|].
    rewrite (at_pos _ _ _ _ _ _ H2). split; [lia|]. split; [by eapply at_pos_to|exact Hm2]. }
  intros e2 [Ha2 [Hh2 Hi2]].
  (* the rest, up to the end of the line *)
  destruct (sits_head _ _ _ Hvs) as [ch2 Hch2].
  pose proof (lookup_lt_Some _ _ _ HLF) as HlenLF.
  eapply (goes_then _ (fun e3 => at_ e3 (p + 1 + 1 + length vs + 1) (p + 1 + 1 + length vs + 1) s_header_almost_done None (with_data (g v2) v2) /\ header_state (parser e3) = h2)).
  { eapply goes_switch; [exact Ha2|done|exact Hch2|]. intros e0 H0 Hps. cbn [switch]. unfold case_header_value.
    apply wp_bind, wp_get, wp_bind, wp_get. rewrite (at_pos _ _ _ _ _ _ H0), Hps, Hh2.
    eapply Hrun; [exact H0|by rewrite Hps|exact Hvs|lia|]. intros fuel' e3 Hfuel H3.
    destruct fuel' as [|fuel']; [lia|]. cbn [header_value_loop]. apply wp_bind, wp_get.
    rewrite (at_pos _ _ _ _ _ _ H3), (proj2 (Nat.eqb_neq _ _)) by lia. unfold char_at. rewrite HCR. apply wp_bind, wp_ret.
    rewrite Z.eqb_refl. apply wp_bind, wp_modify, wp_bind, wp_modify. unfold CALLBACK_DATA. apply wp_bind, wp_get.
    assert (at_ (set_parser (set_header_state h2 (parser (set_p_state s_header_almost_done e3))) (set_p_state s_header_almost_done e3))
      (p + 1 + 1 + length vs) (p + 1 + 1 + 1) s_header_almost_done (Some (header_value, (p + 1)%nat)) v2) as H4.
    { eapply (at_put_same _ _ _ _ _ _ (set_header_state h2)); [by eapply at_state_to|done|done]. }
    eapply wp_data_at; [exact H4|exact Hf| |].
    { cbn [pos set_parser set_p_state]. rewrite Nat.add_0_r.
      replace (p + 1 + 1 + length vs - (p + 1))%nat with (length (c :: vs)) by (cbn; lia). rewrite sits_slice by done. exact Hg. }
    intros e5 H5 Hps5. unfold after_header_value. apply wp_bind, wp_modify, wp_bind, wp_get. cbn [pos set_parser].
    rewrite (at_pos _ _ _ _ _ _ H5), (proj2 (Nat.eqb_neq _ _)) by lia. apply wp_bind, wp_modify.
    eapply wp_count_at; [eapply at_pos_to, (at_put_same _ _ _ _ _ _ (set_header_state h2)); [exact H5|done|done]|lia|].
    intros e6 H6 Hps6. apply wp_ret. split; [done|]. rewrite (at_pos _ _ _ _ _ _ H6). split; [lia|]. split.
    - eapply at_pos_to. replace (p + 1 + 1 + 1 + (p + 1 + 1 + length vs - (p + 1 + 1)))%nat with (p + 1 + 1 + length vs + 1)%nat in H6 by lia.
      exact H6.
    - cbn [parser set_pos]. rewrite Hps6. done. }
  intros e3 [Ha3 Hh3].
  eapply goes_state; [exact Ha3|done|exact HLF|intros e0; reflexivity|]. intros e4 H4 Hps4. apply HQ; [|by rewrite Hps4].
  by replace (p + length vs + 4)%nat with (p + 1 + 1 + length vs + 1 + 1)%nat by lia.
Qed.

(** ** The end of the headers *)

(** A request without the flags that change how its body is read. *)
Definition plain_flags (v : view) : Prop :=
  Forall (fun f => Z.land (v_flags v) f = 0) [F_CHUNKED; F_TRAILING; F_UPGRADE; F_SKIPBODY].

Lemma plain_has_flag v f ps : plain_flags v -> view_of ps = v -> f ∈ [F_CHUNKED; F_TRAILING; F_UPGRADE; F_SKIPBODY] -> has_flag f ps = false.
Proof.
  intros Hv <- Hf%list_elem_of_In. unfold plain_flags in Hv. eapply Forall_forall in Hv; [|exact Hf].
  unfold has_flag. cbn [v_flags view_of] in Hv. by rewrite Hv.
Qed.

Lemma goes_headers_end e p v f g (Q : exec D -> Prop) : at_line e p v -> sits p [CR; LF] -> v_method v <> HTTP_CONNECT -> plain_flags v ->
  on_headers_complete settings = Some f -> tells f g ->
  (forall e0, at_ e0 (p + 1) (p + 2) s_headers_done None (with_data (g v) v) -> upgrade (parser e0) = false ->
     wp (case_headers_done settings LF) (next (p + 1) Q) e0) -> goes e Q.
Proof using Hmax.
  intros Ha Hl Hm Hfl Hf Hg HQ. apply sits_cons in Hl as [HCR Hl]. apply sits_cons in Hl as [HLF _].
  eapply (goes_then _ (fun e1 => at_ e1 (p + 1) (p + 1) s_headers_almost_done None v)).
  { eapply goes_line; [exact Ha|done..|]. intros e0 n H0. apply (wp_reexecute (3 + n) s_header_field_start); [apply H0|].
    cbn [switch]. unfold case_header_field_start. rewrite Z.eqb_refl. apply wp_bind, wp_modify, wp_ret. split; [done|].
    cbn [pos set_p_state]. rewrite (at_pos _ _ _ _ _ _ H0). split; [lia|]. by eapply at_pos_to, at_state_to. }
  intros e1 H1. eapply goes_byte; [exact H1|done|exact HLF|]. intros e0 H0 Hps.
  apply (wp_reexecute 7 s_headers_almost_done); [apply H0|]. cbn [switch]. unfold case_headers_almost_done, STRICT_CHECK.
  cbn [Z.eqb Pos.eqb negb]. apply wp_bind, wp_get. pose proof (at_view _ _ _ _ _ _ H0) as Hv.
  rewrite (plain_has_flag v F_TRAILING _ Hfl Hv) by (repeat first [by left | right]). destruct (at_ok _ _ _ _ _ _ H0) as (Hok & Hty & Hte & Hlen).
  rewrite Hte. cbn [andb]. apply wp_bind, wp_modify, wp_bind, wp_modify. unfold call_headers_complete. rewrite Hf. apply wp_bind.
  cbn [parser set_p_state]. replace (upgrade_of (parser e0)) with false.
  2: { unfold upgrade_of. rewrite (plain_has_flag v F_UPGRADE _ Hfl Hv) by (repeat first [by left | right]). cbn [andb].
       replace (method (parser e0)) with (v_method v) by by rewrite <- Hv. symmetry. by apply Z.eqb_neq. }
  eexists _, _. split; [apply lift_Ok, Hg|]. cbn [Z.eqb]. apply wp_bind, wp_get. cbn [parser set_parser errno set_data set_upgrade].
  rewrite Hok, decide_True by done. apply wp_ret. eapply (wp_reexecute 6 s_headers_done); [done|].
  eapply wp_mono; [apply HQ|].
  - replace (p + 2)%nat with (p + 1 + 1)%nat by lia. split; cbn; try apply H0; [done|]. by rewrite <- Hv.
  - done.
  - by intros fl e2 [-> Hn].
Qed.

(** The end of the message, and of what the loop does for it. *)
Definition finished_at (p : nat) (v : view) e : Prop := exists st, at_ e p 0 st None v.

Lemma wp_finish_message e p n st v f g Q : at_ e p n st None v -> notify_of settings message_complete = Some f -> tells f g -> n = 0%nat ->
  (forall e1, at_ e1 p 0 (p_state e1) None (with_data (g v) v) -> upgrade (parser e1) = upgrade (parser e) -> Q Break e1) ->
  wp (finish_message settings break) Q e.
Proof.
  intros Ha Hf Hg -> HQ. unfold finish_message. apply wp_bind, wp_get, wp_bind, wp_modify. unfold CALLBACK_NOTIFY.
  apply wp_bind, wp_get. eapply wp_notify_at; [by eapply at_state_to|exact Hf|exact Hg|]. intros e1 H1 Hps. apply wp_ret, HQ.
  - by rewrite (at_state _ _ _ _ _ _ H1).
  - by rewrite Hps.
Qed.

(** Without a length there is no body. *)
Lemma wp_no_body e p n v f g (Q : exec D -> Prop) : at_ e p n s_headers_done None v -> upgrade (parser e) = false -> plain_flags v ->
  v_length v = ULLONG_MAX -> notify_of settings message_complete = Some f -> tells f g ->
  (forall e1, finished_at (p + 1) (with_data (g v) v) e1 -> Q e1) -> wp (case_headers_done settings LF) (next p Q) e.
Proof.
  intros Ha Hup Hfl Hlen Hf Hg HQ. unfold case_headers_done, STRICT_CHECK. cbn [Z.eqb Pos.eqb negb]. unfold reset_nread.
  apply wp_bind, wp_modify, wp_bind, wp_get, wp_bind, wp_get.
  set (e0 := set_l_nread 0 _). assert (at_ e0 p 0 s_headers_done None v) as H0 by (destruct Ha; by split).
  assert (upgrade (parser e0) = false) as Hup0 by done. pose proof (at_view _ _ _ _ _ _ H0) as Hv.
  destruct (at_ok _ _ _ _ _ _ H0) as (_ & Hty & Hte & _). rewrite Hup0, Hte. cbn [andb].
  rewrite (plain_has_flag v F_SKIPBODY _ Hfl Hv), (plain_has_flag v F_CHUNKED _ Hfl Hv) by (repeat first [by left | right]).
  replace (content_length (parser e0)) with ULLONG_MAX by (by rewrite <- Hlen, <- Hv).
  change (ULLONG_MAX =? 0) with false. rewrite Z.eqb_refl. cbn [negb]. unfold http_message_needs_eof. rewrite Hty, decide_True by done.
  cbn [negb]. eapply wp_finish_message; [exact H0|exact Hf|exact Hg|done|]. intros e1 H1 _. split; [done|].
  rewrite (at_pos _ _ _ _ _ _ H1). split; [lia|]. apply HQ. eexists. by eapply at_pos_to.
Qed.

(** With a length the body comes next. *)
Lemma wp_body_start e p n v (Q : exec D -> Prop) : at_ e p n s_headers_done None v -> upgrade (parser e) = false -> plain_flags v ->
  0 < v_length v < ULLONG_MAX ->
  (forall e1, at_ e1 (p + 1) 0 s_body_identity None v -> upgrade (parser e1) = false -> Q e1) -> wp (case_headers_done settings LF) (next p Q) e.
Proof.
  intros Ha Hup Hfl Hlen HQ. unfold case_headers_done, STRICT_CHECK. cbn [Z.eqb Pos.eqb negb]. unfold reset_nread.
  apply wp_bind, wp_modify, wp_bind, wp_get, wp_bind, wp_get.
  set (e0 := set_l_nread 0 _). assert (at_ e0 p 0 s_headers_done None v) as H0 by (destruct Ha; by split).
  assert (upgrade (parser e0) = false) as Hup0 by done. pose proof (at_view _ _ _ _ _ _ H0) as Hv.
  destruct (at_ok _ _ _ _ _ _ H0) as (_ & Hty & Hte & _). rewrite Hup0, Hte. cbn [andb].
  rewrite (plain_has_flag v F_SKIPBODY _ Hfl Hv), (plain_has_flag v F_CHUNKED _ Hfl Hv) by (repeat first [by left | right]).
  replace (content_length (parser e0)) with (v_length v) by by rewrite <- Hv.
  rewrite !(proj2 (Z.eqb_neq _ _)) by lia. cbn [negb]. apply wp_bind, wp_modify, wp_ret. split; [done|].
  cbn [pos set_p_state]. rewrite (at_pos _ _ _ _ _ _ H0). split; [lia|]. apply HQ; [by eapply at_pos_to, at_state_to|done].
Qed.

(** The body is what is left. *)
Lemma goes_body e p v body_ f g f2 g2 (Q : exec D -> Prop) : at_ e p 0 s_body_identity None v -> upgrade (parser e) = false ->
  drop p bytes = body_ -> body_ <> [] -> v_length v = Z.of_nat (length body_) ->
  data_of settings body = Some f -> tells (f body_) g -> notify_of settings message_complete = Some f2 -> tells f2 g2 ->
  (forall e1, let v1 := with_length 0 v in let v2 := with_data (g v1) v1 in finished_at len (with_data (g2 v2) v2) e1 -> Q e1) -> goes e Q.
Proof using Hmax.
  intros Ha Hup Hbody Hne Hlen Hf Hg Hf2 Hg2 HQ. assert (exists ch, bytes !! p = Some ch) as [ch Hch].
  { destruct body_ as [|ch l]; [done|]. exists ch. by rewrite <- (Nat.add_0_r p), <- lookup_drop, Hbody. }
  pose proof (lookup_lt_Some _ _ _ Hch) as Hlt. assert (length body_ = len - p)%nat as Hl by (by rewrite <- Hbody, length_drop).
  pose proof (at_pos _ _ _ _ _ _ Ha) as Hp.
  assert (wp (one_byte max_header_size settings bytes ch) (next p Q) e) as (fl & e1 & Hrun & -> & Hp1 & HQ1).
  { unfold one_byte. apply wp_bind, wp_get. rewrite (at_state _ _ _ _ _ _ Ha). change (PARSING_HEADER s_body_identity) with false. cbv iota.
    apply (wp_reexecute 7 s_body_identity); [apply Ha|]. cbn [switch]. unfold case_body_identity, take_body.
    apply wp_bind, wp_bind, wp_get, wp_bind, wp_get. pose proof (at_view _ _ _ _ _ _ Ha) as Hv.
    replace (content_length (parser e)) with (v_length v) by by rewrite <- Hv. rewrite Hp, Hlen, Hl.
    rewrite Z.min_id. rewrite !(proj2 (Z.eqb_neq _ _)) by (unfold ULLONG_MAX; lia). cbn [negb andb].
    apply wp_bind, wp_assert; [done|]. apply wp_bind, wp_modify. rewrite (at_marks _ _ _ _ _ _ Ha), Hp.
    apply wp_bind, wp_modify. rewrite Z.sub_diag, Nat2Z.id. apply wp_modify.
    apply wp_bind, wp_get. cbn [content_length set_content_length parser set_parser set_pos]. cbn [Z.eqb].
    apply wp_bind, wp_modify, wp_bind, wp_get.
    set (e2 := set_p_state _ _). assert (at_ e2 (p + (len - p) - 1) 0 s_message_done (Some (body, p)) (with_length 0 v)) as H2.
    { unfold e2. eapply at_state_to, at_pos_to. replace (with_length 0 v) with (view_of (set_content_length 0 (parser (set_mark body (Some p) e)))) by by rewrite <- Hv.
      eapply (at_put _ _ _ _ _ _ (set_content_length 0)); [by eapply at_mark|done]. }
    eapply wp_data_at; [exact H2|exact Hf| |].
    { cbn [pos e2 set_p_state set_pos]. replace (p + (len - p) - 1 - p + 1)%nat with (length body_) by lia.
      rewrite Hbody, firstn_all. exact Hg. }
    intros e3 H3 Hps3. apply wp_ret. eapply (wp_reexecute 6 s_message_done); [apply H3|]. cbn [switch]. unfold case_message_done.
    unfold finish_message. apply wp_bind, wp_get, wp_bind, wp_modify. unfold CALLBACK_NOTIFY. apply wp_bind, wp_get.
    eapply wp_notify_at; [by eapply at_state_to|exact Hf2|exact Hg2|]. intros e4 H4 Hps4. apply wp_bind, wp_get.
    rewrite Hps4. cbn [called upgrade set_data set_state_ parser set_p_state]. rewrite Hps3.
    cbn [called upgrade set_data set_state_ parser set_p_state e2 set_pos set_parser set_content_length set_mark set_marks].
    rewrite Hup. apply wp_ret. split; [done|]. rewrite (at_pos _ _ _ _ _ _ H4). split; [lia|].
    replace (p + (len - p) - 1 + 1)%nat with len by lia. apply HQ. eexists. eapply at_pos_to. exact H4. }
  exists (set_pos (pos e1 + 1) e1). split; [|done]. eapply runs_byte; [by rewrite Hp|done|lia|constructor].
Qed.

(** ** The lines of a request *)

(** What the callbacks make of their texts. *)
Record effects : Type := mkEffects {
  of_url : list Z -> view -> D; of_field : list Z -> view -> D; of_value : list Z -> view -> D; of_body : list Z -> view -> D;
  of_begin : view -> D; of_headers : view -> D; of_complete : view -> D
}.

Definition acts (E : effects) (t : list Z) : Prop :=
  (exists f, data_of settings url = Some f /\ tells (f t) (of_url E t)) /\
  (exists f, data_of settings header_field = Some f /\ forall l, tells (f l) (of_field E l)) /\
  (exists f, data_of settings header_value = Some f /\ forall l, tells (f l) (of_value E l)) /\
  (exists f, data_of settings body = Some f /\ forall l, tells (f l) (of_body E l)) /\
  (exists f, notify_of settings message_begin = Some f /\ tells f (of_begin E)) /\
  (exists f, on_headers_complete settings = Some f /\ tells f (of_headers E)) /\
  (exists f, notify_of settings message_complete = Some f /\ tells f (of_complete E)).

Section request.
Context (E : effects) (t : list Z) (HE : acts E t).

Definition header_line (h : list Z * list Z) : list Z := (fst h ++ [":"%ch]) ++ " "%ch :: snd h ++ [CR; LF].

(** A view that has been told of a header, the value with [f] done to the view. *)
Definition told (h : list Z * list Z) (f : view -> view) (v : view) : view :=
  let v := with_data (of_field E (fst h) v) v in let v := f v in with_data (of_value E (snd h) v) v.

(** A header: [f] is what its value does to the view, and [h2] where it ends. *)
Definition header_does (h : list Z * list Z) (f : view -> view) (v : view) (h2 : header_states) : Prop :=
  tokens_only (fst h) /\ fst h <> [] /\ no_te (name_start (hd 0 (map TOKEN (fst h))), 0) (tl (map TOKEN (fst h))) /\
  exists c vs, snd h = c :: vs /\ value_char c = true /\ c <> " "%ch /\ c <> TAB /\
  let v1 := with_data (of_field E (fst h) v) v in
  exists h1 v2, value_start (fst (name_state (map TOKEN (fst h)))) v1 c h1 v2 /\ value_run vs h1 0 v2 h2 (f v1).

Lemma goes_header h f h2 e p v (Q : exec D -> Prop) : at_line e p v -> sits p (header_line h) -> header_does h f v h2 ->
  (forall e1, at_line e1 (p + length (header_line h)) (add_flags h2 (told h f v)) -> Q e1) -> goes e Q.
Proof using Hmax HE.
  intros Ha Hl (Htok & Hne & Hte & c & vs & Hval & Hc & Hsp & Htab & h1 & v2 & Hstart & Hrun) HQ.
  destruct h as [name value]. cbn [fst snd] in *. subst value. destruct name as [|n name]; [done|].
  destruct HE as (_ & (ff & Hff & Htf) & (fv & Hfv & Htv) & _). unfold header_line in Hl. cbn [fst snd] in Hl.
  apply sits_app in Hl as [Hl1 Hl2]. rewrite length_app in Hl2. cbn [length] in Hl2.
  eapply (goes_then _ (fun e1 => at_ e1 (p + length (n :: name) + 1) (p + length (n :: name) + 1) s_header_value_discard_ws None
      (with_data (of_field E (n :: name) v) v) /\ header_state (parser e1) = fst (name_state (map TOKEN (n :: name))))).
  { eapply goes_name; [exact Ha|exact Hl1|exact Htok|exact Hte|exact Hff|apply Htf|]. by split. }
  intros e1 [H1 Hh1]. eapply goes_value; [exact H1|exact Hh1| |exact Hc|exact Hsp|exact Htab|exact Hstart|exact Hrun|exact Hfv|apply Htv|].
  { replace (p + length (n :: name) + 1)%nat with (p + (S (length name) + 1))%nat by (cbn [length]; lia). exact Hl2. }
  intros e2 H2 Hh2. apply HQ. right. eexists. split; [|by rewrite Hh2].
  unfold header_line. cbn [fst snd]. rewrite !length_app. cbn [length]. rewrite length_app. cbn [length].
  replace (p + (S (length name) + 1 + S (S (length vs) + 2)))%nat with (p + length (n :: name) + 1 + length vs + 4)%nat by (cbn [length]; lia).
  exact H2.
Qed.

(** A header that the parser only passes on. *)
Definition ordinary (h : list Z * list Z) : Prop :=
  tokens_only (fst h) /\ fst h <> [] /\ map TOKEN (fst h) <> CONNECTION /\ map TOKEN (fst h) <> PROXY_CONNECTION /\
  map TOKEN (fst h) <> CONTENT_LENGTH /\ map TOKEN (fst h) <> UPGRADE /\ ~ TRANSFER_ENCODING `prefix_of` map TOKEN (fst h) /\
  forallb value_char (snd h) = true /\ match snd h with [] => False | c :: _ => c <> " "%ch /\ c <> TAB end.

Lemma no_te_not_prefix c l : ~ TRANSFER_ENCODING `prefix_of` (c :: l) -> no_te (name_start c, 0) l.
Proof.
  intros Hp l1 l2 -> Hh. apply Hp. change (fst (name_state (c :: l1)) = h_transfer_encoding) in Hh.
  apply name_state_known in Hh; [|done]. cbn [known_name] in Hh. exists l2. rewrite <- Hh. done.
Qed.

Lemma name_state_field l : field_hs (fst (name_state l)) = true.
Proof.
  destruct l as [|c l]; [done|]. cbn [name_state]. generalize (name_start_field c). generalize (name_start c) as h, 0 as i.
  induction l as [|d l IH]; intros h i Hh; [done|]. cbn [fold_left]. pose proof (name_step_field h i d Hh) as Hs.
  destruct (name_step (h, i) d) as [h' i']. by apply IH.
Qed.

Lemma ordinary_does h v : ordinary h -> header_does h id v h_general.
Proof using Hmax.
  intros (Htok & Hne & H1 & H2 & H3 & H4 & H5 & Hval & Hc). destruct h as [[|n name] [|c vs]]; try done. cbn [fst snd] in *.
  cbn [forallb] in Hval. apply andb_true_iff in Hval as [Hvc Hvs]. destruct Hc as [Hc1 Hc2].
  split_and!; [done|done|by apply no_te_not_prefix|]. exists c, vs. split_and!; try done.
  exists h_general. eexists. split; [|by apply value_run_general].
  apply value_start_general; [|apply name_state_field]. set (nm := map TOKEN (n :: name)) in *.
  destruct (special (fst (name_state nm))) eqn:Hs; [|done]. exfalso.
  assert (known_name (fst (name_state nm)) nm) as Hk by (by apply name_state_known).
  destruct (fst (name_state nm)); try done; cbn [known_name] in Hk; try done.
  - by destruct Hk.
  - apply H5. by rewrite Hk.
Qed.

Lemma goes_headers hs e p v (Q : exec D -> Prop) : at_line e p v -> sits p (List.concat (map header_line hs)) -> Forall ordinary hs ->
  (forall e1, at_line e1 (p + length (List.concat (map header_line hs))) (fold_left (fun v h => told h id v) hs v) -> Q e1) -> goes e Q.
Proof using Hmax HE.
  revert e p v. induction hs as [|h hs IH]; intros e p v Ha Hl Ho HQ; cbn [map List.concat fold_left] in *.
  - apply goes_now, HQ. by rewrite Nat.add_0_r.
  - apply sits_app in Hl as [Hl1 Hl2]. inversion Ho as [|? ? Hh Hhs]; subst.
    eapply (goes_then _ (fun e1 => at_line e1 (p + length (header_line h)) (told h id v))).
    { eapply goes_header; [exact Ha|exact Hl1|by apply ordinary_does|]. intros e1 H1. exact H1. }
    intros e1 H1. eapply IH; [exact H1|exact Hl2|done|]. intros e2 H2. apply HQ. by rewrite length_app, Nat.add_assoc.
Qed.

(** The connection header, which sets a flag. *)
Definition connection_header (close : bool) : list Z * list Z := (CONNECTION, if close then CLOSE else KEEP_ALIVE).

Lemma connection_does close v : header_does (connection_header close) id v (if close then h_connection_close else h_connection_keep_alive).
Proof using Hmax.
  split_and!; [by repeat constructor|done| |].
  { apply (no_te_not_prefix 99). intros [post Hp]. discriminate Hp. }
  destruct close; cbn [connection_header snd CLOSE KEEP_ALIVE].
  - eexists 99, _. split_and!; try done. exists h_matching_connection_close. eexists. split; [by apply value_start_connection|].
    by apply (value_run_keyword CLOSE _ _ h_matching_connection_token [99]); try (cbn; lia).
  - eexists 107, _. split_and!; try done. exists h_matching_connection_keep_alive. eexists. split; [by apply value_start_connection|].
    by apply (value_run_keyword KEEP_ALIVE _ _ h_matching_connection_token [107]); try (cbn; lia).
Qed.

(** The length of the body. *)
Definition length_name : list Z := [67; 111; 110; 116; 101; 110; 116; 45; 76; 101; 110; 103; 116; 104].
Definition set_body_length (ds : list Z) (v : view) : view :=
  mkView (Z.lor (v_flags v) F_CONTENTLENGTH) (dec_value 0 ds) (v_major v) (v_minor v) (v_method v) (v_data v).

Lemma length_does ds v : ds <> [] -> forallb IS_NUM ds = true -> dec_value 0 ds < 2 ^ 32 -> Z.land (v_flags v) F_CONTENTLENGTH = 0 ->
  header_does (length_name, ds) (set_body_length ds) v h_content_length_num.
Proof using Hmax.
  intros Hne Hds Hb Hfl. destruct ds as [|c vs]; [done|]. cbn [forallb] in Hds. apply andb_true_iff in Hds as [Hc Hvs].
  pose proof Hc as Hc'. unfold IS_NUM in Hc'. bool_to_prop. cbn in H, H0.
  split_and!; [by repeat constructor|done| |].
  { apply (no_te_not_prefix 99). intros [post Hp]. discriminate Hp. }
  exists c, vs. cbn [fst snd]. split_and!; [done|by apply num_value_char|cbn; lia|unfold TAB; lia|].
  eexists _, _. split; [by apply value_start_length|].
  change (set_body_length (c :: vs) _) with (with_length (dec_value (c - 48) vs)
    (mkView (Z.lor (v_flags v) F_CONTENTLENGTH) (c - 48) (v_major v) (v_minor v) (v_method v) (of_field E length_name v))).
  apply value_run_digits; [done|cbn; lia|exact Hb].
Qed.
End request.

(** ** The method *)

(** One more character of a method. *)
Definition method_step (r : option (Z * Z)) (ch : Z) : option (Z * Z) :=
  match r with
  | None => None
  | Some (m, i) =>
      match matcher_at m i with
      | Ok c => if ch =? c then Some (m, wrap 5 (i + 1))
                else if ("A"%ch <=? ch) && (ch <=? "Z"%ch) || (ch =? "-"%ch)
                then option_map (fun new => (new, wrap 5 (i + 1))) (next_method m i ch) else None
      | _ => None
      end
  end.

Definition method_state (l : list Z) : option (Z * Z) :=
  match l with
  | [] => None
  | c :: l => if IS_ALPHA c then match first_method c with Some m => fold_left method_step l (Some (m, 1)) | None => None end else None
  end.

Definition method_text (m : Z) : list Z := nth (Z.to_nat m) method_strings [].

Lemma method_state_text m : 0 <= m < 34 -> method_state (method_text m) = Some (m, Z.of_nat (length (method_text m))) /\
  matcher_at m (Z.of_nat (length (method_text m))) = Ok 0 /\ forallb (fun c => (0 <? c) && negb (c =? " "%ch)) (method_text m) = true.
Proof.
  intros Hm. assert (forallb (fun n => let m := Z.of_nat n in
    bool_decide (method_state (method_text m) = Some (m, Z.of_nat (length (method_text m)))) &&
    match matcher_at m (Z.of_nat (length (method_text m))) with Ok 0 => true | _ => false end &&
    forallb (fun c => (0 <? c) && negb (c =? " "%ch)) (method_text m)) (seq 0 34) = true) as Hall by (vm_compute; reflexivity).
  rewrite forallb_forall in Hall. specialize (Hall (Z.to_nat m)). rewrite in_seq in Hall. specialize (Hall ltac:(lia)).
  cbv zeta in Hall. rewrite Z2Nat.id in Hall by lia. apply andb_true_iff in Hall as [Hall H3]. apply andb_true_iff in Hall as [H1 H2].
  apply bool_decide_eq_true in H1. split_and!; [done| |done]. destruct (matcher_at _ _) as [[]| | | | |]; done.
Qed.

Lemma goes_method_chars l : forall e p v r (Q : exec D -> Prop), at_ e p p s_req_method None v -> sits p l ->
  forallb (fun c => (0 <? c) && negb (c =? " "%ch)) l = true ->
  fold_left method_step l (Some (v_method v, index (parser e))) = Some r ->
  (forall e1, at_ e1 (p + length l) (p + length l) s_req_method None
     (mkView (v_flags v) (v_length v) (v_major v) (v_minor v) (fst r) (v_data v)) -> index (parser e1) = snd r -> Q e1) -> goes e Q.
Proof using Hmax.
  induction l as [|c l IH]; intros e p v r Q Ha Hl Hc Hr HQ; cbn [fold_left forallb length] in *.
  { injection Hr as <-. apply goes_now, HQ; [|done]. rewrite Nat.add_0_r. by destruct v. }
  apply sits_cons in Hl as [Hch Hl]. apply andb_true_iff in Hc as [Hc Hcs]. bool_to_prop. apply negb_true_iff in H0.
  destruct (method_step (Some (v_method v, index (parser e))) c) as [[m' i']|] eqn:Es;
    [|exfalso; clear -Hr; induction l as [|d l IHl]; [done|by apply IHl]].
  set (v' := mkView (v_flags v) (v_length v) (v_major v) (v_minor v) m' (v_data v)).
  eapply (goes_then _ (fun e1 => at_ e1 (p + 1) (p + 1) s_req_method None v' /\ index (parser e1) = i')).
  { eapply goes_switch; [exact Ha|done|exact Hch|]. intros e0 H1 Hps. cbn [switch]. unfold case_req_method.
    rewrite (proj2 (Z.eqb_neq c 0)) by lia. apply wp_bind, wp_get, wp_bind, wp_get.
    pose proof (at_view _ _ _ _ _ _ H1) as Hv. replace (method (parser e0)) with (v_method v) by by rewrite <- Hv. rewrite Hps.
    cbn [method_step] in Es. destruct (matcher_at (v_method v) (index (parser e))) as [k| | | | |]; try done.
    apply wp_bind. eexists _, _. split; [reflexivity|]. rewrite H0. cbn [andb].
    destruct (c =? k).
    - injection Es as <- <-. apply wp_bind, wp_modify, wp_ret. split; [done|]. cbn [pos set_parser]. rewrite (at_pos _ _ _ _ _ _ H1).
      split; [lia|]. split; [|cbn; by rewrite Hps]. eapply at_pos_to. replace v' with v by (by destruct v).
      by eapply (at_put_same _ _ _ _ _ _ (fun ps => set_index (wrap 5 (index ps + 1)) ps)).
    - destruct (_ || _); [|done]. destruct (next_method _ _ _) as [new|]; [|done]. injection Es as <- <-.
      apply wp_bind, wp_modify, wp_bind, wp_modify, wp_ret. split; [done|]. cbn [pos set_parser]. rewrite (at_pos _ _ _ _ _ _ H1).
      split; [lia|]. split; [|cbn; by rewrite Hps]. eapply at_pos_to.
      eapply (at_put_same _ _ _ _ _ _ (fun ps => set_index (wrap 5 (index ps + 1)) ps)); [|done|done].
      replace v' with (view_of (set_method new (parser e0))) by (unfold v'; by rewrite <- Hv).
      by eapply (at_put _ _ _ _ _ _ (set_method new)). }
  intros e1 [H1 Hi1]. eapply IH; [exact H1|exact Hl|done| |].
  - cbn [v_method v']. rewrite Hi1. exact Hr.
  - intros e2 H2 Hi2. apply HQ; [|done]. by replace (p + S (length l))%nat with (p + 1 + length l)%nat by lia.
Qed.

Lemma goes_first_char c e p v m f g (Q : exec D -> Prop) : at_ e p p s_start_req None v -> bytes !! p = Some c ->
  IS_ALPHA c = true -> c <> CR -> c <> LF -> first_method c = Some m -> notify_of settings message_begin = Some f -> tells f g ->
  (forall e1, let v1 := mkView 0 ULLONG_MAX (v_major v) (v_minor v) m (v_data v) in
     at_ e1 (p + 1) (p + 1) s_req_method None (with_data (g v1) v1) -> index (parser e1) = 1 -> Q e1) -> goes e Q.
Proof using Hmax.
  intros Ha Hch Halpha HCR HLF Hm Hf Hg HQ. eapply goes_switch; [exact Ha|done|exact Hch|]. intros e0 H0 Hps. cbn [switch].
  unfold case_start_req. rewrite (proj2 (Z.eqb_neq _ _) HCR), (proj2 (Z.eqb_neq _ _) HLF), Halpha, Hm. cbn [orb negb].
  apply wp_bind, wp_modify, wp_bind, wp_modify, wp_bind, wp_modify, wp_bind, wp_modify. unfold CALLBACK_NOTIFY. apply wp_bind, wp_get.
  set (v1 := mkView 0 ULLONG_MAX (v_major v) (v_minor v) m (v_data v)). set (e2 := set_p_state _ _).
  assert (at_ e2 p (p + 1) s_req_method None v1) as H2.
  { destruct H0 as [H1 H2 H3 H4 H5 (H6 & H7 & H8 & H9)]. split; try done. unfold v1. by rewrite <- H5. }
  eapply wp_notify_at; [exact H2|exact Hf|exact Hg|]. intros e3 H3 Hps3. apply wp_ret. split; [done|].
  rewrite (at_pos _ _ _ _ _ _ H3). split; [lia|]. apply HQ; [by eapply at_pos_to|]. cbn [parser set_pos]. by rewrite Hps3.
Qed.

Lemma goes_method m e p v f g (Q : exec D -> Prop) : 0 <= m < 34 -> at_ e p p s_start_req None v -> sits p (method_text m ++ [" "%ch]) ->
  notify_of settings message_begin = Some f -> tells f g -> (forall v d, g (mkView (v_flags v) (v_length v) (v_major v) (v_minor v) m d) = g (mkView (v_flags v) (v_length v) (v_major v) (v_minor v) (v_method v) d)) ->
  (forall e1, let v1 := mkView 0 ULLONG_MAX (v_major v) (v_minor v) m (v_data v) in
     at_ e1 (p + length (method_text m) + 1) (p + length (method_text m) + 1) s_req_spaces_before_url None (with_data (g v1) v1) -> Q e1) -> goes e Q.
Proof using Hmax.
  intros Hm Ha Hl Hf Hg Hgm HQ. destruct (method_state_text m Hm) as (Hst & Hend & Hchars).
  apply sits_app in Hl as [Hl Hsp]. apply sits_cons in Hsp as [Hsp _]. unfold method_state in Hst.
  destruct (method_text m) as [|c l] eqn:Et; [done|]. destruct (IS_ALPHA c) eqn:Halpha; [|done].
  destruct (first_method c) as [m0|] eqn:Hm0; [|done]. cbn [forallb] in Hchars. apply andb_true_iff in Hchars as [Hc Hcs].
  apply sits_cons in Hl as [Hch Hl]. assert (c <> CR /\ c <> LF) as [HCR HLF] by (split; intros ->; done).
  set (v0 := mkView 0 ULLONG_MAX (v_major v) (v_minor v) m0 (v_data v)).
  eapply (goes_then _ (fun e1 => at_ e1 (p + 1) (p + 1) s_req_method None (with_data (g v0) v0) /\ index (parser e1) = 1)).
  { eapply goes_first_char; [exact Ha|exact Hch|done..|exact Hf|exact Hg|]. by split. }
  intros e1 [H1 Hi1].
  eapply goes_then; [eapply (goes_method_chars l _ _ _ (m, Z.of_nat (length (c :: l)))); [exact H1|exact Hl|exact Hcs| |intros e2 H2 Hi2; exact (conj H2 Hi2)]|].
  { cbn [v_method with_data v0]. by rewrite Hi1. }
  cbv beta. cbn [fst snd with_data v_flags v_length v_major v_minor v_data v0]. intros e2 [H2 Hi2].
  eapply goes_switch; [exact H2|done| |].
  { cbn [length] in Hsp. replace (p + 1 + length l)%nat with (p + S (length l))%nat by lia. exact Hsp. }
  intros e0 H0 Hps. cbn [switch]. unfold case_req_method. cbn [Z.eqb]. apply wp_bind, wp_get, wp_bind, wp_get.
  pose proof (at_view _ _ _ _ _ _ H0) as Hv. replace (method (parser e0)) with m by (by injection Hv). rewrite Hps, Hi2, Hend.
  apply wp_bind. eexists _, _. split; [reflexivity|]. cbn [Z.eqb Pos.eqb andb]. apply wp_bind, wp_modify, wp_bind, wp_modify, wp_ret.
  split; [done|]. cbn [pos set_parser set_p_state]. rewrite (at_pos _ _ _ _ _ _ H0). split; [lia|]. apply HQ.
  cbn [length]. replace (p + S (length l) + 1)%nat with (p + 1 + length l + 1)%nat by lia. eapply at_pos_to.
  eapply (at_put_same _ _ _ _ _ _ (fun ps => set_index (wrap 5 (index ps + 1)) ps)); [|done|done].
  replace (with_data _ _) with (mkView 0 ULLONG_MAX (v_major v) (v_minor v) m (g v0)); [by eapply at_state_to|].
  unfold with_data. cbn. f_equal. symmetry. exact (Hgm v0 (v_data v)).
Qed.

(** ** The whole request *)

(** After the loop there is no data left over. *)
Lemma leftovers_rest e n st v : at_ e len n st None v ->
  leftovers settings bytes e = (Ok (Return len), set_parser (set_state_ st (set_nread (Z.of_nat n) (parser e))) e).
Proof.
  intros [Hp Hst Hn Hm Hv (Hok & _)].
  assert (wp (leftovers settings bytes) (fun f e' => f = Return len /\ e' = set_parser (set_state_ st (set_nread (Z.of_nat n) (parser e))) e) e)
    as (f & e' & Hrun & -> & ->); [|done].
  unfold leftovers. apply wp_bind, wp_get. unfold count_marks. rewrite !Hm. apply wp_bind, wp_assert; [done|].
  do 5 (unfold CALLBACK_DATA_NOADVANCE at 1; apply wp_bind, wp_get; unfold CALLBACK_DATA_ at 1;
    apply wp_bind, wp_get, wp_bind, wp_assert; [by apply bool_decide_eq_true|]; apply wp_bind, wp_get; rewrite Hm).
  unfold RETURN. apply wp_bind, wp_modify, wp_ret. by rewrite Hst, Hn.
Qed.

(** A run to the end of the bytes, outside of any text. *)
Lemma execute_to_end (ps : http_parser D) (Q : http_parser D -> Prop) :
  errno ps = HPE_OK -> initial_mark (state_ ps) = None -> (0 < len)%nat ->
  goes (mkExec ps 0 (state_ ps) (nread ps) (fun _ => None)) (fun e => exists n st v, at_ e len n st None v /\
    Q (set_state_ st (set_nread (Z.of_nat n) (parser e)))) ->
  exists ps', http_parser_execute max_header_size settings bytes ps = (Ok (Z.of_nat len), ps') /\ Q ps'.
Proof.
  intros Hok Hmark Hlen (e & Hruns & n & st & v & Hfin & HQ). eexists. split; [|exact HQ]. unfold http_parser_execute.
  assert (execute_body max_header_size settings bytes (mkExec ps 0 (state_ ps) (nread ps) (fun _ => None)) =
    (Ok (Return len), set_parser (set_state_ st (set_nread (Z.of_nat n) (parser e))) e)) as ->; [|done].
  unfold execute_body, member. rewrite bind_get. cbn [parser]. rewrite Hok, bool_decide_true by done. cbn [negb].
  rewrite (proj2 (Nat.eqb_neq _ _)) by lia. cbv iota. rewrite bind_get. cbn [p_state]. rewrite Hmark, bind_ret_l.
  rewrite (bind_Ok _ _ _ _ _ (runs_main_loop _ _ Hruns (at_pos _ _ _ _ _ _ Hfin) len ltac:(cbn; lia))). by apply (leftovers_rest e n st v).
Qed.

Lemma execute_runs (ps : http_parser D) v : errno ps = HPE_OK -> state_ ps = s_start_req -> (0 < len)%nat ->
  goes (mkExec ps 0 s_start_req (nread ps) (fun _ => None)) (fun e => finished_at len v e) ->
  exists ps', http_parser_execute max_header_size settings bytes ps = (Ok (Z.of_nat len), ps') /\ view_of ps' = v /\ errno ps' = HPE_OK.
Proof.
  intros Hok Hst Hlen Hgoes. apply (execute_to_end ps (fun ps' => view_of ps' = v /\ errno ps' = HPE_OK)); [done|by rewrite Hst|done|].
  rewrite Hst. eapply goes_then; [exact Hgoes|]. intros e [st Hfin]. apply goes_now. exists 0%nat, st, v. split; [done|].
  destruct Hfin as [_ _ _ _ Hv (He & _)]. by split.
Qed.
End run.

(** ** The names it knows *)

Section header_names.
Context {D : Type} (max_header_size : Z) (settings : http_parser_settings D).

(** At the start of a header line. *)
Definition awaits_header (ps : http_parser D) : Prop :=
  state_ ps = s_header_field_start /\ nread ps = 0 /\ errno ps = HPE_OK /\ type_ ps = HTTP_REQUEST /\
  uses_transfer_encoding ps = false /\ lenient_http_headers ps = false.

(** C27: (equivalence) The matching of header names, which compares a name with the
    five that the parser knows while it reads it, is the comparison of the whole
    name in lower case: after a name and its colon the callback has been given the
    name, and the parser is in one of the special states exactly when the name is the
    one that the state stands for.  Names that begin with "transfer-encoding" are
    excluded. *)
Theorem header_name_recognised name ps f g : awaits_header ps ->
  tokens_only name -> name <> [] -> ~ TRANSFER_ENCODING `prefix_of` map TOKEN name ->
  data_of settings header_field = Some f -> tells (f name) g ->
  Z.of_nat (length name) < max_header_size < 2 ^ 32 ->
  exists ps', http_parser_execute max_header_size settings (name ++ [":"%ch]) ps = (Ok (Z.of_nat (length name + 1)), ps') /\
    errno ps' = HPE_OK /\ state_ ps' = s_header_value_discard_ws /\ data ps' = g (view_of ps) /\
    forall h, special h = true -> header_state ps' = h <-> known_name h (map TOKEN name).
Proof.
  intros (Hst & Hn & Hok & Hty & Hte & Hlen) Ht Hne Hpre Hf Hg Hmax. destruct name as [|c cs]; [done|].
  replace (length (c :: cs) + 1)%nat with (length ((c :: cs) ++ [":"%ch])) by (rewrite length_app; done).
  apply execute_to_end; [done|by rewrite Hst|cbn; lia|]. rewrite Hst, Hn.
  assert (at_ (mkExec ps 0 s_header_field_start 0 (fun _ => None)) 0 0 s_header_field_start None (view_of ps)) as Hat by (by split).
  eapply (goes_name max_header_size settings); [rewrite length_app; cbn [length] in *; lia|left; exact Hat| |exact Ht|by apply no_te_not_prefix|exact Hf|exact Hg|].
  { exists []. by rewrite app_nil_r. }
  intros e1 H1 Hh. exists (0 + length (c :: cs) + 1)%nat, s_header_value_discard_ws. eexists. split.
  { replace (length ((c :: cs) ++ [":"%ch])) with (0 + length (c :: cs) + 1)%nat by (rewrite length_app; done). exact H1. }
  pose proof (at_view _ _ _ _ _ _ H1) as Hv. pose proof (at_ok _ _ _ _ _ _ H1) as (He & _). split_and!; [done|done| |].
  - cbn. change (data (parser e1)) with (v_data (view_of (parser e1))). by rewrite Hv.
  - intros h Hh'. cbn [header_state set_state_ set_nread]. rewrite Hh. by apply name_state_known.
Qed.
End header_names.

(** A parser at the start of a header line is given [Content-Length:]. *)
Definition quiet_settings : http_parser_settings unit :=
  mkSettings None None None (Some (fun _ => ret 0)) None None None None None None.

Lemma header_name_recognised_witness : exists ps',
  http_parser_execute 80 quiet_settings [67; 111; 110; 116; 101; 110; 116; 45; 76; 101; 110; 103; 116; 104; 58]
    (set_state_ s_header_field_start (http_parser_init HTTP_REQUEST tt)) = (Ok 15, ps') /\ header_state ps' = h_content_length.
Proof.
  destruct (header_name_recognised 80 quiet_settings [67; 111; 110; 116; 101; 110; 116; 45; 76; 101; 110; 103; 116; 104]
    (set_state_ s_header_field_start (http_parser_init HTTP_REQUEST tt)) (fun _ => ret 0) (fun _ => tt))
    as (ps' & Hrun & _ & _ & _ & Hh).
  - done.
  - repeat constructor; discriminate.
  - discriminate.
  - intros [post Hp]. discriminate Hp.
  - reflexivity.
  - intros ps. by destruct ps, data.
  - done.
  - exists ps'. split; [exact Hrun|]. by apply Hh.
Defined.

(** A request, as the parser sees it. *)
Record request : Type := mkRequest {
  r_method : Z;
  r_path : list Z; r_query : list Z; r_fragment : list Z;
  r_major : Z; r_minor : Z;
  r_close : bool;
  r_headers : list (list Z * list Z);
  r_body : list Z;
  r_length : list Z   (* the digits of the length of the body *)
}.

Definition request_target (r : request) : list Z := target (r_path r) (r_query r) (r_fragment r).

Definition request_bytes (r : request) : list Z :=
  (method_text (r_method r) ++ [" "%ch]) ++ (request_target r ++ [" "%ch]) ++
  ([72; 84; 84; 80; 47] ++ [48 + r_major r; "."%ch; 48 + r_minor r; CR; LF]) ++
  header_line (connection_header (r_close r)) ++ List.concat (map header_line (r_headers r)) ++
  (match r_body r with [] => [] | _ => header_line (length_name, r_length r) end) ++ [CR; LF] ++ r_body r.

Record request_wf (r : request) : Prop := {
  wf_method : 0 <= r_method r < 34 /\ r_method r <> HTTP_CONNECT;
  wf_target : url_chars (r_path r) /\ query_chars (r_query r) /\ query_chars (r_fragment r);
  wf_version : 0 <= r_major r <= 9 /\ 0 <= r_minor r <= 9;
  wf_headers : Forall ordinary (r_headers r);
  wf_length : r_body r <> [] -> r_length r <> [] /\ forallb IS_NUM (r_length r) = true /\ dec_value 0 (r_length r) = Z.of_nat (length (r_body r))
}.

(** What the callbacks are told, in order. *)
Section telling.
Context {D : Type} (E : @effects D).

Definition tell (g : view -> D) (v : @view D) : view := with_data (g v) v.

Definition tell_line (r : request) (d : D) : view :=
  let v := tell (of_begin E) (mkView 0 ULLONG_MAX 0 0 (r_method r) d) in
  with_version (r_major r) (r_minor r) (tell (of_url E (request_target r)) v).

Definition tell_headers (r : request) (v : view) : view :=
  let v := add_flags (if r_close r then h_connection_close else h_connection_keep_alive) (told E (connection_header (r_close r)) id v) in
  fold_left (fun v h => told E h id v) (r_headers r) v.

Definition tell_body (r : request) (v : view) : view :=
  match r_body r with
  | [] => tell (of_headers E) v
  | _ => tell (of_body E (r_body r)) (with_length 0 (tell (of_headers E) (told E (length_name, r_length r) (set_body_length (r_length r)) v)))
  end.

Definition tell_request (r : request) (d : D) : D :=
  v_data (tell (of_complete E) (tell_body r (tell_headers r (tell_line r d)))).
End telling.

Section parsing.
Context {D : Type} {max_header_size : Z} {settings : http_parser_settings D} {E : @effects D} {r : request}.
#[local] Notation bytes := (request_bytes r).
#[local] Notation goes := (goes max_header_size settings bytes).
Context (Hwf : request_wf r) (Hmax : Z.of_nat (length bytes) <= max_header_size < 2 ^ 32)
  (HE : acts settings E (request_target r))
  (Hblind : forall m v, of_begin E (mkView (v_flags v) (v_length v) (v_major v) (v_minor v) m (v_data v)) = of_begin E v).

Lemma sits_whole : sits bytes 0 bytes.
Proof. exists []. by rewrite app_nil_r. Qed.

Lemma told_flags h (v : @view D) : v_flags (told E h id v) = v_flags v /\ v_length (told E h id v) = v_length v /\ v_method (told E h id v) = v_method v.
Proof. done. Qed.

Lemma headers_flags hs (v : @view D) : let v' := fold_left (fun v h => told E h id v) hs v in
  v_flags v' = v_flags v /\ v_length v' = v_length v /\ v_method v' = v_method v.
Proof. revert v. induction hs as [|h hs IH]; intros v; [done|]. cbn. apply (IH (told E h id v)). Qed.

(** The flags after the headers of the request. *)
Definition connection_flag : Z := if r_close r then F_CONNECTION_CLOSE else F_CONNECTION_KEEP_ALIVE.

Lemma tell_headers_view v : v_flags v = 0 -> let v' := tell_headers E r v in
  v_flags v' = connection_flag /\ v_length v' = v_length v /\ v_method v' = v_method v.
Proof.
  intros Hv. unfold tell_headers. set (v0 := add_flags _ _). destruct (headers_flags (r_headers r) v0) as (-> & -> & ->).
  unfold v0, connection_flag, add_flags. destruct (r_close r); cbn [finished_flag v_flags v_length v_method told with_data id];
    split_and!; try done; by rewrite Hv.
Qed.

(** The lines up to the one that ends the headers. *)
Lemma goes_to_headers_end d (Q : exec D -> Prop) :
  (forall e p, at_line e p (match r_body r with [] => tell_headers E r (tell_line E r d)
                | _ => told E (length_name, r_length r) (set_body_length (r_length r)) (tell_headers E r (tell_line E r d)) end) ->
     sits bytes p ([CR; LF] ++ r_body r) -> drop (p + 2) bytes = r_body r -> Q e) ->
  goes (mkExec (http_parser_init HTTP_REQUEST d) 0 s_start_req 0 (fun _ => None)) Q.
Proof using Hwf Hmax HE Hblind.
  intros HQ. pose proof Hwf as [[Hm Hnc] (Hpath & Hquery & Hfrag) [Ha Hb] Hhs Hlen].
  pose proof sits_whole as Hl. unfold request_bytes at 2 in Hl.
  apply sits_app in Hl as [Hl1 Hl]. apply sits_app in Hl as [Hl2 Hl]. apply sits_app in Hl as [Hl3 Hl].
  apply sits_app in Hl as [Hl4 Hl]. apply sits_app in Hl as [Hl5 Hl]. apply sits_app in Hl as [Hl6 Hl7].
  destruct HE as ((fu & Hfu & Htu) & _ & _ & _ & (fb & Hfb & Htb) & _).
  set (v0 := mkView 0 0 0 0 0 d). set (p1 := (0 + length (method_text (r_method r) ++ [" "%ch]))%nat) in *.
  eapply goes_then; [eapply (goes_method _ _ _ Hmax (r_method r) _ 0 v0); [exact Hm|by split|exact Hl1|exact Hfb|exact Htb| |]|].
  { intros v d'. exact (Hblind (r_method r) (mkView (v_flags v) (v_length v) (v_major v) (v_minor v) (v_method v) d')). }
  { intros e1 v1 H1. exact H1. }
  cbv beta. intros e1 H1. replace (0 + length (method_text (r_method r)) + 1)%nat with p1 in H1 by (unfold p1; rewrite length_app; cbn; lia).
  eapply goes_then; [eapply (goes_target _ _ _ Hmax (r_path r) (r_query r) (r_fragment r)); [exact H1|exact Hnc|exact Hpath|exact Hquery|exact Hfrag|exact Hl2|exact Hfu|exact Htu|]|].
  { intros e2 H2. exact H2. }
  cbv beta. intros e2 H2. set (p2 := (p1 + length (request_target r ++ [" "%ch]))%nat) in *.
  replace (p1 + length (target (r_path r) (r_query r) (r_fragment r)) + 1)%nat with p2 in H2
    by (unfold p2, request_target; rewrite length_app; cbn; lia).
  eapply goes_then; [eapply (goes_version _ _ _ Hmax _ p2 _ (r_major r) (r_minor r)); [exact H2|done|done|exact Hl3|]|].
  { intros e3 H3. exact H3. }
  cbv beta. intros e3 H3. change (length ([72; 84; 84; 80; 47] ++ [48 + r_major r; "."%ch; 48 + r_minor r; CR; LF])) with 10%nat in *.
  eapply goes_then; [eapply (goes_header _ _ _ Hmax E (request_target r) HE (connection_header (r_close r)) id);
    [left; exact H3|exact Hl4|apply (connection_does _ _ _ Hmax)|]|].
  { intros e4 H4. exact H4. }
  cbv beta. intros e4 H4.
  eapply goes_then; [eapply (goes_headers _ _ _ Hmax E (request_target r) HE (r_headers r)); [exact H4|exact Hl5|exact Hhs|]|].
  { intros e5 H5. exact H5. }
  cbv beta. intros e5 H5. set (p5 := (p2 + 10 + length (header_line (connection_header (r_close r))) + length (List.concat (map header_line (r_headers r))))%nat) in *.
  change (at_line e5 p5 (tell_headers E r (tell_line E r d))) in H5. set (v5 := tell_headers E r (tell_line E r d)) in *.
  set (p6 := (p5 + length (match r_body r with [] => [] | _ => header_line (length_name, r_length r) end))%nat) in *.
  assert (length bytes = p6 + 2 + length (r_body r))%nat as Elen.
  { unfold request_bytes, p6, p5, p2, p1. rewrite !length_app. cbn [length]. lia. }
  assert (drop (p6 + 2) bytes = r_body r) as Hdrop.
  { pose proof Hl7 as Hb'. apply sits_app in Hb' as [_ [post Hpost]]. change (length [CR; LF]) with 2%nat in Hpost.
    pose proof (f_equal length Hpost) as El. rewrite length_drop, length_app in El. destruct post; [|cbn [length] in El; lia].
    by rewrite app_nil_r in Hpost. }
  destruct (r_body r) as [|b0 body_] eqn:Ebody.
  - cbn [length] in p6. subst p6. rewrite Nat.add_0_r in *. apply goes_now. by eapply HQ.
  - destruct Hlen as (Hne & Hnum & Hval); [done|].
    assert (length (b0 :: body_) <= length bytes)%nat as Hsmall by lia.
    assert (v_flags v5 = connection_flag) as Hfl by (by apply tell_headers_view).
    eapply (goes_header _ _ _ Hmax E (request_target r) HE (length_name, r_length r)); [exact H5|exact Hl6| |].
    { apply (length_does _ _ _ Hmax); [done|done|rewrite Hval; lia|]. rewrite Hfl. unfold connection_flag. by destruct (r_close r). }
    intros e6 H6. by eapply HQ.
Qed.

Lemma request_flags (v : @view D) : v_flags v = connection_flag \/ v_flags v = Z.lor connection_flag F_CONTENTLENGTH -> plain_flags v.
Proof. unfold plain_flags, connection_flag. destruct (r_close r); intros [-> | ->]; by repeat constructor. Qed.

(** The parser reads a request to its end, and has told the callbacks all of it. *)
Lemma execute_request d : exists ps',
  http_parser_execute max_header_size settings bytes (http_parser_init HTTP_REQUEST d) = (Ok (Z.of_nat (length bytes)), ps') /\
  data ps' = tell_request E r d /\ errno ps' = HPE_OK.
Proof using Hwf Hmax HE Hblind.
  set (v_end := tell (of_complete E) (tell_body E r (tell_headers E r (tell_line E r d)))).
  destruct (execute_runs max_header_size settings bytes (http_parser_init HTTP_REQUEST d) v_end eq_refl eq_refl)
    as (ps' & Hrun & Hv & Hok); [|..|exists ps'; split_and!; [done| |done]; change (data ps') with (v_data (view_of ps')); by rewrite Hv].
  { unfold request_bytes. rewrite !length_app. cbn [length]. lia. }
  pose proof Hwf as [[Hm Hnc] _ _ _ Hlen]. pose proof HE as (_ & _ & _ & (fb & Hfb & Htb) & _ & (fh & Hfh & Hth) & (fc & Hfc & Htc)).
  set (v5 := tell_headers E r (tell_line E r d)) in *. destruct (tell_headers_view (tell_line E r d) eq_refl) as (Hfl & Hcl & Hme).
  fold v5 in Hfl, Hcl, Hme. unfold tell_body in v_end.
  eapply goes_then; [eapply goes_to_headers_end; intros e p H1 H2 H3; exact (ex_intro _ p (conj H1 (conj H2 H3)))|].
  cbv beta. intros e (p & Hline & Hl & Hdrop). apply sits_app in Hl as [Hl _].
  pose proof (sits_bound _ _ _ Hl ltac:(done)) as Hb. change (length [CR; LF]) with 2%nat in Hb.
  fold v5 in Hline. destruct (r_body r) as [|b0 body_] eqn:Ebody.
  - eapply (goes_headers_end _ _ _ Hmax); [exact Hline|exact Hl|by rewrite Hme|apply request_flags; by left|exact Hfh|exact Hth|].
    intros e0 H0 Hup. eapply (wp_no_body _ bytes); [exact H0|exact Hup|apply request_flags; by left|exact Hcl|exact Hfc|exact Htc|].
    intros e1 He1. apply (f_equal length) in Hdrop. rewrite length_drop in Hdrop. cbn [length] in Hdrop.
    by replace (length bytes) with (p + 1 + 1)%nat by lia.
  - destruct Hlen as (Hne & Hnum & Hval); [done|].
    assert (length (b0 :: body_) = length bytes - (p + 2))%nat as Elen by (by rewrite <- Hdrop, length_drop).
    set (v6 := told E (length_name, r_length r) (set_body_length (r_length r)) v5) in *.
    assert (v_flags v6 = Z.lor connection_flag F_CONTENTLENGTH) as Hfl6 by (change (v_flags v6) with (Z.lor (v_flags v5) F_CONTENTLENGTH); by rewrite Hfl).
    assert (v_length v6 = Z.of_nat (length (b0 :: body_))) as Hcl6 by exact Hval.
    eapply (goes_then _ _ _ _ (fun e1 => at_ e1 (p + 1 + 1) 0 s_body_identity None (tell (of_headers E) v6) /\ upgrade (parser e1) = false)).
    + eapply (goes_headers_end _ _ _ Hmax); [exact Hline|exact Hl|change (v_method v5 <> HTTP_CONNECT); by rewrite Hme|apply request_flags; by right|exact Hfh|exact Hth|].
      intros e0 H0 Hup. eapply (wp_body_start _ bytes); [exact H0|exact Hup|apply request_flags; by right| |by split].
      change (v_length (with_data (of_headers E v6) v6)) with (v_length v6). rewrite Hcl6. pose proof (Nat.lt_0_succ (length body_)) as Hpos. change (S (length body_)) with (length (b0 :: body_)) in Hpos. unfold ULLONG_MAX. lia.
    + intros e1 [H1 Hup]. eapply (goes_body _ _ _ Hmax); [exact H1|exact Hup|by replace (p + 1 + 1)%nat with (p + 2)%nat by lia|done|exact Hcl6|exact Hfb|apply Htb|exact Hfc|exact Htc|].
      intros e2 v1 v2 He2. exact He2.
Qed.
End parsing.
