(* ===== verification/HttpRoundtrip.v ===== *)
(** * HttpRoundtrip: a request that is written is read back

    The text that [HttpRequest::dump] writes, given to [HttpRequestParser::execute]
    and to a session. *)

From stdpp Require Import base list numbers strings pretty.
From Stdlib Require Import Ascii String.
From S2P Require Import Prelude Words ParserTables ParserUrl ParserState ParserExec ParserSafety ParserUrlTheorems ParserRequest Address ByteArray Socket Stream StreamTheorems Http HttpTheorems HttpParser HttpParserTheorems.

Local Open Scope Z_scope.
#[local] Notation length := List.length.
#[local] Notation concat := List.concat.

(** ** Texts and bytes *)

Lemma chars_app s1 s2 : chars (s1 ++ s2) = (chars s1 ++ chars s2)%list.
Proof. induction s1 as [|c s1 IH]; [done|]. exact (f_equal (cons _) IH). Qed.

Lemma text_chars s : text (chars s) = s.
Proof. induction s as [|c s IH]; [done|]. cbn. by rewrite Nat2Z.id, ascii_nat_embedding, IH. Qed.

Lemma length_chars s : length (chars s) = String.length s.
Proof. induction s as [|c s IH]; [done|]. cbn. by rewrite IH. Qed.

(** ** Decimal numbers *)

Lemma digit_char x : (x < 10)%N -> chars (String (pretty_N_char x) EmptyString) = [48 + Z.of_N x] /\ IS_NUM (48 + Z.of_N x) = true.
Proof.
  intros Hx. assert (forallb (fun n => bool_decide (chars (String (pretty_N_char (N.of_nat n)) EmptyString) = [48 + Z.of_nat n]) && IS_NUM (48 + Z.of_nat n)) (seq 0 10) = true)
    as Hall by (vm_compute; reflexivity).
  rewrite forallb_forall in Hall. specialize (Hall (N.to_nat x)). rewrite in_seq in Hall. specialize (Hall ltac:(lia)).
  rewrite N2Nat.id, N_nat_Z in Hall. apply andb_true_iff in Hall as [H1 H2]. by apply bool_decide_eq_true in H1.
Qed.

Lemma pretty_go_value x : forall s, forallb IS_NUM (chars s) = true -> forallb IS_NUM (chars (pretty_N_go x s)) = true /\
  dec_value 0 (chars (pretty_N_go x s)) = dec_value (Z.of_N x) (chars s).
Proof.
  induction (N.lt_wf_0 x) as [x _ IH]. intros s Hs. destruct (decide (x = 0%N)) as [->|Hx].
  { by rewrite pretty_N_go_0. }
  rewrite pretty_N_go_step by lia. destruct (digit_char (x `mod` 10)%N) as [Hd Hn]; [apply N.mod_lt; lia|].
  assert (chars (String (pretty_N_char (x `mod` 10)%N) s) = (48 + Z.of_N (x `mod` 10)%N) :: chars s) as E.
  { cbn [chars] in *. by injection Hd as ->. }
  destruct (IH (x `div` 10)%N) with (s := String (pretty_N_char (x `mod` 10)%N) s) as [H1 H2].
  - apply N.div_lt; lia.
  - rewrite E. cbn [forallb]. by rewrite Hn.
  - split; [done|]. rewrite H2, E. unfold dec_value. cbn [fold_left]. f_equal.
    rewrite N2Z.inj_div, N2Z.inj_mod. change (Z.of_N 10) with 10. pose proof (Z.div_mod (Z.of_N x) 10). lia.
Qed.

(** The text of a number, read back. *)
Lemma num_value n : 0 <= n -> forallb IS_NUM (chars (num n)) = true /\ dec_value 0 (chars (num n)) = n /\ chars (num n) <> [].
Proof.
  intros Hn. unfold num, pretty, pretty_N. destruct (decide (Z.to_N n = 0%N)) as [E|E].
  - split_and!; [done| |done]. replace n with 0 by lia. done.
  - destruct (pretty_go_value (Z.to_N n) "" eq_refl) as [H1 H2]. split_and!; [done| |].
    + rewrite H2. cbn. lia.
    + intros E0. rewrite E0 in H2. cbn in H2. lia.
Qed.

Lemma num_digit n : 0 <= n <= 9 -> chars (num n) = [48 + n].
Proof.
  intros Hn. assert (forallb (fun k => bool_decide (chars (num (Z.of_nat k)) = [48 + Z.of_nat k])) (seq 0 10) = true) as Hall by (vm_compute; reflexivity).
  rewrite forallb_forall in Hall. specialize (Hall (Z.to_nat n)). rewrite in_seq in Hall. specialize (Hall ltac:(lia)).
  rewrite Z2Nat.id in Hall by lia. by apply bool_decide_eq_true in Hall.
Qed.

(** ** What the callbacks of [HttpRequestParser] do *)

(** The parts of a target. *)
Definition set_target (path query fragment : list Z) (d : HttpRequest) : HttpRequest :=
  let d := setPath (text ("/"%ch :: path)) d in
  let d := match query with [] => d | _ => setQuery (text query) d end in
  match fragment with [] => d | _ => setFragment (text fragment) d end.

Definition on (f : HttpRequest -> HttpRequest) (p : RequestParser) : RequestParser := set_m_data (f (m_data p)) p.

Definition request_effects (path query fragment : list Z) : @effects RequestParser := mkEffects
  (fun _ v => on (set_target path query fragment) (v_data v))
  (fun l v => setCurrField (text l) (v_data v))
  (fun l v => on (setHeader (m_currField (v_data v)) (text l)) (v_data v))
  (fun l v => on (setBody (text l)) (v_data v))
  (fun v => v_data v)
  (fun v => on (setMethod (v_method v)) (on (setVersion (wrap 8 (Z.lor (Z.shiftl (v_major v) 4) (v_minor v)))) (v_data v)))
  (fun v => set_m_finished true (v_data v)).

(** A field of the target that may be missing. *)
Lemma set_url_field_part u t f l g d : is_set f u = bool_decide (l <> []) -> (l <> [] -> slice t (field_data u f) = l) ->
  fst (field_data u f) + snd (field_data u f) <= Z.of_nat (length t) ->
  set_url_field u t f g d = (Ok tt, match l with [] => d | _ => on (g (text l)) d end).
Proof.
  intros Hs Hl Hb. unfold set_url_field. rewrite Hs. destruct l as [|c l]; [by rewrite bool_decide_false by (intros []; done)|].
  rewrite bool_decide_true by done. specialize (Hl ltac:(done)). unfold slice in Hl. destruct (field_data u f) as [off n]. cbn [fst snd] in *.
  rewrite (proj2 (Z.ltb_ge _ _)) by lia. by rewrite Hl.
Qed.

Lemma request_on_url_tells path query fragment : url_chars path -> query_chars query -> query_chars fragment ->
  Z.of_nat (length (target path query fragment)) <= 65535 ->
  tells (request_on_url (target path query fragment)) (fun v => on (set_target path query fragment) (v_data v)).
Proof.
  intros Hp Hq Hf Hl ps. destruct (parse_url_finds path query fragment Hp Hq Hf Hl) as (u & Hrun & Hpath & Hquery & Hfrag & Hset).
  destruct (parse_url_fits (target path query fragment) false Hl) as (r & u' & Hrun' & Hfits).
  rewrite Hrun in Hrun'. injection Hrun' as <- <-. unfold request_on_url. rewrite Hrun. cbn [Z.eqb negb].
  apply on_object_ok. set (t := target path query fragment) in *.
  assert (forall f, fst (field_data u f) + snd (field_data u f) <= Z.of_nat (length t)) as Hb by (intros f; destruct (Hfits f); lia).
  rewrite (bind_Ok _ _ _ _ _ (set_url_field_part u t UF_PATH ("/"%ch :: path) setPath _ (Hset UF_PATH) (fun _ => Hpath) (Hb UF_PATH))).
  rewrite (bind_Ok _ _ _ _ _ (set_url_field_part u t UF_QUERY query setQuery _ (Hset UF_QUERY) Hquery (Hb UF_QUERY))).
  rewrite (bind_Ok _ _ _ _ _ (set_url_field_part u t UF_FRAGMENT fragment setFragment _ (Hset UF_FRAGMENT) Hfrag (Hb UF_FRAGMENT))).
  unfold set_target. by destruct query, fragment.
Qed.

(** The callbacks of a request act as told. *)
Lemma request_acts path query fragment : url_chars path -> query_chars query -> query_chars fragment ->
  Z.of_nat (length (target path query fragment)) <= 65535 ->
  acts request_settings (request_effects path query fragment) (target path query fragment).
Proof.
  intros Hp Hq Hf Hl. split_and!; (eexists; split; [reflexivity|]).
  - by apply request_on_url_tells.
  - intros l ps. by apply on_object_ok.
  - intros l ps. by apply on_object_ok.
  - intros l ps. by apply on_object_ok.
  - intros ps. by destruct ps.
  - intros ps. reflexivity.
  - intros ps. by apply on_object_ok.
Qed.

(** ** The text of a request *)

Definition bytes_of (h : string * string) : list Z * list Z := (chars (fst h), chars (snd h)).

(** The request that [dump] writes. *)
Definition request_of (r : HttpRequest) : request :=
  mkRequest (m_method r) (tl (chars (m_path r))) (chars (m_query r)) (chars (m_fragment r))
    (Z.shiftr (m_version r) 4) (Z.land (m_version r) 0x0F) (m_close r) (map bytes_of (m_headers r))
    (chars (m_body r)) (chars (num (Z.of_nat (String.length (m_body r))))).

(** A request with a method other than [CONNECT], an absolute path, a version of
    two digits, and headers that do not concern the connection or the body, with
    texts that the grammar allows, and not too long. *)
Record dump_ok (r : HttpRequest) : Prop := {
  ok_method : 0 <= m_method r < 34 /\ m_method r <> CONNECT;
  ok_path : exists rest, m_path r = ("/" ++ rest)%string;
  ok_target : url_chars (tl (chars (m_path r))) /\ query_chars (chars (m_query r)) /\ query_chars (chars (m_fragment r));
  ok_version : 0 <= Z.shiftr (m_version r) 4 <= 9 /\ Z.land (m_version r) 0x0F <= 9;
  ok_headers : Forall ordinary (map bytes_of (m_headers r)) /\ ordered (m_headers r);
  ok_size : Z.of_nat (length (request_target (request_of r))) <= 65535 /\
            Z.of_nat (length (request_bytes (request_of r))) <= HTTP_MAX_HEADER_SIZE
}.

Lemma method_chars m : 0 <= m < 34 -> exists t, httpMethodToString m = Ok t /\ chars t = method_text m.
Proof.
  intros Hm. assert (forallb (fun n => match httpMethodToString (Z.of_nat n) with
    Ok t => bool_decide (chars t = method_text (Z.of_nat n)) | _ => false end) (seq 0 34) = true) as Hall by (vm_compute; reflexivity).
  rewrite forallb_forall in Hall. specialize (Hall (Z.to_nat m)). rewrite in_seq in Hall. specialize (Hall ltac:(lia)).
  rewrite Z2Nat.id in Hall by lia. destruct (httpMethodToString m) as [t| | | | |]; try done. exists t. split; [done|].
  by apply bool_decide_eq_true in Hall.
Qed.

Lemma emit_headers_bytes m os : exists s, emit_headers m os = (Ok tt, s) /\
  chars s = (chars os ++ concat (map header_line (map bytes_of m)))%list.
Proof.
  revert os. induction m as [|[k v] m IH]; intros os; [exists os; split; [done|]; cbn [map List.concat]; by rewrite app_nil_r|].
  cbn [emit_headers]. unfold emit. rewrite bind_modify. destruct (IH (os ++ k ++ ": " ++ v ++ crlf)%string) as (s & Hrun & Hs).
  exists s. split; [exact Hrun|]. rewrite Hs. cbn [map List.concat].
  change (header_line (bytes_of (k, v))) with ((chars k ++ [":"%ch]) ++ " "%ch :: chars v ++ [CR; LF])%list.
  rewrite !chars_app, <- !app_assoc. cbn [app]. by rewrite <- app_assoc.
Qed.

(** The names that [ordinary] excludes are excluded from the map in any spelling. *)
Lemma token_fold c : TOKEN (Z.of_nat (nat_of_ascii c)) <> 0 -> Z.of_nat (tolower c) = TOKEN (Z.of_nat (nat_of_ascii c)).
Proof.
  intros Hc. assert (forallb (fun n => let c := ascii_of_nat n in (TOKEN (Z.of_nat (nat_of_ascii c)) =? 0) ||
    (Z.of_nat (tolower c) =? TOKEN (Z.of_nat (nat_of_ascii c)))) (seq 0 256) = true) as Hall by (vm_compute; reflexivity).
  rewrite forallb_forall in Hall. specialize (Hall (nat_of_ascii c)). rewrite in_seq in Hall.
  specialize (Hall ltac:(pose proof (nat_ascii_bounded c); lia)). cbv zeta in Hall. rewrite ascii_nat_embedding in Hall.
  apply orb_true_iff in Hall as [H|H]; apply Z.eqb_eq in H; done.
Qed.

Lemma casefold_tokens k : tokens_only (chars k) -> map Z.of_nat (casefold k) = map TOKEN (chars k).
Proof.
  induction k as [|c k IH]; intros Ht; [done|]. cbn [chars] in Ht. apply tokens_cons in Ht as [Hc Ht]. cbn [casefold chars map].
  destruct (Nat.eqb_spec (nat_of_ascii c) 0) as [E|_]; [exfalso; rewrite E in Hc; by apply Hc|].
  cbn [map]. by rewrite (token_fold c Hc), IH.
Qed.

Lemma map_find_In k m v : map_find k m = Some v -> exists x, In (x, v) m /\ key_equiv x k.
Proof.
  induction m as [|[x w] m IH]; [done|]. cbn [map_find].
  destruct (CaseInsensitiveLess x k) eqn:H1; [intros (y & Hy & He)%IH; exists y; split; [by right|done]|].
  destruct (CaseInsensitiveLess k x) eqn:H2; [done|]. intros [= ->]. exists x. split; [by left|by apply less_same].
Qed.

Lemma no_special_header m key name : Forall ordinary (map bytes_of m) -> map Z.of_nat (casefold key) = name ->
  (forall h, ordinary h -> map TOKEN (fst h) <> name) -> map_find key m = None.
Proof.
  intros Ho Hkey Hne. destruct (map_find key m) as [v|] eqn:Hf; [|done]. exfalso.
  apply map_find_In in Hf as (x & Hx & He). rewrite List.Forall_map in Ho. rewrite List.Forall_forall in Ho. specialize (Ho _ Hx).
  apply (Hne _ Ho). cbn [bytes_of fst]. destruct Ho as [Htok _]. cbn [bytes_of fst] in Htok.
  rewrite <- casefold_tokens, <- Hkey by done. f_equal. by apply same_key_casefold.
Qed.

Lemma no_length_header m : Forall ordinary (map bytes_of m) -> map_find "Content-Length" m = None.
Proof. intros Ho. apply (no_special_header m _ CONTENT_LENGTH Ho); [done|]. by intros h (_ & _ & _ & _ & H & _). Qed.

Lemma no_connection_header m : Forall ordinary (map bytes_of m) -> map_find "connection" m = None.
Proof. intros Ho. apply (no_special_header m _ CONNECTION Ho); [done|]. by intros h (_ & _ & H & _). Qed.

Lemma version_chars v : 0 <= Z.shiftr v 4 <= 9 -> 0 <= Z.land v 0x0F <= 9 ->
  chars (version_text v) = ([72; 84; 84; 80; 47] ++ [48 + Z.shiftr v 4; "."%ch; 48 + Z.land v 0x0F])%list.
Proof. intros H1 H2. unfold version_text. rewrite !chars_app, !num_digit by done. done. Qed.

Lemma append_empty (s : string) : (s ++ "")%string = s.
Proof. induction s as [|c s IH]; [done|]. exact (f_equal (String c) IH). Qed.

Lemma emit_unless (b : bool) x s : (if b then ret tt else emit x) s = (Ok tt, (s ++ if b then "" else x)%string).
Proof. destruct b; [by rewrite append_empty|done]. Qed.

(** A part of the target with its delimiter. *)
Lemma part_chars d x : chars (if is_empty x then "" else (String d "" ++ x)%string) = prefixed (Z.of_nat (nat_of_ascii d)) (chars x).
Proof. by destruct x. Qed.

(** [dump] writes that request. *)
Lemma dump_bytes r : dump_ok r -> exists s, HttpRequest_dump r EmptyString = (Ok tt, s) /\ chars s = request_bytes (request_of r).
Proof.
  intros [[Hm Hnc] (rest & Hpath) _ [Hv1 Hv2] [Ho _] _]. destruct (method_chars _ Hm) as (t & Ht & Htc).
  unfold HttpRequest_dump. rewrite Ht, bind_fail_Ok. unfold emit at 1. rewrite bind_modify.
  rewrite (bind_Ok _ _ _ _ _ (emit_unless _ _ _)), (bind_Ok _ _ _ _ _ (emit_unless _ _ _)). unfold emit at 1. rewrite bind_modify.
  unfold emit at 1. rewrite bind_modify. set (s0 := (_ ++ (if m_close r then _ else _))%string).
  destruct (emit_headers_bytes (m_headers r) s0) as (s1 & Hrun & Hs1). rewrite (bind_Ok _ _ _ _ _ Hrun).
  assert (0 <= Z.land (m_version r) 15) as Hv3 by (apply Z.land_nonneg; right; lia).
  assert (chars s0 = ((method_text (m_method r) ++ [" "%ch]) ++ (request_target (request_of r) ++ [" "%ch]) ++
    ([72; 84; 84; 80; 47] ++ [48 + Z.shiftr (m_version r) 4; "."%ch; 48 + Z.land (m_version r) 0x0F; CR; LF]) ++
    header_line (connection_header (m_close r)))%list) as Hs0.
  { unfold s0. rewrite !chars_app, version_chars, Htc, !part_chars by done.
    unfold request_target, target. cbn [r_path r_query r_fragment request_of]. rewrite Hpath. cbn [chars tl].
    rewrite <- !app_assoc. cbn [app]. destruct (m_close r); rewrite <- ?app_assoc; reflexivity. }
  rewrite Hs0 in Hs1. unfold request_bytes. cbn [r_method r_major r_minor r_close r_headers r_body r_length request_of].
  unfold map_count. rewrite no_length_header, bool_decide_false by (done || by intros []).
  destruct (m_body r) as [|c body] eqn:Eb; cbn [is_empty].
  - eexists. split; [reflexivity|]. rewrite chars_app, Hs1, <- !app_assoc. done.
  - eexists. split; [reflexivity|].
    change (header_line (length_name, ?ds)) with (chars "Content-Length: " ++ ds ++ [CR; LF])%list.
    rewrite !chars_app, Hs1. cbn [chars]. rewrite <- !app_assoc. reflexivity.
Qed.

(** ** What the parser makes of it *)

Definition put (m : MapType) (h : string * string) : MapType := map_set (fst h) (snd h) m.

Lemma put_all_ordered hs m : ordered m -> ordered (fold_left put hs m).
Proof. revert m. induction hs as [|h hs IH]; intros m Ho; [done|]. apply IH. by apply set_ordered. Qed.

(** The entries of a map, put one after the other into another. *)
Lemma find_put_all k hs m : ordered hs -> ordered m ->
  map_find k (fold_left put hs m) = match map_find k hs with Some v => Some v | None => map_find k m end.
Proof.
  revert m. induction hs as [|[x v] hs IH]; intros m Hhs Ho; [done|]. destruct Hhs as [Habove Hhs]. cbn [fold_left map_find].
  rewrite IH by (done || by apply set_ordered). unfold put. cbn [fst snd]. rewrite find_set by done.
  destruct (less_cases x k) as [(H1 & H2 & ->)|[(H1 & H2 & ->)|(H1 & H2 & Hs)]]; rewrite H1, ?H2; [done| |].
  - rewrite find_above; [done|]. by apply (above_trans k x).
  - rewrite Hs, find_above; [done|]. eapply List.Forall_impl; [|exact Habove]. intros h Hh. cbv beta in *.
    by rewrite <- (less_proper x k Hs (fst h) (fst h) (reflexivity _)).
Qed.

Lemma version_parts v : 0 <= Z.shiftr v 4 <= 9 -> wrap 8 (Z.lor (Z.shiftl (Z.shiftr v 4) 4) (Z.land v 0x0F)) = v.
Proof.
  intros Hv. change 0x0F with (Z.ones 4). rewrite <- Z.ldiff_ones_r, Z.lor_ldiff_and by lia.
  rewrite Z.shiftr_div_pow2 in Hv by lia. change (2 ^ 4) with 16 in Hv. pose proof (Z.div_mod v 16 ltac:(lia)). pose proof (Z.mod_pos_bound v 16 ltac:(lia)).
  unfold wrap. apply Z.mod_small. change (2 ^ 8) with 256. lia.
Qed.

Lemma dump_wf r : dump_ok r -> request_wf (request_of r).
Proof.
  intros [Hm _ Ht [H1 H2] [Hh _] _]. split; [exact Hm|exact Ht| |exact Hh|].
  - split; [done|]. cbn. split; [|lia]. apply Z.land_nonneg. lia.
  - intros _. cbn [r_length r_body request_of]. rewrite length_chars.
    destruct (num_value (Z.of_nat (String.length (m_body r))) ltac:(lia)) as (Hn & Hv & Hne). done.
Qed.

(** The headers of the request that is read. *)
Definition read_headers (r : HttpRequest) : MapType :=
  let m := fold_left put (m_headers r) [("connection", if m_close r then "close" else "keep-alive")]%string in
  if is_empty (m_body r) then m else map_set "Content-Length" (num (Z.of_nat (String.length (m_body r)))) m.

Definition read_request (r : HttpRequest) : HttpRequest :=
  mkHttpRequest (m_method r) None (m_version r) false (m_path r) (m_query r) (m_fragment r) (m_body r) (read_headers r) [] [].

Lemma told_m_data path query fragment h v :
  m_data (v_data (told (request_effects path query fragment) (bytes_of h) id v)) = setHeader (fst h) (snd h) (m_data (v_data v)).
Proof. unfold told. cbn. by rewrite !text_chars. Qed.

Lemma headers_m_data path query fragment hs v :
  m_data (v_data (fold_left (fun v h => told (request_effects path query fragment) h id v) (map bytes_of hs) v)) =
  setHeaders (fold_left put hs (m_headers (m_data (v_data v)))) (m_data (v_data v)).
Proof.
  revert v. induction hs as [|h hs IH]; intros v; [cbn; by destruct (m_data (v_data v))|].
  cbn [map fold_left]. by rewrite IH, told_m_data.
Qed.

Lemma headers_version {D} (E : @effects D) hs v : let v' := fold_left (fun v h => told E h id v) hs v in
  v_major v' = v_major v /\ v_minor v' = v_minor v /\ v_method v' = v_method v.
Proof. revert v. induction hs as [|h hs IH]; intros v; [done|]. apply (IH (told E h id v)). Qed.

Lemma add_flags_version {D} h (v : @view D) : let v' := add_flags h v in
  v_data v' = v_data v /\ v_major v' = v_major v /\ v_minor v' = v_minor v /\ v_method v' = v_method v.
Proof. unfold add_flags. by destruct (finished_flag h). Qed.

(** Up to the end of the headers. *)
Lemma tell_headers_data r path query fragment v : let v' := tell_headers (request_effects path query fragment) (request_of r) v in
  m_data (v_data v') = setHeaders (fold_left put (m_headers r) (put (m_headers (m_data (v_data v))) ("connection", if m_close r then "close" else "keep-alive")%string)) (m_data (v_data v)) /\
  v_major v' = v_major v /\ v_minor v' = v_minor v /\ v_method v' = v_method v.
Proof.
  unfold tell_headers. cbn [r_close r_headers request_of]. set (E := request_effects _ _ _).
  destruct (headers_version E (map bytes_of (m_headers r)) (add_flags (if m_close r then h_connection_close else h_connection_keep_alive)
    (told E (connection_header (m_close r)) id v))) as (-> & -> & ->).
  unfold E. rewrite headers_m_data. fold E. edestruct (add_flags_version (D := RequestParser)) as (-> & -> & -> & ->).
  split_and!; try done. by destruct (m_close r).
Qed.

Lemma tell_dump r d : dump_ok r -> d = data HttpRequestParser_ctor ->
  let q := request_of r in
  m_data (tell_request (request_effects (r_path q) (r_query q) (r_fragment q)) q d) = read_request r /\
  m_finished (tell_request (request_effects (r_path q) (r_query q) (r_fragment q)) q d) = true.
Proof.
  intros Hr ->. cbv zeta. unfold tell_request. set (E := request_effects _ _ _). pose proof Hr as [_ (rest & Hpath) _ [Hv1 _] _ _].
  set (v0 := tell_line E (request_of r) (data HttpRequestParser_ctor)).
  assert (m_data (v_data v0) = mkHttpRequest GET None 17 false (m_path r) (m_query r) (m_fragment r) EmptyString [] [] []) as H0.
  { unfold v0, E, tell_line. cbn. unfold set_target. rewrite Hpath. change ("/" ++ rest)%string with (String (ascii_of_nat 47) rest).
    cbn [chars tail text]. rewrite !text_chars. by destruct (m_query r), (m_fragment r). }
  assert (v_major v0 = Z.shiftr (m_version r) 4 /\ v_minor v0 = Z.land (m_version r) 0x0F /\ v_method v0 = m_method r) as Hvers by done.
  clearbody v0. destruct Hvers as (Hma & Hmi & Hme).
  destruct (tell_headers_data r (r_path (request_of r)) (r_query (request_of r)) (r_fragment (request_of r)) v0) as (H1 & H2 & H3 & H4).
  fold E in H1, H2, H3, H4. set (v1 := tell_headers E (request_of r) v0) in *. clearbody v1. rewrite H0 in H1. cbn [put m_headers fst snd map_set setHeaders] in H1.
  unfold tell_body. cbn [r_body r_length request_of]. unfold read_request, read_headers. generalize (num (Z.of_nat (String.length (m_body r)))). intros ds.
  pose proof (text_chars (m_body r)) as Et. destruct (m_body r) as [|c body_]; cbn [is_empty].
  - cbn. rewrite H1, H2, H3, H4, Hma, Hmi, Hme, (version_parts _ Hv1). split; reflexivity.
  - cbn [chars] in Et. cbn -[text num]. rewrite Et, text_chars, H1, H2, H3, H4, Hma, Hmi, Hme, (version_parts _ Hv1). split; reflexivity.
Qed.

Lemma execute_dump r : dump_ok r -> exists s p, HttpRequest_dump r EmptyString = (Ok tt, s) /\
  execute (chars s) HttpRequestParser_ctor = (Ok (Z.of_nat (String.length s)), p) /\
  error p = 0 /\ finished p = true /\ getData p = read_request r.
Proof.
  intros Hr. destruct (dump_bytes r Hr) as (s & Hdump & Hs). pose proof Hr as [_ _ (H1 & H2 & H3) _ _ [Hl Hmax]].
  destruct (execute_request (dump_wf r Hr) (conj Hmax eq_refl) (request_acts _ _ _ H1 H2 H3 Hl) (fun m v => eq_refl) (data HttpRequestParser_ctor))
    as (p & Hrun & Hdata & Hok).
  destruct (tell_dump r _ Hr eq_refl) as [Hd Hf]. exists s, p. split_and!; [done| | | |].
  - unfold execute. rewrite Hs, <- length_chars, Hs. exact Hrun.
  - unfold error. by rewrite Hok.
  - unfold finished. rewrite Hdata. exact Hf.
  - unfold getData. rewrite Hdata. exact Hd.
Qed.

(** A header that [dump] adds is not in the way of another. *)
Lemma read_headers_find r k : dump_ok r ->
  map_find k (read_headers r) =
    if negb (is_empty (m_body r)) && same_key "Content-Length" k then Some (num (Z.of_nat (String.length (m_body r))))
    else if same_key "connection" k then Some (if m_close r then "close" else "keep-alive")%string
    else map_find k (m_headers r).
Proof.
  intros [_ _ _ _ [Ho Hord] _]. unfold read_headers. set (m0 := [_]). cbv zeta.
  assert (ordered m0) as Ho0 by (split; [constructor|done]).
  assert (map_find k (fold_left put (m_headers r) m0) = if same_key "connection" k then Some (if m_close r then "close" else "keep-alive")%string
    else map_find k (m_headers r)) as E.
  { rewrite find_put_all by done. unfold m0. cbn [map_find]. destruct (less_cases "connection" k) as [(H1 & H2 & ->)|[(H1 & H2 & ->)|(H1 & H2 & H3)]]; rewrite H1, ?H2.
    - by destruct (map_find k (m_headers r)).
    - by destruct (map_find k (m_headers r)).
    - rewrite (H3 : same_key _ _ = true), <- (map_find_proper "connection" k H3 (m_headers r) _ eq_refl). by rewrite no_connection_header. }
  destruct (is_empty (m_body r)); cbn [negb andb]; [done|]. rewrite find_set by (by apply put_all_ordered). by rewrite E.
Qed.

(** ** The round trip *)

Section roundtrip.
Context {S : Type} `{Stream S}.

Lemma recv_loop_finished fuel got p (st : S) : finished p = true -> recv_loop fuel got p st = (Ok (Some (getData p)), st).
Proof. intros Hf. destruct fuel; cbn [recv_loop]; by rewrite Hf. Qed.

(** A round that reads the rest of a message is the last. *)
Lemma recv_loop_last fuel got bs p p' (st st' : S) :
  finished p = false -> s_read (buffSize - length got) st = (Ok (Z.of_nat (length bs), bs), st') -> (0 < length bs)%nat ->
  execute (got ++ bs)%list p = (Ok (Z.of_nat (length (got ++ bs)%list)), p') -> error p' = 0 -> finished p' = true ->
  recv_loop (Datatypes.S fuel) got p st = (Ok (Some (getData p')), st').
Proof.
  intros Hf Hread Hpos Hrun Herr Hfin. cbn [recv_loop]. rewrite Hf, (bind_Ok _ _ _ _ _ Hread). cbn [fst snd].
  rewrite length_app in Hrun. rewrite (proj2 (Z.leb_gt _ _)), Hrun, Herr, (proj2 (Z.leb_gt _ _)) by lia. cbn [Z.eqb negb orb].
  by apply recv_loop_finished.
Qed.

(** C3: (roundtrip) The text that dump writes for a request is read by a fresh
    HttpRequestParser to its last byte, without error and as finished, for every
    request that meets these conditions ([dump_ok]): one of the 34 methods but
    CONNECT; an absolute path; path, query and fragment of characters that the URL
    grammar allows; a target of at most 65535 bytes and a text of at most 80 KiB; a
    version of two digits; and headers of token characters with non-empty values
    without control characters (tabs apart) and without a blank in front, none of them
    named Connection, Proxy-Connection, Content-Length or Upgrade or with a name that
    begins with transfer-encoding (in any spelling), as the header map keeps them.
    The request that the parser holds has the method, version, path, query, fragment
    and body of the one that was written, and all its headers; "Content-Length" (when
    there is a body) and "connection" are those that dump has added, and whether the
    connection closes is not read back.  A session whose stream delivers the whole
    text in its first read (so of at most 4096 bytes) returns that request. *)
Theorem request_roundtrip r : dump_ok r ->
  exists s p, HttpRequest_dump r EmptyString = (Ok tt, s) /\
    execute (chars s) HttpRequestParser_ctor = (Ok (Z.of_nat (String.length s)), p) /\ error p = 0 /\ finished p = true /\
    let r' := getData p in
    m_method r' = m_method r /\ m_version r' = m_version r /\ m_path r' = m_path r /\ m_query r' = m_query r /\
    m_fragment r' = m_fragment r /\ m_body r' = m_body r /\ m_close r' = false /\
    (forall k, getHeader r' k =
       if negb (is_empty (m_body r)) && same_key "Content-Length" k then Some (num (Z.of_nat (String.length (m_body r))))
       else if same_key "connection" k then Some (if m_close r then "close" else "keep-alive")%string
       else getHeader r k) /\
    (forall st st', s_read buffSize st = (Ok (Z.of_nat (String.length s), chars s), st') ->
       recvRequest st = (Ok (Some r'), st')).
Proof.
  intros Hr. destruct (execute_dump r Hr) as (s & p & Hdump & Hrun & Herr & Hfin & Hdata). exists s, p.
  cbv zeta. rewrite Hdata. split_and!; try done; [intros k; by apply read_headers_find|].
  intros st st' Hread. rewrite <- Hdata. rewrite <- length_chars in *. apply (recv_loop_last buffSize [] (chars s)); try done.
  destruct s; [vm_compute in Hrun; by injection Hrun as <-|]. cbn. lia.
Qed.
End roundtrip.

(** ** Witness *)

(** [POST /a?b=1#c HTTP/1.1] with two headers and a body. *)
Definition sample : HttpRequest :=
  mkHttpRequest 3 None 17 false "/a" "b=1" "c" "hello" [("Host", "example.org"); ("X-Id", "42")]%string [] [].

Ltac decided := apply (bool_decide_unpack _); vm_compute; exact I.

Lemma ordinary_sample : Forall ordinary (map bytes_of (m_headers sample)).
Proof. repeat constructor; try decided; vm_compute; discriminate. Qed.

Lemma sample_ok : dump_ok sample.
Proof.
  split; [by vm_compute|by exists "a"%string| |by vm_compute| |by vm_compute].
  - unfold url_chars, query_chars. split_and!; decided.
  - split; [apply ordinary_sample|]. repeat constructor.
Qed.

(** A stream that delivers all that it has. *)
#[local] Instance whole_Stream : Stream (list Z) := {|
  s_read n := let! bs := get (take n) in do! modify (drop n) in ret (Z.of_nat (length bs), bs);
  s_read_barray n := ret 0;
  s_write bs := ret (Z.of_nat (length bs));
  s_write_barray n := ret 0;
  s_close := ret 0
|}.

Lemma request_roundtrip_witness : exists s p, HttpRequest_dump sample EmptyString = (Ok tt, s) /\
  getHeader (getData p) "HOST" = Some "example.org"%string /\ getHeader (getData p) "content-length" = Some "5"%string /\
  recvRequest (chars s) = (Ok (Some (getData p)), []).
Proof.
  destruct (request_roundtrip (S := list Z) sample sample_ok) as (s & p & Hdump & Hrun & _ & _ & _ & _ & _ & _ & _ & _ & _ & Hget & Hsession).
  exists s, p. split; [exact Hdump|]. split; [rewrite Hget; reflexivity|]. split; [rewrite Hget; reflexivity|].
  apply Hsession. vm_compute in Hdump. injection Hdump as <-. vm_compute. reflexivity.
Defined.
