(* ===== verification/Server.v ===== *)
(** * Server: the TCP server, the HTTP server and the servlets

    Models [cczoecpp/Net/Server/TcpServer.h], [TcpServer.cpp], [HttpServer.h],
    [HttpServer.cpp], [servlet.h] and [servlet.cpp].  The sockets of a server share
    the system ([Net], of [Socket.v]); what it schedules on its [IOManager] is a
    list of tasks.  Each method runs alone: the code shares [m_socks] and [m_isStop]
    between the threads without a lock, so that nothing is said of a server on which
    two methods run at the same time. *)

From stdpp Require Import base list numbers gmap strings.
From S2P Require Import Prelude Words Mutex Address ByteArray Socket Stream Http HttpParser.

Local Open Scope nat_scope.

(** ** [TcpServer] *)

Section TcpServer.
Context {N : Type} `{Net N}.

(** A pointer is an index in [heap]. *)
Inductive Task : Set :=
  | AcceptTask (sock : nat)
  | ClientTask (client : nat)
  | CloseTask.

Record TcpServer : Type := mkServer {
  m_name : string;
  m_readTimeout : Z;
  m_isStop : bool;
  m_showLogs : bool;
  m_socks : list nat;
  heap : list (Socket N);
  snet : N;
  scheduled : list Task
}.

Definition set_m_isStop (v : bool) (s : TcpServer) : TcpServer :=
  mkServer (m_name s) (m_readTimeout s) v (m_showLogs s) (m_socks s) (heap s) (snet s) (scheduled s).
Definition set_m_socks (v : list nat) (s : TcpServer) : TcpServer :=
  mkServer (m_name s) (m_readTimeout s) (m_isStop s) (m_showLogs s) v (heap s) (snet s) (scheduled s).
Definition set_heap (v : list (Socket N)) (s : TcpServer) : TcpServer :=
  mkServer (m_name s) (m_readTimeout s) (m_isStop s) (m_showLogs s) (m_socks s) v (snet s) (scheduled s).
Definition set_snet (v : N) (s : TcpServer) : TcpServer :=
  mkServer (m_name s) (m_readTimeout s) (m_isStop s) (m_showLogs s) (m_socks s) (heap s) v (scheduled s).
Definition set_scheduled (v : list Task) (s : TcpServer) : TcpServer :=
  mkServer (m_name s) (m_readTimeout s) (m_isStop s) (m_showLogs s) (m_socks s) (heap s) (snet s) v.

Definition TcpServer_ctor (showLogs : bool) (n : N) : TcpServer :=
  mkServer "cczoe/1.0" (60 * 1000) true showLogs [] [] n [].

Definition setName (name : string) (s : TcpServer) : TcpServer :=
  mkServer name (m_readTimeout s) (m_isStop s) (m_showLogs s) (m_socks s) (heap s) (snet s) (scheduled s).
Definition setReadTimeout (timeout : Z) (s : TcpServer) : TcpServer :=
  mkServer (m_name s) timeout (m_isStop s) (m_showLogs s) (m_socks s) (heap s) (snet s) (scheduled s).

(** A method of the socket behind a pointer, on the shared system. *)
Definition on_sock {A} (ptr : nat) (m : comp (Socket N) A) : comp TcpServer A := fun s =>
  match heap s !! ptr with
  | Some sk => let '(o, sk) := m (Socket.set_net (snet s) sk) in (o, set_snet (net sk) (set_heap (<[ptr := sk]> (heap s)) s))
  | None => (UB, s)
  end.

Definition new_sock (sk : Socket N) : comp TcpServer nat :=
  let! ptr := get (fun s => length (heap s)) in
  do! modify (fun s => set_heap (heap s ++ [sk]) s) in
  ret ptr.

Definition schedule (t : Task) : comp TcpServer unit := modify (fun s => set_scheduled (scheduled s ++ [t]) s).

(** One round of the loop of [accept]: whether it goes on. *)
Definition accept_round (sock : nat) : comp TcpServer bool :=
  let! stop := get m_isStop in
  if stop : bool then ret false else
  let! client := on_sock sock accept in
  match client with
  | Some sk =>
      let! client := new_sock sk in
      let! _ := on_sock client (setRecvTimeout (1000 * 60 * 2)) in
      do! schedule (ClientTask client) in
      ret true
  | None => ret true
  end.

(** [TcpServer::handleClient] only logs. *)
Definition handleClient (client : nat) : comp TcpServer unit := ret tt.

(** One address of [bind]: whether the socket listens; one that does not is
    destroyed at the end of the round, which closes it. *)
Definition bind_one (addr : Address) : comp TcpServer bool :=
  let! n := get snet in
  let! sock := new_sock (CreateTCP addr n) in
  let! bound := on_sock sock (Socket.bind addr) in
  let! listens := (if bound : bool then on_sock sock (listen SOMAXCONN) else ret false) in
  if listens : bool then
    do! modify (fun s => set_m_socks (m_socks s ++ [sock]) s) in
    ret true
  else
    let! _ := on_sock sock close in
    ret false.

(** The loop over [addrs], with [success] from the address on. *)
Fixpoint bind_loop (addrs : list Address) (success : list bool) : comp TcpServer (list bool) :=
  match addrs, success with
  | addr :: addrs, b :: success =>
      let! ok := bind_one addr in
      let! success := bind_loop addrs success in
      ret ((if ok then b else false) :: success)
  | _, _ => ret success
  end.

(** [success.resize(n, true)], which keeps what the caller has left in it. *)
Definition resize (n : nat) (success : list bool) : list bool := take n success ++ replicate (n - length success) true.

Definition bind_all (addrs : list Address) (success : list bool) : comp TcpServer (bool * list bool) :=
  let! success := bind_loop addrs (resize (length addrs) success) in
  ret (forallb id success, success).

Definition bind (addr : Address) : comp TcpServer bool :=
  let! r := bind_all [addr] [] in ret (fst r).

Fixpoint schedule_accepts (socks : list nat) : comp TcpServer unit :=
  match socks with
  | [] => ret tt
  | sock :: socks => do! schedule (AcceptTask sock) in schedule_accepts socks
  end.

Definition start : comp TcpServer bool :=
  let! stop := get m_isStop in
  if negb stop then ret true else
  do! modify (set_m_isStop false) in
  let! socks := get m_socks in
  do! schedule_accepts socks in
  ret true.

Definition stop : comp TcpServer bool :=
  do! modify (set_m_isStop true) in
  do! schedule CloseTask in
  ret true.

(** The task of [stop]. *)
Fixpoint close_socks (socks : list nat) : comp TcpServer unit :=
  match socks with
  | [] => ret tt
  | sock :: socks =>
      let! _ := on_sock sock cancelAll in
      let! _ := on_sock sock close in
      close_socks socks
  end.

Definition close_all : comp TcpServer unit :=
  let! socks := get m_socks in
  do! close_socks socks in
  modify (set_m_socks []).

Fixpoint dtor_loop (socks : list nat) : comp TcpServer unit :=
  match socks with
  | [] => ret tt
  | sock :: socks => let! _ := on_sock sock close in dtor_loop socks
  end.

Definition TcpServer_dtor : comp TcpServer unit :=
  let! socks := get m_socks in
  do! dtor_loop socks in
  modify (set_m_socks []).

(** The [shared_ptr] in the task is the last one to the client: the socket is
    destroyed, and closed, at its end. *)
Definition client_task (handle : nat -> comp TcpServer unit) (client : nat) : comp TcpServer unit :=
  do! handle client in
  let! _ := on_sock client close in
  ret tt.

End TcpServer.

Arguments TcpServer N : clear implicits.

(** ** Servlets *)

Section servlets.
Context {L : Type} `{PosixLock L} {S : Type}.

(** A handler of requests works on the response and the session. *)
Definition handler : Type := HttpRequest -> comp (Response.HttpResponse * S) Z.

Inductive Servlet : Type :=
  | FunctionServlet (m_callback : handler)
  | OtherServlet (handle : handler).

Definition Servlet_handle (s : Servlet) : handler :=
  match s with FunctionServlet m_callback => m_callback | OtherServlet handle => handle end.

Record ServletDispatcher : Type := mkDispatcher {
  m_exact : gmap string Servlet;
  m_fuzzy : list (string * Servlet);
  m_mutex : L
}.

Definition set_m_exact (v : gmap string Servlet) (d : ServletDispatcher) : ServletDispatcher := mkDispatcher v (m_fuzzy d) (m_mutex d).
Definition set_m_mutex (v : L) (d : ServletDispatcher) : ServletDispatcher := mkDispatcher (m_exact d) (m_fuzzy d) v.

Definition ServletDispatcher_ctor : ServletDispatcher := mkDispatcher ∅ [] pl_init.

Definition write_locked {A} (body : comp ServletDispatcher A) : comp ServletDispatcher A :=
  with_lock m_mutex set_m_mutex WriteScoped body.

(** With [fuzzy] nothing is done. *)
Definition addServlet (uri : string) (servlet : Servlet) (fuzzy : bool) : comp ServletDispatcher unit :=
  write_locked (if negb fuzzy then modify (fun d => set_m_exact (<[uri := servlet]> (m_exact d)) d) else ret tt).

Definition addServlet_callback (uri : string) (callback : handler) (fuzzy : bool) : comp ServletDispatcher unit :=
  write_locked (if negb fuzzy then modify (fun d => set_m_exact (<[uri := FunctionServlet callback]> (m_exact d)) d) else ret tt).

Definition delServlet (uri : string) (fuzzy : bool) : comp ServletDispatcher unit :=
  write_locked (if negb fuzzy then modify (fun d => set_m_exact (delete uri (m_exact d)) d) else ret tt).

Definition getServlet (uri : string) (fuzzy : bool) : comp ServletDispatcher (list Servlet) := ret [].

(** Always the null pointer. *)
Definition findServlet (uri : string) (d : ServletDispatcher) : option Servlet := None.

Definition getExactServlet (uri : string) (d : ServletDispatcher) : gmap string Servlet := m_exact d.
Definition getFuzzyServlet (uri : string) (d : ServletDispatcher) : list (string * Servlet) := m_fuzzy d.

Definition ServletDispatcher_handle (d : ServletDispatcher) (req : HttpRequest) : comp (Response.HttpResponse * S) Z :=
  match findServlet (m_path req) d with
  | Some servlet => let! _ := Servlet_handle servlet req in ret 0%Z
  | None => fail UB
  end.
End servlets.

(** ** [HttpServer] *)

Section HttpServer.
Context {S : Type} `{Stream S}.

Record HttpServer (D : Type) : Type := mkHttpServer { m_isKeepAlive : bool; m_servletDispatcher : D }.
Arguments mkHttpServer {D}.
Arguments m_isKeepAlive {D} _.
Arguments m_servletDispatcher {D} _.

(** [HttpServer(keepAlive)] and [setServletDispatcher]. *)
Definition HttpServer_ctor {D} (keepAlive : bool) (d : D) : HttpServer D := mkHttpServer keepAlive d.
Definition setServletDispatcher {D} (d : D) (s : HttpServer D) : HttpServer D := mkHttpServer (m_isKeepAlive s) d.

Definition response_to {D} (server : HttpServer D) (request : HttpRequest) : Response.HttpResponse :=
  Response.setBody "http response from cll"
    (Response.HttpResponse_ctor (m_version request) (m_close request && negb (m_isKeepAlive server))).

(** The loop of [handleClient] on the session of the client; every request takes
    at least one byte from it. *)
Fixpoint http_handleClient {D} (fuel : nat) (server : HttpServer D) : comp S unit :=
  match fuel with
  | O => fail Diverge
  | Datatypes.S fuel =>
      let! request := recvRequest in
      match request with
      | None => ret tt
      | Some request =>
          let! _ := sendResponse (response_to server request) in
          if m_isKeepAlive server then http_handleClient fuel server else ret tt
      end
  end.
(** [HttpServer::bind] logs the mode and calls the one of [TcpServer]. *)
Definition HttpServer_bind {N} `{Net N} {D} (server : HttpServer D) (addr : Address) : comp (TcpServer N) bool := bind addr.
End HttpServer.
Arguments mkHttpServer {D}.
Arguments m_isKeepAlive {D} _.
Arguments m_servletDispatcher {D} _.

(** [HttpServer::handleClient] on a client of the server: its session is a stream
    on the socket. *)
Definition handle_http {N} `{Net N} {D} (junk : Z) (fuel : nat) (server : HttpServer D) (client : nat) : comp (TcpServer N) unit :=
  on_sock client (fun sk =>
    match http_handleClient (H := SocketStream_Stream junk) fuel server (Some sk) with
    | (o, Some sk) => (o, sk)
    | (o, None) => (o, sk)
    end).
