(* ===== verification/ServerTheorems.v ===== *)
(** * ServerTheorems: what the servers do *)

From stdpp Require Import base list numbers gmap strings.
From Stdlib Require Import Ascii String.
From S2P Require Import Prelude Words ParserTables ParserState ParserSafety ParserTheorems Mutex Address ByteArray Socket Stream StreamTheorems Http HttpParser HttpParserTheorems Server.

Local Open Scope nat_scope.
#[local] Notation length := List.length.
#[local] Notation concat := List.concat.

(** ** The HTTP server *)

(** The only response there is, to a request of some version. *)
Definition answer (version : Z) : string :=
  version_text version ++ " 200 OK" ++ crlf ++ "Connection: keep-alive" ++ crlf ++ "content-length: 22" ++ crlf ++ crlf ++
  "http response from cll".

Lemma response_text {D} (server : HttpServer D) r : m_close r = false ->
  Response.HttpResponse_dump (response_to server r) EmptyString = (Ok tt, answer (m_version r)).
Proof.
  intros Hc. unfold response_to. rewrite Hc. cbn [andb]. unfold Response.HttpResponse_dump, emit.
  cbn -[version_text append]. unfold modify. f_equal. rewrite !append_assoc3. reflexivity.
Qed.

(** ** Answering *)

Lemma answer_short v : (0 <= v < 256)%Z -> (Z.of_nat (length (chars (answer v))) < 2 ^ 31)%Z.
Proof.
  intros Hv. assert (forallb (fun n => length (chars (answer (Z.of_nat n))) <? 100) (seq 0 256) = true) as Hall by (vm_compute; reflexivity).
  apply (below_forallb _ 256 (Z.to_nat v)) in Hall; [|lia]. cbv beta in Hall. rewrite Z2Nat.id in Hall by lia.
  apply Nat.ltb_lt in Hall. lia.
Qed.

(** What a session needs on top of [StreamLaws]: the two directions do not
    interfere, and closing returns. *)
Class DuplexLaws (S : Type) `{Stream S} (sent incoming : S -> list Z) : Prop := {
  read_keeps_sent n s : sent (snd (s_read n s)) = sent s;
  write_keeps_incoming bs s : incoming (snd (s_write bs s)) = incoming s;
  close_keeps s : exists v s', s_close s = (Ok v, s') /\ sent s' = sent s
}.

Section answers.
Context {S : Type} `{St : Stream S} {sent incoming : S -> list Z} {Hstream : StreamLaws S sent incoming}
  {Hduplex : DuplexLaws S sent incoming} {D : Type}.

Lemma recv_loop_sent fuel : forall got p s r s', recv_loop fuel got p s = (Ok r, s') -> sent s' = sent s.
Proof using Hduplex.
  induction fuel as [|fuel IH]; intros got p s r s'; cbn [recv_loop]; (destruct (finished p); [by intros [= _ <-]|]); [done|].
  assert (forall s1, (let! _ := s_close in ret (None : option HttpRequest)) s1 = (Ok r, s') -> sent s' = sent s1) as Hcl.
  { intros s1 Hrun. destruct (close_keeps s1) as (v & s2 & Hc & Hs). rewrite (bind_Ok _ _ _ _ _ Hc) in Hrun. by injection Hrun as _ <-. }
  intros Hrun. apply bind_Ok_inv in Hrun as (rd & s1 & Hr & Hrun).
  pose proof (read_keeps_sent (buffSize - length got) s) as Hs1. rewrite Hr in Hs1. cbn [snd] in Hs1.
  destruct (fst rd <=? 0)%Z; [rewrite <- Hs1; by apply Hcl|].
  destruct (execute _ p) as [[n| | | | |] p']; try done.
  destruct (_ || _); [rewrite <- Hs1; by apply Hcl|]. rewrite <- Hs1. by eapply IH.
Qed.

(** A round: a request that was read, with what it took from the client, or the end. *)
Lemma recvRequest_round s : exists r s', recvRequest s = (Ok r, s') /\ sent s' = sent s /\
  match r with Some req => request_ok req /\ length (incoming s') < length (incoming s) | None => True end.
Proof using Hduplex Hstream.
  destruct (recv_loop_spec (sent := sent) (incoming := incoming) ltac:(intros s0; destruct (close_keeps s0) as (v & s1 & Hc & _); by exists v, s1)
    (Datatypes.S buffSize) [] HttpRequestParser_ctor s) as (r & s' & chunks & s1 & Hrun & Hreads & _ & Hin & _ & Hend);
    [apply init_ok|cbn [List.length]; lia..|].
  exists r, s'. split; [done|]. split; [by eapply recv_loop_sent|].
  destruct Hend as [(Hfin & -> & ->)|[(_ & -> & _)|(_ & -> & _)]]; [|done..].
  split; [by apply fed_ok|]. rewrite Hin, length_app. destruct Hreads as [n s|n s c s1 chunks s2 _ Hc _]; [by cbn in Hfin|].
  cbn [List.concat]. rewrite length_app. destruct c; [done|]. cbn [List.length]. lia.
Qed.

Lemma writeFixSize_incoming bs s r s' : writeFixSize bs s = (Ok r, s') -> incoming s' = incoming s.
Proof using Hduplex.
  unfold writeFixSize. destruct (_ <=? _); [by intros [= _ <-]|]. generalize (length bs) at 1. intros fuel. generalize 0 as off.
  revert s. induction fuel as [|fuel IH]; intros s off; cbn [writeFixSize_loop]; (destruct (off <? length bs); [|by intros [= _ <-]]); [done|].
  intros Hrun. apply bind_Ok_inv in Hrun as (rt & s1 & Hw & Hrun).
  pose proof (write_keeps_incoming (drop off bs) s) as Hs1. rewrite Hw in Hs1. cbn [snd] in Hs1. rewrite <- Hs1.
  destruct (rt <=? 0)%Z; [by injection Hrun as _ <-|by eapply IH].
Qed.

(** How much of an answer goes out: all of it, or less when the client takes no more. *)
Definition goes_out (bs : list Z) (rt : Z) (k : nat) : Prop :=
  (rt = Z.of_nat (length bs) /\ k = length bs) \/ ((rt <= 0)%Z /\ k < length bs).

(** A dialogue: the requests that are read from the client, in order, each with what
    goes out of the answer to it before the next one is read.  A connection that is
    not kept alive ends after one request, the others when there is none. *)
Inductive dialogue (keepAlive : bool) : S -> list (HttpRequest * nat) -> S -> Prop :=
  | dialogue_end s s' : recvRequest s = (Ok None, s') -> dialogue keepAlive s [] s'
  | dialogue_last s req s1 rt k s2 :
      recvRequest s = (Ok (Some req), s1) ->
      writeFixSize (chars (answer (m_version req))) s1 = (Ok rt, s2) ->
      goes_out (chars (answer (m_version req))) rt k ->
      keepAlive = false -> dialogue keepAlive s [(req, k)] s2
  | dialogue_next s req s1 rt k s2 rest s' :
      recvRequest s = (Ok (Some req), s1) ->
      writeFixSize (chars (answer (m_version req))) s1 = (Ok rt, s2) ->
      goes_out (chars (answer (m_version req))) rt k ->
      keepAlive = true -> dialogue keepAlive s2 rest s' -> dialogue keepAlive s ((req, k) :: rest) s'.

(** What has gone out after a dialogue. *)
Definition answered (answers : list (HttpRequest * nat)) : list Z :=
  concat (map (fun a => take (snd a) (chars (answer (m_version (fst a))))) answers).

(** A response goes out, up to where the client takes it. *)
Lemma sendResponse_answers (server : HttpServer D) r s : request_ok r ->
  exists rt k s', sendResponse (response_to server r) s = (Ok rt, s') /\
    writeFixSize (chars (answer (m_version r))) s = (Ok rt, s') /\ goes_out (chars (answer (m_version r))) rt k /\
    incoming s' = incoming s /\ sent s' = (sent s ++ take k (chars (answer (m_version r))))%list.
Proof using Hduplex Hstream.
  intros [Hc Hv]. unfold sendResponse. rewrite response_text by done.
  destruct (fixsize_transfers_write (sent := sent) (incoming := incoming) (chars (answer (m_version r))) s (answer_short _ Hv))
    as (rt & s' & k & Hrun & Hs & Hk).
  exists rt, k, s'. split_and!; [done|done|done|by eapply writeFixSize_incoming|done].
Qed.

(** C19: (termination) [HttpServer::handleClient] returns on any client that sends
    finitely many bytes, after a dialogue with it: it reads a request, sends the answer
    to this request, and reads the next one only then, until no request comes or, when
    the server is not keep-alive, after the first.  Nothing else is sent.  The answer
    is always the same text with the version of the request, whatever the request asks
    for and whatever servlets are registered, and always announces keep-alive, also
    when the server is not keep-alive; it goes out whole unless the client stops taking
    bytes, and even then the next request is read. *)
Theorem handleClient_answers (server : HttpServer D) fuel s : length (incoming s) < fuel ->
  exists s' answers, http_handleClient fuel server s = (Ok tt, s') /\
    dialogue (m_isKeepAlive server) s answers s' /\
    sent s' = (sent s ++ answered answers)%list /\
    length answers <= length (incoming s).
Proof using Hduplex Hstream.
  revert s. induction fuel as [|fuel IH]; intros s Hf; [lia|]. cbn [http_handleClient].
  destruct (recvRequest_round s) as (r & s1 & Hrun & Hs1 & Hr). rewrite (bind_Ok _ _ _ _ _ Hrun).
  destruct r as [req|]; [|exists s1, []; cbn; rewrite app_nil_r; split_and!; try done; [by constructor|lia]].
  destruct Hr as [Hok Hlt]. destruct (sendResponse_answers server req s1 Hok) as (rt & k & s2 & Hsend & Hw & Hk & Hin & Hs2).
  rewrite (bind_Ok _ _ _ _ _ Hsend). destruct (m_isKeepAlive server) eqn:Hkeep.
  - destruct (IH s2) as (s' & answers & Hrun' & Hd & Hs' & Hl); [rewrite Hin; lia|].
    exists s', ((req, k) :: answers). rewrite Hs', Hs2, Hs1, <- app_assoc. cbn. rewrite Hin in Hl.
    split_and!; [done|by eapply dialogue_next|done|lia].
  - exists s2, [(req, k)]. rewrite Hs2, Hs1. unfold answered. cbn. rewrite app_nil_r. split_and!; [done|by eapply dialogue_last|done|lia].
Qed.
End answers.

(** ** The TCP server *)

Section tcp.
Context {N : Type} `{Net N}.
Implicit Types s : TcpServer N.

(** What the methods of a socket, and the handlers of clients, leave alone. *)
Record framed s s' : Prop := {
  fr_socks : m_socks s' = m_socks s;
  fr_heap : length (heap s') = length (heap s);
  fr_scheduled : scheduled s' = scheduled s;
  fr_isStop : m_isStop s' = m_isStop s
}.

#[global] Instance framed_preorder : PreOrder framed.
Proof. split; [by split|]. intros s1 s2 s3 [] []. split; congruence. Qed.

Lemma on_sock_framed {A} ptr (m : comp (Socket N) A) s o s' : on_sock ptr m s = (o, s') -> framed s s'.
Proof.
  unfold on_sock. destruct (heap s !! ptr) as [sk|]; [|by intros [= _ <-]].
  destruct (m _) as [? sk']. intros [= _ <-]. split; cbn; try done. by rewrite list.length_insert.
Qed.

Lemma schedule_accepts_appends socks s :
  schedule_accepts socks s = (Ok tt, set_scheduled (scheduled s ++ map AcceptTask socks) s).
Proof.
  revert s. induction socks as [|sock socks IH]; intros s; cbn [schedule_accepts]; [by destruct s; cbn; rewrite app_nil_r|].
  unfold schedule. rewrite bind_modify, IH. destruct s. cbn. by rewrite <- app_assoc.
Qed.

(** *** Binding *)

(** What the code relies on: the calls return; nothing is accepted from no descriptor. *)
Class NetReturns : Prop := {
  socket_returns f t p n : exists fd n', sys_socket f t p n = (Ok fd, n');
  setsockopt_returns fd l o v n : exists rt n', sys_setsockopt fd l o v n = (Ok rt, n');
  bind_returns fd a n : exists rt n', sys_bind fd a n = (Ok rt, n');
  listen_returns fd b n : exists rt n', sys_listen fd b n = (Ok rt, n');
  close_returns fd n : exists rt n', sys_close fd n = (Ok rt, n');
  cancelAll_returns fd n : exists rt n', iom_cancelAll fd n = (Ok rt, n');
  accept_nothing n : exists n', sys_accept (-1) n = (Ok (-1)%Z, n');
  accept_returns fd n : exists rt n', sys_accept fd n = (Ok rt, n');
  fd_get_returns fd n : exists c n', fd_get fd n = (Ok c, n');
  getsockname_returns fd a n : exists r n', sys_getsockname fd a n = (Ok r, n');
  getpeername_returns fd a n : exists r n', sys_getpeername fd a n = (Ok r, n')
}.

Lemma wp_sys {A} (m : comp N A) Q (sk : Socket N) : (exists a n', m (net sk) = (Ok a, n')) ->
  (forall a n', m (net sk) = (Ok a, n') -> Q a (Socket.set_net n' sk)) -> wp (sys m) Q sk.
Proof.
  intros (a & n' & Hm) HQ. exists a, (Socket.set_net n' sk). unfold sys. split; [by apply lift_Ok|by apply HQ].
Qed.

(** What the system is asked for, one call after the other: a socket for [addr] with
    its options, bound to it; ... *)
Definition bind_on (addr : Address) : comp N (Z * bool) :=
  let! fd := sys_socket (getFamily addr) SOCK_STREAM 0 in
  if (fd =? -1)%Z then ret (fd, false) else
  let! _ := sys_setsockopt fd SOL_SOCKET SO_REUSEADDR (le_bytes 4 1) in
  let! _ := sys_setsockopt fd IPPROTO_TCP TCP_NODELAY (le_bytes 4 1) in
  let! rt := sys_bind fd addr in
  ret (fd, (rt =? 0)%Z).

Definition close_on (fd : Z) : comp N unit :=
  if (fd =? -1)%Z then ret tt else let! _ := sys_close fd in ret tt.

(** ... the descriptor on which it listens then, or none, closed; ... *)
Definition listen_on (addr : Address) : comp N (option Z) :=
  let! r := bind_on addr in
  let! listens := (if snd r then let! rt := sys_listen (fst r) SOMAXCONN in ret (rt =? 0)%Z else ret false) in
  if listens then ret (Some (fst r)) else do! close_on (fst r) in ret None.

(** ... and this for each address. *)
Fixpoint listen_all (addrs : list Address) : comp N (list (option Z)) :=
  match addrs with
  | [] => ret []
  | addr :: addrs => let! fd := listen_on addr in let! fds := listen_all addrs in ret (fd :: fds)
  end.

Section returns.
Context {Hnet : NetReturns}.

Lemma wp_setOption l o v Q (sk : Socket N) :
  (forall rt n', sys_setsockopt (m_sock sk) l o v (net sk) = (Ok rt, n') -> Q (rt =? 0)%Z (Socket.set_net n' sk)) -> wp (setOption l o v) Q sk.
Proof using Hnet.
  intros HQ. unfold setOption. apply wp_bind, wp_get, wp_bind, wp_sys; [apply setsockopt_returns|]. intros rt n' Hrun. by apply wp_ret, HQ.
Qed.

(** [bind] of a new socket, call by call: it has the address, and a descriptor when it
    succeeds. *)
Lemma socket_bind addr n : wp (Socket.bind addr) (fun ok sk' =>
  bind_on addr n = (Ok (m_sock sk', ok), net sk') /\ m_localAddress sk' = Some addr /\ (ok = true -> m_sock sk' <> (-1)%Z)) (CreateTCP addr n).
Proof using Hnet.
  unfold Socket.bind. apply wp_bind, wp_modify, wp_bind. unfold ensure_socket, isValid.
  apply wp_bind, wp_get. cbn [m_sock set_m_localAddress CreateTCP Socket_ctor Z.eqb Pos.eqb negb].
  apply wp_bind, wp_get, wp_bind, wp_get, wp_bind, wp_get, wp_bind, wp_sys; [apply socket_returns|]. intros fd n0 H0.
  apply wp_bind, wp_modify. destruct (Z.eqb_spec fd (-1)) as [->|Hnz].
  { apply wp_ret, wp_ret. split_and!; try done. unfold bind_on. by rewrite (bind_Ok _ _ _ _ _ H0). }
  apply Z.eqb_neq in Hnz as Hfd. apply wp_bind. unfold init. apply wp_bind, wp_setOption. intros b1 n1 H1. apply wp_bind, wp_get.
  cbn [m_type set_m_sock Socket.set_net set_m_localAddress CreateTCP Socket_ctor]. rewrite Z.eqb_refl.
  apply wp_bind, wp_setOption. intros b2 n2 H2. apply wp_ret, wp_get. cbn. rewrite Hfd. cbn.
  apply wp_bind, wp_get. cbn. rewrite Z.eqb_refl. cbn. apply wp_bind, wp_get, wp_bind, wp_sys; [apply bind_returns|].
  intros rt n3 H3. cbn in H0, H1, H2, H3. assert (bind_on addr n = (Ok (fd, (rt =? 0)%Z), n3)) as Hon.
  { unfold bind_on. by rewrite (bind_Ok _ _ _ _ _ H0), Hfd, (bind_Ok _ _ _ _ _ H1), (bind_Ok _ _ _ _ _ H2), (bind_Ok _ _ _ _ _ H3). }
  destruct (rt =? 0)%Z; [|by apply wp_ret]. by apply wp_bind, wp_bind, wp_get, wp_ret, wp_ret.
Qed.

Lemma socket_close (sk : Socket N) : wp close (fun _ sk' =>
  m_sock sk' = (-1)%Z /\ m_localAddress sk' = m_localAddress sk /\ close_on (m_sock sk) (net sk) = (Ok tt, net sk')) sk.
Proof using Hnet.
  unfold close, close_on. apply wp_bind, wp_get, wp_bind, wp_get. destruct (Z.eqb_spec (m_sock sk) (-1)) as [E|E]; cbn [negb].
  - rewrite andb_true_r. destruct (negb _); [by apply wp_ret|]. by apply wp_bind, wp_modify, wp_bind, wp_ret, wp_ret.
  - rewrite andb_false_r. apply wp_bind, wp_modify, wp_bind, wp_bind, wp_sys; [apply close_returns|]. intros rt n' Hrun.
    apply wp_modify, wp_ret. split_and!; [done..|]. by rewrite (bind_Ok _ _ _ _ _ Hrun).
Qed.

Lemma wp_on_sock {A} ptr (m : comp (Socket N) A) sk Q s : heap s !! ptr = Some sk ->
  wp m (fun a sk' => Q a (set_snet (net sk') (set_heap (<[ptr := sk']> (heap s)) s))) (Socket.set_net (snet s) sk) ->
  wp (on_sock ptr m) Q s.
Proof. intros Hp (a & sk' & Hm & HQ). eexists a, _. unfold on_sock. rewrite Hp, Hm. by split. Qed.

Lemma lookup_last {A} (l : list A) x : (l ++ [x]) !! length l = Some x.
Proof. by apply list_lookup_middle. Qed.
Lemma insert_last {A} (l : list A) x y : <[length l := y]> (l ++ [x]) = l ++ [y].
Proof. by rewrite insert_app_r_alt, Nat.sub_diag by lia. Qed.

(** The socket of an address holds the descriptor that listens, or none. *)
Definition opened (addr : Address) (fd : option Z) (sk : Socket N) : Prop :=
  m_localAddress sk = Some addr /\ m_sock sk = default (-1)%Z fd /\ fd <> Some (-1)%Z.

Lemma bind_one_returns addr s : wp (bind_one addr) (fun ok s' => exists fd sk,
  listen_on addr (snet s) = (Ok fd, snet s') /\ ok = bool_decide (is_Some fd) /\ opened addr fd sk /\
  heap s' = heap s ++ [sk] /\ m_socks s' = m_socks s ++ if ok then [length (heap s)] else []) s.
Proof using Hnet.
  unfold bind_one, new_sock. apply wp_bind, wp_get, wp_bind, wp_bind, wp_get, wp_bind, wp_modify, wp_ret.
  apply wp_bind. eapply wp_on_sock; [cbn; apply lookup_last|]. cbn [snet set_heap]. eapply wp_mono; [exact (socket_bind addr (snet s))|].
  intros b sk (Hon & Ha & Hb). cbn. rewrite insert_last. apply wp_bind.
  assert (forall n1 s1 sk1, listen_on addr (snet s) = (do! close_on (m_sock sk) in ret None) n1 -> s1 = set_snet n1 (set_heap (heap s ++ [sk1]) s) ->
    m_sock sk1 = m_sock sk -> m_localAddress sk1 = Some addr ->
    wp (let! _ := on_sock (length (heap s)) close in ret false) (fun ok s' => exists fd sk,
      listen_on addr (snet s) = (Ok fd, snet s') /\ ok = bool_decide (is_Some fd) /\ opened addr fd sk /\
      heap s' = heap s ++ [sk] /\ m_socks s' = m_socks s ++ if ok then [length (heap s)] else []) s1) as Hfail.
  { intros n1 s1 sk1 Hl -> Hs1 Ha1. apply wp_bind. eapply wp_on_sock; [cbn; apply lookup_last|]. eapply wp_mono; [apply socket_close|].
    cbn. intros _ sk' (H1 & H2 & Hc). rewrite insert_last. apply wp_ret. exists None, sk'. rewrite Hs1 in Hc. cbn.
    rewrite app_nil_r, Hl, (bind_Ok _ _ _ _ _ Hc). split_and!; try done. split_and!; [by rewrite H2|done..]. }
  destruct b.
  - specialize (Hb eq_refl). apply Z.eqb_neq in Hb as Hb'. eapply wp_on_sock; [cbn; apply lookup_last|]. unfold listen, isValid.
    apply wp_bind, wp_get. cbn. rewrite Hb'. cbn [negb]. apply wp_bind, wp_get, wp_bind, wp_sys; [apply listen_returns|].
    intros rt n' Hl. apply wp_ret. cbn. rewrite insert_last. cbn in Hl.
    assert (listen_on addr (snet s) = (if (rt =? 0)%Z then ret (Some (m_sock sk)) else do! close_on (m_sock sk) in ret None) n') as Hlisten.
    { unfold listen_on. rewrite (bind_Ok _ _ _ _ _ Hon). cbn [fst snd]. rewrite bind_assoc, (bind_Ok _ _ _ _ _ Hl), bind_ret_l. done. }
    destruct (rt =? 0)%Z; [|by eapply Hfail].
    apply wp_bind, wp_modify, wp_ret. exists (Some (m_sock sk)), (Socket.set_net n' sk). split_and!; try done. split_and!; [done..|]. by intros [= E].
  - apply wp_ret. eapply (Hfail (net sk)); [|reflexivity|done..]. unfold listen_on. by rewrite (bind_Ok _ _ _ _ _ Hon).
Qed.

(** The indices, from [i], of the addresses that are listened on. *)
Fixpoint listening (i : nat) (fds : list (option Z)) : list nat :=
  match fds with [] => [] | fd :: fds => (if fd then [i] else []) ++ listening (S i) fds end.

(** Whether an address is listened on. *)
Definition listened (fd : option Z) : bool := bool_decide (is_Some fd).

Lemma bind_loop_returns addrs success s : length success = length addrs ->
  wp (bind_loop addrs success) (fun r s' => exists fds sks,
    listen_all addrs (snet s) = (Ok fds, snet s') /\ r = zip_with andb (map listened fds) success /\
    Forall3 opened addrs fds sks /\ heap s' = heap s ++ sks /\ m_socks s' = m_socks s ++ listening (length (heap s)) fds) s.
Proof using Hnet.
  revert success s. induction addrs as [|a addrs IH]; intros [|b success] s [=]; cbn [bind_loop].
  - apply wp_ret. exists [], []. rewrite !app_nil_r. split_and!; try done. constructor.
  - apply wp_bind. eapply wp_mono; [apply bind_one_returns|]. intros ok s1 (fd & sk & Hon & Hfd & Hok & Hh & Hs).
    apply wp_bind. eapply wp_mono; [by apply IH|]. intros r s2 (fds & sks & Hall & -> & Hoks & Hh2 & Hs2). apply wp_ret.
    exists (fd :: fds), (sk :: sks). cbn [listen_all map zip_with listening]. rewrite (bind_Ok _ _ _ _ _ Hon), (bind_Ok _ _ _ _ _ Hall).
    rewrite Hh2, Hs2, Hh, Hs, Hfd, <- !app_assoc, length_app, Nat.add_1_r. unfold listened at 1.
    split_and!; [done|by destruct fd| |done|by destruct fd]. by constructor.
Qed.

(** C25: (error) [bind] of several addresses returns for all of them, and asks the system
    for exactly this: for each address in turn a socket of its family, its two options,
    [bind] and [listen], and to close the descriptor when one of the two fails; an address that fails does not
    stop the others.  The addresses that are listened on, and no others, are added to
    the server's sockets, in order, each with its descriptor.  [success] ends up true
    where the address is listened on and the caller did not have a [false] there: the
    vector is resized, not reset, so a stale entry makes an address that is
    listened on a failure, and [bind] return false. *)
Theorem bind_all_reports addrs success s : exists fds sks s',
  let success' := zip_with andb (map listened fds) (resize (length addrs) success) in
  bind_all addrs success s = (Ok (forallb id success', success'), s') /\
  listen_all addrs (snet s) = (Ok fds, snet s') /\
  Forall3 opened addrs fds sks /\ heap s' = heap s ++ sks /\
  m_socks s' = m_socks s ++ listening (length (heap s)) fds.
Proof using Hnet.
  unfold bind_all. destruct (bind_loop_returns addrs (resize (length addrs) success) s) as (r & s' & Hrun & fds & sks & Hall & -> & Hrest).
  { unfold resize. rewrite length_app, length_take, length_replicate. lia. }
  exists fds, sks, s'. split; [by rewrite (bind_Ok _ _ _ _ _ Hrun)|by split].
Qed.

(** *** Accepting *)

(** [k] rounds of an accept loop, or less when it leaves. *)
Fixpoint rounds (k : nat) (p : nat) : comp (TcpServer N) bool :=
  match k with
  | O => ret true
  | S k => let! go := accept_round p in if go then rounds k p else ret false
  end.

(** What a round asks the system for, on a listening socket of some family and type: to
    make a socket of a descriptor, its options and its two addresses, when it is an open
    socket; ... *)
Definition adopt_on (c family type : Z) : comp N bool :=
  let! i := fd_get c in
  if negb (from_option fi_open_socket false i) then ret false else
  let! _ := sys_setsockopt c SOL_SOCKET SO_REUSEADDR (le_bytes 4 1) in
  do! (if (type =? SOCK_STREAM)%Z then let! _ := sys_setsockopt c IPPROTO_TCP TCP_NODELAY (le_bytes 4 1) in ret tt else ret tt) in
  let! _ := sys_getsockname c (default_address family) in
  let! _ := sys_getpeername c (default_address family) in
  ret true.

(** ... a client, and a receive timeout of two minutes for it. *)
Definition connection_on (fd family type : Z) : comp N (option Z) :=
  let! c := sys_accept fd in
  if (c =? -1)%Z then ret None else
  let! b := adopt_on c family type in ret (if b then Some c else None).

Definition accept_on (fd family type : Z) : comp N (option Z) :=
  let! r := connection_on fd family type in
  match r with
  | Some c => let! _ := sys_setsockopt c SOL_SOCKET SO_RCVTIMEO (timeval_bytes 120000) in ret (Some c)
  | None => ret None
  end.

Fixpoint accept_all (k : nat) (fd family type : Z) : comp N (list Z) :=
  match k with
  | O => ret []
  | S k => let! c := accept_on fd family type in
           let! cs := accept_all k fd family type in ret (option_list c ++ cs)
  end.

(** The socket of a client. *)
Definition client_of (sk : Socket N) (fd : Z) (c : Socket N) : Prop :=
  m_sock c = fd /\ fd <> (-1)%Z /\ m_isConnected c = true /\ m_family c = m_family sk /\ m_type c = m_type sk.

Lemma wp_resolve cached store ask Q (sk : Socket N) : cached sk = None -> m_family sk <> AF_UNIX ->
  (exists r n', ask (m_sock sk) (default_address (m_family sk)) (net sk) = (Ok r, n')) ->
  (forall r n' a v, ask (m_sock sk) (default_address (m_family sk)) (net sk) = (Ok r, n') ->
     Q a (Socket.set_net n' sk) /\ Q a (store (Some v) (Socket.set_net n' sk))) ->
  wp (resolve_address cached store ask) Q sk.
Proof.
  intros Hn Hf Hr HQ. unfold resolve_address. apply wp_bind, wp_get. rewrite Hn. apply wp_bind, wp_get, wp_bind, wp_get, wp_bind, wp_sys; [done|].
  intros [[rt res] l] n' Hask. destruct (HQ _ _ (if (rt =? 0)%Z then res else UnknownAddress_ctor (m_family sk)) res Hask) as [HQ1 HQ2].
  destruct (rt =? 0)%Z; cbn [negb]; [|by apply wp_ret].
  rewrite (proj2 (Z.eqb_neq _ _) Hf). by apply wp_bind, wp_ret, wp_bind, wp_modify, wp_ret.
Qed.

Lemma init_fd_adopts c f ty pr n : f <> AF_UNIX -> wp (init_fd c) (fun b cl =>
  adopt_on c f ty n = (Ok b, net cl) /\
  (b = true -> m_sock cl = c /\ m_isConnected cl = true /\ m_family cl = f /\ m_type cl = ty)) (Socket_ctor f ty pr n).
Proof using Hnet.
  intros Hf. unfold init_fd. apply wp_bind, wp_sys; [apply fd_get_returns|]. intros i n0 H0. cbn -[le_bytes] in H0.
  destruct i as [i|]; [|apply wp_ret; split; [by unfold adopt_on; rewrite (bind_Ok _ _ _ _ _ H0)|done]].
  destruct (fi_open_socket i) eqn:Hi; [|apply wp_ret; split; [by unfold adopt_on; rewrite (bind_Ok _ _ _ _ _ H0); cbn -[le_bytes]; rewrite Hi|done]].
  apply wp_bind, wp_modify, wp_bind, wp_modify, wp_bind. unfold init. apply wp_bind, wp_setOption. intros b1 n1 H1. cbn -[le_bytes] in H1.
  apply wp_bind, wp_get. cbn -[le_bytes].
  assert (forall n2, (if (ty =? SOCK_STREAM)%Z then let! _ := sys_setsockopt c IPPROTO_TCP TCP_NODELAY (le_bytes 4 1) in ret tt else ret tt) n1 = (Ok tt, n2) ->
    wp (let! _ := getLocalAddress in let! _ := getRemoteAddress in ret true) (fun b cl => adopt_on c f ty n = (Ok b, net cl) /\
      (b = true -> m_sock cl = c /\ m_isConnected cl = true /\ m_family cl = f /\ m_type cl = ty))
      (Socket.set_net n2 (set_m_isConnected true (set_m_sock c (Socket_ctor f ty pr n))))) as Hrest.
  { intros n2 H2. apply wp_bind. unfold getLocalAddress, getRemoteAddress. apply wp_resolve; [done..|apply getsockname_returns|].
    intros r3 n3 a v H3. cbn -[default_address] in H3. assert (forall sk, m_remoteAddress sk = None -> net sk = n3 -> m_sock sk = c -> m_isConnected sk = true -> m_family sk = f -> m_type sk = ty ->
      wp (let! _ := resolve_address m_remoteAddress set_m_remoteAddress sys_getpeername in ret true) (fun b cl => adopt_on c f ty n = (Ok b, net cl) /\
      (b = true -> m_sock cl = c /\ m_isConnected cl = true /\ m_family cl = f /\ m_type cl = ty)) sk) as Hpeer.
    { intros sk Hr Hs1 Hs2 Hs3 Hs4 Hs5. apply wp_bind, wp_resolve; [done|by rewrite Hs4|apply getpeername_returns|]. rewrite Hs1, Hs2, Hs4. intros r4 n4 a' v' H4.
      assert (adopt_on c f ty n = (Ok true, n4)) as Ha.
      { unfold adopt_on. by rewrite (bind_Ok _ _ _ _ _ H0); cbn -[le_bytes default_address]; rewrite Hi; cbn -[le_bytes default_address]; rewrite (bind_Ok _ _ _ _ _ H1), (bind_Ok _ _ _ _ _ H2), (bind_Ok _ _ _ _ _ H3), (bind_Ok _ _ _ _ _ H4). }
      split; by apply wp_ret. }
    split; by apply Hpeer. }
  destruct (ty =? SOCK_STREAM)%Z; [|by apply wp_ret, Hrest].
  apply wp_bind, wp_setOption. intros b2 n2 H2. cbn -[le_bytes] in H2. apply wp_ret, (Hrest n2). by rewrite (bind_Ok _ _ _ _ _ H2).
Qed.

Lemma accept_connects (sk : Socket N) : m_family sk <> AF_UNIX -> wp accept (fun r sk' =>
  sk' = Socket.set_net (net sk') sk /\
  connection_on (m_sock sk) (m_family sk) (m_type sk) (net sk) = (Ok (m_sock <$> r), net sk') /\
  match r with Some cl => client_of sk (m_sock cl) cl /\ net cl = net sk' | None => True end) sk.
Proof using Hnet.
  intros Hf. unfold accept. apply wp_bind, wp_get, wp_bind, wp_sys; [apply accept_returns|]. intros c n0 H0.
  unfold connection_on. rewrite (bind_Ok _ _ _ _ _ H0). destruct (Z.eqb_spec c (-1)) as [->|Hc]; [by apply wp_ret|].
  destruct (init_fd_adopts c (m_family sk) (m_type sk) (m_protocol sk) n0 Hf) as (b & cl & Hrun & Ha & Hcl).
  rewrite (bind_Ok _ _ _ _ _ Ha). unfold wp. cbn [m_family m_type m_protocol net Socket.set_net]. rewrite Hrun. destruct b.
  - destruct (Hcl eq_refl) as (<- & H2 & H3 & H4). eexists (Some cl), _. split; [done|]. by split_and!.
  - eexists None, _. by split_and!.
Qed.

Lemma accept_round_accepts p sk s : heap s !! p = Some sk -> m_family sk <> AF_UNIX -> m_isStop s = false ->
  wp (accept_round p) (fun b s' => b = true /\ exists c n' new,
    accept_on (m_sock sk) (m_family sk) (m_type sk) (snet s) = (Ok c, snet s') /\
    Forall2 (client_of sk) (option_list c) new /\
    heap s' = <[p := Socket.set_net n' sk]> (heap s) ++ new /\
    scheduled s' = scheduled s ++ map ClientTask (seq (length (heap s)) (length new)) /\
    m_isStop s' = false /\ m_socks s' = m_socks s) s.
Proof using Hnet.
  intros Hp Hf Hs. unfold accept_round. apply wp_bind, wp_get. rewrite Hs. apply wp_bind. eapply wp_on_sock; [done|].
  eapply wp_mono; [by apply accept_connects|]. cbn. intros r sk' (Hsk & Hon & Hr). unfold accept_on.
  change (sk' = Socket.set_net (net sk') sk) in Hsk.
  rewrite (bind_Ok _ _ _ _ _ Hon). destruct r as [cl|].
  - destruct Hr as [Hcl Hn]. unfold new_sock. apply wp_bind, wp_bind, wp_get, wp_bind, wp_modify, wp_ret, wp_bind. cbn -[setRecvTimeout].
    eapply wp_on_sock; [cbn; apply lookup_last|].
    unfold setRecvTimeout. apply wp_setOption. intros rt n1 Ht. cbn -[timeval_bytes] in Ht.
    rewrite (bind_Ok _ _ _ _ _ Ht). unfold schedule. apply wp_bind, wp_modify, wp_ret. split; [done|].
    exists (Some (m_sock cl)), (net sk'), [Socket.set_net n1 cl]. cbn. rewrite <- Hsk, insert_last, list.length_insert.
    split_and!; try done. by constructor.
  - apply wp_ret. split; [done|]. exists None, (net sk'), []. cbn. rewrite <- Hsk, !app_nil_r. by split_and!.
Qed.


(** *** Stopping and starting *)

Definition closed s p : Prop := exists sk, heap s !! p = Some sk /\ m_sock sk = (-1)%Z.

Lemma close_socks_closes socks s : (forall p, p ∈ socks -> p < length (heap s)) ->
  wp (close_socks socks) (fun _ s' => framed s s' /\ forall p, p ∈ socks \/ closed s p -> closed s' p) s.
Proof using Hnet.
  revert s. induction socks as [|sock socks IH]; intros s Hv; cbn [close_socks].
  - apply wp_ret. split; [done|]. by intros p [[]%not_elem_of_nil|Hp].
  - destruct (lookup_lt_is_Some_2 (heap s) sock) as [sk Hsk]; [apply Hv; set_solver|].
    apply wp_bind. eapply wp_on_sock; [done|]. apply wp_bind, wp_get, wp_bind, wp_sys; [apply cancelAll_returns|]. intros rt n1 _. apply wp_ret. cbn.
    apply wp_bind. eapply wp_on_sock; [cbn; by apply list_lookup_insert_eq, lookup_lt_is_Some; eexists|].
    eapply wp_mono; [apply socket_close|]. intros b sk' [Hc _]. cbn. rewrite list_insert_insert_eq.
    eapply wp_mono; [apply IH|].
    + intros p Hp. cbn. rewrite list.length_insert. apply Hv. set_solver.
    + intros _ s' [Hf Hcl]. split.
      * etrans; [|exact Hf]. split; cbn; try done. by rewrite list.length_insert.
      * intros p Hp. apply Hcl. destruct (decide (p ∈ socks)) as [|Hn]; [by left|right]. unfold closed. cbn.
        destruct (decide (p = sock)) as [->|Hne].
        -- exists sk'. split; [|done]. by apply list_lookup_insert_eq, lookup_lt_is_Some; eexists.
        -- rewrite list_lookup_insert_ne by done. destruct Hp as [Hp|Hp]; [set_solver|done].
Qed.

Lemma rounds_spin k p s : closed s p -> m_isStop s = false ->
  exists s', rounds k p s = (Ok true, s') /\ framed s s'.
Proof using Hnet.
  revert s. induction k as [|k IH]; intros s (sk & Hsk & Hfd) Hstop; cbn [rounds]; [by exists s|].
  assert (exists n', accept_round p s = (Ok true, set_snet n' (set_heap (<[p := Socket.set_net n' sk]> (heap s)) s))) as [n' Hround].
  { unfold accept_round. rewrite bind_get, Hstop. destruct (accept_nothing (snet s)) as [n' Ha]. exists n'.
    assert (accept (Socket.set_net (snet s) sk) = (Ok None, Socket.set_net n' sk)) as Hacc.
    { unfold accept. rewrite bind_get. cbn [m_sock Socket.set_net]. rewrite Hfd.
      erewrite bind_Ok; [|apply lift_Ok; exact Ha]. done. }
    unfold Prelude.bind, on_sock. by rewrite Hsk, Hacc. }
  rewrite (bind_Ok _ _ _ _ _ Hround). set (s1 := set_snet _ _).
  destruct (IH s1) as (s' & Hrun & Hf).
  - exists (Socket.set_net n' sk). split; [|done]. by apply list_lookup_insert_eq, lookup_lt_is_Some; eexists.
  - done.
  - exists s'. split; [done|]. etrans; [|exact Hf]. split; cbn; try done. by rewrite list.length_insert.
Qed.

(** (liveness) [stop] only schedules the closing of the sockets.  A server that is
    started again before the task runs has its accept loops scheduled, and then loses
    its sockets: it is running and listens on nothing, every accept loop runs on a
    closed descriptor and, as a failed [accept] only logs, never leaves and accepts
    nothing, however many rounds it makes. *)
Theorem restart_spins s : (forall p, p ∈ m_socks s -> p < length (heap s)) ->
  exists s', (let! _ := stop in let! _ := start in close_all) s = (Ok tt, s') /\
    m_isStop s' = false /\ m_socks s' = [] /\
    forall p, p ∈ m_socks s -> AcceptTask p ∈ scheduled s' /\
      forall k, exists s'', rounds k p s' = (Ok true, s'') /\ framed s' s''.
Proof using Hnet.
  intros Hv. unfold stop, start, schedule. rewrite bind_assoc, bind_modify, bind_assoc, bind_modify, bind_ret_l.
  rewrite bind_assoc, bind_get. cbn [m_isStop set_scheduled set_m_isStop negb].
  rewrite bind_assoc, bind_modify, bind_assoc, bind_get. rewrite bind_assoc.
  rewrite (bind_Ok _ _ _ _ _ (schedule_accepts_appends _ _)), bind_ret_l. unfold close_all. rewrite bind_get.
  set (s1 := set_scheduled (_ ++ map _ _) _).
  destruct (close_socks_closes (m_socks s1) s1 Hv) as ([] & s2 & Hrun & [_ _ Hsc Hst] & Hcl).
  rewrite (bind_Ok _ _ _ _ _ Hrun). eexists. split; [reflexivity|]. cbn. rewrite Hst, Hsc. split_and!; [done..|].
  intros p Hp. split.
  - cbn. apply elem_of_app. right. apply list_elem_of_fmap. by exists p.
  - intros k. apply rounds_spin; [by apply Hcl; left|done].
Qed.
End returns.
End tcp.

(** ** Servlets *)

Section servlets.
Context {L : Type} `{Hlaws : PosixLockLaws L} {S : Type}.
Implicit Types d : ServletDispatcher (L := L) (S := S).

Lemma write_locked_modify (f : ServletDispatcher -> ServletDispatcher) d :
  m_mutex d = pl_init -> (forall d, m_mutex (f d) = m_mutex d) -> (forall d v, f (set_m_mutex v d) = set_m_mutex v (f d)) ->
  write_locked (modify f) d = (Ok tt, f d).
Proof using Hlaws.
  intros Hd Hm Hf. unfold write_locked. erewrite with_lock_Ok; [|done|reflexivity|].
  - rewrite Hf. specialize (Hm d). destruct (f d), d. cbn in *. by rewrite Hm, Hd.
  - by rewrite Hm.
Qed.

(** (error) A servlet registered for an exact path is stored under it, replacing the
    one before, and can be deleted; with [fuzzy] set, both do nothing.  Nothing that
    is registered is ever found: [getServlet] is empty and [findServlet] null, so
    [ServletDispatcher::handle] dereferences a null pointer on every request. *)
Theorem dispatcher_never_dispatches d uri servlet callback : m_mutex d = pl_init ->
  (exists d', addServlet uri servlet false d = (Ok tt, d') /\ m_mutex d' = pl_init /\
     getExactServlet uri d' = <[uri := servlet]> (m_exact d) /\ getFuzzyServlet uri d' = m_fuzzy d) /\
  (exists d', addServlet_callback uri callback false d = (Ok tt, d') /\ m_mutex d' = pl_init /\
     m_exact d' = <[uri := FunctionServlet callback]> (m_exact d) /\ m_fuzzy d' = m_fuzzy d) /\
  (exists d', delServlet uri false d = (Ok tt, d') /\ m_mutex d' = pl_init /\
     m_exact d' = delete uri (m_exact d) /\ m_fuzzy d' = m_fuzzy d) /\
  addServlet uri servlet true d = (Ok tt, d) /\ addServlet_callback uri callback true d = (Ok tt, d) /\
  delServlet uri true d = (Ok tt, d) /\
  forall d' req rs, getServlet uri false d' = (Ok [], d') /\ fst (ServletDispatcher_handle d' req rs) = UB.
Proof using Hlaws.
  intros Hd. split_and!.
  1,2,3: eexists; split_and!; [by apply write_locked_modify|done..].
  1,2,3: unfold addServlet, addServlet_callback, delServlet; cbn [negb]; unfold write_locked;
    erewrite with_lock_Ok; [|done|reflexivity|done]; destruct d; cbn in *; by rewrite Hd.
  done.
Qed.
End servlets.

(** ** The handlers of clients, and witnesses *)

Section witnesses.

#[local] Existing Instance channel_Stream.
#[local] Existing Instance channel_laws.

#[local] Instance channel_duplex : DuplexLaws channel ch_sent ch_incoming.
Proof. split; [done..|]. intros s. by exists 0%Z, s. Qed.

(** Two requests for a server that is not keep-alive: one answer. *)
Lemma handleClient_answers_witness : exists s' answers,
  http_handleClient (S := channel) 100 (mkHttpServer false tt) (mkChannel [] (request_text ++ request_text)%list) = (Ok tt, s') /\
  dialogue false (mkChannel [] (request_text ++ request_text)%list) answers s'.
Proof.
  destruct (handleClient_answers (S := channel) (sent := ch_sent) (incoming := ch_incoming) (mkHttpServer false tt) 100
              (mkChannel [] (request_text ++ request_text)%list)) as (s' & answers & Hrun & Hd & _); [vm_compute; lia|].
  exists s', answers. split; [exact Hrun|exact Hd].
Defined.

(** A system that counts its descriptors; the second one cannot be bound. *)
#[local] Instance counting_net : Net Z := {|
  fd_get fd := ret (Some (mkFdInfo true UINT64_MAX UINT64_MAX));
  sys_socket f t p := fun n => (Ok n, (n + 1)%Z);
  sys_accept fd := ret (if (fd =? -1)%Z then -1 else 100)%Z;
  sys_bind fd a := ret (if (fd =? 4)%Z then -1 else 0)%Z;
  sys_connect fd a := ret 0%Z;
  sys_connectWithTimeout fd a t := ret 0%Z;
  sys_listen fd b := ret 0%Z;
  sys_close fd := ret 0%Z;
  sys_setsockopt fd l o v := ret 0%Z;
  sys_getsockopt fd l o := ret (0%Z, []);
  sys_getpeername fd a := ret (0%Z, a, 0);
  sys_getsockname fd a := ret (0%Z, a, 0);
  sys_send fd bs f := ret (-1)%Z;
  sys_sendto fd bs f a := ret (-1)%Z;
  sys_recv fd n f := ret (0%Z, []);
  sys_recvfrom fd n f a := ret (0%Z, [], a);
  iom_cancelEvent fd e := ret 0%Z;
  iom_cancelAll fd := ret 0%Z
|}.

#[local] Instance counting_returns : NetReturns (N := Z).
Proof. split; intros; eexists; try eexists; reflexivity. Qed.

Definition three_addresses : list Address :=
  map (fun p => IPv4Address (IPv4Address_ip INADDR_ANY p)) [8080; 8081; 8082]%Z.

Definition bound_server : TcpServer Z := Eval vm_compute in snd (bind_all three_addresses [] (TcpServer_ctor false 3%Z)).

(** The first is reported failed because of what the caller left in [success]. *)
Lemma bind_all_reports_witness : exists s' fds sks,
  bind_all three_addresses [false] (TcpServer_ctor false 3%Z) = (Ok (false, [false; false; true]), s') /\
  m_socks s' = [0; 2] /\ listen_all three_addresses 3%Z = (Ok fds, snet s') /\ Forall3 (opened (N := Z)) three_addresses fds sks.
Proof.
  destruct (bind_all_reports (N := Z) three_addresses [false] (TcpServer_ctor false 3%Z)) as (fds & sks & s' & Hrun & Hall & Hok & _ & _).
  assert (s' = snd (bind_all three_addresses [false] (TcpServer_ctor false 3%Z))) as -> by (by rewrite Hrun).
  eexists _, fds, sks. split; [vm_compute; reflexivity|]. split; [vm_compute; reflexivity|]. split; [exact Hall|exact Hok].
Defined.

Lemma restart_spins_witness : exists s', (let! _ := stop in let! _ := start in close_all) bound_server = (Ok tt, s') /\
  m_isStop s' = false /\ m_socks s' = [] /\ exists s'', rounds 1000 2 s' = (Ok true, s'').
Proof.
  destruct (restart_spins bound_server) as (s' & Hrun & Hst & Hs & Hsp).
  - intros p Hp. change (p ∈ [0; 2]) in Hp. change (p < 3). set_unfold. lia.
  - exists s'. split_and!; [exact Hrun|exact Hst|exact Hs|]. destruct (Hsp 2) as [_ Hk]; [cbn; set_solver|].
    destruct (Hk 1000) as (s'' & Hr & _). by exists s''.
Defined.


End witnesses.
