(* ===== verification/Echo.v ===== *)
(** * Echo: the echo server

    Models [examples/echoServer.cpp]: [EchoServer], a [TcpServer] whose
    [handleClient] receives into a [ByteArray] and sends back what it received.
    Its member [m_server] is not used, and the log lines are left out. *)

From stdpp Require Import base list numbers.
From S2P Require Import Prelude Words Address ByteArray Socket Stream Server.

Local Open Scope nat_scope.

Section Echo.
Context {N : Type} `{Net N} (junk : Z).

(** The bytes of [c_str()] that [strlen] counts. *)
Fixpoint c_string (bs : list Z) : list Z :=
  match bs with
  | [] => []
  | b :: bs => if (b =? 0)%Z then [] else b :: c_string bs
  end.

(** [1024 * 1024] *)
Definition recv_size : nat := Z.to_nat 1048576.

(** A client with the array of its loop. *)
Definition on_client {A} (m : comp (Socket N) A) : comp (Socket N * ByteArray) A := lift fst (fun s p => (s, snd p)) m.
Definition on_bytes {A} (m : comp ByteArray A) : comp (Socket N * ByteArray) A := lift snd (fun b p => (fst p, b)) m.

(** One round of the [while]: whether it goes on. *)
Definition echo_round (m_type : Z) : comp (Socket N * ByteArray) bool :=
  do! on_bytes clear in
  let! iovs := on_bytes (addWriteBuffers junk [] recv_size) in
  do! fail (front (snd iovs)) in
  let! got := on_client (recv (iov_total (snd iovs)) 0) in
  do! on_bytes (modify (fun b => set_m_nodes (iov_store (m_nodes b) (snd iovs) (snd got)) b)) in
  let rt := fst got in
  if (rt =? 0)%Z then ret false
  else if (rt <? 0)%Z then ret false
  else
    do! on_bytes (setPosition 0) in
    if (m_type =? 1)%Z then
      let! str := on_bytes toString in
      let! _ := on_client (send (c_string (take (Z.to_nat rt) str)) 0) in
      ret true
    else
      let! _ := on_bytes toHexString in
      ret true.

(** A round that goes on has received a byte at least. *)
Fixpoint echo_loop (fuel : nat) (m_type : Z) : comp (Socket N * ByteArray) unit :=
  match fuel with
  | O => fail Diverge
  | S fuel =>
      let! more := echo_round m_type in
      if more : bool then echo_loop fuel m_type else ret tt
  end.

(** [EchoServer::handleClient], on the socket of the client. *)
Definition echo_handleClient (fuel : nat) (m_type : Z) : comp (Socket N) unit := fun sk =>
  let '(o, (sk, _)) := echo_loop fuel m_type (sk, ByteArray_ctor junk 4096) in (o, sk).

Definition EchoServer_handleClient (fuel : nat) (m_type : Z) (client : nat) : comp (TcpServer N) unit :=
  on_sock client (echo_handleClient fuel m_type).
End Echo.
