(* ===== verification/EchoTheorems.v ===== *)
(** * EchoTheorems: what the echo server sends back

    Receiving into the scatter buffers of an array, and the rounds of the echo
    server. *)

From stdpp Require Import base list numbers sets.
From S2P Require Import Prelude Words Address Server ServerTheorems Socket Stream StreamTheorems Echo ByteArray ByteArraySpec BufferTheorems.

Local Open Scope nat_scope.

(** ** Receiving into an array *)

Lemma alter_lookup {A} (f : A -> A) i (l : list A) x : l !! i = Some x -> alter f i l = <[i := f x]> l.
Proof.
  intros Hi. apply list_eq. intros j. destruct (decide (i = j)) as [<-|Hij].
  - rewrite list_lookup_alter_eq, list_lookup_insert_eq, Hi; [done|]. by eapply lookup_lt_Some.
  - by rewrite list_lookup_alter_ne, list_lookup_insert_ne.
Qed.

(** Bytes stored through segments that tile a range are written to that range. *)
Lemma iov_store_tiles base segs : forall ns p len bs,
  Forall (block_ok base) ns -> p + len <= base * length ns -> tiles base p len segs -> length bs <= len ->
  let ns' := iov_store ns segs bs in
  Forall (block_ok base) ns' /\ length ns' = length ns /\ flat_nodes ns' = splice p bs (flat_nodes ns).
Proof.
  induction segs as [|v segs IH]; intros ns p len bs Hf Hfit Ht Hbs; simpl in Ht.
  - subst len. destruct bs; [|simpl in Hbs; lia]. by rewrite splice_nil.
  - destruct Ht as (Hp & Hin & Hl & Ht). destruct (ns !! iov_node v) as [n|] eqn:Hn.
    2:{ apply lookup_ge_None in Hn. nia. }
    cbn [iov_store]. set (here := take (iov_len v) bs).
    assert (length here = iov_len v `min` length bs) as Hh by (unfold here; rewrite length_take; lia).
    destruct (flat_nodes_write base ns (iov_node v) n (iov_off v) here Hf Hn ltac:(lia)) as (Hf1 & Hl1 & Hflat).
    rewrite (alter_lookup _ _ _ n) by done. set (ns1 := <[_ := _]> ns) in *.
    destruct (IH ns1 (p + iov_len v) (len - iov_len v) (drop (iov_len v) bs)) as (Hf2 & Hl2 & Hflat2);
      [done|lia|done|rewrite length_drop; lia|].
    split; [done|]. split; [lia|]. rewrite Hflat2, Hflat, Hp.
    destruct (decide (length bs <= iov_len v)).
    + rewrite drop_ge, splice_nil by done. unfold here. by rewrite take_ge.
    + replace (iov_len v) with (length here) at 1 by lia. rewrite splice_app.
      2:{ rewrite (length_flat_nodes base) by done. lia. }
      unfold here. by rewrite take_drop.
Qed.

Lemma tiles_total base segs : forall p len, tiles base p len segs -> iov_total segs = len.
Proof.
  induction segs as [|v segs IH]; intros p len Ht; simpl in Ht; [done|].
  destruct Ht as (_ & _ & Hl & Ht). apply IH in Ht. unfold iov_total in *. simpl. lia.
Qed.

(** An array with a single block, asked for more, has room to spare. *)
Lemma one_block_grows junk b len : wf b -> m_position b = 0 -> length (m_nodes b) = 1 -> m_baseSize b < len ->
  exists k, addCapacity junk len b = (Ok tt, grown junk b k) /\ len < m_capacity (grown junk b k).
Proof.
  intros Hwf Hp Hn Hlen. pose proof (wf_base b Hwf). pose proof (wf_cap b Hwf) as Hcap. rewrite Hn in Hcap.
  unfold addCapacity. destruct (Nat.eqb_spec len 0); [lia|]. rewrite bind_get. unfold getCapacity.
  destruct (Nat.leb_spec len (m_capacity b - m_position b)); [lia|]. rewrite !bind_get.
  destruct (Nat.eqb_spec (m_baseSize b) 0); [lia|]. rewrite bind_get. erewrite bind_Ok by apply add_nodes_spec.
  destruct (Nat.eqb_spec (m_capacity b - m_position b) 0); [lia|].
  pose proof (Nat.mod_upper_bound len (m_baseSize b) ltac:(lia)). pose proof (Nat.div_mod_eq len (m_baseSize b)).
  destruct (Nat.ltb_spec (m_capacity b - m_position b) (len mod m_baseSize b)); [lia|].
  eexists. split; [reflexivity|]. unfold grown. simpl. nia.
Qed.

(** A cleared array with its scatter buffers, and the bytes received into them. *)
Lemma receive_spec junk b len : wf b -> m_position b = 0 -> m_size b = 0 -> length (m_nodes b) = 1 -> m_baseSize b < len ->
  exists segs b1, addWriteBuffers junk [] len b = (Ok (len, segs), b1) /\ segs <> [] /\ iov_total segs = len /\
    forall bs, length bs <= len -> let b2 := set_m_nodes (iov_store (m_nodes b1) segs bs) b1 in
      wf b2 /\ m_position b2 = 0 /\ m_size b2 = len /\ m_baseSize b2 = m_baseSize b /\ len < m_capacity b2 /\
      take (length bs) (contents b2) = bs.
Proof.
  intros Hwf Hp Hs Hn Hlen. pose proof (wf_base b Hwf). pose proof (wf_cap b Hwf) as Hcap. rewrite Hn in Hcap.
  destruct (one_block_grows junk b len Hwf Hp Hn Hlen) as (k & Hadd & Hroom).
  destruct (addWriteBuffers_tiles junk b len Hwf ltac:(lia) ltac:(lia)) as (k' & Hadd' & _ & Hres).
  rewrite Hadd in Hadd'. injection Hadd' as Hk _. assert (k' = k) as ->.
  { nia. }
  rewrite Hp in Hres. simpl Nat.add in Hres. rewrite (proj2 (Nat.ltb_lt _ _) Hroom) in Hres.
  destruct Hres as (segs & Hrun & Ht). destruct (grown_wf junk b k Hwf ltac:(lia)) as (Hwf1 & _ & Hcap1).
  set (b1 := set_m_size _ _) in Hrun.
  exists segs, b1. split; [done|]. split; [intros ->; simpl in Ht; lia|]. split; [by eapply tiles_total|].
  intros bs Hbs. destruct (iov_store_tiles (m_baseSize b) segs (m_nodes (grown junk b k)) 0 len bs) as (Hf2 & Hl2 & Hflat2);
    [apply Hwf1|by rewrite <- Hcap1; lia|done|done|].
  cbv zeta. change (m_nodes b1) with (m_nodes (grown junk b k)). set (ns := iov_store _ _ _) in *.
  destruct Hwf1 as [_ _ Hr1 _ _ _ Hc1]. change (m_baseSize (grown junk b k)) with (m_baseSize b) in *.
  change (m_position (grown junk b k)) with (m_position b) in *. change (m_size (grown junk b k)) with (m_size b) in *.
  change (m_capacity b1) with (m_capacity (grown junk b k)) in *. change (m_curr b1) with (m_curr (grown junk b k)) in *.
  split_and!; try done.
  - constructor; cbn [m_baseSize m_nodes m_capacity m_position m_size m_curr b1 set_m_nodes set_m_size]; rewrite ?Hl2; try done; change (m_position (grown junk b k)) with (m_position b); lia.
  - cbn. lia.
  - unfold contents, flat. cbn [m_size m_nodes b1 set_m_nodes set_m_size]. rewrite Hflat2, take_take, Hs.
    replace (length bs `min` (0 + len)) with (0 + length bs) by lia. by rewrite take_splice_end by lia.
Qed.

(** ** The rounds of the echo server *)

Section rounds.
Context {N : Type} `{NL : NetLaws N nsent nincoming} (junk : Z).

Lemma clear_one_block b : wf b -> exists b', clear b = (Ok tt, b') /\ wf b' /\ m_position b' = 0 /\ m_size b' = 0 /\
  length (m_nodes b') = 1 /\ m_baseSize b' = m_baseSize b.
Proof.
  intros Hwf. destruct (clear_wf b) as (b' & Hrun & Hwf' & _ & Hp & Hb & _); [apply Hwf..|].
  exists b'. split_and!; try done; injection Hrun as <-; [done|]. cbn. rewrite length_take. pose proof (wf_root b Hwf). lia.
Qed.

Lemma setPosition_0 b : wf b -> m_position b = 0 -> 0 < m_capacity b -> setPosition 0 b = (Ok tt, b).
Proof.
  intros Hwf Hp Hc. pose proof (wf_curr b Hwf) as Hcur. rewrite Hp in Hcur. unfold cursor in Hcur.
  rewrite (proj2 (Nat.ltb_lt _ _) Hc), Nat.Div0.div_0_l in Hcur. rewrite (setPosition_spec b 0 0) by (done || lia).
  rewrite Nat.Div0.div_0_l. cbn [Nat.add]. rewrite (proj2 (Nat.ltb_lt _ _) (wf_root b Hwf)). unfold moved. rewrite <- Hcur, <- Hp at 1. by destruct b.
Qed.

Lemma recv_connected (sk : Socket N) len rt bs n' :
  m_isConnected sk = true -> sys_recv (m_sock sk) len 0 (net sk) = (Ok (rt, bs), n') ->
  recv len 0 sk = (Ok (swrap 32 rt, bs), set_net n' sk).
Proof.
  intros Hc Hr. unfold recv. rewrite bind_get, Hc. cbn [negb]. rewrite bind_get.
  by rewrite (bind_Ok _ _ _ _ _ (lift_Ok net set_net _ _ _ _ Hr)).
Qed.

Lemma on_bytes_Ok {A} (m : comp ByteArray A) (sk : Socket N) b a b' : m b = (Ok a, b') -> on_bytes m (sk, b) = (Ok a, (sk, b')).
Proof. exact (lift_Ok snd _ m (sk, b) a b'). Qed.

Lemma on_client_Ok {A} (m : comp (Socket N) A) sk b a sk' : m sk = (Ok a, sk') -> on_client m (sk, b) = (Ok a, (sk', b)).
Proof. exact (lift_Ok fst _ m (sk, b) a sk'). Qed.

(** The text that some bytes begin with: up to the first zero, if there is one. *)
Definition begins_with (bs txt : list Z) : Prop :=
  0%Z ∉ txt /\ exists rest, bs = txt ++ rest /\ (rest = [] \/ head rest = Some 0%Z).

Lemma c_string_begins bs : begins_with bs (c_string bs).
Proof.
  induction bs as [|x bs (Hn & rest & Hbs & Hr)]; [split; [set_solver|by exists []; auto]|]. cbn [c_string].
  destruct (Z.eqb_spec x 0) as [->|Hx].
  - split; [set_solver|]. exists (0%Z :: bs). auto.
  - split; [set_solver|]. exists rest. split; [|done]. cbn. by f_equal.
Qed.

(** The calls of the handler, on its descriptor: it receives up to a megabyte; when
    something has come, and the server is of type 1, it sends back the text that this
    begins with, in one call, and receives again; when nothing has come, it ends. *)
Inductive echoing (fd type : Z) : N -> list (list Z * Z) -> N -> Prop :=
  | echoing_end n rt bs n' : sys_recv fd recv_size 0 n = (Ok (rt, bs), n') -> (rt <= 0)%Z -> echoing fd type n [] n'
  | echoing_next n chunk n1 txt rt n2 l n' :
      sys_recv fd recv_size 0 n = (Ok (Z.of_nat (length chunk), chunk), n1) -> chunk <> [] ->
      begins_with chunk txt ->
      (type = 1%Z /\ sys_send fd txt 0 n1 = (Ok rt, n2) \/ type <> 1%Z /\ rt = 0%Z /\ n2 = n1) ->
      echoing fd type n2 l n' -> echoing fd type n ((chunk, rt) :: l) n'.

(** One round on the network. *)
Definition one_echo (fd type : Z) (n : N) (chunk : list Z) (rt : Z) (n' : N) : Prop := forall l n2,
  echoing fd type n' l n2 -> echoing fd type n ((chunk, rt) :: l) n2.

(** What follows a receive. *)
Lemma echo_back type (sk : Socket N) b chunk n : m_isConnected sk = true -> wf b -> m_position b = 0 -> m_position b < m_capacity b ->
  take (length chunk) (contents b) = chunk -> chunk <> [] ->
  sys_recv (m_sock sk) recv_size 0 n = (Ok (Z.of_nat (length chunk), chunk), net sk) ->
  exists n' rt, (if (type =? 1)%Z then
      let! str := on_bytes toString in
      let! _ := on_client (send (c_string (take (Z.to_nat (Z.of_nat (length chunk))) str)) 0) in
      ret true
    else let! _ := on_bytes toHexString in ret true) (sk, b) = (Ok true, (set_net n' sk, b)) /\
    nincoming n' = nincoming (net sk) /\ one_echo (m_sock sk) type n chunk rt n'.
Proof using NL.
  intros Hc Hwf Hp Hlt Htake Hne Hrecv. destruct (toString_unread b Hwf Hlt) as (Hstr & t & Hhex & _). destruct (Z.eqb_spec type 1) as [->|Ht].
  - rewrite (bind_Ok _ _ _ _ _ (on_bytes_Ok _ _ _ _ _ Hstr)), Hp, drop_0, Nat2Z.id, Htake.
    destruct (sys_send_law (m_sock sk) (c_string chunk) 0 (net sk)) as (k & n2 & Hsend & Hk & Hk31 & Hs' & Hin').
    rewrite (bind_Ok _ _ _ _ _ (on_client_Ok _ _ _ _ _ (send_connected sk _ _ _ Hc Hsend))).
    exists n2, k. split_and!; [done..|]. intros l n3 Hl. eapply echoing_next; try done; [apply c_string_begins|by left].
  - rewrite (bind_Ok _ _ _ _ _ (on_bytes_Ok _ _ _ _ _ Hhex)). exists (net sk), 0%Z. split_and!; [by destruct sk|done|].
    intros l n3 Hl. eapply echoing_next; try done; [apply c_string_begins|by right].
Qed.

(** A round receives a chunk and sends back the text it begins with; an empty chunk ends
    the loop. *)
Lemma echo_round_spec type sk b : m_isConnected sk = true -> wf b -> m_baseSize b < recv_size ->
  exists more n' b', echo_round junk type (sk, b) = (Ok more, (set_net n' sk, b')) /\
    if more : bool then wf b' /\ m_baseSize b' = m_baseSize b /\ exists chunk rt, chunk <> [] /\
      nincoming (net sk) = chunk ++ nincoming n' /\ one_echo (m_sock sk) type (net sk) chunk rt n'
    else nincoming n' = nincoming (net sk) /\ echoing (m_sock sk) type (net sk) [] n'.
Proof using NL.
  intros Hc Hwf Hlen. destruct (clear_one_block b Hwf) as (b0 & Hclear & Hwf0 & Hp0 & Hs0 & Hn0 & Hb0).
  destruct (receive_spec junk b0 recv_size Hwf0 Hp0 Hs0 Hn0 ltac:(by rewrite Hb0)) as (segs & b1 & Hadd & Hne & Htot & Hstore).
  destruct (sys_recv_law (m_sock sk) recv_size 0 (net sk)) as (rt & bs & n' & Hrecv & Hrt & H31 & Hgood & Hbad).
  unfold echo_round.
  rewrite (bind_Ok _ _ _ _ _ (on_bytes_Ok _ _ _ _ _ Hclear)). cbn [fst snd].
  rewrite (bind_Ok _ _ _ _ _ (on_bytes_Ok _ _ _ _ _ Hadd)). cbn [fst snd].
  replace (front segs) with (Ok tt) by (by destruct segs). rewrite bind_fail_Ok, Htot.
  rewrite (bind_Ok _ _ _ _ _ (on_client_Ok _ _ _ _ _ (recv_connected sk _ _ _ _ Hc Hrecv))). cbn [fst snd].
  rewrite swrap_small by lia. set (sk1 := set_net n' sk). set (b2 := set_m_nodes (iov_store (m_nodes b1) segs bs) b1).
  rewrite (bind_Ok _ _ _ tt (sk1, b2)) by done. cbv zeta.
  destruct (decide (0 < rt)%Z) as [Hpos|Hneg].
  2:{ exists false, n', b2. split; [|split; [by apply Hbad; lia|by eapply echoing_end; [done|lia]]].
      destruct (Z.eqb_spec rt 0); [done|]. by rewrite (proj2 (Z.ltb_lt rt 0)) by lia. }
  destruct (Hgood Hpos) as [<- Hin]. destruct (Hstore bs ltac:(lia)) as (Hwf2 & Hp2 & Hs2 & Hb2 & Hc2 & Htake). fold b2 in Hwf2, Hp2, Hs2, Hb2, Hc2, Htake.
  rewrite (proj2 (Z.eqb_neq _ 0)), (proj2 (Z.ltb_ge _ 0)) by lia.
  rewrite (bind_Ok _ _ _ _ _ (on_bytes_Ok _ _ _ _ _ (setPosition_0 b2 Hwf2 Hp2 ltac:(lia)))).
  assert (bs <> []) as Hbs by (intros ->; cbn in Hpos; lia).
  destruct (echo_back type sk1 b2 bs (net sk) Hc Hwf2 Hp2 ltac:(lia) Htake Hbs Hrecv) as (n2 & rt & Hrun & Hin2 & Hone).
  exists true, n2, b2. split; [exact Hrun|]. split_and!; [done|congruence|]. exists bs, rt. split_and!; [done| |done].
  by rewrite Hin, Hin2.
Qed.

Lemma echo_loop_spec fuel type : forall sk b, m_isConnected sk = true -> wf b -> m_baseSize b < recv_size ->
  length (nincoming (net sk)) < fuel ->
  exists n' b' l, echo_loop junk fuel type (sk, b) = (Ok tt, (set_net n' sk, b')) /\
    nincoming (net sk) = concat (map fst l) ++ nincoming n' /\ echoing (m_sock sk) type (net sk) l n'.
Proof using NL.
  induction fuel as [|fuel IH]; intros sk b Hc Hwf Hlen Hf; [lia|]. cbn [echo_loop].
  destruct (echo_round_spec type sk b Hc Hwf Hlen) as (more & n1 & b1 & Hrun & Hmore).
  rewrite (bind_Ok _ _ _ _ _ Hrun). destruct more.
  - destruct Hmore as (Hwf1 & Hb1 & chunk & rt & Hne & Hin & Hone). rewrite Hin, length_app in Hf. destruct chunk as [|x chunk]; [done|]. cbn [length] in Hf.
    destruct (IH (set_net n1 sk) b1 Hc Hwf1 ltac:(by rewrite Hb1) ltac:(cbn [net set_net]; lia)) as (n' & b' & l & Hrun' & Hin' & Hl).
    exists n', b', ((x :: chunk, rt) :: l). split_and!; [exact Hrun'| |by apply Hone]. cbn [map fst concat]. cbn [net set_net] in Hin'. by rewrite Hin, Hin', app_assoc.
  - destruct Hmore as [Hin Hend]. exists n1, b1, []. by rewrite Hin.
Qed.

Lemma begins_with_all bs txt : begins_with bs txt -> 0%Z ∉ bs -> txt = bs.
Proof.
  intros (_ & rest & -> & [->|Hr]) Hn; [by rewrite app_nil_r|]. destruct rest; [done|]. injection Hr as ->. set_solver.
Qed.

Context (Hkeeps : forall fd len f n, nsent (snd (sys_recv fd len f n)) = nsent n).

(** What the client gets: everything that it sent when no chunk has a zero and all of it
    was sent, from a server of type 1; nothing from the others. *)
Lemma echoing_sent fd type n l n' : echoing fd type n l n' ->
  (type = 1%Z -> Forall (fun c => 0%Z ∉ fst c /\ snd c = Z.of_nat (length (fst c))) l -> nsent n' = nsent n ++ concat (map fst l)) /\
  (type <> 1%Z -> nsent n' = nsent n).
Proof using NL Hkeeps.
  assert (forall n r, sys_recv fd recv_size 0 n = r -> nsent (snd r) = nsent n) as Hr by (intros n0 r <-; apply Hkeeps).
  induction 1 as [n rt bs n' Hrecv _|n chunk n1 txt rt n2 l n' Hrecv Hne Htxt Hsend _ [IH1 IH2]]; apply Hr in Hrecv; cbn [snd] in Hrecv.
  - split; intros _; [intros _; cbn; by rewrite app_nil_r|done].
  - destruct Hsend as [[-> Hsend]|(Ht & -> & ->)]; (split; intros Ht'; [|try done]); try done; [|by rewrite IH2].
    intros [[Hz Hk] Hl]%Forall_cons. cbn [fst snd] in Hz, Hk. rewrite IH1 by done. cbn [map fst concat].
    apply (begins_with_all _ _ Htxt) in Hz as ->. destruct (sys_send_law fd chunk 0 n1) as (k & n3 & Hsend' & _ & _ & Hs & _).
    rewrite Hsend in Hsend'. injection Hsend' as <- <-. rewrite Hs, Hrecv, Hk, Nat2Z.id, firstn_all. by rewrite app_assoc.
Qed.

End rounds.

(** ** Witness *)

(** A client that sends three bytes at a time and takes all it is sent. *)
Record peer : Type := mkPeer { to_peer : list Z; from_peer : list Z }.

#[local] Instance peer_net : Net peer := {|
  fd_get fd := ret (Some (mkFdInfo true UINT64_MAX UINT64_MAX));
  sys_socket f t p := ret 5%Z;
  sys_accept fd := ret 6%Z;
  sys_bind fd a := ret 0%Z;
  sys_connect fd a := ret 0%Z;
  sys_connectWithTimeout fd a t := ret 0%Z;
  sys_listen fd b := ret 0%Z;
  sys_close fd := ret 0%Z;
  sys_setsockopt fd l o v := ret 0%Z;
  sys_getsockopt fd l o := ret (0%Z, []);
  sys_getpeername fd a := ret (0%Z, a, 0);
  sys_getsockname fd a := ret (0%Z, a, 0);
  sys_send fd bs f := fun p =>
    (Ok (Z.of_nat (length (take 1000 bs))), mkPeer (to_peer p ++ take 1000 bs) (from_peer p));
  sys_sendto fd bs f a := ret (-1)%Z;
  sys_recv fd n f := fun p =>
    let bs := take (n `min` 3) (from_peer p) in (Ok (Z.of_nat (length bs), bs), mkPeer (to_peer p) (drop (length bs) (from_peer p)));
  sys_recvfrom fd n f a := ret (0%Z, [], a);
  iom_cancelEvent fd e := ret 0%Z;
  iom_cancelAll fd := ret 0%Z
|}.

#[local] Instance peer_laws : NetLaws peer to_peer from_peer.
Proof.
  split.
  - intros fd bs f p. eexists _, _. split; [reflexivity|]. rewrite Nat2Z.id. pose proof (length_take bs 1000).
    cbn [to_peer from_peer]. split_and!; [lia|lia|lia| |done]. f_equal. rewrite length_take.
    destruct (Nat.le_ge_cases 1000 (length bs)); [by rewrite Nat.min_l|]. by rewrite Nat.min_r, !take_ge.
  - intros fd n f p. eexists _, _, _. split; [reflexivity|]. pose proof (length_take (from_peer p) (n `min` 3)).
    cbn [to_peer from_peer]. split_and!; [lia|lia|lia| |].
    + intros _. split; [done|]. rewrite length_take. destruct (Nat.le_ge_cases (n `min` 3) (length (from_peer p))).
      * by rewrite (Nat.min_l _ (length _)), take_drop by done.
      * by rewrite (Nat.min_r _ (length _)), take_ge, drop_all, app_nil_r by done.
    + intros Hz. replace (length (take (n `min` 3) (from_peer p))) with 0 by lia. done.
Qed.

Definition client : Socket peer := set_m_isConnected true (set_m_sock 6 (Socket_ctor AF_INET SOCK_STREAM 0 (mkPeer [] [1; 2; 3; 4; 0]%Z))).

Lemma peer_keeps fd len f n : to_peer (snd (sys_recv (N := peer) fd len f n)) = to_peer n.
Proof. done. Qed.

