(* ===== verification/Examples.v ===== *)
(** * Examples: the programs of the repository

    Models the programs under [src/examples/]: the arguments they take, [run] of
    [echoServer.cpp] and [helloServer.cpp], which looks an address up, binds until it
    can and starts the server, and the client of [tcpClient.cpp]. *)

From Stdlib Require Import Ascii String.
From stdpp Require Import base list numbers strings pretty.
From S2P Require Import Prelude Words Address Socket Server.

Local Open Scope Z_scope.

(** ** [atoi] *)

Definition is_space (c : ascii) : bool :=
  let n := nat_of_ascii c in (n =? 32)%nat || ((9 <=? n)%nat && (n <=? 13)%nat).
Definition digit (c : ascii) : option Z :=
  let n := nat_of_ascii c in
  if (48 <=? n)%nat && (n <=? 57)%nat then Some (Z.of_nat (n - 48)) else None.

Fixpoint digits (acc : Z) (s : string) : Z :=
  match s with
  | EmptyString => acc
  | String c s => match digit c with Some d => digits (acc * 10 + d) s | None => acc end
  end.

(** White space, a sign, digits up to the first other character; a number that is
    not an [int] is undefined. *)
Fixpoint atoi (s : string) : outcome Z :=
  let int v := if bool_decide (in_s 32 v) then Ok v else UB in
  match s with
  | EmptyString => Ok 0
  | String c r =>
      if is_space c then atoi r
      else if (nat_of_ascii c =? 45)%nat then int (- digits 0 r)
      else if (nat_of_ascii c =? 43)%nat then int (digits 0 r)
      else int (digits 0 s)
  end.

(** [std::atoi] of an [argv] entry; [argv[argc]] is null. *)
Definition atoi_arg (a : option string) : outcome Z :=
  match a with Some s => atoi s | None => UB end.
Definition arg_string (a : option string) : outcome string :=
  match a with Some s => Ok s | None => UB end.

Definition obind {A B} (o : outcome A) (k : A -> outcome B) : outcome B :=
  match o with
  | Ok a => k a
  | Throw e => Throw e | Abort => Abort | UB => UB | Deadlock => Deadlock | Diverge => Diverge
  end.

(** ** [tcpClient.cpp] *)

Record client_options : Type := mkClientOptions { localIp : string; localPort : Z; data_size : Z }.

Definition client_defaults : client_options := mkClientOptions "127.0.0.1" 0 10.

(** The loop over the arguments from the third on: [None] is the message about an
    invalid argument.  The size is an [int] converted to [size_t]. *)
Fixpoint client_args (fuel : nat) (args : list string) (o : client_options) : outcome (option client_options) :=
  match fuel, args with
  | O, _ => Diverge
  | S _, [] => Ok (Some o)
  | S fuel, arg :: rest =>
      if String.eqb arg "-l" then
        obind (arg_string (head rest)) (fun a =>
        obind (match String.index 0 ":" a with
               | Some i =>
                   obind (atoi (substring (i + 1) (String.length a - (i + 1)) a)) (fun p =>
                   Ok (mkClientOptions (substring 0 i a) (wrap 16 p) (data_size o)))
               | None => Ok (mkClientOptions a (localPort o) (data_size o))
               end) (fun o => client_args fuel (tail rest) o))
      else if String.eqb arg "-c" then
        obind (atoi_arg (head rest)) (fun n =>
        client_args fuel (tail rest) (mkClientOptions (localIp o) (localPort o) (wrap 64 n)))
      else Ok None
  end.

Section client.
Context {N : Type} `{Net N}.

(** [TcpClient]: [CreateTCP] reads the family of the local address before the
    constructor asks whether there is one. *)
Record TcpClient : Type := mkTcpClient { c_remoteAddr : Address; client_sock : Socket N }.

Definition TcpClient_ctor (remote : Address) (local : option Address) (n : N) : outcome TcpClient :=
  match local with
  | None => UB
  | Some local =>
      match Socket.bind local (CreateTCP local n) with
      | (Ok _, sk) => Ok (mkTcpClient remote sk)
      | (Throw e, _) => Throw e | (Abort, _) => Abort | (UB, _) => UB
      | (Deadlock, _) => Deadlock | (Diverge, _) => Diverge
      end
  end.

Definition on_client_sock {A} (m : comp (Socket N) A) : comp TcpClient A :=
  lift client_sock (fun sk c => mkTcpClient (c_remoteAddr c) sk) m.

Definition TcpClient_connect : comp TcpClient bool :=
  let! remote := get c_remoteAddr in
  on_client_sock (Socket.connect remote UINT64_MAX).

(** The [int] of [Socket::send] is returned as a [bool]. *)
Definition TcpClient_send (len : nat) : comp TcpClient bool :=
  let! n := on_client_sock (Socket.send (repeat 97 len) 0) in
  ret (negb (n =? 0)).

Definition TcpClient_dtor : comp TcpClient unit :=
  let! _ := on_client_sock Socket.close in ret tt.

(** The addresses [main] makes: there is a local one unless its text is empty. *)
Definition client_addresses (inet_pton : Z -> string -> option (list Z)) (ip port : string) (o : client_options)
    : outcome (Address * option Address) :=
  obind (atoi port) (fun p =>
  obind (IPv4Address_text inet_pton ip (wrap 16 p)) (fun remote =>
  if String.eqb (localIp o) EmptyString then Ok (IPv4Address remote, None)
  else obind (IPv4Address_text inet_pton (localIp o) (localPort o)) (fun local =>
       Ok (IPv4Address remote, Some (IPv4Address local))))).

(** The end of [main]: [connect], [send], and the destructor; the results are not
    looked at. *)
Definition client_session (len : nat) : comp TcpClient unit :=
  let! _ := TcpClient_connect in
  let! _ := TcpClient_send len in
  TcpClient_dtor.
End client.

Arguments TcpClient N : clear implicits.

(** ** [helloServer.cpp] *)

Record hello_options : Type := mkHelloOptions { threads : Z; keepAlive : bool; showLogs : bool }.

Definition hello_defaults : hello_options := mkHelloOptions 1 false false.

(** Unknown arguments are skipped. *)
Fixpoint hello_args (fuel : nat) (args : list string) (o : hello_options) : outcome hello_options :=
  match fuel, args with
  | O, _ => Diverge
  | S _, [] => Ok o
  | S fuel, arg :: rest =>
      if String.eqb arg "-t" then
        obind (atoi_arg (head rest)) (fun n =>
        hello_args fuel (tail rest) (mkHelloOptions n (keepAlive o) (showLogs o)))
      else if String.eqb arg "-k" then hello_args fuel rest (mkHelloOptions (threads o) true (showLogs o))
      else if String.eqb arg "-log" then hello_args fuel rest (mkHelloOptions (threads o) (keepAlive o) true)
      else hello_args fuel rest o
  end.

(** ** [run] *)

Section run.
Context {N : Type} `{Net N}.
Context (getaddrinfo : string -> option string -> Z -> Z -> Z -> Z + list addrinfo).

(** [while (!server->bind(addr)) sleep(2);] *)
Fixpoint bind_retry (fuel : nat) (addr : Address) : comp (TcpServer N) unit :=
  match fuel with
  | O => fail Diverge
  | S fuel =>
      let! ok := Server.bind addr in
      if ok : bool then ret tt else bind_retry fuel addr
  end.

(** [run(ip, port)] of both servers on the server they make: whether the address was
    found.  [DNSLookup] has the defaults [AF_UNSPEC], 0 and 0. *)
Definition run (fuel : nat) (ip : string) (port : Z) : comp (TcpServer N) bool :=
  let! addrs := fail (DNSLookup getaddrinfo (ip +:+ ":" +:+ pretty port) AF_UNSPEC 0 0) in
  match addrs with
  | Some (addr :: _) =>
      do! bind_retry fuel addr in
      let! _ := Server.start in
      ret true
  | Some [] => fail UB
  | None => ret false
  end.
End run.

(** ** Theorems *)

Lemma obind_Diverge {A B} (o : outcome A) (k : A -> outcome B) :
  o <> Diverge -> (forall a, o = Ok a -> k a <> Diverge) -> obind o k <> Diverge.
Proof. destruct o; simpl; intros Ho Hk; try done. by apply Hk. Qed.

Lemma atoi_returns s : atoi s <> Diverge.
Proof. induction s as [|c s IH]; [done|]. cbn [atoi]. repeat case_match; done. Qed.

Lemma atoi_arg_returns a : atoi_arg a <> Diverge.
Proof. destruct a; [apply atoi_returns|done]. Qed.

Lemma length_tail {A} (l : list A) : (length (tail l) <= length l)%nat.
Proof. destruct l; simpl; lia. Qed.

(** The loops over the arguments end. *)
Lemma client_args_returns fuel args o : (length args < fuel)%nat -> client_args fuel args o <> Diverge.
Proof.
  revert args o. induction fuel as [|fuel IH]; intros [|arg rest] o Hf; simpl in Hf; try lia; [done|].
  pose proof (length_tail rest). cbn [client_args]. case_match; [|case_match; [|done]].
  - apply obind_Diverge; [by destruct rest|]. intros a _. apply obind_Diverge.
    + case_match; [|done]. apply obind_Diverge; [apply atoi_returns|done].
    + intros o' _. apply IH. lia.
  - apply obind_Diverge; [apply atoi_arg_returns|]. intros n _. apply IH. lia.
Qed.

Lemma hello_args_returns fuel args o : (length args < fuel)%nat -> hello_args fuel args o <> Diverge.
Proof.
  revert args o. induction fuel as [|fuel IH]; intros [|arg rest] o Hf; simpl in Hf; try lia; [done|].
  pose proof (length_tail rest). cbn [hello_args]. repeat case_match; try (apply IH; lia).
  apply obind_Diverge; [apply atoi_arg_returns|]. intros n _. apply IH. lia.
Qed.

(** An option that has its value missing reads [argv[argc]], the null pointer. *)
Lemma hello_missing_value fuel pre o :
  (length pre + 1 < fuel)%nat -> Forall (fun a => a <> "-t") pre -> hello_args fuel (pre ++ ["-t"]) o = UB.
Proof.
  revert pre o. induction fuel as [|fuel IH]; intros pre o Hf Hp; [lia|].
  destruct pre as [|a pre]; [done|]. simpl in Hf. apply Forall_cons in Hp as [Ha Hp]. cbn [hello_args app].
  destruct (String.eqb_spec a "-t") as [->|_]; [done|]. by repeat case_match; (rewrite IH by (lia || done)).
Qed.

Example client_args_both :
  client_args 5 ["-l"; "10.0.0.1:70000"; "-c"; "12"] client_defaults = Ok (Some (mkClientOptions "10.0.0.1" 4464 12)).
Proof. vm_compute. reflexivity. Qed.

(** [-l :80] asks for a local port alone; it leaves the client without an address,
    which the constructor cannot do without. *)
Lemma client_port_only inet_pton ip port remote o :
  client_args 4 ["-l"; ":80"] client_defaults = Ok (Some o) ->
  client_addresses inet_pton ip port o = Ok remote -> snd remote = None.
Proof.
  intros [= <-]. unfold client_addresses. destruct (atoi port); try done. simpl.
  destruct (IPv4Address_text _ _ _); try done. by intros [= <-].
Qed.

Section client_theorems.
Context {N : Type} `{Net N}.

(** A client whose [connect] has failed reports that it has sent: [send] returns
    -1, which is true. *)
Lemma TcpClient_send_unconnected len (c : TcpClient N) :
  m_isConnected (client_sock c) = false -> TcpClient_send len c = (Ok true, c).
Proof.
  intros Hc. destruct c as [remote sk]. unfold TcpClient_send, on_client_sock.
  assert (lift client_sock (fun sk c => mkTcpClient (c_remoteAddr c) sk) (Socket.send (repeat 97 len) 0)
    (mkTcpClient remote sk) = (Ok (-1), mkTcpClient remote sk)) as Hs.
  { unfold lift. simpl in *. unfold Socket.send. by rewrite bind_get, Hc. }
  by rewrite (bind_Ok _ _ _ _ _ Hs).
Qed.

(** Without a local address there is no client. *)
Lemma TcpClient_needs_local remote (n : N) : TcpClient_ctor remote None n = UB.
Proof. done. Qed.

(** [bind] fails [k] times and then succeeds. *)
Fixpoint binds_after (k : nat) (addr : Address) (s s' : TcpServer N) : Prop :=
  match k with
  | O => Server.bind addr s = (Ok true, s')
  | S k => exists s1, Server.bind addr s = (Ok false, s1) /\ binds_after k addr s1 s'
  end.

Lemma bind_retry_binds fuel k addr s s' :
  (k < fuel)%nat -> binds_after k addr s s' -> bind_retry fuel addr s = (Ok tt, s').
Proof.
  revert k s. induction fuel as [|fuel IH]; intros k s Hk; [lia|]. cbn [bind_retry]. destruct k as [|k]; cbn [binds_after].
  - intros Hb. by rewrite (bind_Ok _ _ _ _ _ Hb).
  - intros (s1 & Hb & Hr). rewrite (bind_Ok _ _ _ _ _ Hb). apply (IH k); [lia|done].
Qed.

(** Once a socket listens, [run] starts the server on it; a host that is not found
    ends it without a server. *)
Lemma run_starts getaddrinfo fuel k ip port addr more (s s1 : TcpServer N) :
  (k < fuel)%nat ->
  DNSLookup getaddrinfo (ip +:+ ":" +:+ pretty port) AF_UNSPEC 0 0 = Ok (Some (addr :: more)) ->
  binds_after k addr s s1 ->
  run getaddrinfo fuel ip port s = (let! _ := Server.start in ret true) s1.
Proof.
  intros Hk Hd Hb. unfold run. rewrite Hd, bind_fail_Ok. by rewrite (bind_Ok _ _ _ _ _ (bind_retry_binds _ _ _ _ _ Hk Hb)).
Qed.
End client_theorems.
