(* ===== verification/Config.v ===== *)
(** * Config: configuration variables, their registry, and the conversions

    Models [cczoecpp/Config/Config.h], [Config.cpp] and [LexicalCast.h].  The type
    of a variable is a code [ty] with an interpretation [val]: the templates of
    [LexicalCast] are recursive functions on it, and [dynamic_pointer_cast] a
    comparison of codes.  yaml-cpp ([Yaml]) and [boost::lexical_cast] ([Values])
    are parameters, together with the operators of the base types.

    A listener works on the rest of the program, [W]; it does not call back into
    the variable it listens to. *)

From stdpp Require Import base list numbers gmap strings.
From Stdlib Require Import Ascii String.
From S2P Require Import Prelude.

Local Open Scope nat_scope.

(** ** yaml-cpp *)

(** [YAML::Load] and [LoadFile] may throw; [yaml_emit] is [<<] to a stream, and
    [yaml_entries] what the iterators run through. *)
Class Yaml (Y : Type) := {
  yaml_load : string -> outcome Y;
  yaml_load_file : string -> outcome Y;
  yaml_emit : Y -> string;
  IsMap : Y -> bool;
  IsScalar : Y -> bool;
  Scalar : Y -> string;
  yaml_entries : Y -> list (Y * Y);
  yaml_size : Y -> nat;
  yaml_at : Y -> nat -> outcome Y;
  yaml_sequence : Y;
  push_back : Y -> Y -> Y;
  yaml_map : Y;
  set_key : Y -> string -> Y -> Y
}.

(** ** Types of variables *)

Inductive ty (B : Type) : Type :=
  | TString
  | TBase (b : B)
  | TVector (t : ty B)
  | TList (t : ty B)
  | TSet (t : ty B)
  | TUnorderedSet (t : ty B)
  | TMap (t : ty B)
  | TUnorderedMap (t : ty B).
Arguments TString {B}.
Arguments TBase {B} b.
Arguments TVector {B} t.
Arguments TList {B} t.
Arguments TSet {B} t.
Arguments TUnorderedSet {B} t.
Arguments TMap {B} t.
Arguments TUnorderedMap {B} t.

#[global] Instance ty_eq_dec {B} `{EqDecision B} : EqDecision (ty B).
Proof. solve_decision. Defined.

(** A container is the list of what its iterators run through: a [std::set] and a
    [std::map] in the order of the elements or keys, the unordered ones in an order
    of their own. *)
Fixpoint val {B} (base : B -> Type) (t : ty B) : Type :=
  match t with
  | TString => string
  | TBase b => base b
  | TVector t | TList t | TSet t | TUnorderedSet t => list (val base t)
  | TMap t | TUnorderedMap t => list (string * val base t)
  end.

(** The base types, [boost::lexical_cast] on them (and from string to string),
    [==] and [<] of every type, and the place where an unordered container puts a
    new element. *)
Class Values (B : Type) (base : B -> Type) := {
  lexical_cast_string : string -> outcome string;
  lexical_cast_from : forall b, string -> outcome (base b);
  lexical_cast_to : forall b, base b -> outcome string;
  operator_eq : forall t, val base t -> val base t -> bool;
  operator_less : forall t, val base t -> val base t -> bool;
  hash_place : forall t, val base t -> list (val base t) -> nat;
  hash_place_key : forall t, string -> list (string * val base t) -> nat
}.

(** ** Fallible functions without a state *)

Definition obind {A B} (m : outcome A) (k : A -> outcome B) : outcome B :=
  match m with
  | Ok a => k a
  | Throw e => Throw e
  | Abort => Abort
  | UB => UB
  | Deadlock => Deadlock
  | Diverge => Diverge
  end.

(** A loop that collects results. *)
Fixpoint traverse {A B} (f : A -> outcome B) (l : list A) : outcome (list B) :=
  match l with
  | [] => Ok []
  | a :: l => obind (f a) (fun b => obind (traverse f l) (fun bs => Ok (b :: bs)))
  end.

(** [try { m } catch (std::exception &) { h }] *)
Definition try_catch {S A} (m : comp S A) (h : comp S A) : comp S A := fun s =>
  match m s with
  | (Throw _, s') => h s'
  | r => r
  end.

(** ** Containers *)

Section containers.
Context {A : Type}.

(** [std::set::insert] *)
Fixpoint set_insert (less : A -> A -> bool) (x : A) (l : list A) : list A :=
  match l with
  | [] => [x]
  | y :: l' => if less x y then x :: l else if less y x then y :: set_insert less x l' else l
  end.

(** [std::map::insert], which keeps an entry that is there. *)
Fixpoint map_insert (k : string) (v : A) (l : list (string * A)) : list (string * A) :=
  match l with
  | [] => [(k, v)]
  | (x, w) :: l' =>
      if (k <? x)%string then (k, v) :: l else if (x <? k)%string then (x, w) :: map_insert k v l' else l
  end.

Definition insert_at (i : nat) (x : A) (l : list A) : list A := (take i l ++ x :: drop i l)%list.

(** [std::unordered_set::insert] *)
Definition uset_insert (eq : A -> A -> bool) (place : A -> list A -> nat) (x : A) (l : list A) : list A :=
  if existsb (eq x) l then l else insert_at (place x l) x l.
End containers.

(** [std::unordered_map::insert] *)
Definition umap_insert {A} (place : string -> list (string * A) -> nat) (k : string) (v : A) (l : list (string * A))
    : list (string * A) :=
  if existsb (fun e => String.eqb k (fst e)) l then l else insert_at (place k l) (k, v) l.

Section Config.
Context {B : Type} `{EqDecision B} {base : B -> Type} `{Values B base} {Y : Type} `{Yaml Y}.

#[local] Notation ty := (ty B).
#[local] Notation val := (val base).

(** ** [LexicalCast] *)

(** [node.push_back(YAML::Load(...)(i))] for every element, and the text of the
    node. *)
Definition sequence_text (texts : list (outcome string)) : outcome string :=
  obind (traverse (fun t => obind t yaml_load) texts) (fun ns =>
  Ok (yaml_emit (fold_left push_back ns yaml_sequence))).

Definition map_text (entries : list (string * outcome string)) : outcome string :=
  obind (traverse (fun e => obind (snd e) (fun t => obind (yaml_load t) (fun n => Ok (fst e, n)))) entries) (fun es =>
  Ok (yaml_emit (fold_left (fun n e => set_key n (fst e) (snd e)) es yaml_map))).

(** The texts [node[i]], each converted by [from]. *)
Definition sequence_elems {A} (from : string -> outcome A) (str : string) : outcome (list A) :=
  obind (yaml_load str) (fun node =>
  traverse (fun i => obind (yaml_at node i) (fun n => from (yaml_emit n))) (seq 0 (yaml_size node))).

Definition map_elems {A} (from : string -> outcome A) (str : string) : outcome (list (string * A)) :=
  obind (yaml_load str) (fun node =>
  traverse (fun e => obind (from (yaml_emit (snd e))) (fun v => Ok (Scalar (fst e), v))) (yaml_entries node)).

(** The partial specialisations, given the cast of the elements: the containers
    differ in how they are filled. *)
Definition vector_to_string {A} (to : A -> outcome string) (vec : list A) : outcome string := sequence_text (map to vec).
Definition list_to_string {A} (to : A -> outcome string) (li : list A) : outcome string := sequence_text (map to li).
Definition set_to_string {A} (to : A -> outcome string) (s : list A) : outcome string := sequence_text (map to s).
Definition unordered_set_to_string {A} (to : A -> outcome string) (s : list A) : outcome string := sequence_text (map to s).
Definition map_to_string {A} (to : A -> outcome string) (mp : list (string * A)) : outcome string :=
  map_text (map (fun e => (fst e, to (snd e))) mp).
Definition unordered_map_to_string {A} (to : A -> outcome string) (mp : list (string * A)) : outcome string :=
  map_text (map (fun e => (fst e, to (snd e))) mp).

Definition string_to_vector {A} (from : string -> outcome A) (str : string) : outcome (list A) := sequence_elems from str.
Definition string_to_list {A} (from : string -> outcome A) (str : string) : outcome (list A) := sequence_elems from str.
Definition string_to_set {A} (less : A -> A -> bool) (from : string -> outcome A) (str : string) : outcome (list A) :=
  obind (sequence_elems from str) (fun l => Ok (fold_left (fun res x => set_insert less x res) l [])).
Definition string_to_unordered_set {A} (eq : A -> A -> bool) (place : A -> list A -> nat) (from : string -> outcome A)
    (str : string) : outcome (list A) :=
  obind (sequence_elems from str) (fun l => Ok (fold_left (fun res x => uset_insert eq place x res) l [])).
Definition string_to_map {A} (from : string -> outcome A) (str : string) : outcome (list (string * A)) :=
  obind (map_elems from str) (fun l => Ok (fold_left (fun res e => map_insert (fst e) (snd e) res) l [])).
Definition string_to_unordered_map {A} (place : string -> list (string * A) -> nat) (from : string -> outcome A)
    (str : string) : outcome (list (string * A)) :=
  obind (map_elems from str) (fun l => Ok (fold_left (fun res e => umap_insert place (fst e) (snd e) res) l [])).

(** [LexicalCast<T, std::string>] *)
Fixpoint to_text (t : ty) : val t -> outcome string :=
  match t with
  | TString => lexical_cast_string
  | TBase b => lexical_cast_to b
  | TVector t => vector_to_string (to_text t)
  | TList t => list_to_string (to_text t)
  | TSet t => set_to_string (to_text t)
  | TUnorderedSet t => unordered_set_to_string (to_text t)
  | TMap t => map_to_string (to_text t)
  | TUnorderedMap t => unordered_map_to_string (to_text t)
  end.

(** [LexicalCast<std::string, T>] *)
Fixpoint from_text (t : ty) : string -> outcome (val t) :=
  match t with
  | TString => lexical_cast_string
  | TBase b => lexical_cast_from b
  | TVector t => string_to_vector (from_text t)
  | TList t => string_to_list (from_text t)
  | TSet t => string_to_set (operator_less t) (from_text t)
  | TUnorderedSet t => string_to_unordered_set (operator_eq t) (hash_place t) (from_text t)
  | TMap t => string_to_map (from_text t)
  | TUnorderedMap t => string_to_unordered_map (hash_place_key t) (from_text t)
  end.

(** ** [ConfigVar] *)

Context {W : Type}.

Definition listener (t : ty) : Type := val t -> val t -> comp W unit.

Record ConfigVar (t : ty) : Type := mkVar {
  m_name : string;
  m_description : string;
  m_val : val t;
  m_callbacks : list (Z * listener t)      (* in the order of the keys *)
}.
Arguments mkVar {t}.
Arguments m_name {t} _.
Arguments m_description {t} _.
Arguments m_val {t} _.
Arguments m_callbacks {t} _.

Definition set_m_val {t} (v : val t) (x : ConfigVar t) : ConfigVar t := mkVar (m_name x) (m_description x) v (m_callbacks x).
Definition set_m_callbacks {t} (v : list (Z * listener t)) (x : ConfigVar t) : ConfigVar t :=
  mkVar (m_name x) (m_description x) (m_val x) v.

Definition ConfigVar_ctor (t : ty) (name : string) (default_value : val t) (description : string) : ConfigVar t :=
  mkVar name description default_value [].

Section ConfigVar.
Context {t : ty}.

(** A method that may call listeners, and one that may not. *)
Definition method A : Type := comp (ConfigVar t * W) A.
Definition on_self {A} (m : comp (ConfigVar t) A) : method A := lift fst (fun x s => (x, snd s)) m.
Definition on_world {A} (m : comp W A) : method A := lift snd (fun w s => (fst s, w)) m.

Definition getValue : method (val t) := on_self (get m_val).

Fixpoint notify (cbs : list (Z * listener t)) (old_value new_value : val t) : method unit :=
  match cbs with
  | [] => ret tt
  | (_, fun_) :: cbs => do! on_world (fun_ old_value new_value) in notify cbs old_value new_value
  end.

Definition setValue (v : val t) : method unit :=
  let! old := getValue in
  if operator_eq t old v then ret tt else
  let! cbs := on_self (get m_callbacks) in
  do! notify cbs old v in
  on_self (modify (set_m_val v)).

Definition fromString (str : string) : method bool :=
  try_catch (let! v := fail (from_text t str) in do! setValue v in ret true) (ret false).

Definition toString : method string :=
  try_catch (let! v := getValue in fail (to_text t v)) (ret EmptyString).

(** [m_callbacks[key] = cb] *)
Fixpoint put_listener (key : Z) (cb : listener t) (l : list (Z * listener t)) : list (Z * listener t) :=
  match l with
  | [] => [(key, cb)]
  | (k, f) :: l' =>
      if (key <? k)%Z then (key, cb) :: l else if (k <? key)%Z then (k, f) :: put_listener key cb l' else (k, cb) :: l'
  end.

Definition addListener (key : Z) (cb : listener t) : method unit :=
  on_self (modify (fun x => set_m_callbacks (put_listener key cb (m_callbacks x)) x)).
Definition delListener (key : Z) : method unit :=
  on_self (modify (fun x => set_m_callbacks (filter (fun e => fst e <> key) (m_callbacks x)) x)).
Definition getListener (key : Z) : method (option (listener t)) :=
  on_self (get (fun x => snd <$> find (fun e => (fst e =? key)%Z) (m_callbacks x))).
Definition clearListener : method unit := on_self (modify (set_m_callbacks [])).
End ConfigVar.

(** ** [Config] *)

(** A shared object of some type. *)
Record any_var : Type := mkAny { var_type : ty; var_of : ConfigVar var_type }.

(** The objects made so far, of which a pointer is an index, the registry of
    [GetDatas], and the rest of the program. *)
Record Config : Type := mkConfig {
  vars : list any_var;
  s_datas : gmap string nat;
  world : W
}.

Definition set_vars (v : list any_var) (c : Config) : Config := mkConfig v (s_datas c) (world c).
Definition set_s_datas (v : gmap string nat) (c : Config) : Config := mkConfig (vars c) v (world c).

(** A virtual call through a pointer. *)
Definition call {A} (p : nat) (m : forall t, comp (ConfigVar t * W) A) : comp Config A := fun c =>
  match vars c !! p with
  | Some (mkAny t x) =>
      let '(o, (x', w)) := m t (x, world c) in
      (o, mkConfig (<[p := mkAny t x']> (vars c)) (s_datas c) w)
  | None => (UB, c)
  end.

(** [dynamic_pointer_cast<ConfigVar<T>>] *)
Definition dynamic_cast (t : ty) (p : nat) : comp Config (option nat) := fun c =>
  match vars c !! p with
  | Some x => (Ok (if decide (var_type x = t) then Some p else None), c)
  | None => (UB, c)
  end.

Definition make_shared (x : any_var) : comp Config nat :=
  let! p := get (fun c => List.length (vars c)) in
  do! modify (fun c => set_vars (vars c ++ [x])%list c) in
  ret p.

(** [Lookup(name, default_value, description)] *)
Definition Lookup_default (t : ty) (name : string) (default_value : val t) (description : string) : comp Config (option nat) :=
  let! it := get (fun c => s_datas c !! name) in
  match it with
  | Some p => dynamic_cast t p
  | None =>
      let! p := make_shared (mkAny t (ConfigVar_ctor t name default_value description)) in
      do! modify (fun c => set_s_datas (<[name := p]> (s_datas c)) c) in
      ret (Some p)
  end.

(** [Lookup(name)] *)
Definition Lookup (t : ty) (name : string) : comp Config (option nat) :=
  let! it := get (fun c => s_datas c !! name) in
  match it with
  | Some p => dynamic_cast t p
  | None => ret None
  end.

Definition LookupBase (name : string) : comp Config (option nat) := get (fun c => s_datas c !! name).

(** ** Loading *)

Definition join_path (prefix key : string) : string :=
  if String.eqb prefix EmptyString then key else (prefix ++ "." ++ key)%string.

(** [ParseNodes]: the recursion has the depth of the tree. *)
Fixpoint ParseNodes (fuel : nat) (prefix : string) (root : Y) : outcome (list (string * Y)) :=
  match fuel with
  | O => Diverge
  | S fuel =>
      if IsMap root then
        obind (traverse (fun e => ParseNodes fuel (join_path prefix (Scalar (fst e))) (snd e)) (yaml_entries root))
          (fun ls => Ok (List.concat ls))
      else Ok [(prefix, root)]
  end.

Definition tolower (c : ascii) : ascii :=
  let n := nat_of_ascii c in
  if (65 <=? n) && (n <=? 90) then ascii_of_nat (n + 32) else c.

Fixpoint lower (s : string) : string :=
  match s with EmptyString => EmptyString | String c s => String (tolower c) (lower s) end.

(** The text of a leaf. *)
Definition node_text (n : Y) : string := if IsScalar n then Scalar n else yaml_emit n.

Definition load_node (node : string * Y) : comp Config unit :=
  let key := lower (fst node) in
  let! var := LookupBase key in
  match var with
  | Some p => let! _ := call p (fun t => fromString (node_text (snd node))) in ret tt
  | None => let! _ := Lookup_default TString key (node_text (snd node)) EmptyString in ret tt
  end.

Fixpoint load_nodes (nodes : list (string * Y)) : comp Config unit :=
  match nodes with
  | [] => ret tt
  | node :: nodes => do! load_node node in load_nodes nodes
  end.

Definition LoadFromYaml (fuel : nat) (root : Y) : comp Config unit :=
  let! allNodes := fail (ParseNodes fuel EmptyString root) in
  load_nodes allNodes.

Definition LoadFromFile (fuel : nat) (filename : string) : comp Config unit :=
  let! node := fail (yaml_load_file filename) in
  LoadFromYaml fuel node.
End Config.
