(* ===== verification/ConfigTheorems.v ===== *)
(** * ConfigTheorems: listeners, the typed registry, loading, round trips *)

From stdpp Require Import base list numbers gmap strings sorting countable.
From Stdlib Require Import Ascii String.
From S2P Require Import Prelude Config.

Local Open Scope nat_scope.
#[local] Notation length := List.length.
#[local] Notation concat := List.concat.

(** ** What is relied on of yaml-cpp

    A sequence and a map hold what was put into them, and are read back from their
    text when their elements are. *)

Definition sequence_of {Y} `{Yaml Y} (ns : list Y) : Y := fold_left push_back ns yaml_sequence.
Definition map_of {Y} `{Yaml Y} (es : list (string * Y)) : Y := fold_left (fun n e => set_key n (fst e) (snd e)) es yaml_map.

Definition reads_back {Y} `{Yaml Y} (n : Y) : Prop := yaml_load (yaml_emit n) = Ok n.

Class YamlLaws (Y : Type) `{Yaml Y} : Prop := {
  sequence_reads_back ns : Forall reads_back ns -> reads_back (sequence_of ns);
  sequence_size ns : yaml_size (sequence_of ns) = length ns;
  sequence_at ns i n : ns !! i = Some n -> yaml_at (sequence_of ns) i = Ok n;
  map_reads_back es : NoDup es.*1 -> Forall (fun e => reads_back (snd e)) es -> reads_back (map_of es);
  map_entries es : NoDup es.*1 -> map (fun e => (Scalar (fst e), snd e)) (yaml_entries (map_of es)) = es
}.

(** ** Loops *)

Lemma obind_Ok {A B} (m : outcome A) (k : A -> outcome B) a : m = Ok a -> obind m k = k a.
Proof. by intros ->. Qed.

Lemma traverse_Ok {A B} (f : A -> outcome B) l bs : Forall2 (fun a b => f a = Ok b) l bs -> traverse f l = Ok bs.
Proof. induction 1 as [|a b l bs Hf _ IH]; [done|]. cbn [traverse]. by rewrite (obind_Ok _ _ _ Hf), (obind_Ok _ _ _ IH). Qed.

Lemma traverse_map {A B C} (f : B -> outcome C) (g : A -> B) l : traverse f (map g l) = traverse (fun a => f (g a)) l.
Proof. induction l as [|a l IH]; [done|]. cbn. by rewrite IH. Qed.

Lemma Forall_weaken {A} (P Q : A -> Prop) l : (forall x, P x -> Q x) -> Forall P l -> Forall Q l.
Proof. intros HPQ. induction 1; constructor; auto. Qed.

(** ** The leaves of a tree *)

Section leaves.
Context {Y : Type} `{Yaml Y}.

(** The leaves below a node that the keys [ks] lead to, in the order of the text, each
    with the keys that lead to it. *)
Inductive leaves : list string -> Y -> list (list string * Y) -> Prop :=
  | leaves_here ks n : IsMap n = false -> leaves ks n [(ks, n)]
  | leaves_below ks n ls : IsMap n = true ->
      Forall2 (fun e l => leaves (ks ++ [Scalar (fst e)]) (snd e) l) (yaml_entries n) ls -> leaves ks n (concat ls).

(** Keys with dots between them; empty keys at the beginning leave no dot. *)
Fixpoint strip (ks : list string) : list string :=
  match ks with EmptyString :: ks => strip ks | _ => ks end.
Definition dotted (ks : list string) : string := String.concat "." (strip ks).

Lemma traverse_total {A C} (f : A -> outcome C) l : (forall a, a ∈ l -> exists c, f a = Ok c) -> exists cs, traverse f l = Ok cs.
Proof.
  induction l as [|a l IH]; intros Hf; [by exists []|]. destruct (Hf a ltac:(by left)) as (c & Hc).
  destruct IH as (cs & Hcs); [intros b Hb; apply Hf; by right|]. exists (c :: cs). cbn. by rewrite Hc; cbn; rewrite Hcs.
Qed.

Lemma concat_snoc ks k : ks <> [] -> String.concat "." (ks ++ [k]) = (String.concat "." ks ++ "." ++ k)%string.
Proof.
  induction ks as [|x [|y ks] IH]; intros Hne; [done|done|]. specialize (IH ltac:(done)).
  change (x ++ "." ++ String.concat "." ((y :: ks) ++ [k]) = (x ++ "." ++ String.concat "." (y :: ks)) ++ "." ++ k)%string.
  by rewrite IH, !append_assoc3.
Qed.

Lemma strip_snoc ks k : strip (ks ++ [k]) = match strip ks with [] => strip [k] | _ => strip ks ++ [k] end.
Proof. induction ks as [|[|c x] ks IH]; [done|exact IH|done]. Qed.

(** The path of a child. *)
Lemma join_dotted ks k : join_path (dotted ks) k = dotted (ks ++ [k]).
Proof.
  unfold join_path, dotted. rewrite strip_snoc. assert (forall ks', strip ks = ks' -> head ks' <> Some EmptyString) as Hhead.
  { clear k. intros ks' <-. induction ks as [|[|c x] ks IH]; done. }
  specialize (Hhead _ eq_refl). destruct (strip ks) as [|[|c x] ks']; [by destruct k|done|].
  rewrite concat_snoc by done. by destruct ks'.
Qed.

Definition path_of (l : list string * Y) : string * Y := (dotted (fst l), snd l).

Definition finite_tree (depth : Y -> nat) : Prop := forall n e, IsMap n = true -> e ∈ yaml_entries n -> depth (snd e) < depth n.

Lemma parse_leaves (depth : Y -> nat) fuel : finite_tree depth -> forall ks root, depth root < fuel ->
  exists ls, (forall l, leaves ks root l <-> l = ls) /\ ParseNodes fuel (dotted ks) root = Ok (map path_of ls).
Proof.
  intros Hdepth. induction fuel as [|fuel IH]; intros ks root Hf; [lia|]. cbn [ParseNodes]. destruct (IsMap root) eqn:Hmap.
  2:{ exists [(ks, root)]. split; [|done]. intros l. split; [by inversion 1; congruence|intros ->; by constructor]. }
  assert (forall es, (forall e, e ∈ es -> depth (snd e) < fuel) -> exists ls,
    (forall ls', Forall2 (fun e l => leaves (ks ++ [Scalar (fst e)]) (snd e) l) es ls' <-> ls' = ls) /\
    traverse (fun e => ParseNodes fuel (join_path (dotted ks) (Scalar (fst e))) (snd e)) es = Ok (map (map path_of) ls)) as Hes.
  { induction es as [|e es IHes]; intros Hlt.
    - exists []. split; [|done]. intros ls'. split; [by inversion 1|intros ->; constructor].
    - destruct (IH (ks ++ [Scalar (fst e)]) (snd e)) as (l & Hl & Hrun); [apply Hlt; by left|].
      destruct IHes as (ls & Hls & Hrun'); [intros e' He'; apply Hlt; by right|]. exists (l :: ls). split.
      + intros ls'. split; [|intros ->; constructor; [by apply Hl|by apply Hls]].
        inversion 1 as [|? l' ? ls1 Hl1 Hls1]; subst. f_equal; [by apply Hl|by apply Hls].
      + cbn [traverse]. rewrite join_dotted, Hrun. cbn [obind]. by rewrite Hrun'. }
  destruct (Hes (yaml_entries root)) as (ls & Hls & Hrun); [intros e He; specialize (Hdepth _ _ Hmap He); lia|].
  exists (concat ls). split.
  - intros l. split.
    + inversion 1 as [|ks' n ls' _ Hls']; [congruence|]. subst. by apply Hls in Hls' as ->.
    + intros ->. constructor; [done|]. by apply Hls.
  - rewrite Hrun. cbn [obind]. by rewrite concat_map.
Qed.

(** C29: (equivalence) On a finite tree (one with a measure that the children of a map
    decrease) [ParseNodes] returns, and lists the leaves of the tree: all of them and
    nothing else, in the order of the text, as often as they occur, each under the keys
    that lead to it with dots between them.  Empty keys at the beginning of a path
    leave no dot. *)
Theorem ParseNodes_leaves (depth : Y -> nat) fuel ks root : finite_tree depth -> depth root < fuel ->
  exists ls, (forall l, leaves ks root l <-> l = ls) /\
    ParseNodes fuel (dotted ks) root = Ok (map (fun l => (dotted (fst l), snd l)) ls).
Proof. intros Hdepth Hf. by apply (parse_leaves depth). Qed.
End leaves.

(** ** Containers built in order *)

Definition before {A} (less : A -> A -> bool) (x y : A) : Prop := less x y = true /\ less y x = false.

Lemma set_insert_last {A} (less : A -> A -> bool) x l : Forall (fun y => before less y x) l -> set_insert less x l = l ++ [x].
Proof. induction 1 as [|y l [H1 H2] _ IH]; [done|]. cbn. by rewrite H2, H1, IH. Qed.

Lemma map_insert_last {A} k (v : A) l : Forall (fun e => before String.ltb (fst e) k) l -> map_insert k v l = l ++ [(k, v)].
Proof. induction 1 as [|[x w] l [H1 H2] _ IH]; [done|]. cbn in *. by rewrite H2, H1, IH. Qed.

Lemma fold_in_order {A} (R : A -> A -> Prop) (ins : A -> list A -> list A) :
  (forall x l, Forall (fun y => R y x) l -> ins x l = l ++ [x]) ->
  forall l acc, StronglySorted R (acc ++ l) -> fold_left (fun res x => ins x res) l acc = acc ++ l.
Proof.
  intros Hins. induction l as [|x l IH]; intros acc Hs; cbn [fold_left]; [by rewrite app_nil_r|].
  rewrite Hins; [rewrite IH; by rewrite <- app_assoc|].
  apply Forall_forall. intros y Hy%list_elem_of_In. apply (StronglySorted_app_1_elem_of R acc (x :: l)); [done|done|by left].
Qed.

Section roundtrip.
Context {B : Type} `{EqDecision B} {base : B -> Type} `{Values B base} {Y : Type} `{YamlLaws Y}.

#[local] Notation ty := (ty B).
#[local] Notation val := (val base).

(** A value whose text is read back, also as an element of a container. *)
Definition readable (t : ty) (v : val t) : Prop :=
  exists s n, to_text t v = Ok s /\ from_text t s = Ok v /\ yaml_load s = Ok n /\ yaml_emit n = s.

(** The values of a type that are made of readable ones of base types; those of
    ordered containers are in order. *)
Fixpoint plain (t : ty) : val t -> Prop :=
  match t with
  | TString => readable TString
  | TBase b => readable (TBase b)
  | TVector t => Forall (plain t)
  | TList t => Forall (plain t)
  | TSet t => fun v => Forall (plain t) v /\ StronglySorted (before (operator_less t)) v
  | TMap t => fun v => Forall (fun e => plain t (snd e)) v /\ StronglySorted (fun e e' => before String.ltb (fst e) (fst e')) v
  | TUnorderedSet _ | TUnorderedMap _ => fun _ => False
  end.

(** The texts and the nodes of the elements. *)
Lemma readable_nodes t (l : list (val t)) : Forall (readable t) l ->
  exists ns, traverse (fun t => obind t yaml_load) (map (to_text t) l) = Ok ns /\ Forall reads_back ns /\
    Forall2 (fun n x => from_text t (yaml_emit n) = Ok x) ns l.
Proof.
  induction 1 as [|x l (s & n & Hto & Hfrom & Hload & Hemit) _ (ns & Hns & Hall & Hf)]; [by exists []|].
  exists (n :: ns). cbn [traverse map]. rewrite Hto. cbn [obind]. rewrite Hload. cbn [obind]. rewrite Hns. cbn [obind].
  split; [done|]. split; constructor; try done; [|by rewrite Hemit]. unfold reads_back. by rewrite Hemit.
Qed.

Lemma sequence_roundtrip t (l : list (val t)) : Forall (readable t) l ->
  exists s n, sequence_text (map (to_text t) l) = Ok s /\ sequence_elems (from_text t) s = Ok l /\
    yaml_load s = Ok n /\ yaml_emit n = s.
Proof.
  intros Hl. destruct (readable_nodes t l Hl) as (ns & Hns & Hall & Hf).
  exists (yaml_emit (sequence_of ns)), (sequence_of ns). pose proof (sequence_reads_back ns Hall) as Hback.
  split_and!; [by unfold sequence_text; rewrite Hns| |done|done].
  unfold sequence_elems. rewrite (obind_Ok _ _ _ Hback), sequence_size. apply traverse_Ok.
  apply Forall2_same_length_lookup. split; [rewrite length_seq; by apply Forall2_length in Hf|].
  intros i j x Hi Hx. apply lookup_seq in Hi as [-> Hi]. destruct (Forall2_lookup_r _ _ _ _ _ Hf Hx) as (n & Hn & Hfrom).
  by rewrite (obind_Ok _ _ _ (sequence_at ns i n Hn)).
Qed.

Lemma sorted_keys {A} (l : list (string * A)) : StronglySorted (fun e e' => before String.ltb (fst e) (fst e')) l -> NoDup l.*1.
Proof.
  induction 1 as [|e l _ IH Hl]; [constructor|]. cbn. constructor; [|done]. intros Hin.
  apply list_elem_of_fmap in Hin as (e' & Heq & He'). rewrite Forall_forall in Hl. apply list_elem_of_In in He'. destruct (Hl e' He') as [H3 H4].
  rewrite <- Heq in *. congruence.
Qed.

Lemma map_roundtrip t (l : list (string * val t)) : NoDup l.*1 -> Forall (fun e => readable t (snd e)) l ->
  exists s n, map_text (map (fun e => (fst e, to_text t (snd e))) l) = Ok s /\ map_elems (from_text t) s = Ok l /\
    yaml_load s = Ok n /\ yaml_emit n = s.
Proof.
  intros Hnd Hl.
  assert (exists es, traverse (fun e => obind (snd e) (fun t => obind (yaml_load t) (fun n => Ok (fst e, n))))
      (map (fun e => (fst e, to_text t (snd e))) l) = Ok es /\ es.*1 = l.*1 /\ Forall (fun e => reads_back (snd e)) es /\
      Forall2 (fun e x => obind (from_text t (yaml_emit (snd e))) (fun v => Ok (fst e, v)) = Ok x) es l) as (es & Hes & Hk & Hb & Hf).
  { clear Hnd. induction Hl as [|[k x] l (s & n & Hto & Hfrom & Hload & Hemit) _ (es & Hes & Hk & Hb & Hf)]; [by exists []|].
    exists ((k, n) :: es). cbn [traverse map fst snd fmap list_fmap] in *. rewrite Hto. cbn [obind]. rewrite Hload. cbn [obind].
    rewrite Hes. cbn [obind]. rewrite Hk. split_and!; [done|done| |]; constructor; try done.
    - unfold reads_back. cbn. by rewrite Hemit.
    - cbn. by rewrite Hemit, Hfrom. }
  rewrite <- Hk in Hnd. pose proof (map_reads_back es Hnd Hb) as Hback.
  exists (yaml_emit (map_of es)), (map_of es). split_and!; [by unfold map_text; rewrite Hes| |done|done].
  unfold map_elems. rewrite (obind_Ok _ _ _ Hback).
  pose proof (traverse_map (fun e => obind (from_text t (yaml_emit (snd e))) (fun v => Ok (fst e, v)))
    (fun e => (Scalar (fst e), snd e)) (yaml_entries (map_of es))) as Ht. cbn [fst snd] in Ht. rewrite <- Ht, map_entries by done.
  by apply traverse_Ok.
Qed.

Lemma plain_readable t v : plain t v -> readable t v.
Proof.
  revert v. induction t as [|b|t IH|t IH|t IH|t IH|t IH|t IH]; intros v; cbn [plain]; try done.
  - intros Hv. by apply sequence_roundtrip, (Forall_weaken (plain t)).
  - intros Hv. by apply sequence_roundtrip, (Forall_weaken (plain t)).
  - intros [Hv Hs]. destruct (sequence_roundtrip t v (Forall_weaken _ _ _ IH Hv)) as (s & n & Hto & Hfrom & Hload).
    exists s, n. split_and!; try done; [|by apply Hload..]. cbn [from_text]. unfold string_to_set, string_to_map. rewrite (obind_Ok _ _ _ Hfrom). f_equal.
    apply (fold_in_order _ _ (set_insert_last (operator_less t)) v []). done.
  - intros [Hv Hs]. destruct (map_roundtrip t v (sorted_keys v Hs)) as (s & n & Hto & Hfrom & Hload).
    { eapply Forall_weaken; [|exact Hv]. intros e. apply IH. }
    exists s, n. split_and!; try done; [|by apply Hload..]. cbn [from_text]. unfold string_to_set, string_to_map. rewrite (obind_Ok _ _ _ Hfrom). f_equal.
    apply (fold_in_order (fun e e' => before String.ltb (fst e) (fst e')) (fun e res => map_insert (fst e) (snd e) res)
      ltac:(intros [k w] l Hl; by apply map_insert_last) v []). done.
Qed.
End roundtrip.

Section variables.
Context {B : Type} `{EqDecision B} {base : B -> Type} `{Values B base} {Y : Type} `{Yaml Y} {W : Type}.

#[local] Notation ty := (ty B).
#[local] Notation val := (val base).
#[local] Notation ConfigVar := (ConfigVar (base := base) (W := W)).
#[local] Notation Config := (Config (base := base) (W := W)).
#[local] Notation any_var := (any_var (base := base) (W := W)).

(** ** Listeners *)

(** A listener that always returns, and the world after a row of them. *)
Definition quiet {t} (f : listener (base := base) (W := W) t) : Prop := forall o n w, exists w', f o n w = (Ok tt, w').

Definition told {t} (cbs : list (Z * listener (base := base) (W := W) t)) (old_value new_value : val t) (w : W) : W :=
  fold_left (fun w e => snd (snd e old_value new_value w)) cbs w.

Lemma on_world_Ok {t A} (m : comp W A) (x : ConfigVar t) w a w' : m w = (Ok a, w') -> on_world m (x, w) = (Ok a, (x, w')).
Proof. intros Hm. unfold on_world, lift. cbn. by rewrite Hm. Qed.

Lemma notify_app {t} (pre post : list (Z * listener t)) old_value new_value (x : ConfigVar t) w :
  Forall (fun e => quiet (snd e)) pre ->
  notify (pre ++ post) old_value new_value (x, w) = notify post old_value new_value (x, told pre old_value new_value w).
Proof.
  intros Hq. revert w. induction Hq as [|[k f] pre Hf _ IH]; intros w; [done|]. cbn [notify app].
  destruct (Hf old_value new_value w) as (w' & Hrun). cbn [snd] in Hrun. rewrite (bind_Ok _ _ _ _ _ (on_world_Ok _ _ _ _ _ Hrun)), IH.
  unfold told. cbn [fold_left snd]. by rewrite Hrun.
Qed.

Lemma notify_quiet {t} (cbs : list (Z * listener t)) old_value new_value (x : ConfigVar t) w :
  Forall (fun e => quiet (snd e)) cbs ->
  notify cbs old_value new_value (x, w) = (Ok tt, (x, told cbs old_value new_value w)).
Proof. intros Hq. rewrite <- (app_nil_r cbs) at 1. by rewrite notify_app. Qed.

Lemma setValue_cases {t} (v : val t) (x : ConfigVar t) w : setValue v (x, w) =
  if operator_eq t (m_val _ x) v then (Ok tt, (x, w))
  else (let! _ := notify (m_callbacks _ x) (m_val _ x) v in on_self (modify (set_m_val v))) (x, w).
Proof. unfold setValue, getValue. unfold on_self at 1. unfold Prelude.bind at 1. cbn. by destruct (operator_eq _ _ _). Qed.

Lemma setValue_quiet {t} (v : val t) (x : ConfigVar t) w : Forall (fun e => quiet (snd e)) (m_callbacks _ x) ->
  setValue v (x, w) = (Ok tt, if operator_eq t (m_val _ x) v then (x, w) else (set_m_val v x, told (m_callbacks _ x) (m_val _ x) v w)).
Proof. intros Hq. rewrite setValue_cases. destruct (operator_eq _ _ _); [done|]. by rewrite (bind_Ok _ _ _ _ _ (notify_quiet _ _ _ _ _ Hq)). Qed.

(** (functional) [setValue] does nothing when the value is the same;
    otherwise it calls every listener once, in the order of their keys, with the
    old and the new value, and then stores the new one.  When a listener throws,
    the ones after it are not called and the value stays, and [fromString] reports
    the failure. *)
Theorem setValue_notifies {t} (v : val t) (x : ConfigVar t) (w : W) :
  (operator_eq t (m_val _ x) v = true -> setValue v (x, w) = (Ok tt, (x, w))) /\
  (operator_eq t (m_val _ x) v = false -> Forall (fun e => quiet (snd e)) (m_callbacks _ x) ->
    setValue v (x, w) = (Ok tt, (set_m_val v x, told (m_callbacks _ x) (m_val _ x) v w))) /\
  (forall pre k f post e w', operator_eq t (m_val _ x) v = false -> m_callbacks _ x = pre ++ (k, f) :: post ->
    Forall (fun e => quiet (snd e)) pre -> f (m_val _ x) v (told pre (m_val _ x) v w) = (Throw e, w') ->
    setValue v (x, w) = (Throw e, (x, w')) /\
    forall str, from_text t str = Ok v -> fromString str (x, w) = (Ok false, (x, w'))).
Proof.
  split_and!.
  - intros Heq. by rewrite setValue_cases, Heq.
  - intros Hne Hq. by rewrite setValue_quiet, Hne.
  - intros pre k f post e w' Hne Hcb Hq Hf.
    assert (setValue v (x, w) = (Throw e, (x, w'))) as Hset.
    { rewrite setValue_cases, Hne, Hcb. unfold Prelude.bind. rewrite notify_app by done. cbn [notify].
      unfold Prelude.bind, on_world, lift. cbn [snd]. by rewrite Hf. }
    split; [done|]. intros str Hstr. unfold fromString, try_catch. rewrite Hstr, bind_fail_Ok. unfold Prelude.bind.
    by rewrite Hset.
Qed.

(** ** The registry *)

Definition any_name (x : any_var) : string := m_name _ (var_of x).

(** Every registered name has an object, which has that name. *)
Definition registry_ok (c : Config) : Prop :=
  forall name p, s_datas c !! name = Some p -> exists x, vars c !! p = Some x /\ any_name x = name.

(** Objects keep their types and names, names keep their objects. *)
Definition extends (c c' : Config) : Prop :=
  (forall p x, vars c !! p = Some x -> exists x', vars c' !! p = Some x' /\ var_type x' = var_type x /\ any_name x' = any_name x) /\
  s_datas c ⊆ s_datas c'.

#[export] Instance extends_preorder : PreOrder extends.
Proof.
  split.
  - intros c. split; [|done]. intros p x Hx. by exists x.
  - intros c1 c2 c3 [Hv Hs] [Hv' Hs']. split; [|by trans (s_datas c2)]. intros p x Hx.
    destruct (Hv p x Hx) as (x' & Hx' & Ht & Hn). destruct (Hv' p x' Hx') as (x'' & Hx'' & Ht' & Hn').
    exists x''. split_and!; congruence.
Qed.

Lemma dynamic_cast_at t p (x : ConfigVar t) (c : Config) : vars c !! p = Some (mkAny t x) -> dynamic_cast t p c = (Ok (Some p), c).
Proof. intros Hx. unfold dynamic_cast. rewrite Hx. cbn [var_type]. by rewrite decide_True. Qed.

(** A new variable in the registry. *)
Definition register (t : ty) name (v : val t) desc (c : Config) : Config :=
  mkConfig (vars c ++ [mkAny t (ConfigVar_ctor t name v desc)]) (<[name := length (vars c)]> (s_datas c)) (world c).

Lemma Lookup_default_cases t name v desc (c : Config) : Lookup_default t name v desc c =
  match s_datas c !! name with
  | Some p => dynamic_cast t p c
  | None => (Ok (Some (length (vars c))), register t name v desc c)
  end.
Proof. unfold Lookup_default. rewrite bind_get. by destruct (s_datas c !! name). Qed.

Lemma register_ok t name v desc (c : Config) : registry_ok c -> s_datas c !! name = None ->
  registry_ok (register t name v desc c) /\ extends c (register t name v desc c).
Proof.
  intros Hok Hname. split.
  - intros n p. cbn. destruct (decide (n = name)) as [->|Hne].
    + rewrite lookup_insert_eq. intros [= <-]. rewrite lookup_app_r, Nat.sub_diag by done. by eexists.
    + rewrite lookup_insert_ne by done. intros Hp. destruct (Hok n p Hp) as (x & Hx & Hn). exists x.
      split; [by apply lookup_app_l_Some|done].
  - split; [|by apply insert_subseteq]. intros p x Hx. exists x. split; [by apply lookup_app_l_Some|done].
Qed.

(** C28: (type) the registry is typed: the pointer that [Lookup] returns for a type
    is null, or points to the variable of that type that is registered under the
    name; it is null when the name is taken by a variable of another type, which
    is left alone.  No object ever changes its type or its name, and no name its
    object. *)
Theorem Lookup_typed t name (v : val t) desc (c : Config) : registry_ok c ->
  exists r c', Lookup_default t name v desc c = (Ok r, c') /\ registry_ok c' /\ extends c c' /\
  match r with
  | Some p => s_datas c' !! name = Some p /\ exists x : ConfigVar t, vars c' !! p = Some (mkAny t x) /\ m_name _ x = name /\
      (s_datas c !! name = None -> m_val _ x = v) /\ Lookup t name c' = (Ok (Some p), c')
  | None => c' = c /\ exists p x, s_datas c !! name = Some p /\ vars c !! p = Some x /\ var_type x <> t
  end.
Proof.
  intros Hok. rewrite Lookup_default_cases. destruct (s_datas c !! name) as [p|] eqn:Hname.
  - destruct (Hok name p Hname) as ([t' x] & Hx & Hn). unfold dynamic_cast. rewrite Hx. cbn [var_type].
    destruct (decide (t' = t)) as [->|Hne].
    + exists (Some p), c. split_and!; try done. exists x. split_and!; try done.
      unfold Lookup. rewrite bind_get, Hname. by apply (dynamic_cast_at t _ x).
    + exists None, c. split_and!; try done. by exists p, (mkAny t' x).
  - destruct (register_ok t name v desc c Hok Hname) as [Hok' Hext].
    assert (vars (register t name v desc c) !! length (vars c) = Some (mkAny t (ConfigVar_ctor t name v desc))) as Hx
      by (cbn; by rewrite lookup_app_r, Nat.sub_diag).
    eexists _, _. split_and!; [done|done|done|]. split; [by apply lookup_insert_eq|]. eexists. split_and!; [exact Hx|done|done|].
    unfold Lookup. rewrite bind_get.
    replace (s_datas (register t name v desc c) !! name) with (Some (length (vars c))) by (symmetry; apply lookup_insert_eq).
    by apply (dynamic_cast_at t _ _ _ Hx).
Qed.

(** ** Loading *)

(** The value of the variable of a name. *)
Record valued : Type := mkValued { value_type : ty; value_of : val value_type }.

Definition valued_of (x : any_var) : valued := mkValued (var_type x) (m_val _ (var_of x)).

Definition value (c : Config) (name : string) : option valued :=
  match s_datas c !! name with
  | Some p => valued_of <$> vars c !! p
  | None => None
  end.

(** What the text of a leaf makes of it: the value converted, when it can be and is
    another one, and a new string when there is no variable. *)
Definition load_value (o : option valued) (s : string) : option valued :=
  match o with
  | Some (mkValued t v) => Some (mkValued t
      match from_text t s with Ok v' => if operator_eq t v v' then v else v' | _ => v end)
  | None => Some (mkValued TString s)
  end.

Lemma lower_folded s : lower s = folded s.
Proof.
  unfold folded. induction s as [|c s IH]; [done|]. cbn. rewrite IH. f_equal.
  by destruct c as [[] [] [] [] [] [] [] []].
Qed.

(** A scalar is its text; another leaf, a sequence say, the text that it is printed as. *)
Definition text_of (n : Y) (txt : string) : Prop :=
  (IsScalar n = true -> txt = Scalar n) /\ (IsScalar n = false -> txt = yaml_emit n).

(** The texts of the leaves of a name, in order: those whose path, in small letters, is it. *)
Inductive texts (name : string) : list (list string * Y) -> list string -> Prop :=
  | texts_nil : texts name [] []
  | texts_this ks n ls txt txts : folded (dotted ks) = name -> text_of n txt -> texts name ls txts ->
      texts name ((ks, n) :: ls) (txt :: txts)
  | texts_other ks n ls txts : folded (dotted ks) <> name -> texts name ls txts -> texts name ((ks, n) :: ls) txts.

Lemma node_text_of n : text_of n (node_text n).
Proof. unfold node_text. by destruct (IsScalar n) eqn:Hn; split; rewrite Hn. Qed.

(** Conversions return or throw, and all listeners return. *)
Definition casts : Prop := forall t s, (exists v : val t, from_text t s = Ok v) \/ exists e, from_text t s = Throw e.
Definition calm (c : Config) : Prop := forall p x, vars c !! p = Some x -> Forall (fun e => quiet (snd e)) (m_callbacks _ (var_of x)).

(** An outcome that is a result or an exception. *)
Definition answers {A} (o : outcome A) : Prop := (exists v, o = Ok v) \/ exists e, o = Throw e.

Lemma obind_answers {A C} (m : outcome A) (k : A -> outcome C) : answers m -> (forall a, answers (k a)) -> answers (obind m k).
Proof. intros [(a & ->)|(e & ->)] Hk; [apply Hk|right; by exists e]. Qed.

Lemma traverse_answers {A C} (f : A -> outcome C) l : (forall a, answers (f a)) -> answers (traverse f l).
Proof.
  intros Hf. induction l as [|a l IH]; [left; by exists []|]. cbn. apply obind_answers; [done|]. intros c.
  apply obind_answers; [done|]. intros cs. left. by eexists.
Qed.

(** Conversions answer when the ones of the base types and the YAML library do. *)
Lemma from_text_answers : (forall s, answers (lexical_cast_string s)) -> (forall b s, answers (lexical_cast_from b s)) ->
  (forall s, answers (yaml_load s)) -> (forall (n : Y) i, answers (yaml_at n i)) ->
  forall t s, answers (from_text t s : outcome (val t)).
Proof.
  intros Hs Hb Hl Ha.
  assert (forall t, (forall s, answers (from_text t s : outcome (val t))) -> forall s, answers (sequence_elems (from_text t) s)) as Hseq.
  { intros t Ht s. apply obind_answers; [done|]. intros n. apply traverse_answers. intros i. by apply obind_answers. }
  assert (forall t, (forall s, answers (from_text t s : outcome (val t))) -> forall s, answers (map_elems (from_text t) s)) as Hmap.
  { intros t Ht s. apply obind_answers; [done|]. intros n. apply traverse_answers. intros e. apply obind_answers; [done|].
    intros v. left. by eexists. }
  induction t as [|b|t IH|t IH|t IH|t IH|t IH|t IH]; cbn [from_text]; try exact Hs; try exact (Hb b);
    try (by apply Hseq); intros s; (apply obind_answers; [auto|]); intros l; left; by eexists.
Qed.

Lemma fromString_quiet {t} s (x : ConfigVar t) w : casts -> Forall (fun e => quiet (snd e)) (m_callbacks _ x) ->
  exists b x' w', fromString s (x, w) = (Ok b, (x', w')) /\ m_name _ x' = m_name _ x /\ m_callbacks _ x' = m_callbacks _ x /\
    Some (mkValued t (m_val _ x')) = load_value (Some (mkValued t (m_val _ x))) s.
Proof.
  intros Hcasts Hq. unfold fromString, try_catch, load_value. destruct (Hcasts t s) as [(v & Hv)|(e & He)].
  - rewrite Hv, bind_fail_Ok. rewrite (bind_Ok _ _ _ _ _ (setValue_quiet v x w Hq)).
    destruct (operator_eq t (m_val t x) v); by eexists _, _, _.
  - rewrite He. by eexists _, x, w.
Qed.

Lemma load_node_spec node (c : Config) : casts -> registry_ok c -> calm c ->
  exists c', load_node node c = (Ok tt, c') /\ registry_ok c' /\ calm c' /\ extends c c' /\
    forall name, value c' name = if decide (lower (fst node) = name) then load_value (value c name) (node_text (snd node)) else value c name.
Proof.
  intros Hcasts Hok Hcalm. unfold load_node, LookupBase. cbv zeta. rewrite bind_get.
  destruct (s_datas c !! lower (fst node)) as [p|] eqn:Hp.
  - destruct (Hok _ p Hp) as ([t x] & Hx & Hn).
    destruct (fromString_quiet (node_text (snd node)) x (world c) Hcasts (Hcalm _ _ Hx)) as (b & x' & w' & Hrun & Hnm & Hcb & Hval).
    eexists. split; [unfold Prelude.bind, call; rewrite Hx, Hrun; reflexivity|].
    pose proof (lookup_lt_Some _ _ _ Hx) as Hlt. split_and!.
    + intros name q Hq. cbn in Hq |- *. destruct (Hok name q Hq) as (y & Hy & Hny). destruct (decide (q = p)) as [->|Hne].
      * rewrite list_lookup_insert_eq by done. rewrite Hx in Hy. injection Hy as <-. eexists. split; [done|]. etrans; [exact Hnm|exact Hny].
      * rewrite list_lookup_insert_ne by done. by exists y.
    + intros q y. cbn. destruct (decide (q = p)) as [->|Hne].
      * rewrite list_lookup_insert_eq by done. intros [= <-]. cbn. rewrite Hcb. apply (Hcalm _ _ Hx).
      * rewrite list_lookup_insert_ne by done. apply Hcalm.
    + split; [|done]. intros q y Hy. cbn. destruct (decide (q = p)) as [->|Hne].
      * rewrite list_lookup_insert_eq by done. rewrite Hx in Hy. injection Hy as <-. by eexists.
      * rewrite list_lookup_insert_ne by done. by exists y.
    + intros name. unfold value. cbn. destruct (decide (lower (fst node) = name)) as [<-|Hne].
      * rewrite Hp, list_lookup_insert_eq, Hx by done. exact Hval.
      * destruct (s_datas c !! name) as [q|] eqn:Hq; [|done]. rewrite list_lookup_insert_ne; [done|]. intros <-.
        destruct (Hok _ _ Hq) as (y & Hy & Hny). congruence.
  - unfold Prelude.bind at 1. rewrite Lookup_default_cases, Hp.
    destruct (register_ok TString (lower (fst node)) (node_text (snd node)) EmptyString c Hok Hp) as [Hok' Hext].
    eexists. split_and!; [done|done| |done|].
    + intros q y. cbn. intros [Hy|(_ & Hy)]%lookup_app_Some; [by eapply Hcalm|].
      apply list_lookup_singleton_Some in Hy as [_ <-]. constructor.
    + intros name. unfold value. cbn. destruct (decide (lower (fst node) = name)) as [<-|Hne].
      * rewrite Hp, lookup_insert_eq, lookup_app_r, Nat.sub_diag by done. done.
      * rewrite lookup_insert_ne by done. destruct (s_datas c !! name) as [q|] eqn:Hq; [|done].
        destruct (Hok _ _ Hq) as (y & Hy & _). rewrite Hy. by rewrite (lookup_app_l_Some _ _ _ _ Hy).
Qed.

Lemma load_nodes_spec ls : casts -> forall c : Config, registry_ok c -> calm c ->
  exists c', load_nodes (map path_of ls) c = (Ok tt, c') /\ registry_ok c' /\ calm c' /\ extends c c' /\
    forall name, exists txts, texts name ls txts /\ value c' name = fold_left load_value txts (value c name).
Proof.
  intros Hcasts. induction ls as [|[ks n] ls IH]; intros c Hok Hcalm.
  { exists c. split_and!; try done. intros name. exists []. by split; [constructor|]. }
  cbn [map load_nodes]. destruct (load_node_spec (path_of (ks, n)) c Hcasts Hok Hcalm) as (c1 & Hrun & Hok1 & Hcalm1 & Hext1 & Hval1).
  destruct (IH c1 Hok1 Hcalm1) as (c2 & Hrun2 & Hok2 & Hcalm2 & Hext2 & Hval2).
  exists c2. rewrite (bind_Ok _ _ _ _ _ Hrun). split_and!; [done|done|done|by trans c1|].
  intros name. destruct (Hval2 name) as (txts & Htxts & Hval). specialize (Hval1 name). cbn [path_of fst snd] in Hval1. rewrite lower_folded in Hval1.
  destruct (decide (folded (dotted ks) = name)) as [Heq|Hne].
  - exists (node_text n :: txts). split; [constructor; [done|apply node_text_of|done]|]. by rewrite Hval, Hval1.
  - exists txts. split; [by constructor|]. by rewrite Hval, Hval1.
Qed.

Lemma texts_upper name ls txts : texts name ls txts -> folded name <> name -> txts = [].
Proof.
  induction 1 as [|ks n ls txt txts <- _ _ _|ks n ls txts _ _ IH]; intros Hne; [done| |by apply IH]. destruct Hne. apply folded_idem.
Qed.

(** C20: (functional) On a finite tree, when no listener of a variable throws and
    conversions either return or throw an exception, [LoadFromYaml] returns, keeps the
    registry typed and every variable in its place, and takes the leaves of the tree
    one after the other, in the order of the text: a leaf is for the name that its keys
    make with dots between them, in small letters, and its text (its scalar, or what
    another leaf is printed as) is converted to the type of the variable of that name,
    which gets the value unless it is equal to its own; a text that cannot be
    converted changes nothing, and a name without a variable gets one, a string with
    the text.  No other value changes; a variable with a capital letter in its name is
    never changed. *)
Theorem LoadFromYaml_values (depth : Y -> nat) fuel root (c : Config) : finite_tree depth -> depth root < fuel ->
  casts -> registry_ok c -> calm c ->
  exists ls c', leaves [] root ls /\ LoadFromYaml fuel root c = (Ok tt, c') /\ registry_ok c' /\ extends c c' /\
    (forall name, exists txts, texts name ls txts /\ value c' name = fold_left load_value txts (value c name)) /\
    (forall name, folded name <> name -> value c' name = value c name).
Proof.
  intros Htree Hf Hcasts Hok Hcalm. destruct (parse_leaves depth fuel Htree [] root Hf) as (ls & Hls & Hparse).
  destruct (load_nodes_spec ls Hcasts c Hok Hcalm) as (c' & Hrun & Hok' & _ & Hext & Hval).
  exists ls, c'. split_and!; try done; [by apply Hls| |].
  - unfold LoadFromYaml. change EmptyString with (dotted []). by rewrite Hparse, bind_fail_Ok.
  - intros name Hne. destruct (Hval name) as (txts & Htxts & ->). by rewrite (texts_upper _ _ _ Htxts Hne).
Qed.
End variables.

(** ** Round trips *)

(** (roundtrip) [LexicalCast] to text and back gives the value again: for every
    type built of vectors, lists, ordered sets and maps over base types, and every
    value whose elements of base types are read back from their texts. *)
Theorem text_roundtrip {B} `{EqDecision B} {base : B -> Type} `{Values B base} {Y} `{YamlLaws Y} (t : ty B) (v : val base t) :
  plain t v -> exists s, to_text t v = Ok s /\ from_text t s = Ok v.
Proof. intros Hv. destruct (plain_readable t v Hv) as (s & _ & Hto & Hfrom & _). by exists s. Qed.

(** ** Witnesses *)

(** Trees whose text is a numeral. *)
Fixpoint pos_text (p : positive) : string :=
  match p with xH => EmptyString | xO p => String "0" (pos_text p) | xI p => String "1" (pos_text p) end.
Fixpoint text_pos (s : string) : option positive :=
  match s with
  | EmptyString => Some xH
  | String c s => p ← text_pos s; Some (if Ascii.eqb c "0" then xO p else xI p)
  end.

Definition tree : Type := gen_tree string.
Definition tree_entry (e : string * tree) : tree := GenNode 2 [GenLeaf (fst e); snd e].
Definition entry_of (n : tree) : option (tree * tree) := match n with GenNode 2 [k; v] => Some (k, v) | _ => None end.
Definition has_key (k : string) (n : tree) : bool := match n with GenNode 2 [GenLeaf k'; _] => String.eqb k k' | _ => false end.

#[local] Instance tree_yaml : Yaml tree := {|
  yaml_load s := match s with
                 | String "!" s' => match text_pos s' ≫= decode with Some (GenNode i l) => Ok (GenNode i l) | _ => Ok (GenLeaf s) end
                 | _ => Ok (GenLeaf s)
                 end;
  yaml_load_file s := Throw runtime_error;
  yaml_emit n := match n with GenLeaf s => s | GenNode i l => String "!" (pos_text (encode (GenNode i l : tree))) end;
  IsMap n := match n with GenNode 1 _ => true | _ => false end;
  IsScalar n := match n with GenLeaf _ => true | _ => false end;
  Scalar n := match n with GenLeaf s => s | _ => EmptyString end;
  yaml_entries n := match n with GenNode _ l => omap entry_of l | _ => [] end;
  yaml_size n := match n with GenNode _ l => length l | _ => 0 end;
  yaml_at n i := match n with GenNode _ l => match l !! i with Some x => Ok x | None => Throw runtime_error end | _ => Throw runtime_error end;
  yaml_sequence := GenNode 0 [];
  push_back n x := match n with GenNode i l => GenNode i (l ++ [x]) | _ => n end;
  yaml_map := GenNode 1 [];
  set_key n k x := match n with
                   | GenNode i l => GenNode i (if existsb (has_key k) l then map (fun y => if has_key k y then tree_entry (k, x) else y) l
                                               else l ++ [tree_entry (k, x)])
                   | _ => n
                   end
|}.

Lemma text_pos_text p : text_pos (pos_text p) = Some p.
Proof. induction p as [p IH|p IH|]; cbn; [by rewrite IH..|done]. Qed.

Lemma node_reads_back i (l : list tree) : reads_back (GenNode i l : tree).
Proof. unfold reads_back. cbn [yaml_emit tree_yaml yaml_load]. rewrite text_pos_text. cbn [mbind option_bind]. by rewrite decode_encode. Qed.

Lemma tree_sequence (ns l : list tree) i : fold_left push_back ns (GenNode i l) = GenNode i (l ++ ns).
Proof. revert l. induction ns as [|n ns IH]; intros l; cbn; [by rewrite app_nil_r|]. by rewrite IH, <- app_assoc. Qed.

Lemma has_key_entry k (es : list (string * tree)) : k ∉ es.*1 -> existsb (has_key k) (map tree_entry es) = false.
Proof.
  induction es as [|[k' v] es IH]; intros Hk; [done|]. apply not_elem_of_cons in Hk as [Hne Hk]. cbn.
  rewrite (proj2 (String.eqb_neq k k')) by done. by apply IH.
Qed.

Lemma tree_set_key (acc : list (string * tree)) i k v : k ∉ acc.*1 ->
  set_key (GenNode i (map tree_entry acc)) k v = GenNode i (map tree_entry (acc ++ [(k, v)])).
Proof. intros Hk. cbn [set_key tree_yaml]. by rewrite has_key_entry, map_app. Qed.

Lemma tree_map (es acc : list (string * tree)) i : NoDup (acc ++ es).*1 ->
  fold_left (fun n e => set_key n (fst e) (snd e)) es (GenNode i (map tree_entry acc)) = GenNode i (map tree_entry (acc ++ es)).
Proof.
  revert acc. induction es as [|[k v] es IH]; intros acc Hnd; cbn [fold_left]; [by rewrite app_nil_r|].
  rewrite tree_set_key, IH; [by rewrite <- app_assoc|by rewrite <- app_assoc|].
  rewrite fmap_app in Hnd. apply list.NoDup_app in Hnd as (_ & Hdisj & _). intros Hin. apply (Hdisj k Hin). by left.
Qed.

#[local] Instance tree_laws : YamlLaws tree.
Proof.
  assert (forall ns, sequence_of ns = GenNode 0 ns) as Hseq by (intros ns; apply tree_sequence).
  assert (forall es, NoDup es.*1 -> map_of es = GenNode 1 (map tree_entry es)) as Hmap by (intros es Hnd; by apply (tree_map es [])).
  split.
  - intros ns _. rewrite Hseq. apply node_reads_back.
  - intros ns. by rewrite Hseq.
  - intros ns i n Hn. rewrite Hseq. change (match ns !! i with Some x => Ok x | None => Throw runtime_error end = Ok n). by rewrite Hn.
  - intros es Hnd _. rewrite Hmap by done. apply node_reads_back.
  - intros es Hnd. rewrite Hmap by done. cbn. clear. induction es as [|[k v] es IH]; [done|]. cbn. by rewrite IH.
Qed.

(** No base types but strings. *)
#[local] Instance no_values : Values Empty_set (fun _ => Empty_set) := {|
  lexical_cast_string s := Ok s;
  lexical_cast_from b := match b : Empty_set with end;
  lexical_cast_to b := match b : Empty_set with end;
  operator_eq t v w := match t as t return val _ t -> val _ t -> bool with TString => String.eqb | _ => fun _ _ => false end v w;
  operator_less t v w := match t as t return val _ t -> val _ t -> bool with TString => String.ltb | _ => fun _ _ => false end v w;
  hash_place t x l := 0;
  hash_place_key t k l := 0
|}.

(** A map of vectors of sets. *)
Lemma text_roundtrip_witness : exists s,
  to_text (B := Empty_set) (base := fun _ => Empty_set) (TMap (TVector (TSet TString)))
    [("a", [["x"; "y"]; []]); ("b", [])]%string = Ok s /\
  from_text (TMap (TVector (TSet TString))) s = Ok [("a", [["x"; "y"]; []]); ("b", [])]%string.
Proof.
  apply (text_roundtrip (B := Empty_set) (base := fun _ => Empty_set) (TMap (TVector (TSet TString)))
    [("a", [["x"; "y"]; []]); ("b", [])]%string).
  cbn [plain val]. repeat (constructor; cbn [plain val fst snd]); try (eexists _, _; split_and!; reflexivity); done.
Defined.

Definition three : tree := GenNode 1 [tree_entry ("A"%string, GenNode 1 [tree_entry ("b"%string, GenLeaf "1"%string)]); tree_entry ("c"%string, GenLeaf "2"%string)].

Fixpoint tree_depth (n : tree) : nat := match n with GenLeaf _ => 0 | GenNode _ l => S (list_max (map tree_depth l)) end.

Lemma tree_depth_entries (n : tree) e : IsMap n = true -> e ∈ yaml_entries n -> tree_depth (snd e) < tree_depth n.
Proof.
  destruct n as [|i l]; [done|]. intros _. cbn [yaml_entries tree_yaml]. rewrite list_elem_of_omap. intros (x & Hx & He).
  cbn [tree_depth]. apply list_elem_of_In in Hx. pose proof (proj1 (list_max_le (map tree_depth l) _) (Nat.le_refl _)) as Hmax.
  rewrite Forall_forall in Hmax. specialize (Hmax _ (in_map tree_depth _ _ Hx)).
  destruct x as [|[|[|[|]]] [|k [|v [|]]]]; try done. injection He as <-. cbn in Hmax |- *.
  apply le_n_S. etrans; [|exact Hmax]. lia.
Qed.

Lemma ParseNodes_leaves_witness : exists ls, leaves [] three ls /\
  ParseNodes 5 EmptyString three = Ok (map (fun l => (dotted (fst l), snd l)) ls).
Proof.
  destruct (ParseNodes_leaves tree_depth 5 [] three tree_depth_entries ltac:(vm_compute; lia)) as (ls & Hls & Hrun).
  exists ls. split; [by apply Hls|exact Hrun].
Defined.

(** Two string variables, one with a capital letter. *)
Definition two_vars : Config (base := fun _ : Empty_set => Empty_set) (W := unit) :=
  mkConfig [mkAny TString (ConfigVar_ctor TString "a.b" "0" EmptyString); mkAny TString (ConfigVar_ctor TString "A.b" "0" EmptyString)]%string
    (<["a.b" := 0]> (<["A.b" := 1]> ∅))%string tt.

Lemma two_vars_ok : registry_ok two_vars.
Proof.
  intros name p Hp. unfold two_vars in Hp. cbn [s_datas] in Hp. apply lookup_insert_Some in Hp as [[<- <-]|[_ Hp]]; [by eexists|].
  apply lookup_insert_Some in Hp as [[<- <-]|[_ Hp]]; [by eexists|done].
Qed.

Lemma string_casts : casts (B := Empty_set) (base := fun _ => Empty_set).
Proof.
  intros t s. apply from_text_answers; [intros; by left; eexists|intros []|..].
  - intros str. left. cbn. repeat case_match; by eexists.
  - intros n i. unfold answers. cbn. repeat case_match; eauto.
Qed.

Lemma LoadFromYaml_values_witness : exists ls c', leaves [] three ls /\ LoadFromYaml 5 three two_vars = (Ok tt, c') /\
  exists txts, texts "a.b" ls txts /\ value c' "a.b" = fold_left load_value txts (value two_vars "a.b").
Proof.
  destruct (LoadFromYaml_values tree_depth 5 three two_vars tree_depth_entries ltac:(vm_compute; lia) string_casts two_vars_ok)
    as (ls & c' & Hls & Hrun & _ & _ & Hval & _).
  - intros p x Hp. destruct p as [|[|p]]; cbn in Hp; [injection Hp as <-..|done]; constructor.
  - exists ls, c'. split; [exact Hls|]. split; [exact Hrun|apply Hval].
Defined.

(** The value loaded is the one of the leaf ["A.b"]. *)
Example loads_one : value (snd (LoadFromYaml 5 three two_vars)) "a.b" = Some (mkValued TString "1"%string).
Proof. vm_compute. reflexivity. Qed.

Lemma Lookup_typed_witness : exists c', Lookup_default (TVector TString) "a.b" [] EmptyString two_vars = (Ok None, c').
Proof.
  destruct (Lookup_typed (TVector TString) "a.b" [] EmptyString two_vars two_vars_ok) as (r & c' & Hrun & _ & _ & Hr).
  exists c'. rewrite Hrun. destruct r as [p|]; [|reflexivity]. exfalso. clear Hr. vm_compute in Hrun. discriminate Hrun.
Defined.

(** A listener that stores the new value in the world. *)
Lemma setValue_notifies_witness :
  setValue (B := Empty_set) (base := fun _ => Empty_set) (W := string) (t := TString) "2"%string
    (mkVar TString "x" EmptyString "1" [(1%Z, fun _ n => fun w => (Ok tt, n))], EmptyString)%string =
  (Ok tt, (mkVar TString "x" EmptyString "2" [(1%Z, fun _ n => fun w => (Ok tt, n))], "2"))%string.
Proof.
  apply (setValue_notifies (B := Empty_set) (base := fun _ => Empty_set) (W := string) (t := TString) "2"%string
    (mkVar TString "x" EmptyString "1" [(1%Z, fun _ n => fun w => (Ok tt, n))]) EmptyString); [reflexivity|].
  constructor; [|constructor]. intros o n w. by eexists.
Defined.
