(* ===== verification/Log.v ===== *)
(** * Log: levels, events, patterns, appenders and loggers

    Models [cczoecpp/Log]: [LogLevel], [LogEvent], the pattern parser and the items
    of [LogFormatter], [LogAppender] with its two subclasses, [Logger],
    [LoggerManager] and the macros of [Log.h].

    [strftime] on the local time is a parameter.  The mutexes are taken through
    balanced guards ([Mutex.v]) and left out. *)

From stdpp Require Import base list numbers strings pretty gmap.
From Stdlib Require Import Ascii String.
From S2P Require Import Prelude Words.

Local Open Scope string_scope.
Local Open Scope nat_scope.

(** ** [LogLevel] *)

Inductive Level : Set := UNKNOWN | DEBUG | INFO | WARN | ERROR | FATAL.

Definition level_num (l : Level) : Z :=
  match l with UNKNOWN => 0 | DEBUG => 1 | INFO => 2 | WARN => 3 | ERROR => 4 | FATAL => 5 end.

(** [level >= threshold] *)
Definition passes (level threshold : Level) : bool := (level_num threshold <=? level_num level)%Z.

Definition toString (l : Level) : string :=
  match l with
  | DEBUG => "DEBUG" | INFO => "INFO" | WARN => "WARN" | ERROR => "ERROR" | FATAL => "FATAL" | UNKNOWN => "UNKNOWN"
  end.

Definition fromString (str : string) : Level :=
  if String.eqb str "debug" then DEBUG else if String.eqb str "info" then INFO else
  if String.eqb str "warn" then WARN else if String.eqb str "error" then ERROR else
  if String.eqb str "fatal" then FATAL else
  if String.eqb str "DEBUG" then DEBUG else if String.eqb str "INFO" then INFO else
  if String.eqb str "WARN" then WARN else if String.eqb str "ERROR" then ERROR else
  if String.eqb str "FATAL" then FATAL else UNKNOWN.

(** ** [LogEvent] *)

(** [m_file] may be null; the logger is given by its index ([Loggers] below). *)
Record LogEvent : Type := mkLogEvent {
  m_threadName : string;
  m_file : option string;
  m_line : Z;
  m_elapse : Z;
  m_tid : Z;
  m_fid : Z;
  m_time : Z;
  m_ss : string;
  m_logger : nat;
  m_level : Level
}.

Definition LogEvent_ctor (threadName : string) (file : option string) (line elapse tid fid time : Z) (logger : nat) (level : Level) : LogEvent :=
  mkLogEvent threadName file line elapse tid fid time EmptyString logger level.

(** [getSS() << s] *)
Definition event_stream (s : string) (e : LogEvent) : LogEvent :=
  mkLogEvent (m_threadName e) (m_file e) (m_line e) (m_elapse e) (m_tid e) (m_fid e) (m_time e)
    (m_ss e ++ s) (m_logger e) (m_level e).

(** [format(fmt, ...)] appends what [vasprintf] gives, or nothing when it fails. *)
Definition event_format (vasprintf : option string) (e : LogEvent) : LogEvent :=
  match vasprintf with
  | Some s => event_stream s e
  | None => e
  end.

(** ** [LogFormatter] *)

Inductive FormatItem : Type :=
  | MessageFormatItem
  | LevelFormatItem
  | ElapseFormatItem
  | NameFormatItem
  | ThreadNameFormatItem
  | ThreadIdFormatItem
  | FiberIdFormatItem
  | DateTimeFormatItem (m_format : string)
  | FilenameFormatItem
  | LineFormatItem
  | NewLineFormatItem
  | StringFormatItem (m_string : string)
  | TabFormatItem.

Definition default_date : string := "%Y-%m-%d %H:%M:%S".

Definition newline : string := String (ascii_of_nat 10) EmptyString.
Definition tab : string := String (ascii_of_nat 9) EmptyString.

Section items.
(** [strftime] of a format at a time, and the names of the loggers. *)
Context (strftime : string -> Z -> string) (logger_name : nat -> string).

Definition item_format (item : FormatItem) (e : LogEvent) : outcome string :=
  match item with
  | MessageFormatItem => Ok (m_ss e)
  | LevelFormatItem => Ok (toString (m_level e))
  | ElapseFormatItem => Ok (pretty (m_elapse e))
  | NameFormatItem => Ok (logger_name (m_logger e))
  | ThreadNameFormatItem => Ok (m_threadName e)
  | ThreadIdFormatItem => Ok (pretty (m_tid e))
  | FiberIdFormatItem => Ok (pretty (m_fid e))
  | DateTimeFormatItem f => Ok (strftime f (m_time e))
  | FilenameFormatItem => match m_file e with Some f => Ok f | None => UB end
  | LineFormatItem => Ok (pretty (m_line e))
  | NewLineFormatItem => Ok newline
  | StringFormatItem s => Ok s
  | TabFormatItem => Ok tab
  end.

(** [LogFormatter::format] *)
Fixpoint format (items : list FormatItem) (e : LogEvent) : outcome string :=
  match items with
  | [] => Ok EmptyString
  | item :: items =>
      match item_format item e, format items e with
      | Ok s, Ok t => Ok (s ++ t)
      | Ok _, o => o
      | o, _ => o
      end
  end.
End items.

(** ** The pattern parser *)

Section init.
Context (m_pattern : list ascii).

(** [m_pattern[i]]: the terminating zero at [size()], undefined beyond. *)
Definition at_ (i : nat) : outcome ascii :=
  match m_pattern !! i with
  | Some c => Ok c
  | None => if (i =? List.length m_pattern)%nat then Ok zero else UB
  end.

Definition ch (s : string) : ascii := match s with String c _ => c | EmptyString => zero end.

(** [while (end < m_pattern.size() && m_pattern[end] != '}') end++;] from [end],
    with [n] characters left. *)
Fixpoint find_close (n end_ : nat) : nat :=
  match n with
  | O => end_
  | S n =>
      match m_pattern !! end_ with
      | Some c => if Ascii.eqb c "}" then end_ else find_close n (S end_)
      | None => end_
      end
  end.

(** The directive of a character other than ['d']. *)
Definition directive (c : ascii) : option FormatItem :=
  if Ascii.eqb c "T" then Some TabFormatItem else
  if Ascii.eqb c "t" then Some ThreadIdFormatItem else
  if Ascii.eqb c "N" then Some ThreadNameFormatItem else
  if Ascii.eqb c "F" then Some FiberIdFormatItem else
  if Ascii.eqb c "p" then Some LevelFormatItem else
  if Ascii.eqb c "c" then Some NameFormatItem else
  if Ascii.eqb c "f" then Some FilenameFormatItem else
  if Ascii.eqb c "l" then Some LineFormatItem else
  if Ascii.eqb c "m" then Some MessageFormatItem else
  if Ascii.eqb c "n" then Some NewLineFormatItem else None.

(** The branch of ['%']: the new items and the next [i]. *)
Definition percent (i : nat) : outcome (list FormatItem * nat) :=
  match at_ (i + 1) with
  | Ok c =>
      if Ascii.eqb c "d" then
        let braced := match m_pattern !! (i + 2) with Some c => Ascii.eqb c "{" | None => false end in
        let end_ := find_close (List.length m_pattern - (i + 3)) (i + 3) in
        if braced && match m_pattern !! end_ with Some c => Ascii.eqb c "}" | None => false end &&
           negb (end_ =? i + 3)%nat
        then Ok ([DateTimeFormatItem (string_of_list_ascii (take (end_ - i - 3) (drop (i + 3) m_pattern)))], end_ - 1 + 2)
        else Ok ([DateTimeFormatItem default_date], i + 2)
      else match directive c with
           | Some item => Ok ([item], i + 2)
           | None => Ok ([], i + 2)
           end
  | o => UB
  end.

(** The inner loop of the other branch, up to the next ['%']: the characters after
    [i] and the index of the last. *)
Fixpoint literal (fuel i : nat) : outcome (list ascii * nat) :=
  match fuel with
  | O => Diverge
  | S fuel =>
      match at_ (i + 1) with
      | Ok c =>
          if Ascii.eqb c "%" then Ok ([], i) else
          match at_ (i + 1) with
          | Ok c => match literal fuel (i + 1) with Ok (s, i) => Ok (c :: s, i) | o => o end
          | _ => UB
          end
      | _ => UB
      end
  end.

(** The outer loop: [i] grows in every round, and the inner loop leaves the
    pattern after at most its length, so that its length is enough fuel. *)
Fixpoint init_loop (fuel i : nat) : outcome (list FormatItem) :=
  match m_pattern !! i with
  | None => Ok []
  | Some c =>
      match fuel with
      | O => Diverge
      | S fuel =>
          if Ascii.eqb c "%" then
            match percent i with
            | Ok (items, i) => match init_loop fuel i with Ok l => Ok (items ++ l)%list | o => o end
            | _ => UB
            end
          else
            match literal (2 + List.length m_pattern) i with
            | Ok (s, i) =>
                match init_loop fuel (i + 1) with
                | Ok l => Ok (StringFormatItem (string_of_list_ascii (c :: s)) :: l)
                | o => o
                end
            | Diverge => Diverge
            | _ => UB
            end
      end
  end.

Definition init : outcome (list FormatItem) := init_loop (List.length m_pattern) 0.
End init.

Definition LogFormatter_ctor (pattern : string) : outcome (list FormatItem) := init (list_ascii_of_string pattern).

(** ** Appenders and loggers

    Loggers and appenders are shared; a list holds the objects and a pointer is an
    index.  [out] is what has been written to the standard output, [files] what has
    been written to each file. *)

Inductive appender_kind : Type := StdoutLogAppender | FileLogAppender (m_filename : string).

Record LogAppender : Type := mkLogAppender {
  a_kind : appender_kind;
  a_level : Level;
  a_formatter : option (list FormatItem);
  a_hasFormatter : bool
}.

Definition StdoutLogAppender_default : LogAppender := mkLogAppender StdoutLogAppender DEBUG None false.
(** The constructor with a formatter does not set [m_hasFormatter]. *)
Definition StdoutLogAppender_fmt (f : option (list FormatItem)) : LogAppender := mkLogAppender StdoutLogAppender DEBUG f false.
Definition FileLogAppender_ctor (filename : string) : LogAppender := mkLogAppender (FileLogAppender filename) DEBUG None false.

Definition setFormatter (f : option (list FormatItem)) (a : LogAppender) : LogAppender :=
  mkLogAppender (a_kind a) (a_level a) f (bool_decide (is_Some f)).
Definition setLevel (l : Level) (a : LogAppender) : LogAppender :=
  mkLogAppender (a_kind a) l (a_formatter a) (a_hasFormatter a).

Record Logger : Type := mkLogger {
  l_name : string;
  l_level : Level;
  l_appenders : list nat;
  l_formatter : option (list FormatItem);
  l_root : option nat
}.

Definition set_l_level (v : Level) (l : Logger) : Logger := mkLogger (l_name l) v (l_appenders l) (l_formatter l) (l_root l).
Definition set_l_appenders (v : list nat) (l : Logger) : Logger := mkLogger (l_name l) (l_level l) v (l_formatter l) (l_root l).
Definition set_l_root (v : option nat) (l : Logger) : Logger := mkLogger (l_name l) (l_level l) (l_appenders l) (l_formatter l) v.

Definition default_pattern : string :=
  "%d{%Y-%m-%d %H:%M:%S}%T%t%T%N%T%F%T[%p]%T[%c]%T%f:%l%T%m%n".

Definition Logger_ctor (name : string) : outcome Logger :=
  match LogFormatter_ctor default_pattern with
  | Ok f => Ok (mkLogger name DEBUG [] (Some f) None)
  | Throw e => Throw e | Abort => Abort | UB => UB | Deadlock => Deadlock | Diverge => Diverge
  end.

(** The objects of the module, the [LoggerManager] singleton included. *)
Record Logs : Type := mkLogs {
  loggers : list Logger;
  appenders : list LogAppender;
  m_loggers : gmap string nat;
  m_root : nat;
  out : string;
  files : gmap string string
}.

Definition set_loggers (v : list Logger) (s : Logs) : Logs := mkLogs v (appenders s) (m_loggers s) (m_root s) (out s) (files s).
Definition set_m_loggers (v : gmap string nat) (s : Logs) : Logs := mkLogs (loggers s) (appenders s) v (m_root s) (out s) (files s).
Definition set_out (v : string) (s : Logs) : Logs := mkLogs (loggers s) (appenders s) (m_loggers s) (m_root s) v (files s).
Definition set_files (v : gmap string string) (s : Logs) : Logs := mkLogs (loggers s) (appenders s) (m_loggers s) (m_root s) (out s) v.

Definition logger_at (p : nat) : comp Logs Logger := fun s =>
  match loggers s !! p with Some l => (Ok l, s) | None => (UB, s) end.
Definition appender_at (p : nat) : comp Logs LogAppender := fun s =>
  match appenders s !! p with Some a => (Ok a, s) | None => (UB, s) end.
Definition set_logger (p : nat) (l : Logger) : comp Logs unit :=
  modify (fun s => set_loggers (<[p := l]> (loggers s)) s).

Definition addAppender (p a : nat) : comp Logs unit :=
  let! l := logger_at p in set_logger p (set_l_appenders (l_appenders l ++ [a])%list l).

(** The first one that is equal. *)
Fixpoint remove_first (a : nat) (l : list nat) : list nat :=
  match l with
  | [] => []
  | b :: l => if (a =? b)%nat then l else b :: remove_first a l
  end.

Definition delAppender (p a : nat) : comp Logs unit :=
  let! l := logger_at p in set_logger p (set_l_appenders (remove_first a (l_appenders l)) l).
Definition clearAppender (p : nat) : comp Logs unit :=
  let! l := logger_at p in set_logger p (set_l_appenders [] l).

Section log.
Context (strftime : string -> Z -> string).

(** The text of an event, names looked up in the current loggers. *)
Definition render (items : list FormatItem) (e : LogEvent) : comp Logs string := fun s =>
  (format strftime (fun p => match loggers s !! p with Some l => l_name l | None => EmptyString end) items e, s).

Definition write_out (a : LogAppender) (text : string) : comp Logs unit :=
  match a_kind a with
  | StdoutLogAppender => modify (fun s => set_out (out s ++ text) s)
  | FileLogAppender f => modify (fun s => set_files (<[f := default EmptyString (files s !! f) ++ text]> (files s)) s)
  end.

(** [log] of the two appenders; without a formatter of its own only the one of the
    standard output writes, with the logger's and whatever the level. *)
Definition appender_log (a : LogAppender) (logger : Logger) (level : Level) (e : LogEvent) : comp Logs unit :=
  if a_hasFormatter a && passes level (a_level a) then
    match a_formatter a with
    | Some f => let! t := render f e in write_out a t
    | None => fail UB
    end
  else if negb (a_hasFormatter a) then
    match a_kind a, l_formatter logger with
    | StdoutLogAppender, Some f => let! t := render f e in write_out a t
    | _, _ => ret tt
    end
  else ret tt.

Fixpoint log_all (l : list nat) (logger : Logger) (level : Level) (e : LogEvent) : comp Logs unit :=
  match l with
  | [] => ret tt
  | p :: l =>
      let! a := appender_at p in
      do! appender_log a logger level e in
      log_all l logger level e
  end.

(** [Logger::log]; [fuel] bounds the chain of roots, which has two loggers. *)
Fixpoint Logger_log (fuel p : nat) (level : Level) (e : LogEvent) : comp Logs unit :=
  match fuel with
  | O => fail Diverge
  | S fuel =>
      let! self := logger_at p in
      if passes level (l_level self) then
        match l_appenders self, l_root self with
        | _ :: _, _ => log_all (l_appenders self) self level e
        | [], Some r => Logger_log fuel r level e
        | [], None => ret tt
        end
      else ret tt
  end.

Definition Logger_debug (p : nat) (e : LogEvent) : comp Logs unit := Logger_log 2 p DEBUG e.
Definition Logger_info (p : nat) (e : LogEvent) : comp Logs unit := Logger_log 2 p INFO e.
Definition Logger_warn (p : nat) (e : LogEvent) : comp Logs unit := Logger_log 2 p WARN e.
Definition Logger_error (p : nat) (e : LogEvent) : comp Logs unit := Logger_log 2 p ERROR e.
Definition Logger_fatal (p : nat) (e : LogEvent) : comp Logs unit := Logger_log 2 p FATAL e.

(** The destructor of the wrapper logs the event. *)
Definition LogEventWrap_dtor (e : LogEvent) : comp Logs unit := Logger_log 2 (m_logger e) (m_level e) e.

(** The macros.  [here] is the constructor of the event with the place, the thread
    and the time of the call; the text is given to the event before its wrapper is
    destroyed. *)
Definition CCZOE_LOG_LEVEL (here : nat -> Level -> LogEvent) (logger : nat) (level : Level) (text : string) : comp Logs unit :=
  let! l := logger_at logger in
  if passes level (l_level l) then LogEventWrap_dtor (event_stream text (here logger level)) else ret tt.

Definition CCZOE_LOG_FMT_LEVEL (here : nat -> Level -> LogEvent) (logger : nat) (level : Level) (vasprintf : option string) : comp Logs unit :=
  let! l := logger_at logger in
  if passes (l_level l) level then LogEventWrap_dtor (event_format vasprintf (here logger level)) else ret tt.
End log.

(** ** [LoggerManager] *)

Definition LoggerManager_ctor : outcome Logs :=
  match Logger_ctor "root" with
  | Ok root => Ok (mkLogs [set_l_appenders [0] root] [StdoutLogAppender_default] {["root" := 0]} 0 EmptyString ∅)
  | Throw e => Throw e | Abort => Abort | UB => UB | Deadlock => Deadlock | Diverge => Diverge
  end.

Definition getRoot : comp Logs nat := get m_root.

Definition getLogger (name : string) : comp Logs nat :=
  let! m := get m_loggers in
  match m !! name with
  | Some p => ret p
  | None =>
      let! l := fail (Logger_ctor name) in
      let! r := getRoot in
      let! p := get (fun s => List.length (loggers s)) in
      do! modify (fun s => set_loggers (loggers s ++ [set_l_root (Some r) l])%list s) in
      do! modify (fun s => set_m_loggers (<[name := p]> (m_loggers s)) s) in
      ret p
  end.
