(* ===== verification/LogTheorems.v ===== *)
(** * LogTheorems: patterns are read back, and where a logger writes *)

From stdpp Require Import base list numbers strings gmap.
From Stdlib Require Import Ascii String.
From S2P Require Import Prelude Words Log.

Local Open Scope string_scope.
Local Open Scope nat_scope.
Local Open Scope list_scope.
#[local] Notation length := List.length.
#[local] Notation concat := List.concat.

(** ** The text of a pattern *)

(** The directive of an item, as the comment of the parser lists them. *)
Definition item_text (x : FormatItem) : list ascii :=
  match x with
  | StringFormatItem s => list_ascii_of_string s
  | DateTimeFormatItem f => list_ascii_of_string "%d{" ++ list_ascii_of_string f ++ list_ascii_of_string "}"
  | TabFormatItem => list_ascii_of_string "%T"
  | ThreadIdFormatItem => list_ascii_of_string "%t"
  | ThreadNameFormatItem => list_ascii_of_string "%N"
  | FiberIdFormatItem => list_ascii_of_string "%F"
  | LevelFormatItem => list_ascii_of_string "%p"
  | NameFormatItem => list_ascii_of_string "%c"
  | FilenameFormatItem => list_ascii_of_string "%f"
  | LineFormatItem => list_ascii_of_string "%l"
  | MessageFormatItem => list_ascii_of_string "%m"
  | NewLineFormatItem => list_ascii_of_string "%n"
  | ElapseFormatItem => []
  end.

Definition pattern_of (l : list FormatItem) : list ascii := concat (map item_text l).

(** Nonempty and without a character. *)
Definition clean (c : ascii) (s : string) : bool :=
  match list_ascii_of_string s with [] => false | l => forallb (fun d => negb (Ascii.eqb d c)) l end.

Definition is_literal (x : FormatItem) : bool := match x with StringFormatItem _ => true | _ => false end.

(** The items a pattern can stand for; a literal is as long as can be and is
    followed by a directive. *)
Fixpoint items_ok (l : list FormatItem) : bool :=
  match l with
  | [] => true
  | x :: l =>
      match x with
      | StringFormatItem s => clean "%" s && match l with [] => false | y :: _ => negb (is_literal y) end
      | DateTimeFormatItem f => clean "}" f
      | ElapseFormatItem => false
      | _ => true
      end && items_ok l
  end.

Section parser.
Context (p : list ascii).

Lemma lookup_at i rest k : drop i p = rest -> p !! (i + k) = rest !! k.
Proof. intros <-. by rewrite lookup_drop. Qed.

Lemma at_Some i c : p !! i = Some c -> at_ p i = Ok c.
Proof. intros Hi. unfold at_. by rewrite Hi. Qed.

Lemma drop_tail {A} i (l : list A) xs rest : drop i l = xs ++ rest -> drop (i + length xs) l = rest.
Proof. intros Hd. by rewrite <- drop_drop, Hd, drop_app_length. Qed.

Lemma percent_directive i c item rest :
  drop i p = "%"%char :: c :: rest -> Ascii.eqb c "d" = false -> directive c = Some item ->
  percent p i = Ok ([item], i + 2).
Proof.
  intros Hd Hc Hdir. unfold percent. rewrite (at_Some (i + 1) c) by (by rewrite (lookup_at i _ 1 Hd)).
  by rewrite Hc, Hdir.
Qed.

Lemma find_close_spec (f : list ascii) : forall j rest n,
  drop j p = f ++ "}"%char :: rest -> forallb (fun d => negb (Ascii.eqb d "}")) f = true -> length f < n ->
  find_close p n j = j + length f.
Proof.
  induction f as [|c f IH]; intros j rest [|n] Hd Hf Hn; simpl in *; try lia.
  - pose proof (lookup_at j _ 0 Hd) as Hl. rewrite Nat.add_0_r in Hl. rewrite Hl. simpl. lia.
  - pose proof (lookup_at j _ 0 Hd) as Hl. rewrite Nat.add_0_r in Hl. rewrite Hl. simpl.
    apply andb_true_iff in Hf as [Hc Hf]. apply negb_true_iff in Hc. rewrite Hc.
    rewrite (IH (S j) rest n); [lia| |done|lia].
    replace (S j) with (j + 1) by lia. by rewrite <- drop_drop, Hd.
Qed.

Lemma percent_date i f rest :
  drop i p = item_text (DateTimeFormatItem f) ++ rest -> clean "}" f = true ->
  percent p i = Ok ([DateTimeFormatItem f], i + length (item_text (DateTimeFormatItem f))).
Proof.
  intros Hd Hf. cbn [item_text list_ascii_of_string app] in Hd |- *. rewrite <- app_assoc in Hd. cbn [app] in Hd.
  set (fl := list_ascii_of_string f) in *.
  assert (length p = i + length (drop i p)) as Hlen.
  { rewrite length_drop. enough (i < length p) by lia. apply (lookup_lt_Some p i "%"%char).
    pose proof (lookup_at i _ 0 Hd) as Hl. by rewrite Nat.add_0_r in Hl. }
  rewrite Hd in Hlen. cbn [length] in Hlen. rewrite length_app in Hlen. cbn [length] in Hlen.
  assert (0 < length fl /\ forallb (fun d => negb (Ascii.eqb d "}")) fl = true) as [Hpos Hclean].
  { unfold clean in Hf. fold fl in Hf. destruct fl as [|c fl]; [done|]. simpl. split; [lia|done]. }
  assert (drop (i + 3) p = fl ++ "}"%char :: rest) as Hd3 by (by rewrite <- drop_drop, Hd).
  unfold percent. rewrite (at_Some (i + 1) "d"%char) by (by rewrite (lookup_at i _ 1 Hd)).
  change (Ascii.eqb "d" "d") with true. cbv iota zeta.
  rewrite (lookup_at i _ 2 Hd). cbn [lookup list_lookup]. change (Ascii.eqb "{" "{") with true.
  rewrite (find_close_spec fl (i + 3) rest) by (done || lia).
  rewrite <- Nat.add_assoc, (Nat.add_comm 3), Nat.add_assoc.
  assert (p !! (i + length fl + 3) = Some "}"%char) as Hbr.
  { replace (i + length fl + 3) with (i + 3 + length fl) by lia. rewrite (lookup_at (i + 3) _ _ Hd3).
    by rewrite lookup_app_r, Nat.sub_diag by lia. }
  rewrite Hbr. change (Ascii.eqb "}" "}") with true.
  destruct (Nat.eqb_spec (i + length fl + 3) (i + 3)); [lia|]. cbn [andb negb].
  rewrite Hd3. replace (i + length fl + 3 - i - 3) with (length fl) by lia.
  rewrite take_app_length. unfold fl at 1. rewrite string_of_list_ascii_of_string.
  cbn [length]. rewrite length_app. cbn [length]. do 2 f_equal. lia.
Qed.

Lemma literal_spec (s : list ascii) : forall i c rest fuel,
  drop i p = c :: s ++ "%"%char :: rest -> forallb (fun d => negb (Ascii.eqb d "%")) s = true -> length s < fuel ->
  literal p fuel i = Ok (s, i + length s).
Proof.
  induction s as [|d s IH]; intros i c rest [|fuel] Hd Hs Hf; try (simpl in Hf; lia); cbn [literal].
  - rewrite (at_Some (i + 1) "%"%char) by (by rewrite (lookup_at i _ 1 Hd)).
    change (Ascii.eqb "%" "%") with true. simpl. by rewrite Nat.add_0_r.
  - rewrite (at_Some (i + 1) d) by (by rewrite (lookup_at i _ 1 Hd)).
    simpl in Hs. apply andb_true_iff in Hs as [Hc Hs]. apply negb_true_iff in Hc. rewrite Hc.
    rewrite (IH (i + 1) d rest fuel); [|by rewrite <- drop_drop, Hd|done|simpl in Hf; lia].
    simpl. do 2 f_equal. lia.
Qed.

(** A literal at the end of the pattern: the loop reads past the terminating
    zero. *)
Lemma literal_end (s : list ascii) : forall i c fuel,
  drop i p = c :: s -> forallb (fun d => negb (Ascii.eqb d "%")) s = true -> 1 + length s < fuel ->
  literal p fuel i = UB.
Proof.
  induction s as [|d s IH]; intros i c [|fuel] Hd Hs Hf; try (simpl in Hf; lia); cbn [literal].
  - assert (length p = i + 1) as Hlen.
    { apply (f_equal length) in Hd as Hl. rewrite length_drop in Hl. simpl in Hl. lia. }
    unfold at_ at 1. rewrite lookup_ge_None_2 by lia. rewrite Hlen, Nat.eqb_refl.
    change (Ascii.eqb zero "%") with false. cbv iota. unfold at_ at 1.
    rewrite lookup_ge_None_2, Hlen, Nat.eqb_refl by lia.
    destruct fuel as [|fuel]; [simpl in Hf; lia|]. cbn [literal]. unfold at_ at 1.
    rewrite lookup_ge_None_2 by lia. by destruct (Nat.eqb_spec (i + 1 + 1) (length p)); [lia|].
  - rewrite (at_Some (i + 1) d) by (by rewrite (lookup_at i _ 1 Hd)).
    simpl in Hs. apply andb_true_iff in Hs as [Hc Hs]. apply negb_true_iff in Hc. rewrite Hc.
    rewrite (IH (i + 1) d fuel); [done|by rewrite <- drop_drop, Hd|done|simpl in Hf; lia].
Qed.

(** An item that is not a literal is one round of the [%] branch. *)
Lemma percent_item i x l rest : drop i p = item_text x ++ rest -> is_literal x = false -> items_ok (x :: l) = true ->
  p !! i = Some "%"%char /\ 0 < length (item_text x) /\ percent p i = Ok ([x], i + length (item_text x)).
Proof.
  intros Hd Hx Hok. destruct x; try done; simpl in Hok.
  7:{ apply andb_true_iff in Hok as [Hok _]. pose proof (lookup_at i _ 0 Hd) as Hl. rewrite Nat.add_0_r in Hl.
      split; [by rewrite Hl|]. split; [cbn; lia|]. by apply (percent_date i m_format rest). }
  all: pose proof (lookup_at i _ 0 Hd) as Hl; rewrite Nat.add_0_r in Hl; split; [by rewrite Hl|].
  all: split; [cbn; lia|]; eapply percent_directive; [exact Hd|reflexivity|reflexivity].
Qed.

(** What may follow the items: nothing, or a literal. *)
Definition tail_ok (tail : list ascii) : bool := forallb (fun d => negb (Ascii.eqb d "%")) tail.

Lemma next_percent y l tail : items_ok (y :: l) = true -> is_literal y = false ->
  exists rest, pattern_of (y :: l) ++ tail = "%"%char :: rest.
Proof. intros Hok Hy. destruct y; try done; by eexists. Qed.

Lemma init_loop_spec l : forall i tail fuel,
  items_ok l = true -> tail_ok tail = true -> drop i p = pattern_of l ++ tail -> length (drop i p) <= fuel ->
  init_loop p fuel i = match tail with [] => Ok l | _ => UB end.
Proof.
  induction l as [|x l IH]; intros i tail fuel Hok Htail Hd Hfuel.
  - destruct tail as [|c tail].
    + cbn in Hd. assert (p !! i = None) as Hn.
      { apply lookup_ge_None. apply (f_equal length) in Hd. rewrite length_drop in Hd. simpl in Hd. lia. }
      destruct fuel; cbn; by rewrite Hn.
    + cbn in Hd. pose proof (lookup_at i _ 0 Hd) as Hl. rewrite Nat.add_0_r in Hl. cbn in Hl.
      destruct fuel as [|fuel]; [rewrite Hd in Hfuel; simpl in Hfuel; lia|]. cbn [init_loop]. rewrite Hl.
      simpl in Htail. apply andb_true_iff in Htail as [Hc Htail]. apply negb_true_iff in Hc. rewrite Hc.
      rewrite (literal_end tail i c); [done|done|done|].
      apply (f_equal length) in Hd. rewrite length_drop in Hd. simpl in Hd. lia.
  - assert (drop i p = item_text x ++ (pattern_of l ++ tail)) as Hd'
      by (rewrite Hd; unfold pattern_of; simpl; by rewrite <- app_assoc).
    pose proof (drop_tail i p (item_text x) _ Hd') as Hnext.
    assert (items_ok l = true) as Hokl by (apply andb_true_iff in Hok; apply Hok).
    destruct (is_literal x) eqn:Hx.
    + destruct x as [| | | | | | | | | | |s|]; try done. simpl in Hok. apply andb_true_iff in Hok as [Hs _].
      apply andb_true_iff in Hs as [Hs Hfol]. destruct l as [|y l]; [done|]. apply negb_true_iff in Hfol.
      destruct (next_percent y l tail Hokl Hfol) as [rest Hrest].
      cbn [item_text] in Hd', Hnext. unfold clean in Hs.
      destruct (list_ascii_of_string s) as [|c sl] eqn:Hsl; [done|]. simpl in Hs.
      apply andb_true_iff in Hs as [Hc Hs]. apply negb_true_iff in Hc.
      pose proof (lookup_at i _ 0 Hd') as Hl. rewrite Nat.add_0_r in Hl. cbn in Hl.
      rewrite Hd' in Hfuel. cbn [app length] in Hfuel. rewrite length_app in Hfuel.
      destruct fuel as [|fuel]; [lia|]. cbn [init_loop]. rewrite Hl, Hc.
      rewrite Hrest in Hd'. cbn [app] in Hd'.
      rewrite (literal_spec sl i c rest); [|done|done|].
      2:{ apply (f_equal length) in Hd'. rewrite length_drop in Hd'. simpl in Hd'. rewrite length_app in Hd'. lia. }
      cbn [length] in Hnext. replace (i + length sl + 1) with (i + S (length sl)) by lia.
      rewrite (IH _ tail fuel Hokl Htail Hnext) by (rewrite Hnext; lia).
      rewrite <- Hsl, string_of_list_ascii_of_string. by destruct tail.
    + destruct (percent_item i x l _ Hd' Hx Hok) as (Hl & Hpos & Hper).
      rewrite Hd', length_app in Hfuel.
      destruct fuel as [|fuel]; [lia|]. cbn [init_loop]. rewrite Hl. change (Ascii.eqb "%" "%") with true. cbv iota.
      rewrite Hper, (IH _ tail fuel Hokl Htail Hnext) by (rewrite Hnext; lia). by destruct tail.
Qed.
End parser.

(** C22: (roundtrip) the pattern parser reads back every list of items written with
    the directives of its documentation, literals being nonempty, without a
    percent sign and followed by a directive; a pattern that ends with literal
    text is undefined, because the loop over the literal reads past the end of the
    pattern. *)
Theorem pattern_roundtrip l tail : items_ok l = true -> tail_ok tail = true ->
  init (pattern_of l ++ tail) = match tail with [] => Ok l | _ => UB end.
Proof. intros Hok Htail. apply init_loop_spec; [done..|]. by rewrite drop_0. Qed.

Definition some_items : list FormatItem :=
  [DateTimeFormatItem "%H:%M"; StringFormatItem " ["; LevelFormatItem; StringFormatItem "] "; MessageFormatItem; NewLineFormatItem].

Lemma pattern_roundtrip_witness :
  init (pattern_of some_items) = Ok some_items /\ init (pattern_of some_items ++ ["."%char]) = UB.
Proof.
  split.
  - rewrite <- (app_nil_r (pattern_of some_items)). exact (pattern_roundtrip some_items [] eq_refl eq_refl).
  - exact (pattern_roundtrip some_items ["."%char] eq_refl eq_refl).
Defined.

(** The directive of a percent sign gives nothing. *)
Lemma percent_sign_dropped : LogFormatter_ctor "%%%n" = Ok [NewLineFormatItem].
Proof. reflexivity. Qed.

(** ** Where a logger writes *)

(** The macro of formatted logging lets through what the stream macro stops. *)
Lemma fmt_macro_inverted strftime here p level text s l : loggers s !! p = Some l -> level_num level <> level_num (l_level l) ->
  passes level (l_level l) = negb (passes (l_level l) level) /\
  (passes level (l_level l) = true -> CCZOE_LOG_FMT_LEVEL strftime here p level text s = (Ok tt, s)).
Proof.
  intros Hl Hne. unfold passes. split.
  - destruct (Z.leb_spec (level_num (l_level l)) (level_num level)), (Z.leb_spec (level_num level) (level_num (l_level l)));
      simpl; lia || done.
  - intros Hle. unfold CCZOE_LOG_FMT_LEVEL, logger_at. unfold bind. rewrite Hl. unfold passes.
    destruct (Z.leb_spec (level_num level) (level_num (l_level l))); [apply Z.leb_le in Hle; lia|done].
Qed.

(** ** The loggers of a program

    An abstract log is a list of writes, each to the standard output or to a
    file. *)
Section loggers.
Context (strftime : string -> Z -> string).
Implicit Types s : Logs.

Definition appender_ok (a : LogAppender) : Prop := a_hasFormatter a = true -> is_Some (a_formatter a).

Definition logger_ok (root n : nat) (l : Logger) : Prop :=
  Forall (fun a => a < n) (l_appenders l) /\ (l_root l = None \/ l_root l = Some root).

(** Pointers lead to objects, a name to a logger of this name; the root has no root of
    its own. *)
Record logs_ok s : Prop := {
  ok_loggers : Forall (logger_ok (m_root s) (length (appenders s))) (loggers s);
  ok_root : exists l, loggers s !! m_root s = Some l /\ l_root l = None;
  ok_names : forall name p, m_loggers s !! name = Some p -> exists l, loggers s !! p = Some l /\ l_name l = name;
  ok_appenders : Forall appender_ok (appenders s)
}.

Definition line_of s (items : list FormatItem) (e : LogEvent) : string :=
  match format strftime (fun p => match loggers s !! p with Some l => l_name l | None => EmptyString end) items e with
  | Ok t => t | _ => EmptyString end.

(** What an appender of a logger writes. *)
Definition writes_of s (l : Logger) (level : Level) (e : LogEvent) (a : LogAppender) : list (appender_kind * string) :=
  match a_hasFormatter a, a_formatter a, l_formatter l, a_kind a with
  | true, Some f, _, k => if passes level (a_level a) then [(k, line_of s f e)] else []
  | false, _, Some f, StdoutLogAppender => [(StdoutLogAppender, line_of s f e)]
  | _, _, _, _ => []
  end.

Definition writes_all s (l : Logger) (level : Level) (e : LogEvent) : list (appender_kind * string) :=
  concat (map (fun p => match appenders s !! p with Some a => writes_of s l level e a | None => [] end) (l_appenders l)).

(** The logger whose appenders get an event that is given to [l]: a logger without
    appenders leaves it to the root. *)
Definition delivered s (l : Logger) (level : Level) (e : LogEvent) : list (appender_kind * string) :=
  if passes level (l_level l) then
    match l_appenders l, l_root l with
    | [], Some r => match loggers s !! r with
                    | Some l => if passes level (l_level l) then writes_all s l level e else []
                    | None => [] end
    | [], None => []
    | _, _ => writes_all s l level e
    end
  else [].

Definition same_target (k k' : appender_kind) : bool :=
  match k, k' with
  | StdoutLogAppender, StdoutLogAppender => true
  | FileLogAppender f, FileLogAppender g => String.eqb f g
  | _, _ => false
  end.

(** The text that the writes add to a target. *)
Definition text_to (k : appender_kind) (ws : list (appender_kind * string)) : string :=
  foldr (fun w t => if same_target k (fst w) then (snd w ++ t)%string else t) EmptyString ws.

Definition file_text s (f : string) : string := default EmptyString (files s !! f).

(** [s'] is [s] after these writes. *)
Record wrote (ws : list (appender_kind * string)) s s' : Prop := {
  wrote_out : out s' = (out s ++ text_to StdoutLogAppender ws)%string;
  wrote_files f : file_text s' f = (file_text s f ++ text_to (FileLogAppender f) ws)%string;
  wrote_loggers : loggers s' = loggers s;
  wrote_appenders : appenders s' = appenders s;
  wrote_names : m_loggers s' = m_loggers s;
  wrote_root : m_root s' = m_root s
}.

Lemma text_to_app k ws ws' : text_to k (ws ++ ws') = (text_to k ws ++ text_to k ws')%string.
Proof.
  unfold text_to in *. induction ws as [|w ws IH]; [done|]. cbn [app foldr]. rewrite IH. destruct (same_target k (fst w)); [|done]. by rewrite append_assoc3.
Qed.

Lemma wrote_nil s : wrote [] s s.
Proof. split; intros; cbn; rewrite ?append_nil; done. Qed.

Lemma wrote_app ws ws' s1 s2 s3 : wrote ws s1 s2 -> wrote ws' s2 s3 -> wrote (ws ++ ws') s1 s3.
Proof.
  intros [H1 H2 H3 H4 H5 H6] [G1 G2 G3 G4 G5 G6]. split; intros; rewrite ?text_to_app; try congruence.
  - by rewrite G1, H1, append_assoc3.
  - by rewrite G2, H2, append_assoc3.
Qed.

Lemma logs_ok_wrote ws s s' : logs_ok s -> wrote ws s s' -> logs_ok s'.
Proof. intros [H1 H2 H3 H4] [_ _ El Ea En Er]. split; by rewrite ?El, ?Ea, ?En, ?Er. Qed.

Lemma write_out_wrote a t s : exists s', write_out a t s = (Ok tt, s') /\ wrote [(a_kind a, t)] s s'.
Proof.
  unfold write_out. destruct (a_kind a) as [|f]; eexists; (split; [reflexivity|]).
  - split; try done; intros; cbn; by rewrite append_nil.
  - split; try done; intros; cbn; [by rewrite append_nil|]. unfold file_text. cbn. destruct (String.eqb_spec f0 f) as [->|Hne].
    + by rewrite lookup_insert_eq, append_nil.
    + by rewrite lookup_insert_ne, append_nil.
Qed.

Lemma render_Ok items e s : is_Some (m_file e) -> render strftime items e s = (Ok (line_of s items e), s).
Proof.
  intros [f Hf]. unfold render, line_of. enough (exists t, format strftime
    (fun p => match loggers s !! p with Some l => l_name l | None => EmptyString end) items e = Ok t) as (t & ->) by done.
  induction items as [|x items (t & IH)]; [by eexists|]. cbn [format]. rewrite IH.
  destruct x; cbn [item_format]; rewrite ?Hf; by eexists.
Qed.

Lemma appender_log_spec s a l level e : appender_ok a -> is_Some (m_file e) ->
  exists s', appender_log strftime a l level e s = (Ok tt, s') /\ wrote (writes_of s l level e a) s s'.
Proof.
  intros Ha He. unfold appender_log, writes_of. destruct (a_hasFormatter a) eqn:Hh; cbn [andb negb].
  - destruct (Ha Hh) as [f ->]. destruct (passes level (a_level a)); [|exists s; split; [done|apply wrote_nil]].
    rewrite (bind_Ok _ _ _ _ _ (render_Ok f e s He)). apply write_out_wrote.
  - destruct (a_kind a) eqn:Hk, (l_formatter l) as [f|]; try (exists s; split; [done|apply wrote_nil]).
    rewrite (bind_Ok _ _ _ _ _ (render_Ok f e s He)). rewrite <- Hk. apply write_out_wrote.
Qed.

Lemma writes_of_wrote ws s s' l level e a : wrote ws s s' -> writes_of s' l level e a = writes_of s l level e a.
Proof. intros [_ _ El _ _ _]. unfold writes_of, line_of. by rewrite El. Qed.

Lemma log_all_spec ps l level e : is_Some (m_file e) -> forall s, Forall appender_ok (appenders s) ->
  Forall (fun p => p < length (appenders s)) ps ->
  exists s', log_all strftime ps l level e s = (Ok tt, s') /\
    wrote (concat (map (fun p => match appenders s !! p with Some a => writes_of s l level e a | None => [] end) ps)) s s'.
Proof.
  intros He. induction ps as [|p ps IH]; intros s Ha Hps; [exists s; split; [done|apply wrote_nil]|].
  inversion_clear Hps as [|? ? Hp Hps']. cbn [log_all map List.concat]. destruct (lookup_lt_is_Some_2 _ _ Hp) as [a Hl].
  assert (appender_at p s = (Ok a, s)) as Hat by (unfold appender_at; by rewrite Hl). rewrite (bind_Ok _ _ _ _ _ Hat), Hl.
  destruct (appender_log_spec s a l level e) as (s1 & Hrun & Hw); [by eapply (Forall_lookup_1 appender_ok)|done|].
  rewrite (bind_Ok _ _ _ _ _ Hrun). pose proof (wrote_appenders _ _ _ Hw) as Ea.
  destruct (IH s1) as (s' & Hrun' & Hw'); [by rewrite Ea..|]. exists s'. split; [done|]. eapply wrote_app; [exact Hw|].
  rewrite Ea in Hw'. erewrite map_ext; [exact Hw'|]. intros q. cbv beta. destruct (appenders s !! q); [|done]. symmetry. by eapply writes_of_wrote.
Qed.

Lemma ok_logger s p l : logs_ok s -> loggers s !! p = Some l -> logger_ok (m_root s) (length (appenders s)) l.
Proof. intros [Hf _ _ _] Hl. by eapply Forall_lookup_1 in Hf. Qed.

(** Logging never fails, and writes what is to be delivered. *)
Lemma Logger_log_spec s p l level e : logs_ok s -> loggers s !! p = Some l -> is_Some (m_file e) ->
  exists s', Logger_log strftime 2 p level e s = (Ok tt, s') /\ wrote (delivered s l level e) s s'.
Proof.
  intros Hok Hl He. pose proof Hok as [_ (r & Hr & Hrr) _ Ha]. pose proof (ok_logger s p l Hok Hl) as [Hps Hroot].
  assert (logger_at p s = (Ok l, s)) as Hat by (unfold logger_at; by rewrite Hl).
  cbn [Logger_log]. rewrite (bind_Ok _ _ _ _ _ Hat). unfold delivered.
  destruct (passes level (l_level l)); [|exists s; split; [done|apply wrote_nil]].
  destruct (l_appenders l) as [|a ps] eqn:Hpl; [|unfold writes_all; rewrite <- Hpl in *; by apply log_all_spec].
  destruct Hroot as [-> | ->]; [exists s; split; [done|apply wrote_nil]|].
  assert (logger_at (m_root s) s = (Ok r, s)) as Hat' by (unfold logger_at; by rewrite Hr).
  rewrite (bind_Ok _ _ _ _ _ Hat'), Hr, Hrr. destruct (passes level (l_level r)); [|exists s; split; [done|apply wrote_nil]].
  pose proof (ok_logger s _ r Hok Hr) as [Hpr _]. unfold writes_all.
  destruct (l_appenders r) as [|a ps]; [exists s; split; [done|apply wrote_nil]|by apply log_all_spec].
Qed.

(** What a program does with the module.  A step of [log] may be made by any of
    the macros and wrappers. *)
Inductive log_step : Logs -> Logs -> Prop :=
  | step_getLogger name p s s' : getLogger name s = (Ok p, s') -> log_step s s'
  | step_new_appender a s : appender_ok a ->
      log_step s (mkLogs (loggers s) (appenders s ++ [a]) (m_loggers s) (m_root s) (out s) (files s))
  | step_setFormatter i a f s : appenders s !! i = Some a ->
      log_step s (mkLogs (loggers s) (<[i := setFormatter f a]> (appenders s)) (m_loggers s) (m_root s) (out s) (files s))
  | step_appender_setLevel i a level s : appenders s !! i = Some a ->
      log_step s (mkLogs (loggers s) (<[i := setLevel level a]> (appenders s)) (m_loggers s) (m_root s) (out s) (files s))
  | step_setLevel p l level s s' : loggers s !! p = Some l -> set_logger p (set_l_level level l) s = (Ok tt, s') -> log_step s s'
  | step_addAppender p a s s' : a < length (appenders s) -> addAppender p a s = (Ok tt, s') -> log_step s s'
  | step_delAppender p a s s' : delAppender p a s = (Ok tt, s') -> log_step s s'
  | step_clearAppender p s s' : clearAppender p s = (Ok tt, s') -> log_step s s'
  | step_log p level e s s' : p < length (loggers s) -> is_Some (m_file e) ->
      Logger_log strftime 2 p level e s = (Ok tt, s') -> log_step s s'.

(** Changing a logger but for its name and its root. *)
Lemma logs_ok_set s p l l' : logs_ok s -> loggers s !! p = Some l -> l_root l' = l_root l -> l_name l' = l_name l ->
  Forall (fun a => a < length (appenders s)) (l_appenders l') -> logs_ok (set_loggers (<[p := l']> (loggers s)) s).
Proof.
  intros Hok Hl Hr Hn Ha. pose proof (ok_logger s p l Hok Hl) as [_ Hroot]. destruct Hok as [H1 (r & H2 & H2') H3 H4].
  split; cbn; [| | |done].
  - apply Forall_insert; [done|]. split; [done|]. by rewrite Hr.
  - destruct (decide (p = m_root s)) as [->|Hne].
    + exists l'. rewrite list_lookup_insert_eq by (by eapply lookup_lt_Some). split; [done|]. congruence.
    + exists r. by rewrite list_lookup_insert_ne.
  - intros name q Hq. destruct (H3 name q Hq) as (lq & Hlq & Hname). destruct (decide (p = q)) as [<-|Hne].
    + exists l'. rewrite list_lookup_insert_eq by (by eapply lookup_lt_Some). split; [done|]. congruence.
    + exists lq. by rewrite list_lookup_insert_ne.
Qed.

Lemma logger_at_Ok {A} p (k : Logger -> comp Logs A) s r s' : (let! l := logger_at p in k l) s = (Ok r, s') ->
  exists l, loggers s !! p = Some l /\ k l s = (Ok r, s').
Proof. unfold bind, logger_at. destruct (loggers s !! p) as [l|]; [by exists l|done]. Qed.

Lemma remove_first_subset a x l : x ∈ remove_first a l -> x ∈ l.
Proof.
  induction l as [|b l IH]; [done|]. cbn. destruct (a =? b); [by right|].
  intros [->|Hx]%elem_of_cons; [by left|right; by apply IH].
Qed.

Lemma getLogger_spec name s : logs_ok s -> exists p s', getLogger name s = (Ok p, s') /\ logs_ok s' /\
  m_loggers s' !! name = Some p /\ m_loggers s ⊆ m_loggers s'.
Proof.
  intros Hok. pose proof Hok as [H1 (r & H2 & H2') H3 H4]. unfold getLogger. rewrite bind_get.
  destruct (m_loggers s !! name) as [p|] eqn:Hn; [by exists p, s|].
  destruct (Logger_ctor name) as [l| | | | |] eqn:Hc; try (vm_compute in Hc; discriminate).
  assert (l_appenders l = [] /\ l_root l = None /\ l_name l = name) as (Hla & Hlr & Hln) by (vm_compute in Hc; by injection Hc as <-).
  rewrite bind_fail_Ok. unfold getRoot. rewrite !bind_get, !bind_modify.
  exists (length (loggers s)). eexists. split; [reflexivity|]. split; [|split; [by apply lookup_insert_eq|by apply insert_subseteq]].
  split; cbn; [| | |done].
  - apply Forall_app. split; [done|]. apply List.Forall_cons; [|done]. split; cbn; [by rewrite Hla|by right].
  - exists r. split; [|done]. by apply lookup_app_l_Some.
  - intros name' p'. destruct (decide (name = name')) as [->|Hne].
    + rewrite lookup_insert_eq. intros [= <-]. eexists. split; [by apply list_lookup_middle|done].
    + rewrite lookup_insert_ne by done. intros (l' & Hl' & Hname)%H3. exists l'. split; [by apply lookup_app_l_Some|done].
Qed.

(** A name keeps its logger. *)
Lemma getLogger_named name p s : m_loggers s !! name = Some p -> getLogger name s = (Ok p, s).
Proof. intros Hp. unfold getLogger. by rewrite bind_get, Hp. Qed.

Lemma logs_ok_step s s' : logs_ok s -> log_step s s' -> logs_ok s'.
Proof.
  intros Hok Hstep. destruct Hstep as [name p s s' Hrun|a s Ha|i a f s Hi|i a level s Hi|p l level s s' Hl Hrun|p a s s' Ha Hrun|p a s s' Hrun|p s s' Hrun|p level e s s' Hp He Hrun].
  - destruct (getLogger_spec name s Hok) as (p' & s1 & Hrun' & Hok' & _). rewrite Hrun in Hrun'. by injection Hrun' as -> ->.
  - destruct Hok as [H1 H2 H3 H4]. split; cbn; [|done|done|by apply Forall_app; auto].
    eapply Forall_impl; [exact H1|]. intros l [Hps Hr]. split; [|done]. eapply Forall_impl; [exact Hps|]. intros q Hq. cbv beta in *. rewrite length_app. cbn [length]. lia.
  - destruct Hok as [H1 H2 H3 H4]. split; cbn; [by rewrite length_insert|done|done|]. apply Forall_insert; [done|].
    unfold appender_ok. cbn. by intros Hf%bool_decide_eq_true.
  - destruct Hok as [H1 H2 H3 H4]. split; cbn; [by rewrite length_insert|done|done|]. apply Forall_insert; [done|].
    exact (Forall_lookup_1 _ _ _ _ H4 Hi).
  - injection Hrun as <-. by eapply logs_ok_set; [| | | |apply (ok_logger s p l)].
  - apply logger_at_Ok in Hrun as (l & Hl & Hrun). injection Hrun as <-. eapply logs_ok_set; [done..|]. cbn. apply Forall_app. split; [by apply (ok_logger s p l)|by constructor].
  - apply logger_at_Ok in Hrun as (l & Hl & Hrun). injection Hrun as <-. eapply logs_ok_set; [done..|]. cbn. apply List.Forall_forall. intros x Hx%list_elem_of_In%remove_first_subset.
    destruct (ok_logger s p l Hok Hl) as [Hps _]. rewrite List.Forall_forall in Hps. by apply Hps, list_elem_of_In.
  - apply logger_at_Ok in Hrun as (l & Hl & Hrun). injection Hrun as <-. by eapply logs_ok_set; [done..|constructor].
  - destruct (lookup_lt_is_Some_2 _ _ Hp) as [l Hl]. destruct (Logger_log_spec s p l level e Hok Hl He) as (s1 & Hrun' & Hw).
    rewrite Hrun in Hrun'. injection Hrun' as ->. by eapply logs_ok_wrote.
Qed.

Lemma init_logs_ok s : LoggerManager_ctor = Ok s -> logs_ok s.
Proof.
  unfold LoggerManager_ctor. destruct (Logger_ctor "root") as [l| | | | |] eqn:Hc; try done. intros [= <-].
  assert (l_root l = None) as Hr by (vm_compute in Hc; by injection Hc as <-). split; cbn.
  - apply List.Forall_cons; [|done]. split; [|by left]. apply List.Forall_cons; [cbn; lia|done].
  - by eexists.
  - intros name p Hp. apply lookup_singleton_Some in Hp as [<- <-]. eexists. split; [done|]. vm_compute in Hc. by injection Hc as <-.
  - repeat constructor; done.
Qed.

(** No step takes a name away or gives it to another logger. *)
Lemma step_keeps_names s s' : logs_ok s -> log_step s s' -> m_loggers s ⊆ m_loggers s'.
Proof.
  intros Hok Hstep. destruct Hstep as [name p s s' Hrun|a s Ha|i a f s Hi|i a level s Hi|p l level s s' Hl Hrun|p a s s' Ha Hrun|p a s s' Hrun|p s s' Hrun|p level e s s' Hp He Hrun];
    try done; try (by apply logger_at_Ok in Hrun as (l & Hl & [= <-])).
  - destruct (getLogger_spec name s Hok) as (p' & s1 & Hrun' & _ & _ & Hsub). rewrite Hrun in Hrun'. by injection Hrun' as -> ->.
  - by injection Hrun as <-.
  - destruct (lookup_lt_is_Some_2 _ _ Hp) as [l Hl]. destruct (Logger_log_spec s p l level e Hok Hl He) as (s1 & Hrun' & Hw).
    rewrite Hrun in Hrun'. injection Hrun' as ->. by rewrite (wrote_names _ _ _ Hw).
Qed.

Lemma steps_keep s s' : logs_ok s -> rtc log_step s s' -> logs_ok s' /\ m_loggers s ⊆ m_loggers s'.
Proof.
  intros Hok Hreach. induction Hreach as [s|s1 s2 s3 Hstep _ IH]; [done|]. destruct IH as [Hok3 Hsub]; [by eapply logs_ok_step|].
  split; [done|]. etrans; [by apply step_keeps_names|exact Hsub].
Qed.

End loggers.

(** A logger of its own name, given an appender to a file with a formatter. *)
Definition a_program : Logs := Eval vm_compute in
  match LoggerManager_ctor with
  | Ok s => let s := snd (getLogger "net" s) in
            let s := mkLogs (loggers s) (appenders s ++ [setFormatter (Some [MessageFormatItem; NewLineFormatItem]) (FileLogAppender_ctor "a.txt")])
                       (m_loggers s) (m_root s) (out s) (files s) in
            snd (addAppender 1 1 s)
  | _ => mkLogs [] [] ∅ 0 EmptyString ∅
  end.

Definition an_event : LogEvent := event_stream "hi" (LogEvent_ctor "main" (Some "a.cpp"%string) 1 0 1 0 0 1 INFO).

