(* ===== verification/LogFile.v ===== *)
(** * LogFile: the stream of a [FileLogAppender]

    Models [FileLogAppender] of [cczoecpp/Log/LogAppender.cpp] with its member
    [m_filestream], a [std::ofstream]: the file it is associated with and its error
    state.  [Log.v] describes an appender by what it writes; here is why the file
    gets it, and when it does not. *)

From stdpp Require Import base list gmap strings.
From S2P Require Import Prelude Log.

Local Open Scope string_scope.

(** A [std::ofstream]: the file its buffer is open on, and [fail()]. *)
Record ofstream : Type := mkOfstream { is_open : option string; failed : bool }.

Definition ofstream_default : ofstream := mkOfstream None false.

Record FileAppender : Type := mkFileAppender {
  f_appender : LogAppender;
  m_filename : string;
  m_filestream : ofstream;
  contents : gmap string string      (* the file system *)
}.

Definition set_m_filestream (v : ofstream) (s : FileAppender) : FileAppender :=
  mkFileAppender (f_appender s) (m_filename s) v (contents s).
Definition set_contents (v : gmap string string) (s : FileAppender) : FileAppender :=
  mkFileAppender (f_appender s) (m_filename s) (m_filestream s) v.

Section LogFile.
(** Whether [open] for appending succeeds, and whether the file takes a text. *)
Context (openable : string -> bool) (has_room : string -> bool).

(** [close]: on a buffer that is not open it sets [failbit]. *)
Definition ofstream_close : comp FileAppender unit :=
  modify (fun s => set_m_filestream (mkOfstream None
    (match is_open (m_filestream s) with Some _ => failed (m_filestream s) | None => true end)) s).

(** [open(name, std::ios::app)]: [clear] on success, [setstate(failbit)] otherwise;
    an open buffer is not opened again. *)
Definition ofstream_open (name : string) : comp FileAppender unit :=
  modify (fun s => set_m_filestream (
    match is_open (m_filestream s) with
    | Some f => mkOfstream (Some f) true
    | None => if openable name then mkOfstream (Some name) false else mkOfstream None true
    end) s).

(** [m_filestream << text]: nothing on a stream in error; a buffer that is not open
    or does not take the text puts it in error. *)
Definition ofstream_put (text : string) : comp FileAppender unit :=
  modify (fun s =>
    let st := m_filestream s in
    if failed st then s else
    match is_open st with
    | Some f => if has_room text then set_contents (<[f := default EmptyString (contents s !! f) ++ text]> (contents s)) s
                else set_m_filestream (mkOfstream (Some f) true) s
    | None => set_m_filestream (mkOfstream None true) s
    end).

(** [reopen]: [if (m_filestream) close(); open(...); return !!m_filestream;]. *)
Definition reopen : comp FileAppender bool :=
  let! bad := get (fun s => failed (m_filestream s)) in
  do! (if negb bad then ofstream_close else ret tt) in
  let! name := get m_filename in
  do! ofstream_open name in
  get (fun s => negb (failed (m_filestream s))).

(** [FileLogAppender::FileLogAppender]: the result of [reopen] is dropped. *)
Definition FileAppender_ctor (filename : string) (fs : gmap string string) : outcome bool * FileAppender :=
  reopen (mkFileAppender (FileLogAppender_ctor filename) filename ofstream_default fs).

(** [FileLogAppender::log]; [text] is what [m_formatter->format(event)] gives. *)
Definition FileAppender_log (level : Level) (text : string) : comp FileAppender unit :=
  let! a := get f_appender in
  if a_hasFormatter a && passes level (a_level a) then
    match a_formatter a with
    | Some _ => ofstream_put text
    | None => fail UB
    end
  else ret tt.

(** A sequence of lines, with their levels. *)
Fixpoint log_lines (ls : list (Level * string)) : comp FileAppender unit :=
  match ls with
  | [] => ret tt
  | (l, t) :: ls => do! FileAppender_log l t in log_lines ls
  end.

(** ** What the file gets *)

(** The lines an appender lets through. *)
Definition let_through (a : LogAppender) (ls : list (Level * string)) : list string :=
  map snd (filter (fun x => passes x.1 (a_level a) = true) ls).

Definition appends (f : string) (ts : list string) (fs : gmap string string) : gmap string string :=
  fold_left (fun fs t => <[f := default EmptyString (fs !! f) ++ t]> fs) ts fs.

(** The constructor leaves a stream that is open and good, or in error. *)
Lemma FileAppender_ctor_opens filename fs :
  FileAppender_ctor filename fs =
  (Ok (openable filename),
   mkFileAppender (FileLogAppender_ctor filename) filename
     (if openable filename then mkOfstream (Some filename) false else mkOfstream None true) fs).
Proof. unfold FileAppender_ctor, reopen. cbn. by destruct (openable filename). Qed.

(** On a good stream every line that passes the level reaches the file, in order,
    which is what [Log.write_out] says of an appender. *)
Lemma log_lines_good ls s f g :
  is_open (m_filestream s) = Some f -> failed (m_filestream s) = false ->
  a_hasFormatter (f_appender s) = true -> a_formatter (f_appender s) = Some g ->
  (forall t, t ∈ map snd ls -> has_room t = true) ->
  log_lines ls s = (Ok tt, set_contents (appends f (let_through (f_appender s) ls) (contents s)) s).
Proof.
  intros Ho Hf Hh Hg. revert s Ho Hf Hh Hg. induction ls as [|[l t] ls IH]; intros s Ho Hf Hh Hg Hr.
  { by destruct s. }
  cbn [log_lines]. unfold FileAppender_log at 1, let_through. rewrite bind_assoc, bind_get, Hh, Hg, filter_cons. simpl.
  destruct (passes l (a_level (f_appender s))) eqn:Hp; simpl.
  - unfold ofstream_put. rewrite bind_modify. cbv zeta. rewrite Hf, Ho, Hr by left.
    rewrite IH; try done. intros t' Ht'. apply Hr. by right.
  - rewrite bind_ret_l. apply IH; try done. intros t' Ht'. apply Hr. by right.
Qed.

(** A stream in error drops every line, and the error stays. *)
Lemma log_lines_failed ls s g :
  failed (m_filestream s) = true -> a_formatter (f_appender s) = Some g -> log_lines ls s = (Ok tt, s).
Proof.
  intros Hf Hg. induction ls as [|[l t] ls IH]; [done|]. cbn [log_lines]. unfold FileAppender_log.
  rewrite bind_assoc, bind_get, Hg. case_match; [|done].
  unfold ofstream_put. by rewrite bind_modify, Hf.
Qed.

(** (error) How the stream of a file appender gets into an error and out of it.
    From a stream that is good, [reopen] closes and opens the file again; from one
    whose file could not be opened, it opens it as soon as that is possible; but after
    a text that the file did not take, it neither closes the file nor can open it a
    second time: it fails whatever the file system allows, and every later line is
    lost. *)
Theorem reopen_recovers (s : FileAppender) g ls :
  a_formatter (f_appender s) = Some g ->
  let st := m_filestream s in
  let '(o, s') := reopen s in
  contents s' = contents s /\ f_appender s' = f_appender s /\
  (failed st = false \/ is_open st = None ->
     o = Ok (openable (m_filename s)) /\
     (openable (m_filename s) = true -> m_filestream s' = mkOfstream (Some (m_filename s)) false)) /\
  (failed st = true /\ is_Some (is_open st) -> o = Ok false /\ s' = s /\ log_lines ls s' = (Ok tt, s)).
Proof.
  intros Hg. destruct s as [a name [[f|] []] fs]; unfold reopen; cbn; destruct (openable name) eqn:Ho; cbn;
    split_and!; try done; intros Hx; try (destruct Hx as [? [? ?]]; done); try (by destruct Hx);
    split_and!; try done; by apply (log_lines_failed ls _ g).
Qed.
End LogFile.

(** A full disk: the second line is lost with the third, and [reopen] fails. *)
Definition appender1 : FileAppender :=
  let '(_, s) := FileAppender_ctor (fun _ => true) "app.log" ∅ in
  mkFileAppender (setFormatter (Some []) (f_appender s)) (m_filename s) (m_filestream s) (contents s).

Definition small (t : string) : bool := (String.length t <? 4)%nat.

Lemma reopen_recovers_witness :
  let s := snd (log_lines small [(INFO, "one"); (INFO, "too long"); (INFO, "two")] appender1) in
  contents s !! "app.log" = Some "one" /\ fst (reopen (fun _ => true) s) = Ok false /\
  log_lines small [(INFO, "two")] (snd (reopen (fun _ => true) s)) = (Ok tt, s).
Proof.
  set (s := snd _).
  pose proof (reopen_recovers (fun _ => true) small s [] [(INFO, "two")] eq_refl) as H. cbv zeta in *.
  destruct (reopen (fun _ => true) s) as [o s'] eqn:Hr. destruct H as (_ & _ & _ & H).
  destruct H as (-> & -> & Hl). { split; [by vm_compute|]. exists "app.log". by vm_compute. }
  split; [by vm_compute|]. split; [done|exact Hl].
Defined.
